(* ===== verification/_CoqProject ===== *)
-Q . S2P
Prelude.v
ByteIO.v
Floats.v
Crypto.v
Identity.v
Toy.v
Packet.v
Payloads.v
Frames.v
Examples.v
Radio.v
Dispatcher.v
SimRadio.v
DutyRuns.v
Drain.v
Record.v
Persist.v
Syscalls.v
Contacts.v
ContactBook.v
Channels.v
Inbox.v
Disk.v
Sender.v
Node.v
NodeExamples.v
Conversation.v
EventLoop.v
CText.v
FloatFacts.v
Rounding.v
Ini.v
DaemonConfig.v
Settings.v
Log.v
Session.v
SessionFacts.v
DaemonFacts.v
SessionTrips.v
Decimals.v
Server.v
ServerFacts.v
App.v
AppFacts.v
Main.v
Restart.v
AppExamples.v
RestartExamples.v
Sx1262.v
Sx1262Facts.v
Sx1262Link.v
Sx1262Chip.v
DaemonRadio.v
Sx1262Regs.v
Hardware.v
Sx1262Bench.v
DaemonRadioBench.v
HostMetrics.v
Texts.v
