(* ===== verification/Prelude.v ===== *)
(** * coreletd: a verification library for a MeshCore companion node

    coreletd is a daemon that turns a Linux board with an SX1262 radio into a node
    of a MeshCore mesh and serves it to companion apps.  This library models it in
    Rocq, from the registers of the radio to the companion's socket and the start
    and stop of the process, and proves what makes it correct.  Paths below are under
    [src/src/].

    ** The program and its parts

    The radio driver ([radio/sx1262]) commands the chip over SPI and GPIO lines
    ([radio/spidev], [radio/gpio]), brings it up, supervises it and recovers it.  A
    frame it hears goes to the dispatcher
    ([mesh/dispatcher]), which decodes it ([proto/packet]), drops what it has seen
    within a minute and hands the rest to the node ([mesh/node]).  The node decodes
    the payload ([proto/payloads], [crypto/]), updates contacts ([mesh/contacts]),
    queues messages for the app ([mesh/inbox]), answers with acknowledgements and
    returned paths, and relays.  What the app sends goes through the reliable sender
    ([mesh/sender], [mesh/routing]) to the dispatcher's transmit queue, which paces
    it by the duty cycle ([radio/radio]).  Contacts, channels and messages live in
    text files ([mesh/record]) replaced durably ([util/persist]) when the state
    writer ([mesh/state_writer]) or the message queue says so.  Apps talk to the
    daemon in frames ([companion/frames]) over a local or TCP socket
    ([companion/server]); the session ([companion/session]) turns each command into
    calls of the node, the stores, the settings ([daemon/settings]) and the clock
    ([util/clock]), and what the node reports into pushes.  Everything runs in the
    callbacks of one poll loop ([daemon/eventloop]).  [daemon/app] reads the
    configuration ([daemon/config], [util/ini]) and the state directory, brings
    the parts up in order and takes them down; [main.cpp] is the process around it.

    ** Which file models what

    - [Prelude]: machine integers with their wrap-around, wrapped time differences,
      record update notation, automation and generic lemmas.
    - [ByteIO]: [util/bytes.h] and [util/hex.cpp]; the bounds-checked [Reader] as
      state passing.
    - [Floats]: binary32 and binary64 arithmetic on the standard library's
      [SpecFloat], for signal readings, airtime and the duty cycle.
    - [Crypto], [Identity]: [crypto/].  OpenSSL and libsodium are the class
      [CryptoLib]; what is relied on is [CryptoLaws] (digest sizes, decryption undoes
      encryption), [EdSizes] (the sizes of digests and points) and [EdLaws] (with the
      Ed25519 equations and the agreement of X25519 on clamped scalars).
    - [Toy]: an executable instance of those classes, used by witnesses alone.
    - [Packet], [Payloads]: [proto/].
    - [Frames]: the frame reader and the fixed replies of [companion/frames].
    - [Radio]: [radio/radio]; the class [Radio] with [RadioLaws] is what the
      dispatcher asks of a driver, that a reconfiguration takes the parameters given
      included.  [SimRadio] is one implementation of it.
    - [Dispatcher]: [mesh/dispatcher] over any [Radio].  [DutyRuns] and [Drain] follow
      whole runs of it: the duty cycle in real time, and the queue to its end.
    - [Record], [Persist]: [mesh/record.h] and [util/persist]; a file system of names
      and inodes in which each step of a save may fail.  [Syscalls] is the same save
      call by call, with descriptors, error numbers and the loops on [EINTR].
    - [Contacts], [Channels], [Inbox]: the three stores and their files, and the
      state writer.  [Disk] has what the three have in common: the class [Saved] with
      [SavedLaws] says what a store promises of its file, and [on_disk] that a store
      that is not marked dirty is what its file gives back.  [ContactBook] is the
      finite map the contact store promises to be.
    - [Sender]: [mesh/sender] and [mesh/routing.h].
    - [Node]: [mesh/node], every handler, in a small state monad.  [Conversation] puts
      two nodes together: a message, its answer and what the sender makes of it.
    - [EventLoop]: [daemon/eventloop] and [util/clock]; watches, timers and their
      registrations, [run] over any outcomes of [poll], [advance] on virtual time.
      The class [Client] states what callbacks may do to the loop, and the theorems
      hold of every client.
    - [CText], [FloatFacts]: [strtoll], [strtod] and the [printf] conversions the
      daemon uses, and when a double survives its text.  [Rounding]: the decimal texts
      of the settings and of positions against correct rounding, and their bounds.
    - [Ini], [DaemonConfig], [Settings]: [util/ini], [daemon/config] and
      [daemon/settings]: the table of settings, parsing, validation, the settings
      file and its changes.
    - [Log]: [util/log], levels, streams and lines, with the keys [util/ini] was asked
      for and what loading a configuration and the settings logs.  [Texts]: the names
      and descriptions of packets, radio and daemon, and what [main] prints.
    - [Session]: [companion/session], every command and push, in a state monad over
      the whole [Daemon] that collects the frames sent.  [SessionFacts] has what
      holds of all commands, [SessionTrips] and [Decimals] what an app sets and reads
      back, [DaemonFacts] the invariant of the assembled daemon under everything the
      loop calls.
    - [Server], [ServerFacts]: [companion/server] over any frame handler; the
      outcomes of socket calls are arguments.  [Trace] records, beside the members of
      the class, what went over the current connection.
    - [App], [AppFacts]: [daemon/app] and the configuration part of [main.cpp]:
      identity, recovery of damaged files, the assembly of the daemon, stopping.
      [Restart] follows the files through start, run, stop and start.  [Main] is the
      rest of [main.cpp]: options, exit status, signals.
    - [Sx1262]: [radio/sx1262], every method, callback and recovery step, in a state
      monad that collects what is delivered to the dispatcher, over the class [Board]
      of lines, SPI transfers and a clock.  [Sx1262Facts] has the driver's invariant
      and shows that it is a lawful [Radio]; [Sx1262Link] composes it with the
      dispatcher; [Sx1262Chip] has what holds when the chip answers ([Answering]) and
      when the clock moves ([Clocked]); [Sx1262Regs] what is written to registers.
    - [Hardware]: [radio/gpio] and [radio/spidev], a [Board] over the calls of
      libgpiod and spidev (class [Kernel]), each of which may fail, with the objects
      held.
    - [DaemonRadio]: [App::make_radio], and the daemon started on the driver.
    - [HostMetrics]: [daemon/host_metrics], the battery and the disk.
    - [Examples], [SimRadio], [NodeExamples], [AppExamples], [RestartExamples],
      [Sx1262Bench] (a simulated chip), [DaemonRadioBench]: the theorems at concrete
      inputs, and runs that show where code and comments part.

    ** How state and effects are modelled

    A class is a [Record] of its members, a method a function from the record to its
    result and the new record.  A pointer into a container is an index.  Instants and
    random bytes are arguments.  A timer is the instant it is due, or whether it is
    armed; the event that it fires is a step.  The callbacks a dispatcher call runs
    are returned as [Results] and applied to the sender's table right after the call:
    they only arm timers, so their order against the rest of the call does not
    matter.  [uint32_t] times wrap; comparisons of the source on wrapped differences
    are [tdiff].  Operations leave out the lines they log; [Log] and [Texts] have those
    that are the work of a function of their own, over formatted text.

    Reachable states are inductive relations: [Dispatcher.reach] (any sends,
    receptions, timers, radio activity), [Sender.m_reach] (with retries,
    acknowledgements and any change of contacts), [Node.n_reach] and [Node.n_run]
    (frames, timers and calls of the app), [Settings.settings_run] (a load and any
    changes), [DaemonFacts.s_reach] (commands, frames off the air, timers and
    saves, from a daemon [App.start] made), [Sx1262Facts.sx_reach] (calls,
    interrupts and timers of the driver) and [Sx1262Link.linked] (the dispatcher and
    the driver together).  [Disk.saving] is one system call of a save.  The server's runs are lists of
    [LinkEvent]s, the session's lists of [SEvent]s.

    ** What the theorems show

    - A message flooded to the node is delivered as sent and its sender can open the
      acknowledgement ([text_delivered]), once however often it is retried within five
      minutes, unless a full table evicted it ([retry_delivered_once]); when the answer comes back the send is complete and the
      route learnt, flooded or direct ([conversation_completes]); only a contact's own key changes the contact
      ([adverts_authenticated]), and the store of contacts refines a bounded finite map
      ([contacts_implement_book]); every reachable node is within its bounds
      ([node_invariant]); relaying follows the configuration and the packet's path
      ([relay_rules]).
    - From its start on, whatever the configuration, the state directory, the app,
      the radio and the timers do, the daemon is within its bounds, its settings are
      valid and its node runs with their name, position and repeat flag
      ([daemon_invariant]); starting never replaces the node's key
      ([node_key_never_replaced]) and takes a damaged store from its
      backup, or leaves it as it was ([damaged_store_recovers]); and a daemon that is
      stopped and started again is the same node with the same contacts, channels and
      messages, as long as every contact is one its file can hold
      ([restart_restores]).
    - On the SX1262 the daemon keeps its radio: no packet is lost or stuck between
      the dispatcher and the driver, and a radio that went down comes back when the
      chip answers ([daemon_keeps_its_radio], [link_never_stalls],
      [radio_recovers]).  Every transmission the driver accepts is reported once
      ([driver_reports_each_tx]) and goes out with the parameters in force
      ([transmits_with_current_params]); the driver never waits for nothing
      ([driver_never_stuck]), its waits end ([driver_waits_end]), it tunes to the
      nearest step ([frequency_word_exact]), and what it opened is closed
      ([shutdown_releases_everything]).
    - The process exits as it should and a signal stops the loop ([main_exits],
      [signal_stops_the_loop]).
    - Every command of an app is answered in its shape ([every_command_answered]); a
      refused one changes nothing ([refused_command_changes_nothing]); nothing
      unasked is sent before a session starts ([pushes_need_a_session]); messages are
      collected oldest first ([messages_collected_in_order]); contacts, channels,
      the time, the position and the radio parameters are read back as they were set,
      through decimal text and doubles, the radio parameters being those the radio
      runs with ([contact_add_get], [channel_set_get],
      [device_time_set_get], [position_set_exactly], [radio_params_set_exactly]).
    - The server is two exact streams of frames, however the kernel cuts them
      ([server_carries_streams], a refinement), serves commands in order
      ([commands_served_in_order]) and never takes another daemon's socket
      ([endpoint_never_stolen]).
    - Settings survive a restart (with a duty cycle of a tenth of a percent or more),
      stay in range and always fit an advert
      ([settings_survive_restart], [settings_always_advertisable]); no key of a
      configuration file is ignored in silence ([no_key_ignored_silently]), and one
      that is refused is explained ([refusal_explained]).
    - [advance] returns, every armed timer is called at exactly the instants it is due,
      and never once cancelled ([advance_terminates], [timers_fire_on_time],
      [cancelled_never_fires]); delays and intervals are below 2^31 ms there, half the
      range of the clock.
    - A send in progress is never stuck, makes four attempts at most on the
      8/16/32 second ladder, and any attempt's ack completes it
      ([pending_never_stuck], [attempts_all_accepted], [retry_ladder],
      [recipient_ack_completes]).
    - The dispatcher reports every packet exactly once, never stalls, never hands up
      an echo within a minute, stays bounded and sheds the least urgent
      ([tx_reported_exactly_once], [tx_never_stalls], [echoes_suppressed],
      [tx_queue_bounded], [queue_stays_in_order], [overflow_sheds_least_urgent]); with
      a free channel it empties its queue in a bounded number of steps
      ([queue_drains]).
    - The wire formats round-trip in both directions, relaying keeps a packet's
      identity, floods end ([packet_decode_encode], [packet_encode_decode],
      [relay_keeps_identity], [flood_hops_bounded], [envelopes_open],
      [text_decode_padded], [path_return_roundtrip],
      [advert_create_authentic], [framing_chunk_independent], [framing_delivers]).
    - Identities sign, verify and survive a restart ([sign_verifies],
      [identity_save_load], [generate_usable]).
    - State files are never torn and load as they were saved, by a sequence of system
      calls that ends however often it is interrupted and leaks no descriptor
      ([save_never_tears], [replace_implemented],
      [contacts_save_load], [channels_save_load], [stored_message_survives],
      [contacts_invariant], [flush_reports_truthfully]).
    - Airtime and the duty cycle are accounted exactly ([airtime_exact],
      [duty_ledger_exact], [duty_admits_within_budget]), and the duty cycle holds over
      every run of the dispatcher ([duty_cycle_respected]).

    Runs that differ from comments or from intent are theorems as well:
    [expired_packet_transmitted], [refused_packet_jumps_queue],
    [advert_poisons_contacts_file], [unsaved_message_acknowledged],
    [quarantine_keeps_the_second], [identity_raw_file_trimmed],
    [long_interval_spins], [damaged_file_lost], [refused_change_returns],
    [ready_fd_moves_virtual_time], [fresh_preamble_taken_for_stale],
    [signal_before_poll_waits].

    ** Fuel

    [Frames.next_fuel] and the drain over it take the buffer's length as fuel, and
    lemmas show that more changes nothing.  [Dispatcher.pump_fuel] follows the
    recursion of [pump] on an oversized packet; one unit per queued entry is enough,
    as each turn removes one.  [Inbox.evict] runs as long as the queue is over its
    limit, with the queue's length as fuel.  [Identity.generate] takes the list of
    seeds it may draw, as the source loops until a usable one appears.
    [EventLoop.advance_loop] takes one unit per pass; [advance_terminates] shows that
    the milliseconds asked for and two more are enough when no callback arms a timer
    at delay zero or of 2^31 ms and more.  [Server.dispatch_fuel] takes the bytes buffered and one more, as
    each frame takes some.  The loops over [read] and [write] follow the list of the
    results those calls return; a list that ends is a call that would block.
    [Sx1262.wait_busy_loop] and [Sx1262.standby_loop] take the turns that fit into
    their time limit ([wait_busy_fuel], [standby_fuel]); [driver_waits_end] shows
    that they return within it under a clock that moves.  [Syscalls.retry] takes the
    outcomes the kernel still has and one more, as each interruption uses one up
    ([retry_ends]); [Drain.drive] takes the steps it is to make, and [queue_drains]
    says how many are enough.

    ** Not modelled

    What the program calls is an argument or a class of the model: the kernel's
    files, sockets, [poll] and clocks, libgpiod and spidev, the chip itself, the
    crypto libraries, [getopt_long], [strerror] and the text [vsnprintf] makes of a
    format.  The lines an operation logs in passing are left out of it.  The program
    has one thread: the mutex of the logger is not modelled.  Constructors that only
    bind references and destructors that only call a modelled [close] or [shutdown]
    have no definition of their own.  The check of [SettingsStore] for its file is
    taken to answer truthfully; that of [App] before a key is made may fail. *)

From stdpp Require Export base tactics list list_numbers option strings gmap sorting numbers.
From Stdlib Require Export ZArith Lia.


#[export] Set Default Goal Selector "!".
Global Open Scope Z_scope.

(** ** Machine integers *)

(** The unsigned casts of the source: [static_cast<uintN_t>(v)]. *)
Definition u8 (v : Z) : Z := v mod 2 ^ 8.
Definition u16 (v : Z) : Z := v mod 2 ^ 16.
Definition u32 (v : Z) : Z := v mod 2 ^ 32.
Definition u64 (v : Z) : Z := v mod 2 ^ 64.

(** The signed casts, two's complement: [static_cast<intN_t>(v)]. *)
Definition i8 (v : Z) : Z := (v + 2 ^ 7) mod 2 ^ 8 - 2 ^ 7.
Definition i32 (v : Z) : Z := (v + 2 ^ 31) mod 2 ^ 32 - 2 ^ 31.

Definition is_u8 (v : Z) : Prop := 0 <= v < 2 ^ 8.
Definition is_u16 (v : Z) : Prop := 0 <= v < 2 ^ 16.
Definition is_u32 (v : Z) : Prop := 0 <= v < 2 ^ 32.
Definition is_i8 (v : Z) : Prop := - 2 ^ 7 <= v < 2 ^ 7.
Definition is_i32 (v : Z) : Prop := - 2 ^ 31 <= v < 2 ^ 31.

#[export] Instance is_u8_dec v : Decision (is_u8 v).
Proof. unfold is_u8. apply _. Defined.
#[export] Instance is_u16_dec v : Decision (is_u16 v).
Proof. unfold is_u16. apply _. Defined.
#[export] Instance is_u32_dec v : Decision (is_u32 v).
Proof. unfold is_u32. apply _. Defined.
#[export] Instance is_i8_dec v : Decision (is_i8 v).
Proof. unfold is_i8. apply _. Defined.
#[export] Instance is_i32_dec v : Decision (is_i32 v).
Proof. unfold is_i32. apply _. Defined.

(** [std::vector<uint8_t>], [std::span<const uint8_t>] and [std::string] are
    all sequences of bytes; a byte is a [Z] in [0, 256). *)
Abbreviation Bytes := (list Z).
Abbreviation Str := (list Z).

Definition bytes_ok (b : Bytes) : Prop := Forall is_u8 b.

#[export] Instance bytes_ok_dec b : Decision (bytes_ok b).
Proof. unfold bytes_ok. apply _. Defined.

(** String literals of the source, as bytes. *)
Fixpoint lit (s : string) : Str :=
  match s with
  | EmptyString => []
  | String c s => Z.of_N (Ascii.N_of_ascii c) :: lit s
  end.

(** Length as [size_t]. *)
Definition zlen {A} (l : list A) : Z := Z.of_nat (length l).

(** Byte-wise equality of two sequences ([std::equal] on equal sizes,
    [std::vector::operator==], [crypto::equal]). *)
Definition beq (a b : Bytes) : bool := bool_decide (a = b).

(** ** Wrap-safe time

    The daemon keeps milliseconds in a [uint32_t] that wraps after 49 days and
    compares instants through the sign of their wrapped difference:
    [static_cast<int32_t>(a - b)]. *)
Definition tdiff (a b : Z) : Z := i32 (u32 (a - b)).

(** ** Updating one member of a struct

    [r <| field := v |>] is the struct [r] after [r.field = v], and
    [r <| field ::= f |>] after [r.field = f(r.field)].  A record type takes part
    by declaring its eta-expansion as an [Eta] instance; the setter of a
    projection is that expansion with the projection abstracted out. *)
Class Eta (R : Type) := eta : R -> R.
Class Setter {R T : Type} (proj : R -> T) := setf : (T -> T) -> R -> R.

Ltac derive_setter proj :=
  match goal with
  | |- @Setter ?R ?T _ =>
      let expanded := constr:(@eta R _) in
      let expanded := eval hnf in expanded in
      match eval pattern proj in expanded with
      | ?rebuild _ => exact (fun (f : T -> T) (r : R) => rebuild (fun x => f (proj x)) r)
      end
  end.
#[export] Hint Extern 1 (Setter ?p) => derive_setter p : typeclass_instances.

Declare Scope struct_scope.
Notation "r <| p := v |>" := (setf (proj := p) (fun _ => v) r)
  (at level 1, left associativity, p at level 9) : struct_scope.
Notation "r <| p ::= f |>" := (setf (proj := p) f r)
  (at level 1, left associativity, p at level 9) : struct_scope.
Global Open Scope struct_scope.

(** ** Tactics *)

(** Unfolds the machine-integer predicates and hands the goal to [lia]. *)
Ltac width :=
  unfold is_u8, is_u16, is_u32, is_i8, is_i32, u8, u16, u32, u64, i8, i32 in *;
  change (2 ^ 7) with 128 in *; change (2 ^ 8) with 256 in *;
  change (2 ^ 16) with 65536 in *; change (2 ^ 31) with 2147483648 in *;
  change (2 ^ 32) with 4294967296 in *;
  change (2 ^ 64) with 18446744073709551616 in *;
  try (Z.to_euclidean_division_equations; lia).

(** Splits every [if] and [match] of the hypotheses and the goal, discarding
    the impossible branches. *)
Ltac split_cases :=
  repeat (case_match || (progress simplify_eq/=)).

(** One goal per element of an explicit list under [Forall]. *)
Ltac each := repeat first [apply List.Forall_nil | apply List.Forall_cons].

Create HintDb core_bytes.
Create Rewrite HintDb bytes_ok.

(** ** Lemmas on machine integers *)

Lemma u8_small v : is_u8 v -> u8 v = v.
Proof. intros. apply Z.mod_small. width. Qed.

Lemma u16_small v : is_u16 v -> u16 v = v.
Proof. intros. apply Z.mod_small. width. Qed.

Lemma u32_small v : is_u32 v -> u32 v = v.
Proof. intros. apply Z.mod_small. width. Qed.

Lemma u8_range v : is_u8 (u8 v).
Proof. apply Z.mod_pos_bound. lia. Qed.

Lemma u16_range v : is_u16 (u16 v).
Proof. apply Z.mod_pos_bound. lia. Qed.

Lemma u32_range v : is_u32 (u32 v).
Proof. apply Z.mod_pos_bound. lia. Qed.

Lemma i32_small v : is_i32 v -> i32 v = v.
Proof. intros. width. Qed.

Lemma i8_small v : is_i8 v -> i8 v = v.
Proof. intros. width. Qed.

Lemma i32_range v : is_i32 (i32 v).
Proof. width. Qed.

Lemma i8_range v : is_i8 (i8 v).
Proof. width. Qed.

Lemma i32_u32 v : is_i32 v -> i32 (u32 v) = v.
Proof. intros. width. Qed.

Lemma i8_u8 v : is_i8 v -> i8 (u8 v) = v.
Proof. intros. width. Qed.

Lemma u32_i32 v : is_u32 v -> u32 (i32 v) = v.
Proof. intros. width. Qed.

Lemma u32_idemp_add a b : u32 (u32 a + b) = u32 (a + b).
Proof. unfold u32. by rewrite Z.add_mod_idemp_l by lia. Qed.

#[export] Hint Resolve u8_range u16_range u32_range i32_range i8_range : core_bytes.

(** A delay below half the range is seen as itself by the wrapped comparison,
    whatever the current instant: this is what makes the 49-day wrap harmless. *)
Lemma tdiff_future now d : - 2 ^ 31 <= d < 2 ^ 31 -> tdiff (u32 (now + d)) now = d.
Proof.
  intros Hd. unfold tdiff.
  replace (u32 (u32 (now + d) - now)) with (u32 d).
  - apply i32_u32. width.
  - unfold u32. rewrite Zminus_mod_idemp_l. f_equal. lia.
Qed.

(** The same for a reader that looks [e] milliseconds later. *)
Lemma tdiff_elapsed t d e :
  - 2 ^ 31 <= d - e < 2 ^ 31 -> tdiff (u32 (t + d)) (u32 (t + e)) = d - e.
Proof.
  intros Hd. unfold tdiff.
  replace (u32 (u32 (t + d) - u32 (t + e))) with (u32 (d - e)).
  - apply i32_u32. width.
  - unfold u32. rewrite <- Zminus_mod. f_equal. lia.
Qed.

Lemma tdiff_refl a : tdiff a a = 0.
Proof. unfold tdiff. by rewrite Z.sub_diag. Qed.

(** ** Lemmas on byte sequences *)

Lemma beq_eq a b : beq a b = true <-> a = b.
Proof. unfold beq. apply bool_decide_eq_true. Qed.

Lemma beq_refl a : beq a a = true.
Proof. by apply beq_eq. Qed.

Lemma beq_neq a b : beq a b = false <-> a <> b.
Proof. unfold beq. apply bool_decide_eq_false. Qed.

Lemma zlen_app {A} (a b : list A) : zlen (a ++ b) = zlen a + zlen b.
Proof. unfold zlen. rewrite length_app. lia. Qed.

Lemma zlen_cons {A} (x : A) l : zlen (x :: l) = zlen l + 1.
Proof. unfold zlen. simpl. lia. Qed.

Lemma zlen_nonneg {A} (l : list A) : 0 <= zlen l.
Proof. unfold zlen. lia. Qed.

Lemma bytes_ok_app a b : bytes_ok (a ++ b) <-> bytes_ok a /\ bytes_ok b.
Proof. apply Forall_app. Qed.

Lemma bytes_ok_cons x a : bytes_ok (x :: a) <-> is_u8 x /\ bytes_ok a.
Proof. apply Forall_cons_iff. Qed.

Lemma bytes_ok_nil : bytes_ok [].
Proof. constructor. Qed.

Lemma bytes_ok_take n a : bytes_ok a -> bytes_ok (take n a).
Proof. apply Forall_take. Qed.

Lemma bytes_ok_drop n a : bytes_ok a -> bytes_ok (drop n a).
Proof. apply Forall_drop. Qed.

#[export] Hint Resolve bytes_ok_nil bytes_ok_take bytes_ok_drop : core_bytes.
#[export] Hint Rewrite bytes_ok_app bytes_ok_cons : bytes_ok.

(** Decomposes [bytes_ok] of concatenations in the goal and closes the pieces. *)
Ltac bytes :=
  autorewrite with bytes_ok in *; destruct_and?; split_and?; eauto with core_bytes.

Lemma lit_ok s : bytes_ok (lit s).
Proof.
  induction s as [|c s IH]; simpl; [constructor|]. constructor; [|done].
  pose proof (Ascii.N_ascii_bounded c). width.
Qed.
#[export] Hint Resolve lit_ok : core_bytes.

Lemma take_app_exact {A} (a b : list A) n : length a = n -> take n (a ++ b) = a.
Proof. intros <-. apply take_app_length. Qed.

Lemma drop_app_exact {A} (a b : list A) n : length a = n -> drop n (a ++ b) = b.
Proof. intros <-. apply drop_app_length. Qed.

(** Entries of a sorted list, by position. *)
Lemma sorted_lookup {A} (R : relation A) l i j x y :
  StronglySorted R l -> (i < j)%nat -> l !! i = Some x -> l !! j = Some y -> R x y.
Proof.
  intros Hs Hij Hx Hy. rewrite <- (take_drop (S i) l) in Hs.
  eapply StronglySorted_app_1_elem_of; [exact Hs| |].
  - apply list_elem_of_lookup. exists i. rewrite lookup_take_lt by lia. done.
  - apply list_elem_of_lookup. exists (j - S i)%nat. rewrite lookup_drop. rewrite <- Hy. f_equal. lia.
Qed.

(** Induction two elements at a time, as the hexadecimal reader consumes them. *)
Lemma list_ind2 {A} (P : list A -> Prop) :
  P [] -> (forall x, P [x]) -> (forall x y l, P l -> P (x :: y :: l)) -> forall l, P l.
Proof.
  intros H0 H1 H2 l. enough (P l /\ forall x, P (x :: l)) as [? _] by done.
  induction l as [|y l [IH1 IH2]]; naive_solver.
Qed.

(** A boolean fact about every integer of a finite range, checked by running it. *)
Lemma forall_range (P : Z -> bool) lo n x :
  forallb P (seqZ lo n) = true -> lo <= x < lo + n -> P x = true.
Proof.
  rewrite forallb_forall. intros H Hx. apply H, list_elem_of_In, elem_of_seqZ. lia.
Qed.

(** Decides a boolean goal about one integer variable [x] of a known range. *)
Ltac by_range x lo n :=
  match goal with
  | |- ?b = true =>
      let P := eval pattern x in b in
      match P with
      | ?f _ => apply (forall_range f lo n x); [vm_compute; reflexivity|width; try lia]
      end
  end.
