(* ===== verification/ByteIO.v ===== *)
(** * Byte-level input and output ([src/src/util/bytes.h], [src/src/util/hex.cpp])

    The bounds-checked cursor every decoder of the daemon reads through, the
    little-endian writers every encoder uses, and the hexadecimal text form of
    keys and paths.  The theorems: a reader never runs past its buffer and its
    failure is sticky, every writer is inverted by the matching read, and
    [unhex] inverts [hex] on every byte string and accepts nothing but even
    runs of hex digits. *)

From S2P Require Import Prelude.

(** ** Reader *)

Module Reader.

Record t := mk { b_ : Bytes; off_ : nat; ok_ : bool }.

(** [explicit Reader(ByteView b)] *)
Definition make (b : Bytes) : t := mk b 0 true.

Definition ok (r : t) : bool := ok_ r.
Definition remaining (r : t) : nat := length (b_ r) - off_ r.
Definition has (n : nat) (r : t) : bool := ok_ r && (n <=? remaining r)%nat.

(** [take] returns the bytes read with the advanced reader; a failed read
    returns the empty view, consumes nothing and clears [ok_]. *)
Definition take (n : nat) (r : t) : Bytes * t :=
  if negb (has n r) then ([], mk (b_ r) (off_ r) false)
  else (firstn n (skipn (off_ r) (b_ r)), mk (b_ r) (off_ r + n) (ok_ r)).

Definition skip (n : nat) (r : t) : t := (take n r).2.

Definition u8 (r : t) : Z * t :=
  let '(b, r) := take 1 r in
  (match b with [] => 0 | b0 :: _ => b0 end, r).

Definition u16 (r : t) : Z * t :=
  let '(b, r) := take 2 r in
  (match b with
   | [b0; b1] => Z.lor b0 (Z.shiftl b1 8)
   | _ => 0
   end, r).

Definition u32 (r : t) : Z * t :=
  let '(b, r) := take 4 r in
  (match b with
   | [b0; b1; b2; b3] =>
       Z.lor (Z.lor (Z.lor b0 (Z.shiftl b1 8)) (Z.shiftl b2 16)) (Z.shiftl b3 24)
   | _ => 0
   end, r).

Definition i32 (r : t) : Z * t :=
  let '(v, r) := u32 r in (Prelude.i32 v, r).

(** [while (n < b.size() && b[n] != 0) n++]: the bytes before the first NUL. *)
Fixpoint until_nul (b : Bytes) : Bytes :=
  match b with
  | [] => []
  | c :: b => if c =? 0 then [] else c :: until_nul b
  end.

Definition fixed_str (width : nat) (r : t) : Str * t :=
  let '(b, r) := take width r in (until_nul b, r).

Definition rest (r : t) : Bytes * t := take (remaining r) r.

End Reader.

(** ** Writers *)

Definition put_u16 (out : Bytes) (v : Z) : Bytes :=
  out ++ [u8 v; u8 (Z.shiftr v 8)].

Definition put_u32 (out : Bytes) (v : Z) : Bytes :=
  out ++ [u8 v; u8 (Z.shiftr v 8); u8 (Z.shiftr v 16); u8 (Z.shiftr v 24)].

Definition put_i32 (out : Bytes) (v : Z) : Bytes := put_u32 out (u32 v).

Definition put_bytes (out b : Bytes) : Bytes := out ++ b.

Definition put_str (out : Bytes) (s : Str) : Bytes := out ++ s.

Definition put_fixed_str (out : Bytes) (s : Str) (width : nat) : Bytes :=
  let n := Nat.min (length s) width in
  out ++ firstn n s ++ replicate (width - n) 0.

(** [to_bytes] and [to_string] reinterpret the same bytes. *)
Definition to_bytes (s : Str) : Bytes := s.
Definition to_string (b : Bytes) : Str := b.

Definition subview_from (b : Bytes) (off : nat) : Bytes :=
  if (length b <=? off)%nat then [] else skipn off b.

Definition subview (b : Bytes) (off len : nat) : Bytes :=
  if (length b <=? off)%nat then []
  else firstn (Nat.min len (length b - off)) (skipn off b).

(** ** Hexadecimal text *)

Definition kDigits : Str := lit "0123456789abcdef".

(** [nibble] returns -1 for a character that is not a hex digit. *)
Definition nibble (c : Z) : Z :=
  if (48 <=? c) && (c <=? 57) then c - 48
  else if (97 <=? c) && (c <=? 102) then c - 97 + 10
  else if (65 <=? c) && (c <=? 70) then c - 65 + 10
  else -1.

(** [kDigits[i]]; the indices used are below 16. *)
Definition hex_digit (i : Z) : Z := nth (Z.to_nat i) kDigits 0.

Fixpoint hex (b : Bytes) : Str :=
  match b with
  | [] => []
  | c :: b => hex_digit (Z.shiftr c 4) :: hex_digit (Z.land c 15) :: hex b
  end.

Definition hex_prefix (b : Bytes) (n : nat) : Str := hex (subview b 0 n).

(** The loop of [unhex], two characters per iteration. *)
Fixpoint unhex_loop (s : Str) : option Bytes :=
  match s with
  | hi :: lo :: s =>
      if (nibble hi <? 0) || (nibble lo <? 0) then None
      else out ← unhex_loop s; Some (u8 (Z.lor (Z.shiftl (nibble hi) 4) (nibble lo)) :: out)
  | _ => Some []
  end.

Definition unhex (s : Str) : option Bytes :=
  if negb (length s mod 2 =? 0)%nat then None else unhex_loop s.

(** ** Lemmas: bit arithmetic of little-endian fields *)

Lemma land_shiftl_0 a b n : 0 <= n -> 0 <= a < 2 ^ n -> Z.land a (b * 2 ^ n) = 0.
Proof.
  intros Hn Ha. apply Z.bits_inj'. intros k Hk.
  rewrite Z.land_spec, Z.bits_0, Z.mul_pow2_bits by done.
  destruct (decide (k < n)).
  - rewrite (Z.testbit_neg_r b) by lia. apply andb_false_r.
  - rewrite <- (Z.mod_small a (2 ^ n)) by lia. by rewrite Z.mod_pow2_bits_high by lia.
Qed.

Lemma lor_shiftl_add a b n :
  0 <= n -> 0 <= a < 2 ^ n -> Z.lor a (Z.shiftl b n) = a + b * 2 ^ n.
Proof.
  intros Hn Ha. rewrite Z.shiftl_mul_pow2 by done.
  pose proof (land_shiftl_0 a b n Hn Ha).
  by rewrite Z.add_nocarry_lxor, Z.lxor_lor.
Qed.

Lemma le16_join b0 b1 : is_u8 b0 -> Z.lor b0 (Z.shiftl b1 8) = b0 + 256 * b1.
Proof. intros. rewrite lor_shiftl_add by width. lia. Qed.

Lemma le32_join b0 b1 b2 b3 :
  is_u8 b0 -> is_u8 b1 -> is_u8 b2 ->
  Z.lor (Z.lor (Z.lor b0 (Z.shiftl b1 8)) (Z.shiftl b2 16)) (Z.shiftl b3 24)
  = b0 + 256 * b1 + 65536 * b2 + 16777216 * b3.
Proof.
  intros. rewrite le16_join by done.
  rewrite (lor_shiftl_add _ b2 16) by width.
  rewrite (lor_shiftl_add _ b3 24) by (change (2 ^ 24) with 16777216; width). lia.
Qed.

Lemma le16_split v : is_u16 v -> u8 v + 256 * u8 (Z.shiftr v 8) = v.
Proof. intros. rewrite Z.shiftr_div_pow2 by lia. width. Qed.

Lemma le32_split v :
  is_u32 v ->
  u8 v + 256 * u8 (Z.shiftr v 8) + 65536 * u8 (Z.shiftr v 16) + 16777216 * u8 (Z.shiftr v 24) = v.
Proof. intros. rewrite !Z.shiftr_div_pow2 by lia. change (2^24) with 16777216. width. Qed.

(** Reads that consume what an encoder wrote invert it the other way round
    too: the four bytes of a field are the little-endian bytes of its value. *)
Lemma put_u16_join b0 b1 :
  is_u8 b0 -> is_u8 b1 -> put_u16 [] (Z.lor b0 (Z.shiftl b1 8)) = [b0; b1].
Proof.
  intros. unfold put_u16. simpl. rewrite le16_join by done.
  rewrite Z.shiftr_div_pow2 by lia. repeat f_equal; width.
Qed.

Lemma put_u32_join b0 b1 b2 b3 :
  is_u8 b0 -> is_u8 b1 -> is_u8 b2 -> is_u8 b3 ->
  put_u32 [] (Z.lor (Z.lor (Z.lor b0 (Z.shiftl b1 8)) (Z.shiftl b2 16)) (Z.shiftl b3 24))
  = [b0; b1; b2; b3].
Proof.
  intros. unfold put_u32. simpl. rewrite le32_join by done.
  rewrite !Z.shiftr_div_pow2 by lia. change (2 ^ 24) with 16777216. repeat f_equal; width.
Qed.

(** ** Lemmas: the reader *)

Module ReaderFacts.
Import Reader.

(** The reader is live and exactly [l] is left to read. *)
Definition reads (r : t) (l : Bytes) : Prop :=
  ok_ r = true /\ (off_ r <= length (b_ r))%nat /\ skipn (off_ r) (b_ r) = l.

(** The cursor never passes the end of its buffer. *)
Definition in_bounds (r : t) : Prop := (off_ r <= length (b_ r))%nat.

Lemma reads_make b : reads (make b) b.
Proof. repeat split. simpl. lia. Qed.

Lemma reads_remaining r l : reads r l -> remaining r = length l.
Proof. intros (? & ? & <-). unfold remaining. by rewrite length_skipn. Qed.

Lemma reads_ok r l : reads r l -> ok r = true.
Proof. by intros (? & ? & ?). Qed.

Lemma reads_inj r l l' : reads r l -> reads r l' -> l = l'.
Proof. intros (? & ? & <-) (? & ? & <-). done. Qed.

Lemma reads_has r l n : reads r l -> has n r = (n <=? length l)%nat.
Proof.
  intros H. unfold has. rewrite (reads_remaining _ _ H). by destruct H as (-> & _).
Qed.

(** A read that fits splits what is left. *)
Lemma reads_take r l n :
  reads r l -> (n <= length l)%nat ->
  exists r', take n r = (firstn n l, r') /\ reads r' (skipn n l).
Proof.
  intros H Hn. unfold take. rewrite (reads_has _ _ _ H).
  rewrite (proj2 (Nat.leb_le _ _) Hn). simpl.
  destruct H as (Hok & Hoff & <-). rewrite length_skipn in Hn.
  eexists. split; [done|]. repeat split; simpl; [done|lia|].
  by rewrite skipn_skipn, Nat.add_comm.
Qed.

Lemma reads_take_app r a l n :
  reads r (a ++ l) -> length a = n -> exists r', take n r = (a, r') /\ reads r' l.
Proof.
  intros H <-. destruct (reads_take _ _ (length a) H) as (r' & Ht & Hr).
  { rewrite length_app. lia. }
  rewrite take_app_length in Ht. rewrite drop_app_length in Hr. eauto.
Qed.

(** A read that does not fit fails the reader and consumes nothing. *)
Lemma take_short r n :
  has n r = false -> take n r = ([], mk (b_ r) (off_ r) false).
Proof. intros H. unfold take. by rewrite H. Qed.

Lemma take_failed r n : ok r = false -> take n r = ([], r).
Proof.
  intros H. destruct r as [b o k]. simpl in H. subst k. done.
Qed.

Lemma reads_rest r l : reads r l -> exists r', rest r = (l, r') /\ reads r' [].
Proof.
  intros H. unfold rest. rewrite (reads_remaining _ _ H).
  apply reads_take_app; [|done]. by rewrite app_nil_r.
Qed.

Lemma reads_u8 r x l : reads r (x :: l) -> exists r', u8 r = (x, r') /\ reads r' l.
Proof.
  intros H. destruct (reads_take_app r [x] l 1 H eq_refl) as (r' & Ht & Hr).
  exists r'. unfold u8. by rewrite Ht.
Qed.

Lemma reads_u16 r v l :
  is_u16 v -> reads r (put_u16 [] v ++ l) -> exists r', u16 r = (v, r') /\ reads r' l.
Proof.
  intros Hv H. destruct (reads_take_app _ _ _ 2 H eq_refl) as (r' & Ht & Hr).
  exists r'. unfold u16. rewrite Ht. split; [|done].
  cbn. f_equal. rewrite le16_join by auto with core_bytes. by apply le16_split.
Qed.

Lemma reads_u32 r v l :
  is_u32 v -> reads r (put_u32 [] v ++ l) -> exists r', u32 r = (v, r') /\ reads r' l.
Proof.
  intros Hv H. destruct (reads_take_app _ _ _ 4 H eq_refl) as (r' & Ht & Hr).
  exists r'. unfold u32. rewrite Ht. split; [|done].
  cbn. f_equal. rewrite le32_join by auto with core_bytes. by apply le32_split.
Qed.

Lemma reads_i32 r v l :
  is_i32 v -> reads r (put_i32 [] v ++ l) -> exists r', i32 r = (v, r') /\ reads r' l.
Proof.
  intros Hv H. destruct (reads_u32 r (Prelude.u32 v) l) as (r' & Ht & Hr); [auto with core_bytes|done|].
  exists r'. unfold i32. rewrite Ht. split; [|done]. by rewrite i32_u32.
Qed.

(** Every state of a reader made over [b] keeps the buffer and stays inside it. *)
Lemma take_in_bounds n r :
  in_bounds r -> in_bounds (take n r).2 /\ b_ (take n r).2 = b_ r /\ (off_ r <= off_ (take n r).2)%nat.
Proof.
  unfold in_bounds, take, has, remaining. intros H.
  destruct (ok_ r && _) eqn:E; simpl; [|by repeat split].
  apply andb_true_iff in E as [_ E]. apply Nat.leb_le in E. repeat split; lia.
Qed.

(** Failure is sticky: a reader that is still live after a read was live before
    it, and the read fitted. *)
Lemma take_inv r l n v r' :
  reads r l -> take n r = (v, r') -> ok r' = true ->
  (n <= length l)%nat /\ v = firstn n l /\ reads r' (skipn n l).
Proof.
  intros H Ht Hok. destruct (Nat.le_gt_cases n (length l)) as [Hn|Hn].
  - destruct (reads_take r l n H Hn) as (r'' & Ht' & Hr). rewrite Ht in Ht'. by simplify_eq.
  - rewrite take_short in Ht; [by simplify_eq|].
    rewrite (reads_has _ _ _ H). apply Nat.leb_gt. lia.
Qed.

Lemma take_ok_mono r n : ok (take n r).2 = true -> ok r = true.
Proof. unfold take, has. destruct (ok_ r) eqn:E; [by intros|done]. Qed.

Lemma u8_inv r l v r' :
  reads r l -> u8 r = (v, r') -> ok r' = true -> exists l', l = v :: l' /\ reads r' l'.
Proof.
  unfold u8. destruct (take 1 r) as [b r''] eqn:E. intros H Hu Hok. simplify_eq.
  destruct (take_inv _ _ _ _ _ H E Hok) as (Hn & -> & Hr).
  destruct l as [|x l]; [simpl in Hn; lia|]. by exists l.
Qed.

Lemma u16_inv r l v r' :
  bytes_ok l -> reads r l -> u16 r = (v, r') -> ok r' = true ->
  is_u16 v /\ exists l', l = put_u16 [] v ++ l' /\ reads r' l'.
Proof.
  unfold u16. destruct (take 2 r) as [b r''] eqn:E. intros Hb H Hu Hok. simplify_eq.
  destruct (take_inv _ _ _ _ _ H E Hok) as (Hn & -> & Hr).
  destruct l as [|b0 [|b1 l]]; [simpl in Hn; lia|simpl in Hn; lia|].
  apply bytes_ok_cons in Hb as [H0 Hb]. apply bytes_ok_cons in Hb as [H1 Hb]. cbn [firstn skipn] in *. rewrite ?take_0, ?drop_0 in *.
  split; [rewrite le16_join by done; width|]. exists l. by rewrite put_u16_join by done.
Qed.

Lemma u32_inv r l v r' :
  bytes_ok l -> reads r l -> u32 r = (v, r') -> ok r' = true ->
  is_u32 v /\ exists l', l = put_u32 [] v ++ l' /\ reads r' l'.
Proof.
  unfold u32. destruct (take 4 r) as [b r''] eqn:E. intros Hb H Hu Hok. simplify_eq.
  destruct (take_inv _ _ _ _ _ H E Hok) as (Hn & -> & Hr).
  destruct l as [|b0 [|b1 [|b2 [|b3 l]]]]; try (simpl in Hn; lia).
  do 4 (let H' := fresh "Hx" in apply bytes_ok_cons in Hb as [H' Hb]). cbn [firstn skipn] in *. rewrite ?take_0, ?drop_0 in *.
  split; [rewrite le32_join by done; width|]. exists l. by rewrite put_u32_join by done.
Qed.

Lemma rest_inv r l v r' : reads r l -> rest r = (v, r') -> v = l.
Proof. intros H E. destruct (reads_rest r l H) as (? & E' & _). rewrite E in E'. by simplify_eq. Qed.

(** A failed reader stays failed. *)
Lemma take_failed_ok r n : ok r = false -> ok (take n r).2 = false.
Proof. intros H. by rewrite take_failed. Qed.

Lemma u8_failed r : ok r = false -> u8 r = (0, r).
Proof. intros H. unfold u8. by rewrite take_failed. Qed.

Lemma u16_failed r : ok r = false -> u16 r = (0, r).
Proof. intros H. unfold u16. by rewrite take_failed. Qed.

Lemma u32_failed r : ok r = false -> u32 r = (0, r).
Proof. intros H. unfold u32. by rewrite take_failed. Qed.

Lemma u16_ok_mono r v r' : u16 r = (v, r') -> ok r' = true -> ok r = true.
Proof. intros E Hok. destruct (ok r) eqn:F; [done|]. rewrite u16_failed in E by done. congruence. Qed.

Lemma u32_ok_mono r v r' : u32 r = (v, r') -> ok r' = true -> ok r = true.
Proof. intros E Hok. destruct (ok r) eqn:F; [done|]. rewrite u32_failed in E by done. congruence. Qed.

Lemma u8_ok_mono r v r' : u8 r = (v, r') -> ok r' = true -> ok r = true.
Proof. intros E Hok. destruct (ok r) eqn:F; [done|]. rewrite u8_failed in E by done. congruence. Qed.

Lemma take_ok_mono' r n v r' : take n r = (v, r') -> ok r' = true -> ok r = true.
Proof. intros E Hok. apply (take_ok_mono r n). by rewrite E. Qed.

End ReaderFacts.

(** ** Lemmas: hexadecimal *)

Lemma nibble_hex_digit i : 0 <= i < 16 -> nibble (hex_digit i) = i.
Proof.
  intros H.
  assert (i = 0 \/ i = 1 \/ i = 2 \/ i = 3 \/ i = 4 \/ i = 5 \/ i = 6 \/ i = 7 \/ i = 8
    \/ i = 9 \/ i = 10 \/ i = 11 \/ i = 12 \/ i = 13 \/ i = 14 \/ i = 15) as Hi by lia.
  by destruct_or! Hi; subst i.
Qed.

Lemma hex_length b : length (hex b) = (2 * length b)%nat.
Proof. induction b; simpl; lia. Qed.

Lemma byte_nibbles c :
  is_u8 c -> 0 <= Z.shiftr c 4 < 16 /\ 0 <= Z.land c 15 < 16 /\
  u8 (Z.lor (Z.shiftl (Z.shiftr c 4) 4) (Z.land c 15)) = c.
Proof.
  intros Hc. change 15 with (Z.ones 4). rewrite Z.land_ones by lia.
  rewrite Z.lor_comm, lor_shiftl_add by (try apply Z.mod_pos_bound; lia).
  rewrite Z.shiftr_div_pow2 by lia. change (2 ^ 4) with 16. split_and!; width.
Qed.

Lemma unhex_loop_hex b : bytes_ok b -> unhex_loop (hex b) = Some b.
Proof.
  induction b as [|c b IH]; [done|]. intros [Hc Hb]%bytes_ok_cons.
  destruct (byte_nibbles c Hc) as (Hh & Hl & Hj). cbn [hex unhex_loop].
  rewrite !nibble_hex_digit, IH by done.
  rewrite (proj2 (Z.ltb_ge _ _)) by lia. rewrite (proj2 (Z.ltb_ge _ _)) by lia.
  simpl. by rewrite Hj.
Qed.

Lemma unhex_hex b : bytes_ok b -> unhex (hex b) = Some b.
Proof.
  intros H. unfold unhex. rewrite hex_length.
  replace ((2 * length b) mod 2)%nat with 0%nat by (symmetry; apply Nat.Div0.mod_divides; eauto).
  by apply unhex_loop_hex.
Qed.

(** Every byte [unhex] produces is a byte, two characters each. *)
Lemma unhex_loop_ok s : forall b,
  unhex_loop s = Some b -> Nat.Even (length s) -> bytes_ok b /\ length s = (2 * length b)%nat.
Proof.
  induction s as [|c|hi lo s IH] using list_ind2; intros b; simpl.
  - intros [= <-] _. by split; [constructor|].
  - intros _ [k Hk]. lia.
  - destruct (_ || _); [done|].
    destruct (unhex_loop s) as [out|] eqn:E; simpl; intros [= <-] [k Hk].
    destruct (IH out eq_refl) as [Ho Hl]; [by exists (pred k); lia|].
    split; [bytes|simpl; lia].
Qed.

Lemma unhex_ok s b : unhex s = Some b -> bytes_ok b /\ length s = (2 * length b)%nat.
Proof.
  unfold unhex. destruct (length s mod 2 =? 0)%nat eqn:E; [|done].
  apply Nat.eqb_eq, Nat.Div0.mod_divides in E. intros H. by apply unhex_loop_ok.
Qed.

(** The characters [hex] writes: never a separator of the state files. *)
Definition is_hex_char (c : Z) : Prop := 48 <= c <= 57 \/ 97 <= c <= 102.

Lemma hex_digit_char i : 0 <= i < 16 -> is_hex_char (hex_digit i).
Proof.
  intros H. unfold is_hex_char.
  assert (i = 0 \/ i = 1 \/ i = 2 \/ i = 3 \/ i = 4 \/ i = 5 \/ i = 6 \/ i = 7 \/ i = 8
    \/ i = 9 \/ i = 10 \/ i = 11 \/ i = 12 \/ i = 13 \/ i = 14 \/ i = 15) as Hi by lia.
  destruct_or! Hi; subst i; vm_compute; (left; split; discriminate) || (right; split; discriminate).
Qed.

Lemma hex_chars b : bytes_ok b -> Forall is_hex_char (hex b).
Proof.
  induction b as [|c b IH]; [constructor|]. intros [Hc Hb]%bytes_ok_cons.
  destruct (byte_nibbles c Hc) as (Hh & Hl & _).
  constructor; [by apply hex_digit_char|]. constructor; [by apply hex_digit_char|auto].
Qed.

Lemma subview_take b n : subview b 0 n = firstn n b.
Proof.
  unfold subview. rewrite Nat.sub_0_r. simpl skipn.
  destruct (Nat.leb_spec (length b) 0) as [H|H].
  - destruct b; [by destruct n|simpl in H; lia].
  - destruct (Nat.min_spec n (length b)) as [[? ->]|[? ->]]; [done|].
    rewrite (firstn_all2 b (n := n)) by lia. apply firstn_all.
Qed.

Lemma subview_from_drop b n : subview_from b n = skipn n b.
Proof.
  unfold subview_from. destruct (Nat.leb_spec (length b) n); [|done].
  by rewrite skipn_all2.
Qed.

Lemma bytes_ok_put_u16 v : bytes_ok (put_u16 [] v).
Proof. repeat constructor; apply u8_range. Qed.

Lemma bytes_ok_put_u32 v : bytes_ok (put_u32 [] v).
Proof. repeat constructor; apply u8_range. Qed.

Lemma put_u16_app out v : put_u16 out v = out ++ put_u16 [] v.
Proof. done. Qed.

Lemma put_u32_app out v : put_u32 out v = out ++ put_u32 [] v.
Proof. done. Qed.

#[export] Hint Resolve bytes_ok_put_u16 bytes_ok_put_u32 : core_bytes.

(** Runs the reads of a decoder over an input whose layout is known: the
    context holds [reads r l] for the reader at hand, and each step consumes the
    field at the front of [l]. *)
Ltac run_reads :=
  repeat (
    match goal with
    | R : ReaderFacts.reads ?r _ |- context [Reader.ok ?r] =>
        rewrite (ReaderFacts.reads_ok _ _ R)
    | R : ReaderFacts.reads ?r _ |- context [Reader.has _ ?r] =>
        rewrite (ReaderFacts.reads_has _ _ _ R)
    | R : ReaderFacts.reads ?r (_ :: _) |- context [Reader.u8 ?r] =>
        destruct (ReaderFacts.reads_u8 _ _ _ R) as (? & -> & ?); clear R
    | R : ReaderFacts.reads ?r (put_u16 [] ?v ++ _) |- context [Reader.u16 ?r] =>
        destruct (ReaderFacts.reads_u16 r v _ ltac:(auto with core_bytes) R) as (? & -> & ?); clear R
    | R : ReaderFacts.reads ?r (put_u32 [] ?v ++ _) |- context [Reader.u32 ?r] =>
        destruct (ReaderFacts.reads_u32 r v _ ltac:(auto with core_bytes) R) as (? & -> & ?); clear R
    | R : ReaderFacts.reads ?r (put_i32 [] ?v ++ _) |- context [Reader.i32 ?r] =>
        destruct (ReaderFacts.reads_i32 r v _ ltac:(auto with core_bytes) R) as (? & -> & ?); clear R
    | R : ReaderFacts.reads ?r (?a ++ _) |- context [Reader.take ?n ?r] =>
        destruct (ReaderFacts.reads_take_app r a _ n R ltac:(first [done|lia])) as (? & -> & ?); clear R
    | R : ReaderFacts.reads ?r _ |- context [Reader.rest ?r] =>
        destruct (ReaderFacts.reads_rest r _ R) as (? & -> & ?); clear R
    end; cbn [negb andb orb fst snd]; cbv beta iota).

(** Starts [run_reads] on the reader a decoder makes over its input. *)
Ltac start_reads :=
  match goal with |- context [Reader.make ?b] => pose proof (ReaderFacts.reads_make b) end;
  run_reads.
