(* ===== verification/Floats.v ===== *)
(** * IEEE-754 arithmetic of the source's [float] and [double]

    The daemon computes signal quality in [float] and airtime budgets in
    [double].  Both are modelled by the Standard Library's executable
    specification of IEEE-754 ([SpecFloat]), round to nearest even: binary32
    for [float] and binary64 for [double].  Nothing is assumed about it. *)

From S2P Require Import Prelude.
From Stdlib Require Export SpecFloat.

Abbreviation float := spec_float.
Abbreviation double := spec_float.

#[export] Instance spec_float_eq_dec : EqDecision spec_float.
Proof. solve_decision. Defined.

(** [static_cast<double>(n)] and [static_cast<float>(n)] of an integer. *)
Definition d_of_Z (n : Z) : double := binary_normalize 53 1024 n 0 false.
Definition f_of_Z (n : Z) : float := binary_normalize 24 128 n 0 false.

Definition d_add (a b : double) : double := SFadd 53 1024 a b.
Definition d_sub (a b : double) : double := SFsub 53 1024 a b.
Definition d_mul (a b : double) : double := SFmul 53 1024 a b.
Definition d_div (a b : double) : double := SFdiv 53 1024 a b.
Definition d_abs (a : double) : double := SFabs a.
Definition f_mul (a b : float) : float := SFmul 24 128 a b.
Definition f_div (a b : float) : float := SFdiv 24 128 a b.

(** [a < b], [a <= b]; both false on a NaN. *)
Definition f_lt (a b : spec_float) : bool := SFltb a b.
Definition f_le (a b : spec_float) : bool := SFleb a b.
Definition f_eq (a b : spec_float) : bool := SFeqb a b.

(** A decimal literal [n / 10^k] of the source: the correctly rounded quotient,
    which is what the compiler stores (both operands are exact). *)
Definition d_lit (n k : Z) : double := d_div (d_of_Z n) (d_of_Z (10 ^ k)).

(** Conversion to an integer, truncating towards zero; the conversion of a NaN
    or an infinity is undefined in the source and 0 here. *)
Definition f_trunc (a : spec_float) : Z :=
  match a with
  | S754_finite s m e =>
      let v := if 0 <=? e then Z.pos m * 2 ^ e else Z.pos m / 2 ^ (- e) in
      if s then - v else v
  | _ => 0
  end.

(** [std::ceil], as the integer it denotes. *)
Definition f_ceil (a : spec_float) : Z :=
  match a with
  | S754_finite s m e =>
      let v := if s then Z.neg m else Z.pos m in
      if 0 <=? e then v * 2 ^ e else - ((- v) / 2 ^ (- e))
  | _ => 0
  end.

(** [std::llround]: halves away from zero. *)
Definition llround (d : double) : Z :=
  match d with
  | S754_finite neg m e =>
      let v := if 0 <=? e then Z.pos m * 2 ^ e else (2 * Z.pos m + 2 ^ (- e)) / (2 * 2 ^ (- e)) in
      if neg then - v else v
  | _ => 0
  end.

(** [std::clamp(v, lo, hi)]. *)
Definition f_clamp (v lo hi : spec_float) : spec_float :=
  if f_lt v lo then lo else if f_lt hi v then hi else v.

(** [static_cast<int8_t>(std::clamp(snr * 4.0f, -128.0f, 127.0f))]: the SNR in
    quarter decibels, as the companion protocol and the trace packets carry it. *)
Definition snr_q4 (snr : float) : Z :=
  i8 (f_trunc (f_clamp (f_mul snr (f_of_Z 4)) (f_of_Z (-128)) (f_of_Z 127))).

(** ** Lemmas *)

Lemma snr_q4_range snr : is_i8 (snr_q4 snr).
Proof. apply i8_range. Qed.

(** Every SNR the radio reports is a whole number of quarter decibels in the
    range of a signed byte, and comes back unchanged. *)
Lemma snr_q4_quarters k :
  is_i8 k -> snr_q4 (f_div (f_of_Z k) (f_of_Z 4)) = k.
Proof.
  intros Hk. apply Z.eqb_eq.
  by_range k (-128) 256.
Qed.
