(* ===== verification/Crypto.v ===== *)
(** * Cryptographic envelope ([src/src/crypto/crypto.cpp], [crypto.h])

    The cipher-and-MAC construction MeshCore packets are sealed with.  OpenSSL
    and libsodium are parameters, collected in the class [CryptoLib]; what the
    daemon relies on of them is the class [CryptoLaws].  The theorems: sealing
    then opening with the same key gives back the zero-padded plaintext, the
    sealed form is two bytes longer than a whole number of AES blocks, and
    nothing opens without the MAC of its ciphertext. *)

From S2P Require Import Prelude ByteIO.

(** ** Third-party primitives *)

Class CryptoLib := {
  (** OpenSSL [SHA256], [HMAC(EVP_sha256(), key, data)] *)
  SHA256 : Bytes -> Bytes;
  HMAC_SHA256 : Bytes -> Bytes -> Bytes;
  (** [EVP_CipherInit_ex(EVP_aes_128_ecb)] .. [EVP_CipherFinal_ex] with padding
      off, over a 16-byte key; [None] when any call fails. *)
  EVP_aes_128_ecb : bool -> Bytes -> Bytes -> option Bytes;
  (** libsodium *)
  crypto_hash_sha512 : Bytes -> Bytes;
  crypto_core_ed25519_scalar_reduce : Bytes -> Bytes;
  crypto_core_ed25519_scalar_mul : Bytes -> Bytes -> Bytes;
  crypto_core_ed25519_scalar_add : Bytes -> Bytes -> Bytes;
  crypto_scalarmult_ed25519_base_noclamp : Bytes -> option Bytes;
  crypto_sign_ed25519_pk_to_curve25519 : Bytes -> option Bytes;
  crypto_scalarmult_curve25519 : Bytes -> Bytes -> option Bytes;
  crypto_sign_verify_detached : Bytes -> Bytes -> Bytes -> bool;
}.

Definition kPubKeySize : nat := 32.
Definition kPrivKeySize : nat := 64.
Definition kSignatureSize : nat := 64.
Definition kSharedSecretSize : nat := 32.
Definition kCipherMacSize : nat := 2.
Definition kAckHashSize : nat := 4.
Definition kAesBlockSize : nat := 16.

(** What the envelope relies on: digest sizes, and that ECB decryption under
    the same key undoes encryption of a whole number of blocks. *)
Class CryptoLaws `{CryptoLib} : Prop := {
  SHA256_length d : length (SHA256 d) = 32%nat;
  SHA256_bytes d : bytes_ok (SHA256 d);
  HMAC_length k d : length (HMAC_SHA256 k d) = 32%nat;
  HMAC_bytes k d : bytes_ok (HMAC_SHA256 k d);
  EVP_roundtrip k d :
    length k = 16%nat -> (length d mod 16 = 0)%nat -> bytes_ok d ->
    exists c, EVP_aes_128_ecb true k d = Some c /\ length c = length d /\ bytes_ok c /\
              EVP_aes_128_ecb false k c = Some d;
  EVP_decrypt_bytes k c d : EVP_aes_128_ecb false k c = Some d -> length d = length c /\ bytes_ok d;
}.

(** [std::vector::resize(n)]: cut, or extended with zeros. *)
Definition resize (n : nat) (b : Bytes) : Bytes :=
  firstn n b ++ replicate (n - length b) 0.

(** [crypto::equal]: sizes first, then [sodium_memcmp]. *)
Definition equal (a b : Bytes) : bool :=
  if negb (length a =? length b)%nat then false else beq a b.

Section crypto.
Context `{CryptoLib}.

Definition sha256 (data : Bytes) : Bytes := SHA256 data.
Definition hmac_sha256 (key data : Bytes) : Bytes := HMAC_SHA256 key data.
Definition ack_hash (data : Bytes) : Bytes := resize kAckHashSize (sha256 data).

Definition aes128_ecb (key16 input : Bytes) (encrypt : bool) : option Bytes :=
  if (length key16 <? kAesBlockSize)%nat || negb (length input mod kAesBlockSize =? 0)%nat
  then None
  else EVP_aes_128_ecb encrypt (firstn 16 key16) input.

(** The zero padding [encrypt_and_mac] adds up to a block multiple. *)
Definition zero_pad (plaintext : Bytes) : Bytes :=
  let pad := ((kAesBlockSize - length plaintext mod kAesBlockSize) mod kAesBlockSize)%nat in
  plaintext ++ replicate pad 0.

Definition encrypt_and_mac (key plaintext : Bytes) : Bytes :=
  let padded := zero_pad plaintext in
  match aes128_ecb key padded true with
  | None => []
  | Some ciphertext =>
      let mac := hmac_sha256 key ciphertext in
      firstn kCipherMacSize mac ++ ciphertext
  end.

Definition mac_and_decrypt (key mac ciphertext : Bytes) : option Bytes :=
  if (length mac <? kCipherMacSize)%nat then None
  else if (length ciphertext =? 0)%nat || negb (length ciphertext mod kAesBlockSize =? 0)%nat
  then None
  else
    let expect := hmac_sha256 key ciphertext in
    if negb (equal (subview expect 0 kCipherMacSize) (subview mac 0 kCipherMacSize)) then None
    else aes128_ecb key ciphertext false.

End crypto.

(** ** Lemmas *)

Lemma equal_eq a b : equal a b = true <-> a = b.
Proof.
  unfold equal. destruct (Nat.eqb_spec (length a) (length b)) as [E|E]; simpl.
  - apply beq_eq.
  - split; [done|]. by intros ->.
Qed.

Lemma zero_pad_length p :
  (length (zero_pad p) mod 16 = 0)%nat /\ (length p <= length (zero_pad p) < length p + 16)%nat.
Proof.
  unfold zero_pad. rewrite length_app, length_replicate. unfold kAesBlockSize.
  pose proof (Nat.mod_upper_bound (length p) 16).
  pose proof (Nat.div_mod_eq (length p) 16) as Hd.
  pose proof (Nat.mod_upper_bound (16 - length p mod 16) 16).
  split; [|lia]. destruct (decide (length p mod 16 = 0)%nat) as [E|E].
  - rewrite E. simpl. by rewrite Nat.add_0_r.
  - rewrite (Nat.mod_small (16 - _)) by lia.
    apply Nat.Div0.mod_divides. exists (length p / 16 + 1)%nat. lia.
Qed.

Lemma zero_pad_bytes p : bytes_ok p -> bytes_ok (zero_pad p).
Proof.
  intros. apply bytes_ok_app. split; [done|]. apply Forall_replicate. width.
Qed.

Lemma zero_pad_nil p : zero_pad p = [] <-> p = [].
Proof.
  split; [|by intros ->]. unfold zero_pad. by intros [-> _]%app_eq_nil.
Qed.

Section facts.
Context `{CryptoLaws}.

Lemma ack_hash_length d : length (ack_hash d) = 4%nat.
Proof.
  unfold ack_hash, resize, sha256. rewrite length_app, length_take, length_replicate, SHA256_length.
  done.
Qed.

Lemma ack_hash_bytes d : bytes_ok (ack_hash d).
Proof.
  unfold ack_hash, resize, sha256. rewrite SHA256_length. simpl. rewrite app_nil_r.
  apply bytes_ok_take, SHA256_bytes.
Qed.

(** What [encrypt_and_mac] computes when the cipher cannot fail. *)
Lemma encrypt_and_mac_eq key p :
  (16 <= length key)%nat -> bytes_ok p ->
  exists c, encrypt_and_mac key p = firstn 2 (hmac_sha256 key c) ++ c /\
    length c = length (zero_pad p) /\ bytes_ok c /\
    aes128_ecb key c false = Some (zero_pad p).
Proof.
  intros Hk Hp. destruct (zero_pad_length p) as [Hz _].
  destruct (EVP_roundtrip (firstn 16 key) (zero_pad p)) as (c & Henc & Hlen & Hb & Hdec);
    [rewrite length_take; lia|done|by apply zero_pad_bytes|].
  exists c. unfold encrypt_and_mac, aes128_ecb. rewrite Hlen.
  change kAesBlockSize with 16%nat.
  rewrite Hz, (proj2 (Nat.ltb_ge _ _) Hk). simpl. by rewrite Henc, Hdec.
Qed.

Lemma encrypt_and_mac_length key p :
  (16 <= length key)%nat -> bytes_ok p ->
  length (encrypt_and_mac key p) = (2 + length (zero_pad p))%nat.
Proof.
  intros Hk Hp. destruct (encrypt_and_mac_eq key p Hk Hp) as (c & -> & <- & _).
  rewrite length_app, length_take. unfold hmac_sha256. by rewrite HMAC_length.
Qed.

Lemma encrypt_and_mac_bytes key p :
  (16 <= length key)%nat -> bytes_ok p -> bytes_ok (encrypt_and_mac key p).
Proof.
  intros Hk Hp. destruct (encrypt_and_mac_eq key p Hk Hp) as (c & -> & _ & Hc & _).
  apply bytes_ok_app. split; [|done]. apply bytes_ok_take, HMAC_bytes.
Qed.

(** A sealed, non-empty plaintext opens to its zero-padded form. *)
Lemma seal_open key p :
  (16 <= length key)%nat -> bytes_ok p -> p <> [] ->
  let sealed := encrypt_and_mac key p in
  mac_and_decrypt key (firstn 2 sealed) (skipn 2 sealed) = Some (zero_pad p).
Proof.
  intros Hk Hp Hne. destruct (encrypt_and_mac_eq key p Hk Hp) as (c & -> & Hlen & _ & Hdec).
  assert (length (firstn 2 (hmac_sha256 key c)) = 2%nat) as Hm.
  { rewrite length_take. unfold hmac_sha256. by rewrite HMAC_length. }
  cbv zeta. rewrite (take_app_exact _ _ 2 Hm), (drop_app_exact _ _ 2 Hm).
  unfold mac_and_decrypt. rewrite Hm. change (2 <? kCipherMacSize)%nat with false. cbv iota.
  destruct (zero_pad_length p) as [Hz _]. change kAesBlockSize with 16%nat.
  assert (length c <> 0)%nat.
  { rewrite Hlen. intros E. by apply Hne, zero_pad_nil, length_zero_iff_nil. }
  rewrite (proj2 (Nat.eqb_neq _ _)) by done. rewrite Hlen, Hz. cbn [negb orb Nat.eqb].
  rewrite !subview_take, firstn_firstn. change (Nat.min kCipherMacSize 2) with kCipherMacSize.
  by rewrite (proj2 (equal_eq _ _)).
Qed.

(** Opening checks the MAC: whatever opens carries the first two bytes of the
    HMAC of its ciphertext under the whole key. *)
Lemma mac_and_decrypt_authentic key mac c p :
  mac_and_decrypt key mac c = Some p ->
  firstn 2 mac = firstn 2 (hmac_sha256 key c) /\ c <> [] /\ (length c mod 16 = 0)%nat /\
  bytes_ok p /\ length p = length c.
Proof.
  unfold mac_and_decrypt, aes128_ecb.
  destruct (_ <? _)%nat; [done|].
  destruct (length c =? 0)%nat eqn:E0; [done|].
  destruct (length c mod kAesBlockSize =? 0)%nat eqn:E1; [|done]. simpl.
  destruct (equal _ _) eqn:E2; [|done]. simpl.
  destruct (_ || _); [done|]. intros Hd.
  apply EVP_decrypt_bytes in Hd as [? ?].
  rewrite !subview_take in E2. apply equal_eq in E2.
  apply Nat.eqb_neq in E0. apply Nat.eqb_eq in E1.
  split_and!; try done. by intros ->.
Qed.

End facts.
