(* ===== verification/Identity.v ===== *)
(** * Node identity ([src/src/crypto/identity.cpp], [identity.h])

    The expanded Ed25519 key of the node: generation, import, the key file,
    signing assembled from libsodium's scalar operations, and the X25519 shared
    secret.  libsodium is a parameter ([CryptoLib]); [EdLaws] states the
    documented behaviour of its scalar arithmetic and of signature
    verification.  The theorems: clamping is idempotent, a key file written by
    [save] loads back as the same identity, no generated identity has a
    reserved node id, and every signature [sign] returns passes [verify]. *)

From S2P Require Import Prelude ByteIO Crypto.

(** ** Definitions *)

(** The outcome of opening and reading a whole file. *)
Inductive FileRead :=
| FMissing            (* cannot be opened: ENOENT *)
| FUnreadable         (* cannot be opened or read for another reason *)
| FContent (b : Bytes).

(** [a[i]] of an array known to be long enough. *)
Definition byte_at (b : Bytes) (i : nat) : Z := nth i b 0.

(** [clamp_scalar]: updates bytes 0 and 31 in place. *)
Definition clamp_scalar (a : Bytes) : Bytes :=
  let a := <[0%nat := Z.land (byte_at a 0) 248]> a in
  let a := <[31%nat := Z.land (byte_at a 31) 127]> a in
  <[31%nat := Z.lor (byte_at a 31) 64]> a.

Record LocalIdentity := mkIdentity { pub_ : Bytes; priv_ : Bytes }.

Definition pub (id : LocalIdentity) : Bytes := pub_ id.
Definition id_of (id : LocalIdentity) : Z := byte_at (pub_ id) 0.

Section identity.
Context `{CryptoLib}.

Definition reduce32 (a : Bytes) : Bytes :=
  crypto_core_ed25519_scalar_reduce (firstn 32 a ++ replicate 32 0).

(** [generate], fed the seeds [randombytes_buf] draws, one per iteration of the
    loop; [None] when they run out before a usable key is found. *)
Fixpoint generate (seeds : list Bytes) : option LocalIdentity :=
  match seeds with
  | [] => None
  | seed :: seeds =>
      let expanded := clamp_scalar (crypto_hash_sha512 seed) in
      match crypto_scalarmult_ed25519_base_noclamp (firstn 32 expanded) with
      | None => generate seeds
      | Some p =>
          if negb (byte_at p 0 =? 0x00) && negb (byte_at p 0 =? 0xff)
          then Some (mkIdentity p expanded)
          else generate seeds
      end
  end.

Definition from_bytes (key : Bytes) : option LocalIdentity :=
  let split :=
    if (length key =? kPrivKeySize)%nat then Some ([], key)
    else if (length key =? kPubKeySize + kPrivKeySize)%nat
    then Some (firstn kPubKeySize key, firstn kPrivKeySize (skipn kPubKeySize key))
    else None in
  match split with
  | None => None
  | Some (claimed_pub, priv) =>
      let priv := clamp_scalar priv in
      match crypto_scalarmult_ed25519_base_noclamp (firstn 32 priv) with
      | None => None
      | Some p =>
          if negb (length claimed_pub =? 0)%nat && negb (equal claimed_pub p) then None
          else Some (mkIdentity p priv)
      end
  end.

(** [while (!raw.empty() && (raw.back() is '\n', '\r' or ' ')) raw.pop_back()] *)
Definition is_trimmed (c : Z) : bool := (c =? 10) || (c =? 13) || (c =? 32).
Fixpoint drop_trimmed (rev_raw : Bytes) : Bytes :=
  match rev_raw with
  | c :: rest => if is_trimmed c then drop_trimmed rest else rev_raw
  | [] => []
  end.
Definition trim_trailing (raw : Bytes) : Bytes := rev (drop_trimmed (rev raw)).

(** [load] returns the identity and whether [error] was set. *)
Definition load (f : FileRead) : option LocalIdentity * bool :=
  match f with
  | FMissing => (None, false)
  | FUnreadable => (None, true)
  | FContent raw =>
      let raw := trim_trailing raw in
      let id := match unhex raw with
                | Some bin => from_bytes bin
                | None => from_bytes raw
                end in
      (id, match id with None => true | Some _ => false end)
  end.

(** The text [save] writes to the temporary file. *)
Definition save_text (id : LocalIdentity) : Bytes := hex (priv_ id) ++ lit "
".

Definition sign (id : LocalIdentity) (msg : Bytes) : Bytes :=
  let a := priv_ id in
  let rh := firstn 32 (skipn 32 (priv_ id)) in
  let r := crypto_core_ed25519_scalar_reduce (crypto_hash_sha512 (rh ++ msg)) in
  match crypto_scalarmult_ed25519_base_noclamp r with
  | None => []
  | Some R =>
      let k := crypto_core_ed25519_scalar_reduce (crypto_hash_sha512 (R ++ pub_ id ++ msg)) in
      let a_red := reduce32 a in
      let ka := crypto_core_ed25519_scalar_mul k a_red in
      let s := crypto_core_ed25519_scalar_add r ka in
      R ++ s
  end.

Definition shared_secret_with (id : LocalIdentity) (peer_pub : Bytes) : option Bytes :=
  if (length peer_pub <? kPubKeySize)%nat then None
  else
    curve_pub ← crypto_sign_ed25519_pk_to_curve25519 (firstn 32 peer_pub);
    crypto_scalarmult_curve25519 (firstn 32 (priv_ id)) curve_pub.

Definition verify (pub msg sig : Bytes) : bool :=
  if (length pub <? kPubKeySize)%nat || (length sig <? kSignatureSize)%nat then false
  else crypto_sign_verify_detached (firstn 64 sig) msg (firstn 32 pub).

End identity.

(** ** What libsodium documents *)

(** Little-endian integers, as the scalar functions read and write them. *)
Fixpoint le_val (b : Bytes) : Z :=
  match b with [] => 0 | x :: b => x + 256 * le_val b end.
Fixpoint le_bytes (n : nat) (v : Z) : Bytes :=
  match n with O => [] | S n => v mod 256 :: le_bytes n (v / 256) end.

(** The sizes of what the library writes: all a start of the daemon relies on. *)
Class EdSizes `{CryptoLib} : Prop := {
  ed_sha512 d : length (crypto_hash_sha512 d) = 64%nat /\ bytes_ok (crypto_hash_sha512 d);
  ed_point n p : crypto_scalarmult_ed25519_base_noclamp n = Some p -> length p = 32%nat /\ bytes_ok p;
}.

(** Scalar arithmetic modulo the order [L] of the base point, multiplication of
    the base point (encoded points are written [base_mul n]), completeness of
    verification for the Ed25519 equation, and agreement of X25519.  The X25519
    function clamps its scalar, so it multiplies by the scalar it is given only
    when that is clamped already: agreement is stated for clamped scalars, which
    is what every [identity_ok] node holds. *)
Class EdLaws `{CryptoLib} (L : Z) (base_mul : Z -> Bytes) : Prop := {
  ed_sizes :: EdSizes;
  ed_L : 0 < L < 2 ^ 253;
  ed_reduce w : length w = 64%nat -> bytes_ok w ->
    crypto_core_ed25519_scalar_reduce w = le_bytes 32 (le_val w mod L);
  ed_mul x y :
    crypto_core_ed25519_scalar_mul (le_bytes 32 (x mod L)) (le_bytes 32 (y mod L))
    = le_bytes 32 ((x * y) mod L);
  ed_add x y :
    crypto_core_ed25519_scalar_add (le_bytes 32 (x mod L)) (le_bytes 32 (y mod L))
    = le_bytes 32 ((x + y) mod L);
  ed_base_mod n : base_mul (n mod L) = base_mul n;
  ed_base_bytes n : length (base_mul n) = 32%nat /\ bytes_ok (base_mul n);
  ed_base n : length n = 32%nat -> bytes_ok n -> le_val n < 2 ^ 255 ->
    crypto_scalarmult_ed25519_base_noclamp n =
    if le_val n mod L =? 0 then None else Some (base_mul (le_val n));
  ed_verify r a msg :
    r mod L <> 0 -> a mod L <> 0 ->
    crypto_sign_verify_detached
      (base_mul r ++ le_bytes 32
         ((r + le_val (crypto_hash_sha512 (base_mul r ++ base_mul a ++ msg)) * a) mod L))
      msg (base_mul a) = true;
  ed_agree a b A B :
    length a = 32%nat -> bytes_ok a -> clamp_scalar a = a ->
    length b = 32%nat -> bytes_ok b -> clamp_scalar b = b ->
    crypto_scalarmult_ed25519_base_noclamp a = Some A ->
    crypto_scalarmult_ed25519_base_noclamp b = Some B ->
    (u ← crypto_sign_ed25519_pk_to_curve25519 A; crypto_scalarmult_curve25519 b u)
    = (u ← crypto_sign_ed25519_pk_to_curve25519 B; crypto_scalarmult_curve25519 a u);
  ed_secret n u s : crypto_scalarmult_curve25519 n u = Some s -> length s = 32%nat /\ bytes_ok s;
}.

(** ** Lemmas *)

Lemma le_bytes_length n v : length (le_bytes n v) = n.
Proof. revert v. induction n; simpl; auto. Qed.

Lemma le_bytes_ok n v : bytes_ok (le_bytes n v).
Proof.
  revert v. induction n as [|n IH]; intros v; simpl; [constructor|].
  apply bytes_ok_cons. split; [|done]. width.
Qed.

Lemma le_val_range b : bytes_ok b -> 0 <= le_val b < 256 ^ zlen b.
Proof.
  induction b as [|x b IH]; simpl; [done|].
  intros [Hx Hb]%bytes_ok_cons. specialize (IH Hb). rewrite zlen_cons.
  rewrite Z.pow_add_r by (pose proof (zlen_nonneg b); lia). width.
Qed.

Lemma le_val_bytes n v : le_val (le_bytes n v) = v mod 256 ^ Z.of_nat n.
Proof.
  revert v. induction n as [|n IH]; intros v; [simpl; by rewrite Z.mod_1_r|].
  cbn [le_bytes le_val]. rewrite IH, Nat2Z.inj_succ, Z.pow_succ_r by lia.
  rewrite Z.rem_mul_r by (try apply Z.pow_nonzero; lia). lia.
Qed.

Lemma le_val_bytes_small n v : 0 <= v < 256 ^ Z.of_nat n -> le_val (le_bytes n v) = v.
Proof. intros. rewrite le_val_bytes. by apply Z.mod_small. Qed.

Lemma le_val_app_zeros b n : le_val (b ++ replicate n 0) = le_val b.
Proof.
  induction b as [|x b IH]; simpl; [|by rewrite IH].
  induction n as [|n IHn]; simpl; lia.
Qed.

Lemma byte_at_insert_eq b i v : (i < length b)%nat -> byte_at (<[i := v]> b) i = v.
Proof.
  intros H. unfold byte_at. apply nth_lookup_Some, list_lookup_insert_eq, H.
Qed.

Lemma byte_at_insert_ne b i j v : i <> j -> byte_at (<[i := v]> b) j = byte_at b j.
Proof.
  intros H. unfold byte_at. rewrite !nth_lookup. by rewrite list_lookup_insert_ne.
Qed.

Lemma byte_at_ok b i : bytes_ok b -> is_u8 (byte_at b i).
Proof.
  intros H. unfold byte_at. rewrite nth_lookup. destruct (b !! i) as [x|] eqn:E; simpl; [|width].
  by eapply (Forall_lookup_1 is_u8).
Qed.

(** The two bytes [clamp_scalar] writes. *)
Definition clamp_lo (x : Z) : Z := Z.land x 248.
Definition clamp_hi (x : Z) : Z := Z.lor (Z.land x 127) 64.

Lemma clamp_scalar_eq a :
  (32 <= length a)%nat ->
  clamp_scalar a = <[31%nat := clamp_hi (byte_at a 31)]> (<[0%nat := clamp_lo (byte_at a 0)]> a).
Proof.
  intros Hl. unfold clamp_scalar, clamp_hi, clamp_lo.
  rewrite byte_at_insert_eq by (rewrite length_insert; lia).
  rewrite byte_at_insert_ne by lia. by rewrite list_insert_insert_eq.
Qed.

Lemma clamp_length a : length (clamp_scalar a) = length a.
Proof. unfold clamp_scalar. by rewrite !length_insert. Qed.

Lemma clamp_byte_facts x :
  is_u8 x -> clamp_lo (clamp_lo x) = clamp_lo x /\ clamp_hi (clamp_hi x) = clamp_hi x /\
  is_u8 (clamp_lo x) /\ 0 <= clamp_hi x < 128.
Proof.
  intros Hx.
  assert (((clamp_lo (clamp_lo x) =? clamp_lo x) && (clamp_hi (clamp_hi x) =? clamp_hi x)
    && bool_decide (is_u8 (clamp_lo x)) && (0 <=? clamp_hi x) && (clamp_hi x <? 128)) = true) as Hb
    by by_range x 0 256.
  rewrite !andb_true_iff, !Z.eqb_eq, bool_decide_eq_true, Z.leb_le, Z.ltb_lt in Hb. tauto.
Qed.

(** Clamping touches the first half of a key only. *)
Lemma clamp_half a : (32 <= length a)%nat -> clamp_scalar a = a -> clamp_scalar (firstn 32 a) = firstn 32 a.
Proof.
  intros Hl Ha. rewrite <- Ha at 2. rewrite !clamp_scalar_eq by (rewrite ?length_take; lia).
  unfold byte_at. rewrite !nth_firstn. simpl. by rewrite !take_insert_lt by lia.
Qed.

Lemma clamp_bytes a : (32 <= length a)%nat -> bytes_ok a -> bytes_ok (clamp_scalar a).
Proof.
  intros Hl Ha. rewrite clamp_scalar_eq by done.
  destruct (clamp_byte_facts _ (byte_at_ok a 0 Ha)) as (_ & _ & H0 & _).
  destruct (clamp_byte_facts _ (byte_at_ok a 31 Ha)) as (_ & _ & _ & H1).
  apply Forall_insert; [by apply Forall_insert|width].
Qed.

Lemma clamp_idemp a :
  (32 <= length a)%nat -> bytes_ok a -> clamp_scalar (clamp_scalar a) = clamp_scalar a.
Proof.
  intros Hl Ha. rewrite (clamp_scalar_eq (clamp_scalar a)) by (by rewrite clamp_length).
  destruct (clamp_byte_facts _ (byte_at_ok a 0 Ha)) as (H0 & _ & _ & _).
  destruct (clamp_byte_facts _ (byte_at_ok a 31 Ha)) as (_ & H1 & _ & _).
  rewrite clamp_scalar_eq by done.
  rewrite (byte_at_insert_ne _ 31 0), !byte_at_insert_eq by (rewrite ?length_insert; lia).
  rewrite H0, H1, (list_insert_insert_ne _ 0 31), list_insert_insert_eq by lia.
  by rewrite list_insert_insert_eq.
Qed.

(** The clamped scalar is below 2^255, so the top bit libsodium would ignore
    is clear. *)
Lemma clamp_below a :
  (32 <= length a)%nat -> bytes_ok a -> le_val (firstn 32 (clamp_scalar a)) < 2 ^ 255.
Proof.
  intros Hl Ha. pose proof (clamp_bytes a Hl Ha) as Hb.
  assert (exists x, firstn 32 (clamp_scalar a) = firstn 31 (clamp_scalar a) ++ [x] /\ 0 <= x < 128)
    as (x & -> & Hx).
  { destruct (lookup_lt_is_Some_2 (clamp_scalar a) 31) as [x E]; [rewrite clamp_length; lia|].
    exists x. split; [by apply take_S_r|].
    apply (nth_lookup_Some _ _ 0) in E as <-. change (nth _ _ _) with (byte_at (clamp_scalar a) 31).
    rewrite clamp_scalar_eq by done. rewrite byte_at_insert_eq by (rewrite length_insert; lia).
    apply clamp_byte_facts. by apply byte_at_ok. }
  assert (forall b, le_val (b ++ [x]) = le_val b + x * 256 ^ zlen b) as ->.
  { induction b as [|y b IH]; simpl; [change (zlen []) with 0; lia|]. rewrite IH, zlen_cons.
    rewrite Z.pow_add_r by (pose proof (zlen_nonneg b); lia). lia. }
  pose proof (le_val_range (firstn 31 (clamp_scalar a)) (bytes_ok_take _ _ Hb)) as Hr.
  assert (zlen (firstn 31 (clamp_scalar a)) = 31) as Hz.
  { unfold zlen. rewrite length_take, clamp_length. lia. }
  rewrite Hz in *. change (2 ^ 255) with (128 * 256 ^ 31). nia.
Qed.

Lemma hex_not_trimmed c : is_hex_char c -> is_trimmed c = false.
Proof. unfold is_hex_char, is_trimmed. intros H. rewrite !orb_false_iff, !Z.eqb_neq. lia. Qed.

Lemma trim_trailing_hex b :
  bytes_ok b -> trim_trailing (hex b ++ [10]) = hex b.
Proof.
  intros Hb. unfold trim_trailing. rewrite rev_app_distr. simpl.
  destruct (rev (hex b)) as [|c l] eqn:E.
  - simpl. by rewrite <- (rev_involutive (hex b)), E.
  - simpl. rewrite hex_not_trimmed; [by rewrite <- E, rev_involutive|].
    eapply (proj1 (List.Forall_forall _ _)); [by apply hex_chars|].
    apply in_rev. rewrite E. by left.
Qed.

(** A usable identity: 64 clamped private bytes and the public key they give. *)
Definition identity_ok `{CryptoLib} (id : LocalIdentity) : Prop :=
  length (priv_ id) = 64%nat /\ bytes_ok (priv_ id) /\ clamp_scalar (priv_ id) = priv_ id /\
  crypto_scalarmult_ed25519_base_noclamp (firstn 32 (priv_ id)) = Some (pub_ id).

Section facts.
Context `{CryptoLib}.

Lemma from_bytes_ok key id : bytes_ok key -> from_bytes key = Some id -> identity_ok id.
Proof.
  intros Hb. unfold from_bytes, kPrivKeySize, kPubKeySize.
  assert (forall cl priv, length priv = 64%nat -> bytes_ok priv ->
    match crypto_scalarmult_ed25519_base_noclamp (firstn 32 (clamp_scalar priv)) with
    | None => None
    | Some p => if negb (length cl =? 0)%nat && negb (equal cl p) then None
                else Some (mkIdentity p (clamp_scalar priv))
    end = Some id -> identity_ok id) as Hgen.
  { intros cl priv Hl Hp. destruct (crypto_scalarmult_ed25519_base_noclamp _) eqn:E; [|done].
    destruct (_ && _); [done|]. intros [= <-].
    split_and!; simpl; [by rewrite clamp_length|apply clamp_bytes; [lia|done]
                       |apply clamp_idemp; [lia|done]|done]. }
  destruct (length key =? 64)%nat eqn:E1.
  - apply Nat.eqb_eq in E1. by apply Hgen.
  - destruct (length key =? 32 + 64)%nat eqn:E2; [|done]. apply Nat.eqb_eq in E2.
    apply Hgen; [rewrite length_take, length_drop; lia|bytes].
Qed.

Lemma from_bytes_priv id : identity_ok id -> from_bytes (priv_ id) = Some id.
Proof.
  intros (Hl & Hb & Hc & Hp). unfold from_bytes, kPrivKeySize. rewrite Hl. simpl.
  rewrite Hc, Hp. by destruct id.
Qed.

(** The key file survives a restart: what [save] writes, [load] reads back as
    the same identity, with no error. *)
Theorem identity_save_load id :
  identity_ok id -> load (FContent (save_text id)) = (Some id, false).
Proof.
  intros Hid. pose proof Hid as (_ & Hb & _ & _). unfold load, save_text.
  change (lit _) with [10]. rewrite trim_trailing_hex, unhex_hex by done.
  by rewrite from_bytes_priv.
Qed.

(** A raw 64-byte key file is documented to be accepted, but one whose last byte
    is a space, a line feed or a carriage return is trimmed to 63 bytes and
    refused, although the same 64 bytes are a valid key. *)
Theorem identity_raw_file_trimmed key last :
  length key = 63%nat -> is_trimmed last = true -> unhex (trim_trailing key) = None ->
  load (FContent (key ++ [last])) = (None, true).
Proof.
  intros Hl Ht Hx. unfold load, trim_trailing in *. rewrite rev_app_distr. simpl. rewrite Ht, Hx.
  assert (length (rev (drop_trimmed (rev key))) <= 63)%nat as Hle.
  { rewrite length_rev, <- Hl, <- (length_rev key). generalize (rev key) as l. clear.
    induction l as [|c l IH]; simpl; [lia|]. destruct (is_trimmed c); simpl; lia. }
  unfold from_bytes, kPrivKeySize, kPubKeySize.
  by rewrite !(proj2 (Nat.eqb_neq _ _)) by lia.
Qed.

End facts.

Section sizes.
Context `{EdSizes}.

Lemma pub_length id : identity_ok id -> length (pub_ id) = 32%nat /\ bytes_ok (pub_ id).
Proof. intros (_ & _ & _ & Hp). by eapply ed_point. Qed.

(** No identity [generate] returns has a node id MeshCore reserves (0x00,
    0xff), and what it returns is a consistent key pair. *)
Theorem generate_usable seeds id :
  generate seeds = Some id ->
  identity_ok id /\ id_of id <> 0x00 /\ id_of id <> 0xff.
Proof.
  induction seeds as [|seed seeds IH]; simpl; [done|].
  destruct (ed_sha512 seed) as [Hl Hb].
  destruct (crypto_scalarmult_ed25519_base_noclamp _) as [p|] eqn:E; [|done].
  destruct (_ && _) eqn:E2; [|done]. intros [= <-].
  apply andb_true_iff in E2 as [E2 E3]. apply negb_true_iff, Z.eqb_neq in E2, E3.
  split; [|done]. split_and!; simpl; [by rewrite clamp_length|apply clamp_bytes; [lia|done]
    |apply clamp_idemp; [lia|done]|done].
Qed.

End sizes.

Section signing.
Context `{EdLaws}.

Lemma L_fits x : 0 <= x mod L < 256 ^ Z.of_nat 32.
Proof.
  pose proof ed_L. pose proof (Z.mod_pos_bound x L ltac:(lia)).
  assert (2 ^ 253 < 256 ^ Z.of_nat 32) by done. lia.
Qed.

Lemma scalar_of_hash d :
  crypto_core_ed25519_scalar_reduce (crypto_hash_sha512 d)
  = le_bytes 32 (le_val (crypto_hash_sha512 d) mod L).
Proof. destruct (ed_sha512 d). by apply ed_reduce. Qed.

Lemma base_of_scalar x :
  crypto_scalarmult_ed25519_base_noclamp (le_bytes 32 (x mod L))
  = if x mod L =? 0 then None else Some (base_mul x).
Proof.
  pose proof ed_L. pose proof (L_fits x) as Hf.
  rewrite ed_base; [|by rewrite le_bytes_length|apply le_bytes_ok|].
  - rewrite le_val_bytes_small by done. rewrite Zmod_mod.
    destruct (_ =? 0); [done|]. by rewrite ed_base_mod.
  - rewrite le_val_bytes_small by done. pose proof (Z.mod_pos_bound x L ltac:(lia)).
    assert (2 ^ 253 < 2 ^ 255) by done. lia.
Qed.

(** The public key of an identity is the base point times its scalar. *)
Lemma identity_pub id :
  identity_ok id ->
  pub_ id = base_mul (le_val (firstn 32 (priv_ id))) /\ le_val (firstn 32 (priv_ id)) mod L <> 0.
Proof.
  intros (Hl & Hb & Hc & Hp). rewrite ed_base in Hp.
  - destruct (_ =? 0) eqn:E; [done|]. apply Z.eqb_neq in E. by simplify_eq.
  - rewrite length_take. lia.
  - bytes.
  - rewrite <- Hc. apply clamp_below; [lia|done].
Qed.

Lemma sign_eq id msg :
  identity_ok id -> sign id msg <> [] ->
  let a := le_val (firstn 32 (priv_ id)) in
  exists r, r mod L <> 0 /\ sign id msg = base_mul r ++ le_bytes 32
    ((r + le_val (crypto_hash_sha512 (base_mul r ++ base_mul a ++ msg)) * a) mod L).
Proof.
  intros Hid Hne. destruct (identity_pub id Hid) as [Hp _]. revert Hne. unfold sign.
  rewrite scalar_of_hash, base_of_scalar.
  set (r := le_val (crypto_hash_sha512 (firstn 32 (skipn 32 (priv_ id)) ++ msg))).
  destruct (r mod L =? 0) eqn:E; [done|]. intros _. apply Z.eqb_neq in E.
  exists r. split; [done|]. rewrite scalar_of_hash, Hp.
  assert (reduce32 (priv_ id) = le_bytes 32 (le_val (firstn 32 (priv_ id)) mod L)) as ->.
  { destruct Hid as (Hl & Hb & _). unfold reduce32. rewrite ed_reduce.
    - by rewrite le_val_app_zeros.
    - rewrite length_app, length_take, length_replicate. lia.
    - apply bytes_ok_app. split; [bytes|]. apply Forall_replicate. width. }
  by rewrite ed_mul, ed_add.
Qed.

Lemma sign_accepted id msg :
  identity_ok id -> sign id msg <> [] -> verify (pub_ id) msg (sign id msg) = true.
Proof.
  intros Hid Hne. destruct (sign_eq id msg Hid Hne) as (r & Hr & ->).
  destruct (identity_pub id Hid) as [-> Ha].
  destruct (ed_base_bytes r) as [Hlr _].
  destruct (ed_base_bytes (le_val (firstn 32 (priv_ id)))) as [Hla _].
  unfold verify. rewrite length_app, Hla, Hlr, le_bytes_length. simpl (_ || _).
  rewrite (firstn_all2 (n := 64)) by (rewrite length_app, Hlr, le_bytes_length; done).
  rewrite (firstn_all2 (n := 32) (base_mul _)) by (by rewrite Hla). by apply ed_verify.
Qed.

Lemma sign_length id msg :
  identity_ok id -> sign id msg <> [] -> length (sign id msg) = 64%nat /\ bytes_ok (sign id msg).
Proof.
  intros Hid Hne. destruct (sign_eq id msg Hid Hne) as (r & Hr & ->).
  destruct (ed_base_bytes r) as [Hlr Hbr]. rewrite length_app, Hlr, le_bytes_length.
  split; [done|]. apply bytes_ok_app. split; [done|apply le_bytes_ok].
Qed.

(** Every signature [sign] returns passes [verify] under the node's own
    public key: the scalars it assembles satisfy the Ed25519 equation.  (An empty
    result is the degenerate nonce, probability 2^-252.) *)
Theorem sign_verifies id msg :
  identity_ok id -> sign id msg <> [] -> verify (pub_ id) msg (sign id msg) = true.
Proof. apply sign_accepted. Qed.

(** Two identities agree on their shared secret. *)
Lemma shared_secret_agree x y :
  identity_ok x -> identity_ok y ->
  shared_secret_with x (pub_ y) = shared_secret_with y (pub_ x).
Proof.
  intros Hx Hy. destruct (identity_pub x Hx) as [Hpx _]. destruct (identity_pub y Hy) as [Hpy _].
  destruct (ed_base_bytes (le_val (firstn 32 (priv_ x)))) as [Lx _].
  destruct (ed_base_bytes (le_val (firstn 32 (priv_ y)))) as [Ly _].
  rewrite <- Hpx in Lx. rewrite <- Hpy in Ly.
  unfold shared_secret_with. rewrite Lx, Ly. simpl.
  rewrite (firstn_all2 (n := 32) (pub_ y)), (firstn_all2 (n := 32) (pub_ x)) by lia.
  destruct Hx as (Hlx & Hox & Hcx & Hbx), Hy as (Hly & Hoy & Hcy & Hby). symmetry.
  eapply ed_agree; [| | | | | |exact Hbx|exact Hby];
    first [by apply clamp_half; [lia|] | by bytes | rewrite length_take; lia].
Qed.

End signing.
