(* ===== verification/Toy.v ===== *)
(** * A concrete instance of the cryptographic parameters

    OpenSSL and libsodium are parameters of the development; this file gives
    them one executable instance that satisfies [CryptoLaws] and [EdLaws], so
    that the theorems stated under those hypotheses can be run on concrete
    input.  The group is the integers modulo the order of the Ed25519 base point
    (the discrete logarithm is trivial in it), the cipher adds the first key
    byte, and the digests are a polynomial hash.  Nothing but the witnesses
    depends on it. *)

From S2P Require Import Prelude ByteIO Crypto Identity.

Definition toy_L : Z := 2 ^ 252 + 27742317777372353535851937790883648493.

Definition toy_digest (n : nat) (d : Bytes) : Bytes :=
  le_bytes n (fold_left (fun acc b => (acc * 257 + b + 1) mod (2 ^ 512 - 569)) d 7).

Definition toy_base_mul (n : Z) : Bytes := le_bytes 32 (n mod toy_L).

#[export] Instance toy_crypto : CryptoLib := {
  SHA256 := toy_digest 32;
  HMAC_SHA256 k d := toy_digest 32 (k ++ d);
  EVP_aes_128_ecb enc k d :=
    Some (map (fun b => u8 (if enc : bool then b + hd 0 k else b - hd 0 k)) d);
  crypto_hash_sha512 := toy_digest 64;
  crypto_core_ed25519_scalar_reduce w := le_bytes 32 (le_val w mod toy_L);
  crypto_core_ed25519_scalar_mul x y := le_bytes 32 ((le_val x * le_val y) mod toy_L);
  crypto_core_ed25519_scalar_add x y := le_bytes 32 ((le_val x + le_val y) mod toy_L);
  crypto_scalarmult_ed25519_base_noclamp n :=
    if le_val n mod toy_L =? 0 then None else Some (toy_base_mul (le_val n));
  crypto_sign_ed25519_pk_to_curve25519 p := Some p;
  crypto_scalarmult_curve25519 n p :=
    if (le_val n * le_val p) mod toy_L =? 0 then None
    else Some (le_bytes 32 ((le_val n * le_val p) mod toy_L));
  crypto_sign_verify_detached sig msg pk :=
    let R := firstn 32 sig in
    let k := le_val (toy_digest 64 (R ++ pk ++ msg)) in
    le_val (skipn 32 sig) mod toy_L =? (le_val R + k * le_val pk) mod toy_L;
}.

Lemma toy_digest_ok n d : length (toy_digest n d) = n /\ bytes_ok (toy_digest n d).
Proof. split; [apply le_bytes_length|apply le_bytes_ok]. Qed.

Lemma toy_cipher_ok (f : Z -> Z) d : length (map (fun b => u8 (f b)) d) = length d /\ bytes_ok (map (fun b => u8 (f b)) d).
Proof.
  split; [apply length_map|]. apply Forall_map, Forall_true. intros b. apply u8_range.
Qed.

#[export] Instance toy_crypto_laws : CryptoLaws.
Proof.
  constructor; cbn [SHA256 HMAC_SHA256 EVP_aes_128_ecb toy_crypto].
  - intros d. apply toy_digest_ok.
  - intros d. apply toy_digest_ok.
  - intros k d. apply toy_digest_ok.
  - intros k d. apply toy_digest_ok.
  - intros k d _ _ Hd. eexists. split; [done|].
    destruct (toy_cipher_ok (fun b => b + hd 0 k) d) as [Hl Hb]. split_and!; [done|done|].
    f_equal. rewrite map_map. rewrite <- (map_id d) at 2. apply map_ext_Forall.
    eapply Forall_impl; [|exact Hd]. intros b Hb'. unfold bytes_ok in *. simpl.
    width.
  - intros k c d [= <-]. apply toy_cipher_ok.
Qed.

Lemma toy_le_val x : le_val (le_bytes 32 (x mod toy_L)) = x mod toy_L.
Proof.
  apply le_val_bytes_small. pose proof (Z.mod_pos_bound x toy_L eq_refl).
  assert (toy_L < 256 ^ Z.of_nat 32) by done. lia.
Qed.

Lemma toy_base_val x : le_val (toy_base_mul x) = x mod toy_L.
Proof. apply toy_le_val. Qed.

#[export] Instance toy_ed_sizes : EdSizes.
Proof.
  constructor; cbn [crypto_hash_sha512 crypto_scalarmult_ed25519_base_noclamp toy_crypto].
  - intros d. apply toy_digest_ok.
  - intros n p. destruct (_ =? 0); [done|]. intros [= <-]. split; [apply le_bytes_length|apply le_bytes_ok].
Qed.

#[export] Instance toy_ed_laws : EdLaws toy_L toy_base_mul.
Proof.
  constructor; [apply _|..]; cbn [crypto_hash_sha512 crypto_core_ed25519_scalar_reduce
    crypto_core_ed25519_scalar_mul crypto_core_ed25519_scalar_add
    crypto_scalarmult_ed25519_base_noclamp crypto_sign_ed25519_pk_to_curve25519
    crypto_scalarmult_curve25519 crypto_sign_verify_detached toy_crypto].
  - done.
  - done.
  - intros x y. by rewrite !toy_le_val, <- Zmult_mod.
  - intros x y. by rewrite !toy_le_val, <- Zplus_mod.
  - intros n. unfold toy_base_mul. by rewrite Zmod_mod.
  - intros n. split; [apply le_bytes_length|apply le_bytes_ok].
  - done.
  - intros r a msg _ _. cbv zeta. apply Z.eqb_eq.
    rewrite take_app_exact, drop_app_exact by apply le_bytes_length.
    rewrite toy_le_val, Zmod_mod, (toy_base_val r), (toy_base_val a).
    rewrite Zplus_mod_idemp_l, <- (Zplus_mod_idemp_r (_ * (a mod _))), Zmult_mod_idemp_r.
    by rewrite Zplus_mod_idemp_r.
  - intros a b A B _ _ _ _ _ _. destruct (le_val a mod toy_L =? 0); [done|].
    destruct (le_val b mod toy_L =? 0); [done|]. intros [= <-] [= <-]. cbn [mbind option_bind].
    unfold toy_base_mul. rewrite !toy_le_val.
    rewrite !Zmult_mod_idemp_r, (Z.mul_comm (le_val a)). done.
  - intros n u s. destruct (_ =? 0); [done|]. intros E. apply (inj Some) in E. subst s.
    split; [apply le_bytes_length|apply le_bytes_ok].
Qed.

(** Two nodes, generated from fixed seeds. *)
Definition toy_alice : LocalIdentity :=
  default (mkIdentity [] []) (generate [replicate 32 1]).
Definition toy_bob : LocalIdentity :=
  default (mkIdentity [] []) (generate [replicate 32 2]).

Lemma toy_alice_ok : identity_ok toy_alice.
Proof.
  split_and!; vm_compute; [done| |done|done]. repeat constructor; done.
Qed.

Lemma toy_bob_ok : identity_ok toy_bob.
Proof.
  split_and!; vm_compute; [done| |done|done]. repeat constructor; done.
Qed.

(** ** Witnesses for the identity theorems *)

Lemma identity_save_load_witness :
  load (FContent (save_text toy_alice)) = (Some toy_alice, false).
Proof. apply identity_save_load. exact toy_alice_ok. Defined.

Lemma identity_raw_file_trimmed_witness :
  from_bytes (replicate 63 7 ++ [32]) <> None /\
  load (FContent (replicate 63 7 ++ [32])) = (None, true).
Proof.
  split; [vm_compute; discriminate|]. apply identity_raw_file_trimmed; vm_compute; reflexivity.
Defined.

Lemma sign_verifies_witness :
  verify (pub_ toy_alice) [104; 105] (sign toy_alice [104; 105]) = true.
Proof.
  apply (sign_verifies (L := toy_L) (base_mul := toy_base_mul)); [exact toy_alice_ok|].
  vm_compute. discriminate.
Defined.

Lemma generate_usable_witness :
  identity_ok toy_bob /\ id_of toy_bob <> 0x00 /\ id_of toy_bob <> 0xff.
Proof.
  apply (generate_usable [replicate 32 2]).
  vm_compute. reflexivity.
Defined.
