(* ===== verification/Packet.v ===== *)
(** * The MeshCore packet ([src/src/proto/packet.h], [packet.cpp])

    The wire format every transmission uses: a header byte, optional transport
    codes, the packed path length, the path and the payload.  The theorems:
    decoding is total and rejects exactly the malformed inputs it names, a
    decoded packet re-encodes to the bytes it came from, a valid packet decodes
    to itself, everything decoded may be retransmitted, relaying keeps a packet
    valid, and the dedup hash is unaffected by the path. *)

From S2P Require Import Prelude ByteIO Floats Crypto.

Definition kMaxPathSize : nat := 64.
Definition kMaxPayloadSize : nat := 184.
Definition kMaxPacketSize : nat := 255.

Inductive RouteType := TransportFlood | Flood | Direct | TransportDirect.

#[export] Instance RouteType_eq_dec : EqDecision RouteType.
Proof. solve_decision. Defined.

Definition route_to_u8 (t : RouteType) : Z :=
  match t with TransportFlood => 0 | Flood => 1 | Direct => 2 | TransportDirect => 3 end.

(** [static_cast<RouteType>(header & kRouteMask)]: the mask leaves 0..3. *)
Definition route_of_u8 (v : Z) : RouteType :=
  if v =? 0 then TransportFlood else if v =? 1 then Flood else if v =? 2 then Direct
  else TransportDirect.

(** [PayloadType] is an [enum class : uint8_t]; a decoded packet can hold the
    reserved codes 0x0C to 0x0E too, so the type is its underlying byte. *)
Module PayloadType.
Definition Req : Z := 0.
Definition Response : Z := 1.
Definition TxtMsg : Z := 2.
Definition Ack : Z := 3.
Definition Advert : Z := 4.
Definition GrpTxt : Z := 5.
Definition GrpData : Z := 6.
Definition AnonReq : Z := 7.
Definition Path : Z := 8.
Definition Trace : Z := 9.
Definition Multipart : Z := 10.
Definition Control : Z := 11.
Definition RawCustom : Z := 15.
End PayloadType.

Definition kRouteMask : Z := 0x03.
Definition kPayloadTypeMask : Z := 0x3C.
Definition kPayloadVerMask : Z := 0xC0.

(** Field names carry the prefix [p_]; [p_internal] is [Packet::internal]. *)
Record Packet := mkPacket {
  p_payload_version : Z;
  p_route : RouteType;
  p_type : Z;
  p_transport_code1 : Z;
  p_transport_code2 : Z;
  p_path_hash_size : nat;
  p_path : Bytes;
  p_payload : Bytes;
  p_rssi : Z;
  p_snr : float;
  p_rx_millis : Z;
  p_internal : bool;
}.

(** The member initialisers of the struct. *)
Definition Packet_default : Packet :=
  mkPacket 0 Flood PayloadType.Advert 0 0 1 [] [] 0 (S754_zero false) 0 false.

Definition set_path (p : Packet) (path : Bytes) : Packet :=
  mkPacket (p_payload_version p) (p_route p) (p_type p) (p_transport_code1 p)
    (p_transport_code2 p) (p_path_hash_size p) path (p_payload p) (p_rssi p) (p_snr p)
    (p_rx_millis p) (p_internal p).

(** A fresh packet of the given type, route, path and payload, as the senders
    fill one in field by field. *)
Definition make_packet (ty : Z) (route : RouteType) (hash_size : nat) (path payload : Bytes) : Packet :=
  mkPacket 0 route ty 0 0 hash_size path payload 0 (S754_zero false) 0 false.

Definition set_metadata (p : Packet) (rssi : Z) (snr : float) (rx_millis : Z) : Packet :=
  mkPacket (p_payload_version p) (p_route p) (p_type p) (p_transport_code1 p)
    (p_transport_code2 p) (p_path_hash_size p) (p_path p) (p_payload p) rssi snr
    rx_millis (p_internal p).

Definition has_transport_codes (p : Packet) : bool :=
  bool_decide (p_route p = TransportFlood) || bool_decide (p_route p = TransportDirect).

Definition is_flood (p : Packet) : bool :=
  bool_decide (p_route p = Flood) || bool_decide (p_route p = TransportFlood).

Definition is_direct (p : Packet) : bool :=
  bool_decide (p_route p = Direct) || bool_decide (p_route p = TransportDirect).

Definition hop_count (p : Packet) : nat :=
  if (p_path_hash_size p =? 0)%nat then 0%nat
  else (length (p_path p) / p_path_hash_size p)%nat.

Definition packed_path_len (p : Packet) : Z :=
  let hash_size := if (p_path_hash_size p =? 0)%nat then 1%nat else p_path_hash_size p in
  let hops := (length (p_path p) / hash_size)%nat in
  u8 (Z.lor (Z.land (Z.of_nat hops) 0x3F) (Z.shiftl (Z.of_nat hash_size - 1) 6)).

(** [bool push_hop(hash)]: [None] is the [false] return, which leaves the
    packet untouched. *)
Definition push_hop (p : Packet) (hash : Bytes) : option Packet :=
  if (p_path_hash_size p =? 0)%nat || (length hash <? p_path_hash_size p)%nat then None
  else if (kMaxPathSize <? length (p_path p) + p_path_hash_size p)%nat then None
  else if (63 <=? hop_count p)%nat then None
  else Some (set_path p (p_path p ++ firstn (p_path_hash_size p) hash)).

Definition first_hop (p : Packet) : Bytes :=
  if (length (p_path p) <? p_path_hash_size p)%nat then []
  else firstn (p_path_hash_size p) (p_path p).

Definition pop_hop (p : Packet) : Packet :=
  if (length (p_path p) <? p_path_hash_size p)%nat then set_path p []
  else set_path p (skipn (p_path_hash_size p) (p_path p)).

Definition decode (raw : Bytes) : option Packet :=
  let r := Reader.make raw in
  let '(header, r) := Reader.u8 r in
  if negb (Reader.ok r) then None else
  let route := route_of_u8 (Z.land header kRouteMask) in
  let type := Z.shiftr (Z.land header kPayloadTypeMask) 2 in
  let payload_version := u8 (Z.shiftr (Z.land header kPayloadVerMask) 6) in
  if 0 <? payload_version then None else
  let transport := bool_decide (route = TransportFlood) || bool_decide (route = TransportDirect) in
  let '(code1, code2, r) :=
    if transport
    then let '(c1, r) := Reader.u16 r in let '(c2, r) := Reader.u16 r in (c1, c2, r)
    else (0, 0, r) in
  if transport && negb (Reader.ok r) then None else
  let '(path_len, r) := Reader.u8 r in
  if negb (Reader.ok r) then None else
  let hops := Z.to_nat (Z.land path_len 0x3F) in
  let path_hash_size := Z.to_nat (u8 (Z.shiftr (Z.land path_len 0xC0) 6 + 1)) in
  if (path_hash_size =? 4)%nat then None else
  let path_bytes := (hops * path_hash_size)%nat in
  if (kMaxPathSize <? path_bytes)%nat then None else
  let '(path, r) := Reader.take path_bytes r in
  if negb (Reader.ok r) then None else
  let '(payload, r) := Reader.rest r in
  if (length payload =? 0)%nat then None else
  if (kMaxPayloadSize <? length payload)%nat then None else
  Some (mkPacket payload_version route type code1 code2 path_hash_size path payload
          0 (S754_zero false) 0 false).

Definition valid (p : Packet) : bool :=
  if (p_path_hash_size p <? 1)%nat || (3 <? p_path_hash_size p)%nat then false
  else if (kMaxPathSize <? length (p_path p))%nat
          || negb (length (p_path p) mod p_path_hash_size p =? 0)%nat then false
  else if (63 <? hop_count p)%nat || (kMaxPayloadSize <? length (p_payload p))%nat then false
  else
    let transport_bytes := (if has_transport_codes p then 4 else 0)%nat in
    (2 + transport_bytes + length (p_path p) + length (p_payload p) <=? kMaxPacketSize)%nat.

(** The header byte [encode] writes. *)
Definition header_of (route : RouteType) (type payload_version : Z) : Z :=
  Z.lor (Z.lor (u8 (Z.land (route_to_u8 route) kRouteMask))
               (u8 (Z.land (Z.shiftl type 2) kPayloadTypeMask)))
        (u8 (Z.land (Z.shiftl payload_version 6) kPayloadVerMask)).

Definition encode (p : Packet) : Bytes :=
  let out := [header_of (p_route p) (p_type p) (p_payload_version p)] in
  let out := if has_transport_codes p
             then put_u16 (put_u16 out (p_transport_code1 p)) (p_transport_code2 p)
             else out in
  let out := out ++ [packed_path_len p] in
  let out := put_bytes out (p_path p) in
  put_bytes out (p_payload p).

Section dedup.
Context `{CryptoLib}.

Definition dedup_hash (p : Packet) : Bytes :=
  let buf := [u8 (p_type p)] in
  let buf := if p_type p =? PayloadType.Trace then put_u16 buf (packed_path_len p) else buf in
  ack_hash (put_bytes buf (p_payload p)).

End dedup.

(** ** Lemmas: the header and path-length bytes *)

(** The fields of the header byte do not overlap. *)
Lemma header_fields r t :
  0 <= t < 16 ->
  let h := header_of r t 0 in
  route_of_u8 (Z.land h kRouteMask) = r /\
  Z.shiftr (Z.land h kPayloadTypeMask) 2 = t /\
  u8 (Z.shiftr (Z.land h kPayloadVerMask) 6) = 0 /\ is_u8 h.
Proof.
  intros Ht. cbv zeta.
  assert ((bool_decide (route_of_u8 (Z.land (header_of r t 0) kRouteMask) = r)
    && (Z.shiftr (Z.land (header_of r t 0) kPayloadTypeMask) 2 =? t)
    && (u8 (Z.shiftr (Z.land (header_of r t 0) kPayloadVerMask) 6) =? 0)
    && bool_decide (is_u8 (header_of r t 0))) = true) as Hb.
  { destruct r; by_range t 0 16. }
  rewrite !andb_true_iff, !bool_decide_eq_true, !Z.eqb_eq in Hb. tauto.
Qed.

(** A header byte of version 0 is rebuilt from its route and type. *)
Lemma header_rebuild h :
  is_u8 h -> (0 <? u8 (Z.shiftr (Z.land h kPayloadVerMask) 6)) = false ->
  header_of (route_of_u8 (Z.land h kRouteMask)) (Z.shiftr (Z.land h kPayloadTypeMask) 2)
    (u8 (Z.shiftr (Z.land h kPayloadVerMask) 6)) = h
  /\ u8 (Z.shiftr (Z.land h kPayloadVerMask) 6) = 0
  /\ 0 <= Z.shiftr (Z.land h kPayloadTypeMask) 2 < 16.
Proof.
  intros Hh Hv.
  assert (((0 <? u8 (Z.shiftr (Z.land h kPayloadVerMask) 6)) ||
    ((header_of (route_of_u8 (Z.land h kRouteMask)) (Z.shiftr (Z.land h kPayloadTypeMask) 2)
       (u8 (Z.shiftr (Z.land h kPayloadVerMask) 6)) =? h)
    && (u8 (Z.shiftr (Z.land h kPayloadVerMask) 6) =? 0)
    && (0 <=? Z.shiftr (Z.land h kPayloadTypeMask) 2)
    && (Z.shiftr (Z.land h kPayloadTypeMask) 2 <? 16))) = true) as Hb by by_range h 0 256.
  rewrite Hv in Hb. simpl in Hb.
  rewrite !andb_true_iff, !Z.eqb_eq, Z.leb_le, Z.ltb_lt in Hb. tauto.
Qed.

(** The packed path-length byte of [n] hops of [hs] bytes, as both the packet
    header and a returned path carry it. *)
Definition pack_len (n hs : nat) : Z :=
  u8 (Z.lor (Z.land (Z.of_nat n) 0x3F) (Z.shiftl (Z.of_nat hs - 1) 6)).

Lemma pack_len_fields n hs :
  (n <= 63)%nat -> (1 <= hs <= 3)%nat ->
  Z.to_nat (Z.land (pack_len n hs) 0x3F) = n /\
  Z.shiftr (Z.land (pack_len n hs) 0xC0) 6 = Z.of_nat hs - 1 /\
  Z.shiftr (pack_len n hs) 6 = Z.of_nat hs - 1 /\ is_u8 (pack_len n hs).
Proof.
  intros Hn Hh. unfold pack_len.
  assert (exists k, Z.of_nat n = k /\ 0 <= k < 64) as (k & Hk & Hr) by (exists (Z.of_nat n); lia).
  replace n with (Z.to_nat k) by lia. rewrite Z2Nat.id by lia.
  assert (((Z.land (u8 (Z.lor (Z.land k 63) (Z.shiftl (Z.of_nat hs - 1) 6))) 0x3F =? k) &&
    (Z.shiftr (Z.land (u8 (Z.lor (Z.land k 63) (Z.shiftl (Z.of_nat hs - 1) 6))) 0xC0) 6 =? Z.of_nat hs - 1) &&
    (Z.shiftr (u8 (Z.lor (Z.land k 63) (Z.shiftl (Z.of_nat hs - 1) 6))) 6 =? Z.of_nat hs - 1)) = true) as Hb.
  { assert (hs = 1 \/ hs = 2 \/ hs = 3)%nat as Hs by lia. destruct_or! Hs; subst hs; by_range k 0 64. }
  rewrite !andb_true_iff, !Z.eqb_eq in Hb. destruct Hb as [[-> ->] ->].
  split_and!; auto with core_bytes.
Qed.

Lemma pack_len_rebuild v :
  is_u8 v -> Z.to_nat (u8 (Z.shiftr (Z.land v 0xC0) 6 + 1)) <> 4%nat ->
  pack_len (Z.to_nat (Z.land v 0x3F)) (Z.to_nat (u8 (Z.shiftr (Z.land v 0xC0) 6 + 1))) = v /\
  (Z.to_nat (Z.land v 0x3F) <= 63)%nat /\
  (1 <= Z.to_nat (u8 (Z.shiftr (Z.land v 0xC0) 6 + 1)) <= 3)%nat.
Proof.
  intros Hv H4.
  assert (((Z.to_nat (u8 (Z.shiftr (Z.land v 0xC0) 6 + 1)) =? 4)%nat ||
    ((pack_len (Z.to_nat (Z.land v 0x3F)) (Z.to_nat (u8 (Z.shiftr (Z.land v 0xC0) 6 + 1))) =? v)
    && (Z.to_nat (Z.land v 0x3F) <=? 63)%nat
    && (1 <=? Z.to_nat (u8 (Z.shiftr (Z.land v 0xC0) 6 + 1)))%nat
    && (Z.to_nat (u8 (Z.shiftr (Z.land v 0xC0) 6 + 1)) <=? 3)%nat)) = true) as Hb by by_range v 0 256.
  rewrite (proj2 (Nat.eqb_neq _ _) H4) in Hb. cbn [orb] in Hb.
  rewrite !andb_true_iff, Z.eqb_eq, !Nat.leb_le in Hb. tauto.
Qed.

(** ** Well-formed packets *)

(** What [valid()] establishes, as arithmetic. *)
Record shape_ok (p : Packet) : Prop := {
  so_hash : (1 <= p_path_hash_size p <= 3)%nat;
  so_path : (length (p_path p) <= 64)%nat;
  so_aligned : (length (p_path p) mod p_path_hash_size p = 0)%nat;
  so_hops : (hop_count p <= 63)%nat;
  so_payload : (length (p_payload p) <= 184)%nat;
}.

Lemma valid_spec p : valid p = true <-> shape_ok p.
Proof.
  unfold valid, kMaxPathSize, kMaxPayloadSize, kMaxPacketSize. split.
  - intros H. split_cases; simpl in *;
      rewrite ?orb_false_iff, ?negb_false_iff, ?Nat.ltb_ge, ?Nat.eqb_eq in *; destruct_and?;
      constructor; lia.
  - intros [? ? Ha ? ?]. rewrite !(proj2 (Nat.ltb_ge _ _)) by lia.
    rewrite (proj2 (Nat.eqb_eq _ _) Ha). simpl. apply Nat.leb_le.
    destruct (has_transport_codes p); lia.
Qed.

(** A packet that can be put on the wire without losing information: valid,
    version 0, a four-bit type, byte-sized fields and a payload. *)
Record sendable (p : Packet) : Prop := {
  sd_valid : valid p = true;
  sd_version : p_payload_version p = 0;
  sd_type : 0 <= p_type p < 16;
  sd_codes : is_u16 (p_transport_code1 p) /\ is_u16 (p_transport_code2 p);
  sd_path : bytes_ok (p_path p);
  sd_payload : bytes_ok (p_payload p) /\ p_payload p <> [];
}.

(** What of a packet the wire carries: the receive metadata is not sent, and
    transport codes only on the transport routes. *)
Definition wire_image (p : Packet) : Packet :=
  mkPacket (p_payload_version p) (p_route p) (p_type p)
    (if has_transport_codes p then p_transport_code1 p else 0)
    (if has_transport_codes p then p_transport_code2 p else 0)
    (p_path_hash_size p) (p_path p) (p_payload p) 0 (S754_zero false) 0 false.

Lemma hop_count_eq p : shape_ok p -> hop_count p = (length (p_path p) / p_path_hash_size p)%nat.
Proof.
  intros [? _ _ _ _]. unfold hop_count. by rewrite (proj2 (Nat.eqb_neq _ _)) by lia.
Qed.

Lemma packed_path_len_eq p :
  shape_ok p -> packed_path_len p = pack_len (hop_count p) (p_path_hash_size p).
Proof.
  intros H. rewrite (hop_count_eq _ H). destruct H as [? _ _ _ _]. unfold packed_path_len.
  by rewrite (proj2 (Nat.eqb_neq _ _)) by lia.
Qed.

Lemma hops_times_size p :
  shape_ok p -> (hop_count p * p_path_hash_size p = length (p_path p))%nat.
Proof.
  intros H. rewrite (hop_count_eq _ H). destruct H as [? _ Ha _ _].
  pose proof (Nat.div_mod_eq (length (p_path p)) (p_path_hash_size p)). lia.
Qed.

Lemma encode_app p :
  encode p = header_of (p_route p) (p_type p) (p_payload_version p) ::
    (if has_transport_codes p
     then put_u16 [] (p_transport_code1 p) ++ put_u16 [] (p_transport_code2 p) else []) ++
    packed_path_len p :: p_path p ++ p_payload p.
Proof.
  unfold encode, put_bytes. destruct (has_transport_codes p); simpl; by rewrite <- ?app_assoc.
Qed.

Lemma encode_length p :
  length (encode p) = (2 + (if has_transport_codes p then 4 else 0)
                         + length (p_path p) + length (p_payload p))%nat.
Proof.
  rewrite encode_app. destruct (has_transport_codes p); simpl; rewrite length_app; lia.
Qed.

(** The size check of the transmit path can never fire on a valid packet. *)
Lemma valid_encode_fits p : valid p = true -> (length (encode p) <= kMaxPacketSize)%nat.
Proof.
  intros [? ? ? ? ?]%valid_spec. rewrite encode_length. unfold kMaxPacketSize.
  destruct (has_transport_codes p); lia.
Qed.

(** ** Theorems: the wire format *)

Import ReaderFacts.

Lemma bool_or_transport p :
  bool_decide (p_route p = TransportFlood) || bool_decide (p_route p = TransportDirect)
  = has_transport_codes p.
Proof. done. Qed.

(** The part of [decode] after the path length, on a live reader. *)
Lemma decode_tail p r :
  sendable p ->
  reads r (p_path p ++ p_payload p) ->
  exists r1 r2, Reader.take (hop_count p * p_path_hash_size p) r = (p_path p, r1) /\
    Reader.ok r1 = true /\ Reader.rest r1 = (p_payload p, r2).
Proof.
  intros [Hv _ _ _ _ _] H. apply valid_spec in Hv.
  destruct (reads_take_app r _ _ _ H (eq_sym (hops_times_size p Hv))) as (r1 & E1 & R1).
  destruct (reads_rest r1 _ R1) as (r2 & E2 & _). exists r1, r2.
  split_and!; [done|by eapply reads_ok|done].
Qed.

(** Reading back the transport codes [encode] wrote. *)
Lemma decode_codes p r l :
  sendable p ->
  reads r ((if has_transport_codes p
            then put_u16 [] (p_transport_code1 p) ++ put_u16 [] (p_transport_code2 p) else []) ++ l) ->
  exists r', (if has_transport_codes p
    then let '(c1, r) := Reader.u16 r in let '(c2, r) := Reader.u16 r in (c1, c2, r)
    else (0, 0, r)) =
    (if has_transport_codes p then p_transport_code1 p else 0,
     if has_transport_codes p then p_transport_code2 p else 0, r') /\ reads r' l.
Proof.
  intros [_ _ _ [H1 H2] _ _] H. destruct (has_transport_codes p); [|by exists r].
  rewrite <- app_assoc in H.
  destruct (reads_u16 _ _ _ H1 H) as (r1 & E1 & R1).
  destruct (reads_u16 _ _ _ H2 R1) as (r2 & E2 & R2).
  exists r2. by rewrite E1, E2.
Qed.

Lemma decode_encode_image p : sendable p -> decode (encode p) = Some (wire_image p).
Proof.
  intros Hs. pose proof Hs as [Hv Hver Ht _ _ [_ Hne]]. apply valid_spec in Hv.
  destruct (header_fields (p_route p) (p_type p) Ht) as (Hr & Hty & Hve & _).
  rewrite encode_app, Hver. unfold decode.
  match goal with |- context [Reader.make ?b] => pose proof (reads_make b) as R0 end.
  destruct (reads_u8 _ _ _ R0) as (r1 & -> & R1).
  rewrite (reads_ok _ _ R1), Hr, Hty, Hve. cbn [negb Z.ltb Z.compare].
  rewrite bool_or_transport.
  destruct (decode_codes p r1 _ Hs R1) as (r2 & -> & R2).
  rewrite (reads_ok _ _ R2), andb_false_r.
  destruct (reads_u8 _ _ _ R2) as (r3 & -> & R3). rewrite (reads_ok _ _ R3).
  rewrite (packed_path_len_eq p Hv). cbn [negb].
  destruct (pack_len_fields _ _ (so_hops p Hv) (so_hash p Hv)) as (-> & -> & _).
  replace (Z.to_nat (u8 (Z.of_nat (p_path_hash_size p) - 1 + 1))) with (p_path_hash_size p)
    by (pose proof (so_hash p Hv); rewrite u8_small by width; lia).
  pose proof (so_hash p Hv). rewrite (proj2 (Nat.eqb_neq _ 4)) by lia.
  rewrite (proj2 (Nat.ltb_ge kMaxPathSize _))
    by (rewrite (hops_times_size p Hv); apply (so_path p Hv)).
  destruct (decode_tail p r3 Hs R3) as (r4 & r5 & -> & -> & ->). cbn [negb].
  rewrite (proj2 (Nat.eqb_neq _ 0)) by (by destruct (p_payload p)).
  rewrite (proj2 (Nat.ltb_ge kMaxPayloadSize _)) by apply (so_payload p Hv).
  unfold wire_image. by rewrite Hver.
Qed.

(** The transport codes read from the wire, and the bytes they came from. *)
Lemma codes_inv (tr : bool) r l c1 c2 r' :
  bytes_ok l -> reads r l ->
  (if tr then let '(c1, r) := Reader.u16 r in let '(c2, r) := Reader.u16 r in (c1, c2, r)
   else (0, 0, r)) = (c1, c2, r') ->
  tr && negb (Reader.ok r') = false ->
  is_u16 c1 /\ is_u16 c2 /\ (tr = false -> c1 = 0 /\ c2 = 0) /\
  exists l', l = (if tr then put_u16 [] c1 ++ put_u16 [] c2 else []) ++ l' /\ reads r' l'.
Proof.
  intros Hb H E Hok. destruct tr.
  - destruct (Reader.u16 r) as [v1 r1] eqn:E1. destruct (Reader.u16 r1) as [v2 r2] eqn:E2.
    simplify_eq. apply negb_false_iff in Hok.
    destruct (u16_inv _ _ _ _ Hb H E1 (u16_ok_mono _ _ _ E2 Hok)) as (? & l1 & -> & R1).
    apply bytes_ok_app in Hb as [_ Hb].
    destruct (u16_inv _ _ _ _ Hb R1 E2 Hok) as (? & l2 & -> & R2).
    split_and!; try done. exists l2. by rewrite <- app_assoc.
  - simplify_eq. split_and!; try done. by exists l.
Qed.

Lemma decode_inv raw p :
  bytes_ok raw -> decode raw = Some p -> encode p = raw /\ sendable p /\ wire_image p = p.
Proof.
  intros Hb. unfold decode.
  destruct (Reader.u8 (Reader.make raw)) as [h r1] eqn:E1.
  destruct (Reader.ok r1) eqn:O1; [|done]. cbn [negb].
  destruct (u8_inv _ _ _ _ (reads_make raw) E1 O1) as (l1 & -> & R1).
  apply bytes_ok_cons in Hb as [Hh Hb].
  destruct (0 <? _) eqn:Ev; [done|].
  destruct (header_rebuild h Hh Ev) as (Hhd & Hv & Ht).
  set (route := route_of_u8 (Z.land h kRouteMask)) in *.
  set (tr := bool_decide (route = TransportFlood) || _).
  destruct (if tr then _ else _) as [[c1 c2] r2] eqn:E2.
  destruct (tr && negb (Reader.ok r2)) eqn:O2; [done|].
  destruct (codes_inv tr r1 l1 c1 c2 r2 Hb R1 E2 O2) as (Hc1 & Hc2 & Hc0 & l2 & -> & R2).
  apply bytes_ok_app in Hb as [_ Hb].
  destruct (Reader.u8 r2) as [pl r3] eqn:E3. destruct (Reader.ok r3) eqn:O3; [|done]. cbn [negb].
  destruct (u8_inv _ _ _ _ R2 E3 O3) as (l3 & -> & R3).
  apply bytes_ok_cons in Hb as [Hpl Hb].
  destruct (_ =? 4)%nat eqn:E4; [done|]. apply Nat.eqb_neq in E4.
  destruct (pack_len_rebuild pl Hpl E4) as (Hpk & Hhops & Hhs).
  set (hs := Z.to_nat (u8 _)) in *. set (hops := Z.to_nat (Z.land pl 63)) in *.
  destruct (kMaxPathSize <? hops * hs)%nat eqn:E5; [done|]. apply Nat.ltb_ge in E5.
  destruct (Reader.take (hops * hs) r3) as [path r4] eqn:E6.
  destruct (Reader.ok r4) eqn:O4; [|done]. cbn [negb].
  destruct (take_inv _ _ _ _ _ R3 E6 O4) as (Hlen & -> & R4).
  destruct (Reader.rest r4) as [payload r5] eqn:E7. apply (rest_inv _ _ _ _ R4) in E7 as ->.
  destruct (length _ =? 0)%nat eqn:E8; [done|]. apply Nat.eqb_neq in E8.
  destruct (_ <? _)%nat eqn:E9; [done|]. apply Nat.ltb_ge in E9. intros [= <-].
  assert (length (firstn (hops * hs) l3) = (hops * hs)%nat) as Hpath by (rewrite length_take; lia).
  assert (shape_ok (mkPacket (u8 (Z.land h kPayloadVerMask ≫ 6)) route
    (Z.land h kPayloadTypeMask ≫ 2) c1 c2 hs (firstn (hops * hs) l3) (skipn (hops * hs) l3)
    0 (S754_zero false) 0 false)) as Hok.
  { constructor; simpl; rewrite ?Hpath; [lia|exact E5|by apply Nat.Div0.mod_mul| |exact E9].
    unfold hop_count. simpl. rewrite (proj2 (Nat.eqb_neq _ _)) by lia.
    rewrite Hpath, Nat.div_mul by lia. lia. }
  split_and!.
  - rewrite encode_app, (packed_path_len_eq _ Hok). simpl.
    unfold hop_count. simpl. rewrite (proj2 (Nat.eqb_neq _ _)) by lia.
    rewrite Hpath, Nat.div_mul, Hpk, Hhd, take_drop by lia. done.
  - constructor; simpl; try done; [by apply valid_spec|bytes|].
    split; [bytes|]. by destruct (skipn _ _).
  - unfold wire_image. simpl. f_equal; change (has_transport_codes _) with tr;
      (destruct tr; [done|by symmetry; apply Hc0]).
Qed.

(** C36. Decoding inverts encoding: a valid packet of payload version 0 with a
    four-bit type, byte-sized fields and a non-empty payload decodes from its own
    encoding, up to the receive metadata that the wire does not carry (and the
    transport codes on routes without them). *)
Theorem packet_decode_encode p :
  sendable p -> decode (encode p) = Some (wire_image p).
Proof. apply decode_encode_image. Qed.

(** Encoding inverts decoding: every byte string [decode] accepts is exactly
    the encoding of the packet it returns, and that packet passes [valid()], so
    whatever is received can be retransmitted bit for bit. *)
Theorem packet_encode_decode raw p :
  bytes_ok raw -> decode raw = Some p -> encode p = raw /\ sendable p.
Proof. intros Hb Hd. by destruct (decode_inv raw p Hb Hd) as (? & ? & _). Qed.

(** ** Relaying *)

Lemma set_path_image_fields p path :
  p_path (set_path p path) = path /\ p_path_hash_size (set_path p path) = p_path_hash_size p /\
  p_payload (set_path p path) = p_payload p.
Proof. done. Qed.

Lemma aligned_hops n hs : (1 <= hs)%nat -> (n mod hs = 0)%nat -> ((n + hs) / hs = S (n / hs) /\ (n + hs) mod hs = 0)%nat.
Proof.
  intros Hh Hm. split.
  - replace (n + hs)%nat with (n + 1 * hs)%nat by lia. rewrite Nat.div_add by lia. lia.
  - replace (n + hs)%nat with (n + 1 * hs)%nat by lia. by rewrite Nat.Div0.mod_add.
Qed.

Lemma push_hop_spec p hash p' :
  valid p = true -> push_hop p hash = Some p' ->
  valid p' = true /\ hop_count p' = S (hop_count p) /\
  p' = set_path p (p_path p ++ firstn (p_path_hash_size p) hash).
Proof.
  intros Hv. apply valid_spec in Hv as Hs. pose proof Hs as [Hh Hp Ha Hc Hl].
  unfold push_hop, kMaxPathSize.
  destruct (_ || _) eqn:E1; [done|]. destruct (64 <? _)%nat eqn:E2; [done|].
  destruct (63 <=? _)%nat eqn:E3; [done|]. intros [= <-].
  apply orb_false_iff in E1 as [_ E1]. apply Nat.ltb_ge in E1, E2. apply Nat.leb_gt in E3.
  destruct (aligned_hops (length (p_path p)) (p_path_hash_size p)) as [Hd Hm]; [lia|done|].
  assert (hop_count (set_path p (p_path p ++ firstn (p_path_hash_size p) hash)) = S (hop_count p)) as Hhop.
  { unfold hop_count. simpl. rewrite (proj2 (Nat.eqb_neq _ _)) by lia.
    rewrite length_app, length_take, Nat.min_l by lia. done. }
  split_and!; [|done|done]. apply valid_spec.
  constructor; simpl; rewrite ?length_app, ?length_take, ?Nat.min_l by lia; lia.
Qed.

Lemma pop_hop_spec p :
  valid p = true -> (hop_count p <> 0)%nat ->
  valid (pop_hop p) = true /\ hop_count p = S (hop_count (pop_hop p)) /\
  p_path p = first_hop p ++ p_path (pop_hop p) /\ length (first_hop p) = p_path_hash_size p.
Proof.
  intros Hv Hne. apply valid_spec in Hv as Hs. pose proof Hs as [Hh Hp Ha Hc Hl].
  pose proof (hops_times_size p Hs) as Ht.
  assert (p_path_hash_size p <= length (p_path p))%nat as Hle by nia.
  unfold pop_hop, first_hop. rewrite (proj2 (Nat.ltb_ge _ _)) by done.
  destruct (aligned_hops (length (p_path p) - p_path_hash_size p) (p_path_hash_size p)) as [Hd Hm]; [lia| |].
  { apply Nat.Div0.mod_divides. exists (hop_count p - 1)%nat. nia. }
  replace (length (p_path p) - p_path_hash_size p + p_path_hash_size p)%nat with (length (p_path p)) in * by lia.
  assert (hop_count p = S (hop_count (set_path p (skipn (p_path_hash_size p) (p_path p))))) as Hhop.
  { unfold hop_count. simpl. rewrite (proj2 (Nat.eqb_neq _ _)) by lia. by rewrite length_drop. }
  split_and!; [|done|simpl; by rewrite take_drop|rewrite length_take; lia].
  apply valid_spec. constructor; simpl; rewrite ?length_drop; try lia.
  apply Nat.Div0.mod_divides. exists (hop_count p - 1)%nat. nia.
Qed.

(** One relay's change to a packet: it appends its hash to a flood-routed packet
    ([push_hop]) or consumes the first hop of a direct-routed one ([pop_hop]). *)
Inductive relay_step : Packet -> Packet -> Prop :=
| relay_push p hash p' : push_hop p hash = Some p' -> relay_step p p'
| relay_pop p : (hop_count p <> 0)%nat -> relay_step p (pop_hop p).

(** Only the flood half of it. *)
Inductive flood_step : Packet -> Packet -> Prop :=
| flood_push p hash p' : push_hop p hash = Some p' -> flood_step p p'.

Lemma relay_step_inv p p' :
  valid p = true -> relay_step p p' ->
  valid p' = true /\ exists path, p' = set_path p path.
Proof.
  intros Hv Hs. revert Hv. destruct Hs as [q hash q' Hq|q Hq]; intros Hv.
  - destruct (push_hop_spec q hash q' Hv Hq) as (? & _ & ?). eauto.
  - destruct (pop_hop_spec q Hv Hq) as (? & _). split; [done|].
    unfold pop_hop. destruct (_ <? _)%nat; eauto.
Qed.

Lemma relayed_inv p p' :
  valid p = true -> rtc relay_step p p' ->
  valid p' = true /\ exists path, p' = set_path p path.
Proof.
  intros Hv Hr. revert Hv. induction Hr as [p|p q p' Hstep _ IH]; intros Hv.
  - split; [done|]. exists (p_path p). by destruct p.
  - destruct (relay_step_inv _ _ Hv Hstep) as (Hq & path & ->).
    destruct (IH Hq) as (? & path' & ->). eauto.
Qed.

Section dedup_facts.
Context `{CryptoLib}.

Lemma dedup_hash_set_path p path :
  p_type p <> PayloadType.Trace -> dedup_hash (set_path p path) = dedup_hash p.
Proof.
  intros Ht. unfold dedup_hash. simpl. by rewrite (proj2 (Z.eqb_neq _ _) Ht).
Qed.

(** A packet relayed any number of times, by floods and direct forwards in
    any order, is still valid, carries the same payload and has the dedup key it
    started with, unless it is a trace; so every copy of it that comes back is
    recognised as the same packet. *)
Theorem relay_keeps_identity p p' :
  valid p = true -> p_type p <> PayloadType.Trace -> rtc relay_step p p' ->
  valid p' = true /\ p_payload p' = p_payload p /\ dedup_hash p' = dedup_hash p.
Proof.
  intros Hv Ht Hr. destruct (relayed_inv p p' Hv Hr) as (? & path & ->).
  split_and!; [done|done|by apply dedup_hash_set_path].
Qed.

End dedup_facts.

(** A flood dies out: after [n] repeats a valid packet has gained exactly
    [n] hops, and no packet is repeated past 63 hops or 64 path bytes. *)
Theorem flood_hops_bounded n p p' :
  valid p = true -> nsteps flood_step n p p' ->
  hop_count p' = (hop_count p + n)%nat /\ (hop_count p' <= 63)%nat /\
  (length (p_path p') <= kMaxPathSize)%nat.
Proof.
  intros Hv Hn. revert Hv. induction Hn as [p|n p q p' Hs _ IH]; intros Hv.
  - apply valid_spec in Hv as [? ? ? ? ?]. unfold kMaxPathSize. lia.
  - destruct Hs as [p hash q Hq]. destruct (push_hop_spec p hash q Hv Hq) as (Hvq & Hh & _).
    destruct (IH Hvq) as (? & ? & ?). lia.
Qed.
