(* ===== verification/Payloads.v ===== *)
(** * Payload codecs ([src/src/proto/payloads.h], [payloads.cpp])

    Adverts, the encrypted envelopes, text messages, the acknowledgement hash
    and returned paths.  The theorems are the round trips of each codec, the
    authenticity of an advert a node creates, and the fact the acknowledgement
    scheme rests on: sender and receiver hash the same bytes although one holds
    the plaintext and the other its zero-padded decryption. *)

From S2P Require Import Prelude ByteIO Floats Crypto Identity Packet.

(** ** Node advertisement *)

Definition kMaxAdvertAppDataSize : nat := 32.

Definition kAdvTypeNone : Z := 0x00.
Definition kAdvTypeChat : Z := 0x01.
Definition kAdvTypeRepeater : Z := 0x02.
Definition kAdvTypeRoom : Z := 0x03.
Definition kAdvTypeSensor : Z := 0x04.
Definition kAdvTypeMask : Z := 0x0F.
Definition kAdvHasLocation : Z := 0x10.
Definition kAdvHasFeature1 : Z := 0x20.
Definition kAdvHasFeature2 : Z := 0x40.
Definition kAdvHasName : Z := 0x80.

Module AdvertAppData.

Record t := mk {
  flags : Z;
  lat_e6 : Z;
  lon_e6 : Z;
  feature1 : Z;
  feature2 : Z;
  name : Str;
}.

(** [flags & mask] used as a condition. *)
Definition flag (f mask : Z) : bool := negb (Z.land f mask =? 0).

Definition node_type (a : t) : Z := Z.land (flags a) kAdvTypeMask.
Definition has_location (a : t) : bool := flag (flags a) kAdvHasLocation.
Definition has_name (a : t) : bool := flag (flags a) kAdvHasName.

Definition encode (a : t) : Bytes :=
  let out := [flags a] in
  let out := if flag (flags a) kAdvHasLocation
             then put_i32 (put_i32 out (lat_e6 a)) (lon_e6 a) else out in
  let out := if flag (flags a) kAdvHasFeature1 then put_u16 out (feature1 a) else out in
  let out := if flag (flags a) kAdvHasFeature2 then put_u16 out (feature2 a) else out in
  if flag (flags a) kAdvHasName then put_str out (name a) else out.

Definition decode (data : Bytes) : option t :=
  let r := Reader.make data in
  let '(flags, r) := Reader.u8 r in
  let '(lat, lon, r) :=
    if flag flags kAdvHasLocation
    then let '(lat, r) := Reader.i32 r in let '(lon, r) := Reader.i32 r in (lat, lon, r)
    else (0, 0, r) in
  let '(f1, r) := if flag flags kAdvHasFeature1 then Reader.u16 r else (0, r) in
  let '(f2, r) := if flag flags kAdvHasFeature2 then Reader.u16 r else (0, r) in
  if negb (Reader.ok r) then None else
  let name := if flag flags kAdvHasName then to_string (Reader.rest r).1 else [] in
  Some (mk flags lat lon f1 f2 name).

End AdvertAppData.

Module Advert.

Record t := mk {
  pubkey : Bytes;
  timestamp : Z;
  signature : Bytes;
  appdata : Bytes;
}.

Definition decode (payload : Bytes) : option t :=
  let r := Reader.make payload in
  let '(pubkey, r) := Reader.take kPubKeySize r in
  let '(timestamp, r) := Reader.u32 r in
  let '(signature, r) := Reader.take kSignatureSize r in
  if negb (Reader.ok r) then None else
  let '(appdata, r) := Reader.rest r in
  Some (mk pubkey timestamp signature appdata).

Definition encode (a : t) : Bytes :=
  put_bytes (put_bytes (put_u32 (put_bytes [] (pubkey a)) (timestamp a)) (signature a)) (appdata a).

Definition signed_region (pubkey : Bytes) (timestamp : Z) (appdata : Bytes) : Bytes :=
  put_bytes (put_u32 (put_bytes [] pubkey) timestamp) appdata.

Section verify.
Context `{CryptoLib}.

Definition verify (a : t) : bool :=
  if negb (length (pubkey a) =? kPubKeySize)%nat || negb (length (signature a) =? kSignatureSize)%nat
  then false
  else Identity.verify (pubkey a) (signed_region (pubkey a) (timestamp a) (appdata a)) (signature a).

Definition create (self : LocalIdentity) (ts : Z) (app : AdvertAppData.t) : t :=
  let appdata := AdvertAppData.encode app in
  mk (pub self) ts (sign self (signed_region (pub self) ts appdata)) appdata.

End verify.

End Advert.

(** ** Encrypted envelopes *)

(** The [sealed.size() >= kCipherMacSize] split the three [seal] functions share. *)
Definition split_sealed (sealed : Bytes) : Bytes * Bytes :=
  if (kCipherMacSize <=? length sealed)%nat
  then (firstn kCipherMacSize sealed, skipn kCipherMacSize sealed) else ([], []).

Module DirectEnvelope.

Record t := mk { dest_hash : Z; src_hash : Z; mac : Bytes; ciphertext : Bytes }.

Definition decode (payload : Bytes) : option t :=
  let r := Reader.make payload in
  let '(dest, r) := Reader.u8 r in
  let '(src, r) := Reader.u8 r in
  let '(mac, r) := Reader.take kCipherMacSize r in
  let '(ciphertext, r) := Reader.rest r in
  if negb (Reader.ok r) || (length ciphertext =? 0)%nat then None
  else Some (mk dest src mac ciphertext).

Definition encode (e : t) : Bytes :=
  put_bytes (put_bytes [dest_hash e; src_hash e] (mac e)) (ciphertext e).

Definition seal `{CryptoLib} (dest src : Z) (key plaintext : Bytes) : t :=
  let '(mac, ciphertext) := split_sealed (encrypt_and_mac key plaintext) in
  mk dest src mac ciphertext.

End DirectEnvelope.

Module AnonReqEnvelope.

Record t := mk { dest_hash : Z; pubkey : Bytes; mac : Bytes; ciphertext : Bytes }.

Definition decode (payload : Bytes) : option t :=
  let r := Reader.make payload in
  let '(dest, r) := Reader.u8 r in
  let '(pubkey, r) := Reader.take kPubKeySize r in
  let '(mac, r) := Reader.take kCipherMacSize r in
  let '(ciphertext, r) := Reader.rest r in
  if negb (Reader.ok r) || (length ciphertext =? 0)%nat then None
  else Some (mk dest pubkey mac ciphertext).

Definition encode (e : t) : Bytes :=
  put_bytes (put_bytes (put_bytes [dest_hash e] (pubkey e)) (mac e)) (ciphertext e).

Definition seal `{CryptoLib} (dest : Z) (sender_pub key plaintext : Bytes) : t :=
  let '(mac, ciphertext) := split_sealed (encrypt_and_mac key plaintext) in
  mk dest sender_pub mac ciphertext.

End AnonReqEnvelope.

Module GroupEnvelope.

Record t := mk { channel_hash : Z; mac : Bytes; ciphertext : Bytes }.

Definition decode (payload : Bytes) : option t :=
  let r := Reader.make payload in
  let '(ch, r) := Reader.u8 r in
  let '(mac, r) := Reader.take kCipherMacSize r in
  let '(ciphertext, r) := Reader.rest r in
  if negb (Reader.ok r) || (length ciphertext =? 0)%nat then None
  else Some (mk ch mac ciphertext).

Definition encode (e : t) : Bytes :=
  put_bytes (put_bytes [channel_hash e] (mac e)) (ciphertext e).

Definition seal `{CryptoLib} (ch : Z) (key plaintext : Bytes) : t :=
  let '(mac, ciphertext) := split_sealed (encrypt_and_mac key plaintext) in
  mk ch mac ciphertext.

End GroupEnvelope.

(** ** Decrypted payload bodies *)

Definition kTxtPlain : Z := 0x00.
Definition kTxtCliData : Z := 0x01.
Definition kTxtSignedPlain : Z := 0x02.

Definition kTextHeaderSize : nat := 5.
Definition kSignedPrefixSize : nat := 4.

Definition text_offset (plaintext : Bytes) : nat :=
  if (length plaintext <? kTextHeaderSize)%nat then length plaintext
  else
    let txt_type := u8 (Z.shiftr (byte_at plaintext 4) 2) in
    let at_ := if txt_type =? kTxtSignedPlain
               then (kTextHeaderSize + kSignedPrefixSize)%nat else kTextHeaderSize in
    Nat.min at_ (length plaintext).

(** [while (end < b.size() && b[end] != 0) end++], started at [from]. *)
Definition scan_nul (b : Bytes) (from : nat) : nat :=
  (from + length (Reader.until_nul (skipn from b)))%nat.

Module TextMessage.

Record t := mk {
  timestamp : Z;
  txt_type : Z;
  attempt : Z;
  extended_attempt : Z;
  text : Bytes;
}.

Definition decode (plaintext : Bytes) : option t :=
  let r := Reader.make plaintext in
  let '(timestamp, r) := Reader.u32 r in
  let '(type_and_attempt, r) := Reader.u8 r in
  if negb (Reader.ok r) then None else
  let '(rest, r) := Reader.rest r in
  let end_ := scan_nul rest (text_offset plaintext - kTextHeaderSize) in
  Some (mk timestamp (u8 (Z.shiftr type_and_attempt 2)) (u8 (Z.land type_and_attempt 0x03))
          (if (end_ + 1 <? length rest)%nat then byte_at rest (end_ + 1) else 0)
          (firstn end_ rest)).

Definition encode (m : t) : Bytes :=
  put_bytes (put_u32 [] (timestamp m)
             ++ [u8 (Z.lor (Z.shiftl (txt_type m) 2) (Z.land (attempt m) 0x03))]) (text m).

Definition sender_prefix (m : t) : Bytes :=
  if negb (txt_type m =? kTxtSignedPlain) then [] else subview (text m) 0 4.

Definition body (m : t) : Str :=
  if txt_type m =? kTxtSignedPlain then to_string (subview_from (text m) 4) else to_string (text m).

End TextMessage.

(** [while (n > 0 && plaintext[n - 1] == 0) n--] counts down from the end. *)
Fixpoint leading_zeros (b : Bytes) : nat :=
  match b with x :: b => if x =? 0 then S (leading_zeros b) else 0%nat | [] => 0%nat end.
Definition strip_zero_padding (plaintext : Bytes) : Bytes :=
  subview plaintext 0 (length plaintext - leading_zeros (rev plaintext)).

Definition ack_hashed_region (plaintext : Bytes) : Bytes :=
  if (length plaintext <=? kTextHeaderSize)%nat then plaintext
  else subview plaintext 0 (scan_nul plaintext (text_offset plaintext)).

Definition ack_extended_attempt (plaintext : Bytes) : Z :=
  let after_nul := (length (ack_hashed_region plaintext) + 1)%nat in
  if (after_nul <? length plaintext)%nat then byte_at plaintext after_nul else 0.

Definition message_ack_hash `{CryptoLib} (plaintext pubkey : Bytes) : Bytes :=
  ack_hash (put_bytes (put_bytes [] (ack_hashed_region plaintext)) pubkey).

(** [r] is the random byte drawn from [crypto::random_bytes]. *)
Definition ack_payload (ack_hash : Bytes) (extended_attempt r : Z) : Bytes :=
  put_bytes [] (subview ack_hash 0 kAckHashSize) ++ [extended_attempt] ++ [r].

Module PathReturn.

Record t := mk {
  path : Bytes;
  path_hash_size : nat;
  extra_type : Z;
  extra : Bytes;
  has_extra : bool;
}.

Definition decode (plaintext : Bytes) : option t :=
  let r := Reader.make plaintext in
  let '(path_len, r) := Reader.u8 r in
  if negb (Reader.ok r) then None else
  let hs := Z.to_nat (u8 (Z.shiftr path_len 6 + 1)) in
  if (hs =? 4)%nat then None else
  let '(path, r) := Reader.take (Z.to_nat (Z.land path_len 0x3F) * hs) r in
  if negb (Reader.ok r) || (kMaxPathSize <? length path)%nat then None else
  if Reader.has 1 r
  then
    let '(ty, r) := Reader.u8 r in
    let '(extra, r) := Reader.rest r in
    Some (mk path hs (u8 (Z.land ty 0x0F)) extra true)
  else Some (mk path hs 0 [] false).

Definition encode (p : t) : Bytes :=
  let hash_size := if (path_hash_size p =? 0)%nat then 1%nat else path_hash_size p in
  let hops := (length (path p) / hash_size)%nat in
  let out := [u8 (Z.lor (Z.land (Z.of_nat hops) 0x3F) (Z.shiftl (Z.of_nat hash_size - 1) 6))] in
  let out := put_bytes out (path p) in
  if has_extra p then put_bytes (out ++ [u8 (Z.land (extra_type p) 0x0F)]) (extra p) else out.

End PathReturn.

(** ** Theorems: adverts *)

(** Fields within their widths. *)
Definition appdata_ok (a : AdvertAppData.t) : Prop :=
  is_u8 (AdvertAppData.flags a) /\ is_i32 (AdvertAppData.lat_e6 a) /\ is_i32 (AdvertAppData.lon_e6 a) /\
  is_u16 (AdvertAppData.feature1 a) /\ is_u16 (AdvertAppData.feature2 a) /\ bytes_ok (AdvertAppData.name a).

(** What the wire carries of the application data: only the flagged fields. *)
Definition appdata_image (a : AdvertAppData.t) : AdvertAppData.t :=
  let f := AdvertAppData.flag (AdvertAppData.flags a) in
  AdvertAppData.mk (AdvertAppData.flags a)
    (if f kAdvHasLocation then AdvertAppData.lat_e6 a else 0)
    (if f kAdvHasLocation then AdvertAppData.lon_e6 a else 0)
    (if f kAdvHasFeature1 then AdvertAppData.feature1 a else 0)
    (if f kAdvHasFeature2 then AdvertAppData.feature2 a else 0)
    (if f kAdvHasName then AdvertAppData.name a else []).

Lemma appdata_encode_app a :
  AdvertAppData.encode a =
  let f := AdvertAppData.flag (AdvertAppData.flags a) in
  AdvertAppData.flags a ::
    (if f kAdvHasLocation
     then put_i32 [] (AdvertAppData.lat_e6 a) ++ put_i32 [] (AdvertAppData.lon_e6 a) else []) ++
    (if f kAdvHasFeature1 then put_u16 [] (AdvertAppData.feature1 a) else []) ++
    (if f kAdvHasFeature2 then put_u16 [] (AdvertAppData.feature2 a) else []) ++
    (if f kAdvHasName then AdvertAppData.name a else []).
Proof.
  unfold AdvertAppData.encode, put_i32, put_u32, put_u16, put_str.
  repeat case_match; simpl; rewrite <- ?app_assoc, ?app_nil_r; done.
Qed.

Lemma appdata_decode_encode a :
  appdata_ok a -> AdvertAppData.decode (AdvertAppData.encode a) = Some (appdata_image a).
Proof.
  intros (Hf & Hla & Hlo & H1 & H2 & Hn). rewrite appdata_encode_app. unfold AdvertAppData.decode, appdata_image.
  start_reads.
  destruct (AdvertAppData.flag _ kAdvHasLocation);
  destruct (AdvertAppData.flag _ kAdvHasFeature1);
  destruct (AdvertAppData.flag _ kAdvHasFeature2);
  destruct (AdvertAppData.flag _ kAdvHasName);
  rewrite <- ?app_assoc in *; rewrite ?app_nil_l in *; run_reads; done.
Qed.

Lemma advert_encode_app a :
  Advert.encode a = Advert.pubkey a ++ put_u32 [] (Advert.timestamp a) ++ Advert.signature a ++ Advert.appdata a.
Proof. unfold Advert.encode, put_bytes. rewrite put_u32_app. by rewrite <- !app_assoc. Qed.

Lemma advert_decode_encode a :
  length (Advert.pubkey a) = kPubKeySize -> length (Advert.signature a) = kSignatureSize ->
  is_u32 (Advert.timestamp a) -> Advert.decode (Advert.encode a) = Some a.
Proof.
  intros Hp Hs Ht. rewrite advert_encode_app. unfold Advert.decode. start_reads. by destruct a.
Qed.

Section advert_claims.
Context `{EdLaws}.

(** An advert the node creates is what a receiver gets: it decodes from its
    encoding, its signature verifies over exactly the fields it carries, and the
    name, position and features the node advertised come back out. *)
Theorem advert_create_authentic self ts app :
  identity_ok self -> is_u32 ts -> appdata_ok app ->
  let a := Advert.create self ts app in
  Advert.signature a <> [] ->
  Advert.decode (Advert.encode a) = Some a /\ Advert.verify a = true /\
  Advert.pubkey a = pub self /\
  AdvertAppData.decode (Advert.appdata a) = Some (appdata_image app).
Proof.
  intros Hid Hts Happ a Hsig. destruct (pub_length self Hid) as [Hpl _].
  destruct (sign_length self _ Hid Hsig) as [Hsl _].
  split_and!; [by apply advert_decode_encode| |done|by apply appdata_decode_encode].
  unfold Advert.verify, a, Advert.create. simpl. rewrite Hsl. unfold pub. rewrite Hpl. simpl.
  by apply sign_accepted.
Qed.

End advert_claims.

(** ** Theorems: envelopes *)

Section envelope_facts.
Context `{CryptoLaws}.

(** What the three [seal] functions put in their envelopes. *)
Lemma split_sealed_spec key p :
  (16 <= length key)%nat -> bytes_ok p -> p <> [] ->
  exists mac c, split_sealed (encrypt_and_mac key p) = (mac, c) /\ length mac = 2%nat /\
    (length c =? 0)%nat = false /\ length c = length (zero_pad p) /\
    bytes_ok mac /\ bytes_ok c /\
    mac_and_decrypt key mac c = Some (zero_pad p).
Proof.
  intros Hk Hp Hne. pose proof (seal_open key p Hk Hp Hne) as Ho. cbv zeta in Ho.
  pose proof (encrypt_and_mac_length key p Hk Hp) as Hl.
  pose proof (encrypt_and_mac_bytes key p Hk Hp) as Hb.
  unfold split_sealed, kCipherMacSize. rewrite (proj2 (Nat.leb_le _ _)) by lia.
  eexists _, _. split; [done|]. rewrite length_take, length_drop, Hl.
  assert (length (zero_pad p) <> 0)%nat.
  { intros E%length_zero_iff_nil. by apply Hne, zero_pad_nil. }
  split_and!; [lia|apply Nat.eqb_neq; lia|lia|bytes|bytes|done].
Qed.

(** Whatever key of at least 16 bytes a non-empty plaintext is sealed under,
    the envelope put on the wire (direct, anonymous request or group) decodes
    with its addressing intact and opens under that key to the zero-padded
    plaintext. *)
Theorem envelopes_open key p d s pk :
  (16 <= length key)%nat -> bytes_ok p -> p <> [] -> length pk = kPubKeySize ->
  (exists e, DirectEnvelope.decode (DirectEnvelope.encode (DirectEnvelope.seal d s key p)) = Some e /\
     DirectEnvelope.dest_hash e = d /\ DirectEnvelope.src_hash e = s /\
     mac_and_decrypt key (DirectEnvelope.mac e) (DirectEnvelope.ciphertext e) = Some (zero_pad p)) /\
  (exists e, AnonReqEnvelope.decode (AnonReqEnvelope.encode (AnonReqEnvelope.seal d pk key p)) = Some e /\
     AnonReqEnvelope.dest_hash e = d /\ AnonReqEnvelope.pubkey e = pk /\
     mac_and_decrypt key (AnonReqEnvelope.mac e) (AnonReqEnvelope.ciphertext e) = Some (zero_pad p)) /\
  (exists e, GroupEnvelope.decode (GroupEnvelope.encode (GroupEnvelope.seal d key p)) = Some e /\
     GroupEnvelope.channel_hash e = d /\
     mac_and_decrypt key (GroupEnvelope.mac e) (GroupEnvelope.ciphertext e) = Some (zero_pad p)).
Proof.
  intros Hk Hp Hne Hpk.
  destruct (split_sealed_spec key p Hk Hp Hne) as (mac & c & E & Hm & Hc & _ & _ & _ & Ho).
  unfold DirectEnvelope.seal, AnonReqEnvelope.seal, GroupEnvelope.seal. rewrite E.
  unfold DirectEnvelope.encode, AnonReqEnvelope.encode, GroupEnvelope.encode, put_bytes. simpl.
  rewrite <- ?app_assoc. split_and!; eexists;
    (split; [unfold DirectEnvelope.decode, AnonReqEnvelope.decode, GroupEnvelope.decode;
             start_reads; by rewrite Hc|done]).
Qed.

Lemma direct_seal_decode key p d s :
  (16 <= length key)%nat -> bytes_ok p -> p <> [] ->
  exists mac c, DirectEnvelope.decode (DirectEnvelope.encode (DirectEnvelope.seal d s key p))
      = Some (DirectEnvelope.mk d s mac c) /\ mac_and_decrypt key mac c = Some (zero_pad p).
Proof.
  intros Hk Hp Hne.
  destruct (split_sealed_spec key p Hk Hp Hne) as (mac & c & E & Hm & Hc & _ & _ & _ & Ho).
  exists mac, c. unfold DirectEnvelope.seal. rewrite E. split; [|done].
  unfold DirectEnvelope.encode, put_bytes. simpl. unfold DirectEnvelope.decode. start_reads. by rewrite Hc.
Qed.

(** The sealed size, which decides whether a message fits a packet. *)
Lemma direct_seal_length key p d s :
  (16 <= length key)%nat -> bytes_ok p -> p <> [] ->
  length (DirectEnvelope.encode (DirectEnvelope.seal d s key p)) = (4 + length (zero_pad p))%nat /\
  (is_u8 d -> is_u8 s -> bytes_ok (DirectEnvelope.encode (DirectEnvelope.seal d s key p))).
Proof.
  intros Hk Hp Hne.
  destruct (split_sealed_spec key p Hk Hp Hne) as (mac & c & E & Hm & Hc & Hl & Hbm & Hbc & _).
  unfold DirectEnvelope.seal. rewrite E. unfold DirectEnvelope.encode, put_bytes. simpl.
  rewrite length_app, Hm, Hl. split; [done|]. intros. bytes.
Qed.

End envelope_facts.

(** ** Theorems: text messages and acknowledgements *)

Lemma until_nul_length_le b : (length (Reader.until_nul b) <= length b)%nat.
Proof. induction b as [|c b IH]; simpl; [lia|]. destruct (c =? 0); simpl; lia. Qed.

Lemma until_nul_zeros b n : Reader.until_nul (b ++ replicate n 0) = Reader.until_nul b.
Proof.
  induction b as [|c b IH]; simpl; [by destruct n|]. destruct (c =? 0); [done|by rewrite IH].
Qed.

Lemma until_nul_take b : firstn (length (Reader.until_nul b)) b = Reader.until_nul b.
Proof. induction b as [|c b IH]; simpl; [done|]. destruct (c =? 0); simpl; [done|by rewrite IH]. Qed.

Lemma scan_nul_le b from : (from <= length b)%nat -> (scan_nul b from <= length b)%nat.
Proof.
  intros H. unfold scan_nul. pose proof (until_nul_length_le (skipn from b)) as Hl.
  rewrite length_drop in Hl. lia.
Qed.

Lemma scan_nul_zeros b n from :
  (from <= length b)%nat -> scan_nul (b ++ replicate n 0) from = scan_nul b from.
Proof.
  intros H. unfold scan_nul. rewrite skipn_app. replace (from - length b)%nat with 0%nat by lia.
  simpl. by rewrite drop_0, until_nul_zeros.
Qed.

Lemma zero_pad_app p : exists n, zero_pad p = p ++ replicate n 0.
Proof. unfold zero_pad. eauto. Qed.

(** Where the text begins is the same in a plaintext and in its padded form, as
    long as a signed message holds its four-byte sender prefix. *)
Definition text_complete (p : Bytes) : Prop :=
  (5 <= length p)%nat /\ (u8 (Z.shiftr (byte_at p 4) 2) = kTxtSignedPlain -> (9 <= length p)%nat).

Lemma text_offset_padded p n :
  text_complete p ->
  text_offset (p ++ replicate n 0) = text_offset p /\ (5 <= text_offset p <= length p)%nat.
Proof.
  intros [H5 H9]. unfold text_offset, kTextHeaderSize, kSignedPrefixSize, byte_at.
  rewrite length_app, app_nth1 by lia. rewrite !(proj2 (Nat.ltb_ge _ _)) by lia.
  destruct (_ =? kTxtSignedPlain) eqn:E; [|lia]. apply Z.eqb_eq in E.
  specialize (H9 E). lia.
Qed.

Lemma ack_hashed_region_eq p :
  text_complete p -> ack_hashed_region p = firstn (scan_nul p (text_offset p)) p.
Proof.
  intros Hc. unfold ack_hashed_region, kTextHeaderSize.
  destruct (text_offset_padded p 0 Hc) as [_ Ho]. rewrite subview_take.
  destruct (Nat.leb_spec (length p) 5) as [Hl|Hl]; [|done].
  rewrite firstn_all2; [done|]. unfold scan_nul. lia.
Qed.

Lemma ack_region_padded p : text_complete p -> ack_hashed_region (zero_pad p) = ack_hashed_region p.
Proof.
  intros Hc. destruct (zero_pad_app p) as [n ->].
  destruct (text_offset_padded p n Hc) as [Ho Hb].
  pose proof Hc as [H5 H9]. rewrite (ack_hashed_region_eq p Hc), ack_hashed_region_eq.
  - rewrite Ho, scan_nul_zeros by lia. rewrite take_app_le; [done|]. by apply scan_nul_le; lia.
  - split; [rewrite length_app; lia|]. unfold byte_at. rewrite app_nth1, length_app by lia.
    intros E. specialize (H9 E). lia.
Qed.

(** A message whose fields fit the wire and whose text is a C string (after the
    four raw key bytes of a signed one). *)
Definition no_nul (b : Bytes) : Prop := Forall (fun c => c <> 0) b.
Definition text_ok (m : TextMessage.t) : Prop :=
  is_u32 (TextMessage.timestamp m) /\ 0 <= TextMessage.txt_type m < 64 /\
  0 <= TextMessage.attempt m < 4 /\ bytes_ok (TextMessage.text m) /\
  if TextMessage.txt_type m =? kTxtSignedPlain
  then (4 <= length (TextMessage.text m))%nat /\ no_nul (skipn 4 (TextMessage.text m))
  else no_nul (TextMessage.text m).

(** The flags byte: type in the upper six bits, attempt in the lower two. *)
Definition flags_byte (ty att : Z) : Z := u8 (Z.lor (Z.shiftl ty 2) (Z.land att 0x03)).

Lemma flags_byte_fields ty att :
  0 <= ty < 64 -> 0 <= att < 4 ->
  u8 (Z.shiftr (flags_byte ty att) 2) = ty /\ u8 (Z.land (flags_byte ty att) 0x03) = att /\
  is_u8 (flags_byte ty att).
Proof.
  intros Ht Ha.
  assert (((u8 (Z.shiftr (flags_byte ty att) 2) =? ty) &&
           (u8 (Z.land (flags_byte ty att) 3) =? att)) = true) as Hb.
  { assert (att = 0 \/ att = 1 \/ att = 2 \/ att = 3) as Hat by lia.
    destruct_or! Hat; subst att; by_range ty 0 64. }
  rewrite andb_true_iff, !Z.eqb_eq in Hb. destruct Hb. split_and!; auto. apply u8_range.
Qed.

Lemma text_encode_app m :
  TextMessage.encode m = put_u32 [] (TextMessage.timestamp m) ++
    flags_byte (TextMessage.txt_type m) (TextMessage.attempt m) :: TextMessage.text m.
Proof. unfold TextMessage.encode, put_bytes. by rewrite <- app_assoc. Qed.

Lemma text_encode_at4 m rest :
  byte_at (TextMessage.encode m ++ rest) 4 = flags_byte (TextMessage.txt_type m) (TextMessage.attempt m).
Proof. by rewrite text_encode_app. Qed.

Lemma text_encode_length m : length (TextMessage.encode m) = (5 + length (TextMessage.text m))%nat.
Proof. by rewrite text_encode_app. Qed.

Lemma text_encode_ok m : text_ok m -> bytes_ok (TextMessage.encode m) /\ TextMessage.encode m <> [].
Proof.
  intros (_ & _ & _ & Hb & _). rewrite text_encode_app. split; [|done].
  apply bytes_ok_app. split; [apply bytes_ok_put_u32|]. apply bytes_ok_cons. split; [apply u8_range|done].
Qed.

Lemma text_encode_complete m : text_ok m -> text_complete (TextMessage.encode m).
Proof.
  intros (_ & Ht & Ha & _ & Hx). split; rewrite text_encode_length; [lia|].
  rewrite <- (app_nil_r (TextMessage.encode m)), text_encode_at4.
  destruct (flags_byte_fields _ _ Ht Ha) as (-> & _). intros E.
  rewrite E in Hx. simpl in Hx. lia.
Qed.

Lemma until_nul_id b : no_nul b -> Reader.until_nul b = b.
Proof.
  induction 1 as [|c b Hc _ IH]; [done|]. simpl. by rewrite (proj2 (Z.eqb_neq _ _) Hc), IH.
Qed.

(** Where the text of an encoded message starts, relative to its header. *)
Definition prefix_size (m : TextMessage.t) : nat :=
  if TextMessage.txt_type m =? kTxtSignedPlain then 4 else 0.

Lemma text_scan m n :
  text_ok m ->
  text_offset (TextMessage.encode m ++ replicate n 0) = (5 + prefix_size m)%nat /\
  scan_nul (TextMessage.text m ++ replicate n 0) (prefix_size m) = length (TextMessage.text m).
Proof.
  intros Hok. pose proof Hok as (_ & Ht & Ha & _ & Hx).
  destruct (flags_byte_fields _ _ Ht Ha) as (Hf & _). unfold prefix_size, text_offset.
  rewrite text_encode_at4, length_app, text_encode_length, length_replicate.
  rewrite (proj2 (Nat.ltb_ge _ _)) by (unfold kTextHeaderSize; lia). rewrite Hf.
  unfold kTextHeaderSize, kSignedPrefixSize.
  destruct (_ =? kTxtSignedPlain); rewrite scan_nul_zeros by lia; unfold scan_nul;
    rewrite ?drop_0.
  - destruct Hx as [Hl Hn]. rewrite (until_nul_id _ Hn), length_drop. lia.
  - rewrite (until_nul_id _ Hx). lia.
Qed.

Lemma text_padded_decodes m :
  text_ok m ->
  TextMessage.decode (zero_pad (TextMessage.encode m)) =
  Some (TextMessage.mk (TextMessage.timestamp m) (TextMessage.txt_type m) (TextMessage.attempt m) 0
          (TextMessage.text m)).
Proof.
  intros Hok. pose proof Hok as (Hts & Ht & Ha & _ & _).
  destruct (zero_pad_app (TextMessage.encode m)) as [n ->].
  destruct (text_scan m n Hok) as [Ho Hs]. unfold TextMessage.decode.
  rewrite Ho, text_encode_app, <- app_assoc, <- app_comm_cons.
  start_reads. destruct (flags_byte_fields _ _ Ht Ha) as (-> & -> & _).
  replace (5 + prefix_size m - kTextHeaderSize)%nat with (prefix_size m) by (unfold kTextHeaderSize; lia).
  rewrite Hs, take_app_length. do 2 f_equal.
  destruct (_ <? _)%nat eqn:E; [|done]. apply Nat.ltb_lt in E.
  rewrite length_app, length_replicate in E. unfold byte_at. rewrite app_nth2 by lia.
  apply nth_lookup_Some, lookup_replicate_2. lia.
Qed.

(** A text message survives the trip: decoding the zero-padded decryption of
    an encoded message gives back its timestamp, type, attempt and text, and an
    extended attempt of zero. *)
Theorem text_decode_padded m :
  text_ok m ->
  TextMessage.decode (zero_pad (TextMessage.encode m)) =
  Some (TextMessage.mk (TextMessage.timestamp m) (TextMessage.txt_type m) (TextMessage.attempt m) 0
          (TextMessage.text m)).
Proof. apply text_padded_decodes. Qed.

Section ack.
Context `{CryptoLaws}.

Lemma ack_hash_padded p key :
  text_complete p -> message_ack_hash (zero_pad p) key = message_ack_hash p key.
Proof. intros Hc. unfold message_ack_hash. by rewrite (ack_region_padded p Hc). Qed.

(** The two ends of an acknowledgement agree: the first four bytes of the ack a
    receiver builds from the padded plaintext it decrypted are the hash the sender
    computed from the plaintext it sent. *)
Lemma ack_prefix_agrees m key ext r :
  text_ok m ->
  firstn kAckHashSize
    (ack_payload (message_ack_hash (zero_pad (TextMessage.encode m)) key) ext r)
  = message_ack_hash (TextMessage.encode m) key.
Proof.
  intros Hok. rewrite (ack_hash_padded _ _ (text_encode_complete m Hok)).
  unfold ack_payload, put_bytes. simpl ([] ++ _). rewrite subview_take.
  assert (length (message_ack_hash (TextMessage.encode m) key) = kAckHashSize) as Hl
    by apply ack_hash_length.
  rewrite (firstn_all2 (n := kAckHashSize) (message_ack_hash _ _)) by lia.
  by apply take_app_exact.
Qed.

End ack.

(** ** Theorems: returned paths *)

Definition path_return_ok (p : PathReturn.t) : Prop :=
  (1 <= PathReturn.path_hash_size p <= 3)%nat /\ (length (PathReturn.path p) <= 64)%nat /\
  (length (PathReturn.path p) mod PathReturn.path_hash_size p = 0)%nat /\
  (length (PathReturn.path p) / PathReturn.path_hash_size p <= 63)%nat /\
  0 <= PathReturn.extra_type p < 16 /\ PathReturn.has_extra p = true.

Lemma nibble_mask v : 0 <= v < 16 -> u8 (Z.land v 0x0F) = v.
Proof. intros H. apply Z.eqb_eq. by_range v 0 16. Qed.

Lemma path_return_padded p :
  path_return_ok p ->
  exists n, PathReturn.decode (zero_pad (PathReturn.encode p)) =
    Some (PathReturn.mk (PathReturn.path p) (PathReturn.path_hash_size p) (PathReturn.extra_type p)
            (PathReturn.extra p ++ replicate n 0) true).
Proof.
  intros (Hh & Hl & Ha & Hd & Ht & He). destruct (zero_pad_app (PathReturn.encode p)) as [n ->].
  exists n. unfold PathReturn.encode, put_bytes. rewrite He, (proj2 (Nat.eqb_neq _ 0)) by lia.
  change (u8 (Z.lor _ _)) with (pack_len (length (PathReturn.path p) / PathReturn.path_hash_size p)
    (PathReturn.path_hash_size p)).
  destruct (pack_len_fields _ _ Hd Hh) as (Hn & _ & Hs & _).
  rewrite <- !app_assoc. cbn [app]. unfold PathReturn.decode. start_reads.
  rewrite Hn, Hs. replace (Z.to_nat (u8 _)) with (PathReturn.path_hash_size p)
    by (rewrite u8_small by width; lia).
  rewrite (proj2 (Nat.eqb_neq _ 4)) by lia.
  assert (length (PathReturn.path p) =
    (length (PathReturn.path p) / PathReturn.path_hash_size p * PathReturn.path_hash_size p)%nat)
    by (pose proof (Nat.div_mod_eq (length (PathReturn.path p)) (PathReturn.path_hash_size p)); lia).
  run_reads. rewrite (proj2 (Nat.ltb_ge _ _)) by (unfold kMaxPathSize; lia).
  simpl (_ <=? _)%nat. cbv iota. by rewrite !nibble_mask by (rewrite ?nibble_mask; done).
Qed.

Lemma path_return_encode_ok p :
  bytes_ok (PathReturn.path p) -> bytes_ok (PathReturn.extra p) ->
  bytes_ok (PathReturn.encode p) /\ PathReturn.encode p <> [].
Proof.
  intros Hp He. unfold PathReturn.encode, put_bytes. split; [|by case_match].
  case_match; bytes.
Qed.

(** A returned path survives encryption: the zero-padded decryption of an
    encoded path return decodes to the same route, hash width and bundled payload
    type, the payload followed only by padding zeros. *)
Theorem path_return_roundtrip p :
  path_return_ok p ->
  exists n, PathReturn.decode (zero_pad (PathReturn.encode p)) =
    Some (PathReturn.mk (PathReturn.path p) (PathReturn.path_hash_size p) (PathReturn.extra_type p)
            (PathReturn.extra p ++ replicate n 0) true).
Proof. apply path_return_padded. Qed.
