(* ===== verification/Frames.v ===== *)
(** * Companion framing ([src/src/companion/frames.h], [frames.cpp])

    The length-prefixed frames the companion protocol uses over a byte stream,
    and the incremental de-framer with its resynchronisation.  The theorems: the
    de-framer's loop terminates, what it delivers does not depend on how the
    stream was cut into reads, a stream of frames is delivered exactly, and the
    bytes it holds back are always fewer than one maximal frame. *)

From S2P Require Import Prelude ByteIO.

Definition kFrameToDevice : Z := 60.  (* '<' *)
Definition kFrameToApp : Z := 62.     (* '>' *)
Definition kMaxFrameSize : Z := 8192.

Definition kRespOk : Z := 0.
Definition kRespErr : Z := 1.

Definition is_marker (c : Z) : bool := (c =? kFrameToDevice) || (c =? kFrameToApp).

(** [feed] appends to [buf_]. *)
Definition feed (buf data : Bytes) : Bytes := buf ++ data.

(** The resync loop: everything before the first start marker is erased. *)
Fixpoint drop_junk (buf : Bytes) : Bytes :=
  match buf with
  | [] => []
  | c :: rest => if is_marker c then buf else drop_junk rest
  end.

(** One pass of the [for (;;)] of [FrameReader::next] over a buffer that has
    been resynchronised: [Deliver] returns a frame and the new [buf_], [Wait] is
    the [nullopt] return, [Retry] the [continue] after an impossible length. *)
Inductive Pass := Deliver (frame buf : Bytes) | Wait (buf : Bytes) | Retry (buf : Bytes).

Definition next_pass (buf : Bytes) : Pass :=
  let buf := drop_junk buf in
  let r := Reader.skip 1 (Reader.make buf) in
  let '(len, r) := Reader.u16 r in
  if negb (Reader.ok r) then Wait buf
  else if kMaxFrameSize <? len then Retry (skipn 1 buf)
  else
    let '(body, r) := Reader.take (Z.to_nat len) r in
    if negb (Reader.ok r) then Wait buf
    else Deliver body (skipn (3 + Z.to_nat len) buf).

(** The loop, with fuel; every [Retry] removes a byte, so one more than the
    bytes buffered is enough ([next_fuel_enough]). *)
Fixpoint next_fuel (n : nat) (buf : Bytes) : option Bytes * Bytes :=
  match n with
  | O => (None, buf)
  | S n =>
      match next_pass buf with
      | Deliver frame buf => (Some frame, buf)
      | Wait buf => (None, buf)
      | Retry buf => next_fuel n buf
      end
  end.

Definition next (buf : Bytes) : option Bytes * Bytes := next_fuel (S (length buf)) buf.

(** "Call repeatedly until it returns nullopt", as [Server::on_client_ready]
    does: the frames delivered, in order, and what stays buffered. *)
Fixpoint drain_fuel (n : nat) (buf : Bytes) : list Bytes * Bytes :=
  match n with
  | O => ([], buf)
  | S n =>
      match next buf with
      | (None, buf) => ([], buf)
      | (Some f, buf) => let '(fs, buf) := drain_fuel n buf in (f :: fs, buf)
      end
  end.
Definition drain (buf : Bytes) : list Bytes * Bytes := drain_fuel (S (length buf)) buf.

(** A stream arriving in chunks, drained after each. *)
Fixpoint receive (buf : Bytes) (chunks : list Bytes) : list Bytes * Bytes :=
  match chunks with
  | [] => ([], buf)
  | c :: chunks =>
      let '(fs, buf) := drain (feed buf c) in
      let '(fs', buf) := receive buf chunks in
      (fs ++ fs', buf)
  end.

Definition frame_response (payload : Bytes) : Bytes :=
  put_bytes (put_u16 [kFrameToApp] (u16 (zlen payload))) payload.

Definition resp_ok : Bytes := [kRespOk].
Definition resp_ok_value (value : Z) : Bytes := put_u32 [kRespOk] value.
Definition resp_err (code : Z) : Bytes := [kRespErr; code].

(** ** Lemmas *)

Lemma drop_junk_length b : (length (drop_junk b) <= length b)%nat.
Proof. induction b as [|c b IH]; simpl; [lia|]. destruct (is_marker c); simpl; lia. Qed.

Lemma drop_junk_idemp b : drop_junk (drop_junk b) = drop_junk b.
Proof.
  induction b as [|c b IH]; simpl; [done|]. destruct (is_marker c) eqn:E; simpl; [by rewrite E|done].
Qed.

Lemma drop_junk_app b c :
  drop_junk (b ++ c) = if decide (drop_junk b = []) then drop_junk c else drop_junk b ++ c.
Proof.
  induction b as [|x b IH]; simpl; [done|]. by destruct (is_marker x).
Qed.

(** The pass, as a function of the resynchronised bytes: the two length bytes
    decide everything. *)
Definition pass_of (b : Bytes) : Pass :=
  match b with
  | m :: l0 :: l1 :: rest =>
      let len := Z.lor l0 (Z.shiftl l1 8) in
      if kMaxFrameSize <? len then Retry (l0 :: l1 :: rest)
      else if (Z.to_nat len <=? length rest)%nat
      then Deliver (firstn (Z.to_nat len) rest) (skipn (Z.to_nat len) rest)
      else Wait b
  | _ => Wait b
  end.

Lemma next_pass_eq b : next_pass b = pass_of (drop_junk b).
Proof.
  unfold next_pass. generalize (drop_junk b) as l. clear b. intros l.
  destruct l as [|m [|l0 [|l1 rest]]]; [done|done|done|].
  unfold Reader.skip, Reader.u16, Reader.take at 1 2, Reader.has, Reader.remaining. simpl.
  destruct (_ <? _); [done|].
  unfold Reader.take, Reader.has, Reader.remaining. simpl.
  rewrite Nat.sub_0_r. by destruct (_ <=? _)%nat.
Qed.

Lemma pass_smaller b :
  match pass_of b with
  | Deliver _ b' | Retry b' => (length b' < length b)%nat
  | Wait b' => b' = b
  end.
Proof.
  destruct b as [|m [|l0 [|l1 rest]]]; simpl; [done|done|done|].
  destruct (_ <? _); [simpl; lia|]. destruct (_ <=? _)%nat; [|done].
  rewrite length_drop. lia.
Qed.

Lemma next_fuel_enough n m b :
  (length b < n)%nat -> (length b < m)%nat -> next_fuel n b = next_fuel m b.
Proof.
  revert m b. induction n as [|n IH]; intros m b Hn Hm; [lia|]. destruct m as [|m]; [lia|].
  simpl. rewrite next_pass_eq. pose proof (pass_smaller (drop_junk b)) as Hs.
  pose proof (drop_junk_length b).
  destruct (pass_of _); [done|done|]. apply IH; lia.
Qed.

Lemma next_unfold b :
  next b = match pass_of (drop_junk b) with
           | Deliver f b' => (Some f, b')
           | Wait b' => (None, b')
           | Retry b' => next b'
           end.
Proof.
  unfold next at 1. simpl. rewrite next_pass_eq.
  pose proof (pass_smaller (drop_junk b)) as Hs. pose proof (drop_junk_length b).
  destruct (pass_of _); [done|done|]. apply next_fuel_enough; lia.
Qed.

Lemma next_smaller b f b' : next b = (Some f, b') -> (length b' < length b)%nat.
Proof.
  induction b as [b IH] using (induction_ltof1 _ (@length Z)). unfold ltof in IH.
  rewrite next_unfold. pose proof (pass_smaller (drop_junk b)) as Hs.
  pose proof (drop_junk_length b) as Hj.
  destruct (pass_of _) as [? b1|b1|b1]; intros H; simplify_eq; [lia|].
  specialize (IH b1 ltac:(lia) H). lia.
Qed.

Lemma drain_fuel_enough n m b :
  (length b < n)%nat -> (length b < m)%nat -> drain_fuel n b = drain_fuel m b.
Proof.
  revert m b. induction n as [|n IH]; intros m b Hn Hm; [lia|]. destruct m as [|m]; [lia|].
  simpl. destruct (next b) as [[f|] b'] eqn:E; [|done].
  apply next_smaller in E. by rewrite (IH m) by lia.
Qed.

Lemma drain_unfold b :
  drain b = match next b with
            | (None, b') => ([], b')
            | (Some f, b') => let '(fs, r) := drain b' in (f :: fs, r)
            end.
Proof.
  unfold drain at 1. simpl. destruct (next b) as [[f|] b'] eqn:E; [|done].
  apply next_smaller in E. unfold drain. by rewrite (drain_fuel_enough _ (S (length b'))) by lia.
Qed.

(** The de-framer as one recursion over the passes. *)
Lemma drain_pass b :
  drain b = match pass_of (drop_junk b) with
            | Deliver f b' => let '(fs, r) := drain b' in (f :: fs, r)
            | Wait b' => ([], b')
            | Retry b' => drain b'
            end.
Proof.
  rewrite drain_unfold, next_unfold. destruct (pass_of _) as [f b'|b'|b']; [done|done|].
  by rewrite <- drain_unfold.
Qed.

(** A decided pass is not changed by bytes that arrive later. *)
Lemma pass_of_app b c :
  match pass_of b with
  | Deliver f b' => pass_of (b ++ c) = Deliver f (b' ++ c)
  | Retry b' => pass_of (b ++ c) = Retry (b' ++ c)
  | Wait _ => True
  end.
Proof.
  destruct b as [|m [|l0 [|l1 rest]]]; simpl; [done|done|done|].
  destruct (_ <? _); [done|].
  destruct (Nat.leb_spec (Z.to_nat (Z.lor l0 (l1 ≪ 8))) (length rest)); [|done].
  rewrite (proj2 (Nat.leb_le _ _)) by (rewrite length_app; lia).
  by rewrite take_app_le, drop_app_le by lia.
Qed.

Lemma drain_app b c :
  drain (b ++ c) = let '(fs, r) := drain b in let '(fs', r') := drain (r ++ c) in (fs ++ fs', r').
Proof.
  induction b as [b IH] using (induction_ltof1 _ (@length Z)). unfold ltof in IH.
  rewrite (drain_pass b). pose proof (pass_smaller (drop_junk b)) as Hs.
  pose proof (drop_junk_length b) as Hj. pose proof (pass_of_app (drop_junk b) c) as Ha.
  destruct (pass_of (drop_junk b)) as [f b'|b'|b'] eqn:E.
  - rewrite (drain_pass (b ++ c)), drop_junk_app.
    destruct (decide (drop_junk b = [])) as [D|_]; [by rewrite D in E|]. rewrite Ha, IH by lia.
    destruct (drain b') as [fs r]. by destruct (drain (r ++ c)).
  - subst b'.
    assert (drain (b ++ c) = drain (drop_junk b ++ c)) as ->
      by (rewrite drain_pass, (drain_pass (drop_junk b ++ c)), !drop_junk_app, drop_junk_idemp; done).
    by destruct (drain (drop_junk b ++ c)).
  - rewrite (drain_pass (b ++ c)), drop_junk_app.
    destruct (decide (drop_junk b = [])) as [D|_]; [by rewrite D in E|]. rewrite Ha. by apply IH; lia.
Qed.

Lemma drain_nil : drain [] = ([], []).
Proof. done. Qed.

(** Draining leaves nothing deliverable behind. *)
Lemma drain_rest b fs r : drain b = (fs, r) -> pass_of r = Wait r /\ drop_junk r = r.
Proof.
  revert fs r. induction b as [b IH] using (induction_ltof1 _ (@length Z)). unfold ltof in IH.
  intros fs r. rewrite drain_pass. pose proof (pass_smaller (drop_junk b)) as Hs.
  pose proof (drop_junk_length b) as Hj.
  destruct (pass_of (drop_junk b)) as [f b'|b'|b'] eqn:E.
  - destruct (drain b') as [fs' r'] eqn:E'. intros [= <- <-]. eapply IH; [|exact E']. lia.
  - subst b'. intros [= <- <-]. by rewrite drop_junk_idemp.
  - apply IH. lia.
Qed.

Lemma receive_drain buf chunks :
  pass_of buf = Wait buf -> drop_junk buf = buf ->
  receive buf chunks = drain (buf ++ concat chunks).
Proof.
  revert buf. induction chunks as [|c chunks IH]; intros buf Hw Hj; simpl.
  - by rewrite app_nil_r, drain_pass, Hj, Hw.
  - unfold feed. rewrite app_assoc, (drain_app (buf ++ c)).
    destruct (drain (buf ++ c)) as [fs r] eqn:E. destruct (drain_rest _ _ _ E) as [Hw' Hj'].
    rewrite (IH r Hw' Hj'). by destruct (drain (r ++ concat chunks)).
Qed.

(** A frame as either side writes it. *)
Definition frame (marker : Z) (payload : Bytes) : Bytes :=
  put_bytes (put_u16 [marker] (u16 (zlen payload))) payload.

Lemma drain_frame m p rest :
  is_marker m = true -> zlen p <= kMaxFrameSize ->
  drain (frame m p ++ rest) = let '(fs, r) := drain rest in (p :: fs, r).
Proof.
  intros Hm Hl. rewrite drain_pass. unfold frame, put_bytes, put_u16.
  rewrite <- !app_assoc. simpl. rewrite Hm. simpl.
  assert (is_u16 (zlen p)) as Hp by (unfold kMaxFrameSize, zlen in *; width).
  rewrite le16_join, le16_split by auto with core_bytes. rewrite u16_small by done.
  rewrite (proj2 (Z.ltb_ge _ _)) by done.
  unfold zlen. rewrite Nat2Z.id, (proj2 (Nat.leb_le _ _)) by (rewrite length_app; lia).
  by rewrite take_app_length, drop_app_length.
Qed.

(** What the de-framer delivers depends only on the bytes of the stream, not
    on how they were cut into reads: draining after every chunk gives the frames
    and the remainder of draining the whole stream at once. *)
Theorem framing_chunk_independent chunks :
  receive [] chunks = drain (concat chunks).
Proof. by rewrite receive_drain. Qed.

(** A stream of frames of at most 8192 bytes each, cut anywhere, is
    delivered as exactly its payloads, in order, with nothing left over. *)
Theorem framing_delivers chunks payloads :
  Forall (fun p => zlen p <= kMaxFrameSize) payloads ->
  concat chunks = concat (map (frame kFrameToDevice) payloads) ->
  receive [] chunks = (payloads, []).
Proof.
  intros Hp Hc. rewrite receive_drain by done. simpl. rewrite Hc. clear Hc chunks.
  induction Hp as [|p payloads Hl _ IH]; [done|].
  change (concat _) with (frame kFrameToDevice p ++ concat (map (frame kFrameToDevice) payloads)).
  by rewrite drain_frame, IH.
Qed.

(** The de-framer never holds back a whole frame: whatever arrives, fewer
    than 3 + 8192 bytes stay buffered after a drain, so a stream of garbage
    cannot make the buffer grow. *)
Lemma framing_buffer_bounded b fs r :
  drain b = (fs, r) -> zlen r < 3 + kMaxFrameSize.
Proof.
  intros E. destruct (drain_rest _ _ _ E) as [Hw _]. revert Hw.
  destruct r as [|m [|l0 [|l1 rest]]]; simpl; try (intros; unfold zlen, kMaxFrameSize; simpl; lia).
  destruct (Z.ltb_spec (kMaxFrameSize) (Z.lor l0 (l1 ≪ 8))); [done|].
  destruct (Nat.leb_spec (Z.to_nat (Z.lor l0 (l1 ≪ 8))) (length rest)); [done|].
  intros _. rewrite !zlen_cons. unfold zlen. lia.
Qed.
