(* ===== verification/Examples.v ===== *)
(** * Concrete runs of the wire formats

    The codec, crypto and framing theorems applied to concrete packets, messages
    and streams, under the crypto instance of [Toy]. *)

From S2P Require Import Prelude ByteIO Floats Crypto Identity Toy Packet Payloads Frames.

(** A direct text packet with two hops of path. *)
Definition ex_packet : Packet :=
  make_packet PayloadType.TxtMsg Direct 1 [17; 34] [1; 2; 3].

(** The same message as a flood that nobody has repeated yet. *)
Definition ex_flood : Packet :=
  make_packet PayloadType.TxtMsg Flood 1 [] [1; 2; 3].

Definition ex_appdata : AdvertAppData.t :=
  AdvertAppData.mk 0x91 1000000 (-2000000) 0 0 (lit "alice").

Definition ex_text : TextMessage.t := TextMessage.mk 1700000000 0 1 0 (lit "hello").

Definition ex_path : PathReturn.t := PathReturn.mk [1; 2; 3; 4] 2 3 [9; 9; 9; 9] true.

(** Solves [bytes_ok] and the like of concrete data. *)
Ltac concrete :=
  apply (bool_decide_unpack _); vm_compute; exact I.

Lemma ex_packet_sendable : sendable ex_packet.
Proof.
  constructor; concrete.
Qed.

Lemma packet_decode_encode_witness :
  Packet.decode (Packet.encode ex_packet) = Some (wire_image ex_packet).
Proof. apply packet_decode_encode. exact ex_packet_sendable. Defined.

Lemma packet_encode_decode_witness :
  Packet.encode ex_packet = [10; 2; 17; 34; 1; 2; 3] /\ sendable ex_packet.
Proof.
  apply (packet_encode_decode [10; 2; 17; 34; 1; 2; 3] ex_packet); [concrete|].
  vm_compute. reflexivity.
Defined.

(** Two repeaters, 0xAA and 0xBB, relay the flood. *)
Definition ex_flood2 : Packet := set_path ex_flood [170; 187].

Lemma relay_keeps_identity_witness :
  valid ex_flood2 = true /\ p_payload ex_flood2 = p_payload ex_flood /\
  dedup_hash ex_flood2 = dedup_hash ex_flood.
Proof.
  apply relay_keeps_identity; [vm_compute; reflexivity|vm_compute; discriminate|].
  apply rtc_l with (set_path ex_flood [170]).
  - apply (relay_push _ [170; 1]). vm_compute. reflexivity.
  - apply rtc_once. apply (relay_push _ [187; 2]). vm_compute. reflexivity.
Defined.

Lemma flood_hops_bounded_witness :
  hop_count ex_flood2 = (hop_count ex_flood + 2)%nat /\ (hop_count ex_flood2 <= 63)%nat /\
  (length (p_path ex_flood2) <= kMaxPathSize)%nat.
Proof.
  apply (flood_hops_bounded 2 ex_flood ex_flood2); [vm_compute; reflexivity|].
  apply nsteps_l with (set_path ex_flood [170]).
  - apply (flood_push _ [170; 1]). vm_compute. reflexivity.
  - apply nsteps_once. apply (flood_push _ [187; 2]). vm_compute. reflexivity.
Defined.

Lemma advert_create_authentic_witness :
  let a := Advert.create toy_alice 1700000000 ex_appdata in
  Advert.decode (Advert.encode a) = Some a /\ Advert.verify a = true /\
  Advert.pubkey a = pub toy_alice /\
  AdvertAppData.decode (Advert.appdata a) = Some (appdata_image ex_appdata).
Proof.
  apply (advert_create_authentic (L := toy_L) (base_mul := toy_base_mul) toy_alice 1700000000 ex_appdata);
    [exact toy_alice_ok|concrete| |vm_compute; discriminate].
  split_and!; concrete.
Defined.

Lemma envelopes_open_witness :
  let key := replicate 32 5 in
  let p := lit "hi" in
  (exists e, DirectEnvelope.decode (DirectEnvelope.encode (DirectEnvelope.seal 1 2 key p)) = Some e /\
     DirectEnvelope.dest_hash e = 1 /\ DirectEnvelope.src_hash e = 2 /\
     mac_and_decrypt key (DirectEnvelope.mac e) (DirectEnvelope.ciphertext e) = Some (zero_pad p)) /\
  (exists e, AnonReqEnvelope.decode
       (AnonReqEnvelope.encode (AnonReqEnvelope.seal 1 (pub toy_bob) key p)) = Some e /\
     AnonReqEnvelope.dest_hash e = 1 /\ AnonReqEnvelope.pubkey e = pub toy_bob /\
     mac_and_decrypt key (AnonReqEnvelope.mac e) (AnonReqEnvelope.ciphertext e) = Some (zero_pad p)) /\
  (exists e, GroupEnvelope.decode (GroupEnvelope.encode (GroupEnvelope.seal 1 key p)) = Some e /\
     GroupEnvelope.channel_hash e = 1 /\
     mac_and_decrypt key (GroupEnvelope.mac e) (GroupEnvelope.ciphertext e) = Some (zero_pad p)).
Proof.
  apply envelopes_open; [vm_compute; lia|concrete|done|vm_compute; reflexivity].
Defined.

Lemma ex_text_ok : text_ok ex_text.
Proof. split_and!; try concrete; vm_compute; done. Qed.

Lemma text_decode_padded_witness :
  TextMessage.decode (zero_pad (TextMessage.encode ex_text)) =
  Some (TextMessage.mk 1700000000 0 1 0 (lit "hello")).
Proof. apply (text_decode_padded ex_text). exact ex_text_ok. Defined.

Lemma path_return_roundtrip_witness :
  exists n, PathReturn.decode (zero_pad (PathReturn.encode ex_path)) =
    Some (PathReturn.mk [1; 2; 3; 4] 2 3 ([9; 9; 9; 9] ++ replicate n 0) true).
Proof. apply (path_return_roundtrip ex_path). split_and!; vm_compute; try done; lia. Defined.

Lemma framing_delivers_witness :
  receive [] [[60; 2]; [0; 7; 8; 60]; [1; 0; 9]] = ([[7; 8]; [9]], []).
Proof.
  apply framing_delivers; [|reflexivity]. repeat constructor; vm_compute; discriminate.
Defined.

