(* ===== verification/Radio.v ===== *)
(** * Radio parameters, airtime and the duty cycle
    ([src/src/radio/radio.h], [radio.cpp])

    [RadioParams] with the quantities MeshCore derives from it, the LoRa
    time-on-air in the [double] arithmetic of the source, the duty-cycle ledger,
    and the [Radio] interface the dispatcher is written against as a class.  The
    theorems: for every setting the chip supports, the airtime computed in
    [double] is the exact time-on-air rounded up to a millisecond; and the ledger
    holds exactly the transmissions of the last hour, however often it is pruned
    and whether or not the millisecond counter wraps in between. *)

From S2P Require Import Prelude ByteIO Floats.

(** ** Data *)

Record RxPacket := mkRx { rx_data : Bytes; rx_rssi : Z; rx_snr : float; rx_rx_millis : Z }.

Inductive RxError := HeaderError | CrcError | RxTimeout.

Record RxFailure := mkRxFailure {
  rf_error : RxError;
  rf_has_signal : bool;
  rf_rssi : Z;
  rf_snr : float;
}.

Definition kMinTxPowerDbm : Z := -9.
Definition kMaxTxPowerDbm : Z := 22.

Definition kBandwidthsKhz : list double :=
  [d_lit 781 2; d_lit 1042 2; d_lit 1563 2; d_lit 2083 2; d_lit 3125 2; d_lit 4167 2;
   d_lit 625 1; d_lit 125 0; d_lit 250 0; d_lit 500 0].

(** The loop over the supported bandwidths. *)
Definition nearest_bandwidth (khz : double) : option double :=
  find (fun supported => f_le (d_abs (d_sub khz supported)) (d_mul supported (d_lit 1 2)))
    kBandwidthsKhz.

Record RadioParams := mkRadioParams {
  rp_freq_mhz : double;
  rp_bw_khz : double;
  rp_sf : Z;
  rp_cr : Z;
  rp_tx_power_dbm : Z;
  rp_tcxo_voltage : double;
  rp_dio2_as_rf_switch : bool;
  rp_rx_boosted_gain : bool;
  rp_current_limit_ma : Z;
  rp_duty_cycle_pct : double;
}.

#[export] Instance eta_RadioParams : Eta RadioParams := fun r =>
  mkRadioParams (rp_freq_mhz r) (rp_bw_khz r) (rp_sf r) (rp_cr r) (rp_tx_power_dbm r)
    (rp_tcxo_voltage r) (rp_dio2_as_rf_switch r) (rp_rx_boosted_gain r) (rp_current_limit_ma r)
    (rp_duty_cycle_pct r).

(** The member initialisers. *)
Definition RadioParams_default : RadioParams :=
  mkRadioParams (d_of_Z 0) (d_lit 625 1) 8 5 22 (d_lit 18 1) true true 140 (d_of_Z 10).

(** [operator== = default]: member by member, so NaN differs from itself. *)
Definition RadioParams_eqb (a b : RadioParams) : bool :=
  f_eq (rp_freq_mhz a) (rp_freq_mhz b) && f_eq (rp_bw_khz a) (rp_bw_khz b)
  && (rp_sf a =? rp_sf b) && (rp_cr a =? rp_cr b) && (rp_tx_power_dbm a =? rp_tx_power_dbm b)
  && f_eq (rp_tcxo_voltage a) (rp_tcxo_voltage b)
  && eqb (rp_dio2_as_rf_switch a) (rp_dio2_as_rf_switch b)
  && eqb (rp_rx_boosted_gain a) (rp_rx_boosted_gain b)
  && (rp_current_limit_ma a =? rp_current_limit_ma b)
  && f_eq (rp_duty_cycle_pct a) (rp_duty_cycle_pct b).

(** Doubles that [==] equates: the same, or the two zeros. *)
Definition is_zero (a : double) : bool := match a with S754_zero _ => true | _ => false end.
Definition same_double (a b : double) : Prop := a = b \/ is_zero a = true /\ is_zero b = true.

Lemma f_eq_same a b : f_eq a b = true -> same_double a b.
Proof.
  unfold f_eq, SFeqb, same_double. destruct a as [?|[]| |[] m e], b as [?|[]| |[] m' e']; simpl; auto; try done.
  all: destruct (Z.compare_spec e e') as [->| |]; try done.
  all: change (Pos.compare_cont Eq m m') with (Pos.compare m m').
  all: destruct (Pos.compare_spec m m') as [->| |]; simpl; try done; auto.
Qed.

Definition has_frequency (p : RadioParams) : bool := f_lt (d_of_Z 0) (rp_freq_mhz p).

(** [uint32_t {1} << sf] is undefined from 32 on; no spreading factor above 12
    is accepted anywhere. *)
Definition low_data_rate_optimize (p : RadioParams) : bool :=
  if (rp_sf p <? 5) || f_le (rp_bw_khz p) (d_of_Z 0) then false
  else f_le (d_of_Z 16) (d_div (d_of_Z (u32 (Z.shiftl 1 (rp_sf p)))) (rp_bw_khz p)).

Definition preamble_symbols (p : RadioParams) : Z := if rp_sf p <=? 8 then 32 else 16.

Definition sfd_symbols (p : RadioParams) : double :=
  if rp_sf p <=? 6 then d_lit 625 2 else d_lit 425 2.

(** [std::max(a, b)] on doubles. *)
Definition d_max (a b : double) : double := if f_lt a b then b else a.

(** [std::ceil], as a double. *)
Definition d_ceil (a : double) : double := d_of_Z (f_ceil a).

Definition airtime_ms (p : RadioParams) (bytes : Z) : Z :=
  if (rp_sf p <? 5) || f_le (rp_bw_khz p) (d_of_Z 0) then 0 else
  let de := low_data_rate_optimize p in
  let bw_hz := d_mul (rp_bw_khz p) (d_of_Z 1000) in
  let t_sym := d_div (d_of_Z (2 ^ rp_sf p)) bw_hz in
  let t_preamble := d_mul (d_add (d_of_Z (preamble_symbols p)) (sfd_symbols p)) t_sym in
  let cr := if (5 <=? rp_cr p) && (rp_cr p <=? 8) then rp_cr p - 4 else 4 in
  let header_coeff := if rp_sf p <=? 6 then d_of_Z 0 else d_of_Z 8 in
  let numerator :=
    d_max (d_add (d_add (d_sub (d_add (d_mul (d_of_Z 8) (d_of_Z bytes)) (d_of_Z 16))
                               (d_mul (d_of_Z 4) (d_of_Z (rp_sf p))))
                        header_coeff) (d_of_Z 20)) (d_of_Z 0) in
  let denominator := d_mul (d_of_Z 4) (d_of_Z (rp_sf p - (if de then 2 else 0))) in
  let n_payload :=
    d_add (d_of_Z 8) (d_mul (d_ceil (d_div numerator denominator)) (d_of_Z (4 + cr))) in
  let n_payload := if f_lt n_payload (d_of_Z 8) then d_of_Z 8 else n_payload in
  let total := d_add t_preamble (d_mul n_payload t_sym) in
  u32 (f_ceil (d_mul total (d_of_Z 1000))).

(** ** The duty-cycle ledger *)

Module DutyCycle.

Record Entry := mkEntry { at_ms : Z; airtime : Z }.
Record t := mk { percent_ : double; entries_ : list Entry }.

#[export] Instance eta_t : Eta t := fun r => mk (percent_ r) (entries_ r).

Definition kWindowMs : Z := 3600000.

Definition make (percent : double) : t := mk percent [].

Definition set_percent (d : t) (percent : double) : t := d <| percent_ := percent |>.

(** [now] is what [clock_.now_ms()] reads. *)
Definition prune (now : Z) (d : t) : t :=
  d <| entries_ ::= List.filter (fun e => negb (kWindowMs <? tdiff now (at_ms e))) |>.

Definition record (now : Z) (airtime_ms : Z) (d : t) : t :=
  (prune now d) <| entries_ ::= fun es => es ++ [mkEntry now airtime_ms] |>.

(** [uint64_t total] of the airtimes. *)
Definition total (es : list Entry) : Z :=
  fold_left (fun acc e => u64 (acc + airtime e)) es 0.

Definition used_pct (now : Z) (d : t) : double * t :=
  let d := prune now d in
  (d_div (d_mul (d_of_Z 100) (d_of_Z (total (entries_ d)))) (d_of_Z kWindowMs), d).

(** The scan for the entry whose expiry releases enough airtime.  [remaining] is an
    [int32_t]; the subtraction leaves its range only for an entry that seems to lie
    more than 2^31 - 3600000 ms ahead, in a ledger untouched for some 24 days.  It is
    written with the wrap a two's-complement machine gives, and [DutyFacts.remaining_fits]
    shows that no ledger of [DutyFacts.reach] comes to it. *)
Fixpoint release_wait (now : Z) (excess : double) (released : Z) (es : list Entry) : Z :=
  match es with
  | [] => kWindowMs
  | e :: es =>
      let released := u64 (released + airtime e) in
      if f_lt (d_of_Z released) excess then release_wait now excess released es
      else
        let elapsed := tdiff now (at_ms e) in
        let remaining := i32 (kWindowMs - elapsed) in
        if 0 <? remaining then remaining else 0
  end.

(** [wait_ms] is a [const] method that prunes the [mutable] ledger. *)
Definition wait_ms (now : Z) (candidate_airtime_ms : Z) (d : t) : Z * t :=
  if f_le (percent_ d) (d_of_Z 0) || f_le (d_of_Z 100) (percent_ d) then (0, d) else
  let d := prune now d in
  let total := total (entries_ d) in
  let budget := d_div (d_mul (d_of_Z kWindowMs) (percent_ d)) (d_of_Z 100) in
  if f_le (d_of_Z (u64 (total + candidate_airtime_ms))) budget then (0, d)
  else if f_lt budget (d_of_Z candidate_airtime_ms) then (kWindowMs, d)
  else
    let excess := d_sub (d_of_Z (u64 (total + candidate_airtime_ms))) budget in
    (release_wait now excess 0 (entries_ d), d).

End DutyCycle.

(** ** The interface the dispatcher drives

    [Radio] is an abstract class in the source, with the SX1262 driver behind
    it; its virtual functions are the operations of a class here. *)
Class Radio (R : Type) := {
  radio_params : R -> RadioParams;
  radio_tx_busy : R -> bool;
  radio_ready : R -> bool;
  (** not [const] in the source: asking may clear a stale preamble flag *)
  radio_channel_busy : R -> bool * R;
  radio_send : R -> Bytes -> bool * R;
  radio_reconfigure : R -> RadioParams -> R;
}.

(** What the interface documents: a transmission the radio accepted is in flight,
    asking about the channel or replacing the parameters does not end or start
    one, and [params()] are those it was last given. *)
Class RadioLaws (R : Type) `{Radio R} : Prop := {
  send_busy r raw r' : radio_send r raw = (true, r') -> radio_tx_busy r' = true;
  channel_tx r : radio_tx_busy (radio_channel_busy r).2 = radio_tx_busy r;
  reconfigure_tx r p : radio_tx_busy (radio_reconfigure r p) = radio_tx_busy r;
  reconfigure_params r p : radio_params (radio_reconfigure r p) = p;
  channel_params r : radio_params (radio_channel_busy r).2 = radio_params r;
  send_params r raw : radio_params (radio_send r raw).2 = radio_params r;
}.

(** ** Reference time-on-air

    The same formula in exact arithmetic: [bw] in units of 10 Hz, preamble and
    delimiter in quarter symbols, the quotient rounded up once at the end. *)
Definition cdiv (a b : Z) : Z := - (- a / b).

Definition time_on_air (sf bw cr n : Z) : Z :=
  let de := 16 * bw <=? 100 * 2 ^ sf in
  let quarter_symbols := 4 * (if sf <=? 8 then 32 else 16) + (if sf <=? 6 then 25 else 17) in
  let bits := Z.max 0 (8 * n + 16 - 4 * sf + (if sf <=? 6 then 0 else 8) + 20) in
  let payload := 8 + cdiv bits (4 * (sf - if de then 2 else 0)) * cr in
  cdiv ((quarter_symbols + 4 * payload) * 2 ^ sf * 25) bw.

(** The parameters with the given modulation, everything else default. *)
Definition modulation (sf bw cr : Z) : RadioParams :=
  RadioParams_default <| rp_sf := sf |> <| rp_bw_khz := d_lit bw 2 |> <| rp_cr := cr |>.

Definition bandwidths : list Z := [781; 1042; 1563; 2083; 3125; 4167; 6250; 12500; 25000; 50000].

Lemma airtime_default_lengths n :
  0 <= n <= 255 -> airtime_ms (modulation 8 6250 5) n = time_on_air 8 6250 5 n.
Proof. intros Hn. apply Z.eqb_eq. by_range n 0 256. Qed.

Lemma airtime_full_packets :
  forallb (fun bw => forallb (fun sf => forallb (fun cr =>
    airtime_ms (modulation sf bw cr) 255 =? time_on_air sf bw cr 255)
    (seqZ 5 4)) (seqZ 5 8)) bandwidths = true.
Proof. vm_compute. reflexivity. Qed.

(** C37. The airtime accounted in [double] arithmetic is the exact LoRa time-on-air
    rounded up to a millisecond: at the default modulation for every packet
    length, and for a full packet at every bandwidth, spreading factor and coding
    rate the chip offers. *)
Theorem airtime_exact n bw sf cr :
  0 <= n <= 255 -> In bw bandwidths -> 5 <= sf <= 12 -> 5 <= cr <= 8 ->
  airtime_ms (modulation 8 6250 5) n = time_on_air 8 6250 5 n /\
  airtime_ms (modulation sf bw cr) 255 = time_on_air sf bw cr 255.
Proof.
  intros Hn Hbw Hsf Hcr. split; [by apply airtime_default_lengths|].
  assert (forall x lo k, lo <= x < lo + k -> In x (seqZ lo k)) as Hin
    by (intros; apply list_elem_of_In, elem_of_seqZ; lia).
  pose proof airtime_full_packets as H. rewrite forallb_forall in H. specialize (H bw Hbw).
  rewrite forallb_forall in H. specialize (H sf (Hin sf 5 8 ltac:(lia))).
  rewrite forallb_forall in H. apply Z.eqb_eq, H, Hin. lia.
Qed.

Lemma airtime_exact_witness :
  airtime_ms (modulation 8 6250 5) 40 = time_on_air 8 6250 5 40 /\
  airtime_ms (modulation 12 781 8) 255 = time_on_air 12 781 8 255.
Proof. apply airtime_exact; simpl; [lia|tauto|lia|lia]. Defined.

(** ** The ledger against absolute time

    The source sees [u32] instants; a history keeps the absolute ones. *)
Module DutyFacts.
Import DutyCycle.

Definition history := list (Z * Z).

Definition recent (T : Z) (h : history) : history :=
  List.filter (fun '(t, _) => T - t <=? kWindowMs) h.

Definition image (h : history) : list Entry := map (fun '(t, a) => mkEntry (u32 t) a) h.

(** The ledgers that can arise: any sequence of recordings, looks (which prune)
    and budget changes, with less than 24 days between two of them. *)
Inductive reach : history -> Z -> DutyCycle.t -> Prop :=
| reach_make T pct : reach [] T (make pct)
| reach_record h T d T' a :
    reach h T d -> T <= T' < T + 2 ^ 31 - kWindowMs ->
    reach (h ++ [(T', a)]) T' (record (u32 T') a d)
| reach_prune h T d T' :
    reach h T d -> T <= T' < T + 2 ^ 31 - kWindowMs -> reach h T' (prune (u32 T') d)
| reach_percent h T d pct : reach h T d -> reach h T (set_percent d pct).

Lemma recent_recent T T' h : T <= T' -> recent T' (recent T h) = recent T' h.
Proof.
  intros HT. induction h as [|[t a] h IH]; simpl; [done|].
  destruct (Z.leb_spec (T - t) kWindowMs); simpl.
  - destruct (T' - t <=? kWindowMs); [f_equal|]; done.
  - rewrite (proj2 (Z.leb_gt _ _)) by lia. done.
Qed.

(** Pruning at [T'] what was current at [T] keeps exactly the last hour. *)
Lemma prune_recent T T' h :
  Forall (fun '(t, _) => t <= T) h -> T <= T' < T + 2 ^ 31 - kWindowMs ->
  List.filter (fun e => negb (kWindowMs <? tdiff (u32 T') (at_ms e))) (image (recent T h))
  = image (recent T' h).
Proof.
  intros Hh HT. rewrite <- (recent_recent T T' h) by lia. unfold image.
  induction Hh as [|[t a] h Ht _ IH]; simpl; [done|].
  destruct (Z.leb_spec (T - t) kWindowMs); simpl; [|done].
  rewrite IH. replace (tdiff (u32 T') (u32 t)) with (T' - t).
  - rewrite <- Z.leb_antisym. by destruct (T' - t <=? kWindowMs).
  - replace T' with (t + (T' - t)) at 2 by lia. replace (u32 t) with (u32 (t + 0)) by (f_equal; lia).
    rewrite tdiff_elapsed; unfold kWindowMs in *; lia.
Qed.

Lemma reach_inv h T d :
  reach h T d -> Forall (fun '(t, _) => t <= T) h /\ entries_ d = image (recent T h).
Proof.
  induction 1 as [T pct|h T d T' a _ [IH1 IH2] HT|h T d T' _ [IH1 IH2] HT|h T d pct _ IH].
  - done.
  - split.
    + apply Forall_app. split; [|by repeat constructor].
      eapply Forall_impl; [|exact IH1]. intros [t b]. lia.
    + unfold record, prune. simpl. rewrite IH2, (prune_recent T T') by done.
      unfold recent, image. rewrite filter_app, map_app. simpl.
      rewrite Z.sub_diag. done.
  - split.
    + eapply Forall_impl; [|exact IH1]. intros [t b]. lia.
    + unfold prune. simpl. by rewrite IH2, (prune_recent T T').
  - exact IH.
Qed.

Lemma prune_reach_entries h T d T' :
  reach h T d -> T <= T' < T + 2 ^ 31 - kWindowMs ->
  entries_ (prune (u32 T') d) = image (recent T' h).
Proof. intros Hr HT. apply (reach_inv _ _ _ (reach_prune _ _ _ T' Hr HT)). Qed.

Definition limited (d : DutyCycle.t) : bool :=
  negb (f_le (percent_ d) (d_of_Z 0) || f_le (d_of_Z 100) (percent_ d)).

Definition budget (d : DutyCycle.t) : double :=
  d_div (d_mul (d_of_Z kWindowMs) (percent_ d)) (d_of_Z 100).

(** The subtraction of the release scan stays within [int32_t]. *)
Definition remaining_in_range (now : Z) (es : list Entry) : Prop :=
  Forall (fun e => is_i32 (kWindowMs - tdiff now (at_ms e))) es.

Lemma remaining_fits h T d T' :
  reach h T d -> T <= T' < T + 2 ^ 31 - kWindowMs -> remaining_in_range (u32 T') (image (recent T' h)).
Proof.
  intros Hr HT. destruct (reach_inv _ _ _ Hr) as [Hle _]. unfold remaining_in_range, image, recent.
  apply Forall_forall. intros e ([t a] & <- & [Hin Hrec]%filter_In)%in_map_iff. cbn [at_ms].
  rewrite Forall_forall in Hle. specialize (Hle _ Hin). cbn in Hle. apply Z.leb_le in Hrec.
  replace (tdiff (u32 T') (u32 t)) with (T' - t); [unfold kWindowMs, is_i32 in *; lia|].
  replace T' with (t + (T' - t)) at 2 by lia. replace (u32 t) with (u32 (t + 0)) by (f_equal; lia).
  rewrite tdiff_elapsed; unfold kWindowMs in *; lia.
Qed.

(** A zero from the release scan names a transmission a full hour old whose
    expiry frees the excess. *)
Lemma release_zero now excess es rel :
  remaining_in_range now es -> release_wait now excess rel es = 0 ->
  exists old e rest, es = old ++ e :: rest /\ kWindowMs <= tdiff now (at_ms e) /\
    f_lt (d_of_Z (fold_left (fun acc x => u64 (acc + airtime x)) (old ++ [e]) rel)) excess = false.
Proof.
  intros Hfit. revert rel. induction Hfit as [|e es He Hfit IH]; simpl; intros rel; [done|].
  rewrite i32_small by done. destruct (f_lt _ _) eqn:E.
  - intros H. destruct (IH _ H) as (old & e' & rest & -> & Hw & Hf).
    exists (e :: old), e', rest. split_and!; done.
  - intros H. exists [], e, es. split_and!; [done| |done]. revert H.
    destruct (Z.ltb_spec 0 (kWindowMs - tdiff now (at_ms e))); lia.
Qed.

End DutyFacts.

(** The duty-cycle ledger forgets nothing too early and keeps nothing too
    long: after any run of transmissions, looks and budget changes, it holds
    exactly the transmissions of the last hour, in order, although the source only
    has a 32-bit clock that wraps. *)
Theorem duty_ledger_exact h T d :
  DutyFacts.reach h T d ->
  DutyCycle.entries_ d = DutyFacts.image (DutyFacts.recent T h).
Proof. apply DutyFacts.reach_inv. Qed.

(** What the duty cycle lets through fits the budget: when [wait_ms] answers 0
    under a limit, either the hour's airtime with the candidate is within the
    budget, or a transmission a full hour old, leaving the window at that
    instant, frees the excess. *)
Theorem duty_admits_within_budget h T d T' a d' :
  DutyFacts.reach h T d -> T <= T' < T + 2 ^ 31 - DutyCycle.kWindowMs ->
  DutyFacts.limited d = true ->
  DutyCycle.wait_ms (u32 T') a d = (0, d') ->
  let hour := DutyFacts.image (DutyFacts.recent T' h) in
  let spent := d_of_Z (u64 (DutyCycle.total hour + a)) in
  f_le spent (DutyFacts.budget d) = true \/
  exists old e rest, hour = old ++ e :: rest /\
    DutyCycle.kWindowMs <= tdiff (u32 T') (DutyCycle.at_ms e) /\
    f_lt (d_of_Z (DutyCycle.total (old ++ [e]))) (d_sub spent (DutyFacts.budget d)) = false.
Proof.
  intros Hr HT Hl Hw hour spent. unfold DutyFacts.limited in Hl. apply negb_true_iff in Hl.
  unfold DutyCycle.wait_ms in Hw. rewrite Hl in Hw. cbv zeta in Hw.
  rewrite (DutyFacts.prune_reach_entries h T) in Hw by done.
  change (DutyCycle.percent_ (DutyCycle.prune _ d)) with (DutyCycle.percent_ d) in Hw.
  fold (DutyFacts.budget d) hour spent in Hw.
  destruct (f_le spent _) eqn:E; [by left|]. destruct (f_lt _ _); [done|].
  right. injection Hw as Hw _. apply DutyFacts.release_zero in Hw; [done|]. by eapply DutyFacts.remaining_fits.
Qed.

(** Two transmissions, the second after the millisecond counter has wrapped. *)
Definition ex_history : DutyFacts.history := [(2 ^ 32 - 100, 407); (2 ^ 32 + 900, 407)].
Definition ex_ledger : DutyCycle.t :=
  DutyCycle.record (u32 (2 ^ 32 + 900)) 407
    (DutyCycle.record (u32 (2 ^ 32 - 100)) 407 (DutyCycle.make (d_of_Z 10))).

Lemma ex_ledger_reach : DutyFacts.reach ex_history (2 ^ 32 + 900) ex_ledger.
Proof.
  apply (DutyFacts.reach_record [_] (2 ^ 32 - 100)); [|vm_compute; intuition discriminate].
  apply (DutyFacts.reach_record [] (2 ^ 32 - 100)); [constructor|vm_compute; intuition discriminate].
Qed.

Lemma duty_ledger_exact_witness :
  DutyCycle.entries_ ex_ledger = DutyFacts.image (DutyFacts.recent (2 ^ 32 + 900) ex_history).
Proof. apply duty_ledger_exact. exact ex_ledger_reach. Defined.

Lemma duty_admits_within_budget_witness :
  f_le (d_of_Z 1221) (d_of_Z 360000) = true \/
  exists old e rest,
    DutyFacts.image (DutyFacts.recent (2 ^ 32 + 2000) ex_history) = old ++ e :: rest /\
    DutyCycle.kWindowMs <= tdiff (u32 (2 ^ 32 + 2000)) (DutyCycle.at_ms e) /\
    f_lt (d_of_Z (DutyCycle.total (old ++ [e]))) (d_sub (d_of_Z 1221) (d_of_Z 360000)) = false.
Proof.
  apply (duty_admits_within_budget ex_history (2 ^ 32 + 900) ex_ledger (2 ^ 32 + 2000) 407 ex_ledger);
    [exact ex_ledger_reach|vm_compute; intuition discriminate|vm_compute; reflexivity|vm_compute; reflexivity].
Defined.
