(* ===== verification/Dispatcher.v ===== *)
(** * The dispatcher ([src/src/mesh/dispatcher.h], [dispatcher.cpp])

    Everything that is received or transmitted goes through it: the dedup
    table, the priority transmit queue with its overflow policy and expiry, the
    back-off, duty-cycle and listen-before-transmit gates, and the pump timer.

    The state is one record; each member function is a function on it.  A
    transmit-result callback is the identifier its closure captured
    ([ReliableSender]'s operation id), and a function that may run callbacks
    returns, in order, the queue entries that left the queue with the [bool] each
    was reported with; no callback re-enters the dispatcher, the sender defers its
    reaction to a timer.  The clock is read once per call ([now]), the random
    byte is an argument, and the radio is any implementation of [Radio].

    The theorems are about every state the dispatcher can reach, whatever the
    radio, the clock and the callers do: queued packets can always be encoded,
    the queue stays within its limit, every accepted packet is reported exactly
    once, and a non-empty queue never stalls. *)

From S2P Require Import Prelude ByteIO Floats Crypto Packet Radio.

Definition kPriorityAck : Z := 1.
Definition kPriorityResponse : Z := 2.
Definition kPriorityDirect : Z := 3.
Definition kPriorityFlood : Z := 4.
Definition kPriorityRepeat : Z := 5.
Definition kPriorityAdvert : Z := 6.

Definition kDefaultQueueLimit : nat := 128.
Definition kSeenTtlMs : Z := 60000.
Definition kExpiryPerPriorityMs : Z := 10000.
Definition kJitterMs : Z := 400.
Definition kChannelBusyRetryMs : Z := 60.
Definition kChannelBusyJitterMs : Z := 60.
Definition kChannelBusyMaxMs : Z := 4000.
Definition kRadioDownRecheckMs : Z := 1000.

Record DispatcherStats := mkStats {
  rx_total : Z;
  rx_dup : Z;
  rx_bad : Z;
  rx_header_err : Z;
  rx_crc_err : Z;
  rx_timeout : Z;
  rx_flood : Z;
  rx_direct : Z;
  tx_deferred : Z;
  tx_forced : Z;
  tx_total : Z;
  tx_flood : Z;
  tx_direct : Z;
  tx_dropped : Z;
  st_airtime_ms : Z;
  last_rssi : Z;
  last_snr : float;
  last_failed_rssi : Z;
  last_failed_snr : float;
}.

#[export] Instance eta_DispatcherStats : Eta DispatcherStats := fun s =>
  mkStats (rx_total s) (rx_dup s) (rx_bad s) (rx_header_err s) (rx_crc_err s) (rx_timeout s)
    (rx_flood s) (rx_direct s) (tx_deferred s) (tx_forced s) (tx_total s) (tx_flood s)
    (tx_direct s) (tx_dropped s) (st_airtime_ms s) (last_rssi s) (last_snr s)
    (last_failed_rssi s) (last_failed_snr s).

Definition DispatcherStats_default : DispatcherStats :=
  mkStats 0 0 0 0 0 0 0 0 0 0 0 0 0 0 0 0 (S754_zero false) 0 (S754_zero false).

(** [counter++] on a [uint32_t]. *)
Definition incr (v : Z) : Z := u32 (v + 1).

Record Queued := mkQueued {
  q_packet : Packet;
  q_priority : Z;
  q_expiry_ms : Z;
  q_not_before_ms : Z;
  q_seq : Z;
  q_on_result : option Z;
}.

(** The entries that left the queue, with what [on_result] was told. *)
Definition Results := list (Queued * bool).

(** The callbacks that run: only entries that carry one. *)
Definition callbacks (rs : Results) : list (Z * bool) :=
  omap (fun '(q, b) => option_map (fun id => (id, b)) (q_on_result q)) rs.

Record Dispatcher {R : Type} := mkDispatcher {
  radio_ : R;
  duty_ : DutyCycle.t;
  queue_ : list Queued;
  queue_limit_ : nat;
  next_seq_ : Z;
  pump_timer_ : bool;
  pump_due_ms_ : Z;
  busy_since_ms_ : Z;
  seen_ : gmap Z Z;
  stats_ : DispatcherStats;
}.
Arguments Dispatcher : clear implicits.

#[export] Instance eta_Dispatcher {R} : Eta (Dispatcher R) := fun d =>
  mkDispatcher R (radio_ d) (duty_ d) (queue_ d) (queue_limit_ d) (next_seq_ d) (pump_timer_ d)
    (pump_due_ms_ d) (busy_since_ms_ d) (seen_ d) (stats_ d).

(** [for (i = 0; i < 4 && i < h.size(); i++) v |= h[i] << (i * 8)] *)
Fixpoint pack_hash_from (i : Z) (h : Bytes) : Z :=
  match h with
  | [] => 0
  | b :: h => if i <? 4 then Z.lor (Z.shiftl b (i * 8)) (pack_hash_from (i + 1) h) else 0
  end.
Definition pack_hash (h : Bytes) : Z := pack_hash_from 0 h.

(** The comparison of [std::upper_bound] in [send]. *)
Definition queued_before (a b : Queued) : bool :=
  if negb (q_priority a =? q_priority b) then q_priority a <? q_priority b
  else if negb (q_expiry_ms a =? q_expiry_ms b) then tdiff (q_expiry_ms a) (q_expiry_ms b) <? 0
  else q_seq a <? q_seq b.

(** [std::upper_bound] is a binary search: [first] and [len] bound the range left
    to look at. *)
Fixpoint upper_bound_loop (fuel : nat) (q : Queued) (l : list Queued) (first len : nat) : nat :=
  match fuel with
  | O => first
  | S fuel =>
      if (len =? 0)%nat then first else
      let half := (len / 2)%nat in
      match l !! (first + half)%nat with
      | None => first
      | Some m =>
          if queued_before q m then upper_bound_loop fuel q l first half
          else upper_bound_loop fuel q l (first + half + 1) (len - half - 1)
      end
  end.
Definition upper_bound (q : Queued) (l : list Queued) : nat :=
  upper_bound_loop (length l) q l 0 (length l).

(** [queue_.insert(pos, q)] *)
Definition insert_at {A} (pos : nat) (x : A) (l : list A) : list A :=
  firstn pos l ++ x :: skipn pos l.

(** The overflow scan: the index of the entry to discard. *)
Fixpoint victim_loop (l : list Queued) (i : nat) (best : nat) (v : Queued) : nat :=
  match l with
  | [] => best
  | it :: l =>
      if (q_priority v <? q_priority it)
         || ((q_priority it =? q_priority v) && (q_seq it <? q_seq v))
      then victim_loop l (S i) i it else victim_loop l (S i) best v
  end.
Definition victim (l : list Queued) : nat :=
  match l with [] => 0%nat | v :: l => victim_loop l 1 0 v end.

(** Removes the entry at an index, giving it too. *)
Definition take_at {A} (i : nat) (l : list A) : option (A * list A) :=
  match l !! i with Some x => Some (x, delete i l) | None => None end.

(** The loop over the expired entries at the front of the queue. *)
Fixpoint split_expired (now : Z) (l : list Queued) : list Queued * list Queued :=
  match l with
  | q :: l' =>
      if tdiff (q_expiry_ms q) now <=? 0
      then let '(dropped, kept) := split_expired now l' in (q :: dropped, kept)
      else ([], l)
  | [] => ([], [])
  end.

(** The smallest [not_before_ms - now] of the queue. *)
Definition soonest (now : Z) (front : Queued) (l : list Queued) : Z :=
  fold_left (fun s q => Z.min s (tdiff (q_not_before_ms q) now)) l
    (tdiff (q_not_before_ms front) now).

Section dispatcher.
Context `{CryptoLib} {R : Type} `{Radio R}.
Implicit Types (d : Dispatcher R).

Definition make_dispatcher (radio : R) (queue_limit : nat) : Dispatcher R :=
  mkDispatcher R radio (DutyCycle.make (rp_duty_cycle_pct (radio_params radio))) []
    (Nat.max queue_limit 1) 0 false 0 0 ∅ DispatcherStats_default.

Definition check_and_mark_seen (now : Z) (p : Packet) d : bool * Dispatcher R :=
  let key := pack_hash (dedup_hash p) in
  let fresh := d <| seen_ ::= <[key := u32 (now + kSeenTtlMs)]> |> in
  match seen_ d !! key with
  | Some expiry => if 0 <? tdiff expiry now then (true, fresh) else (false, fresh)
  | None => (false, fresh)
  end.

Definition expire_seen (now : Z) d : Dispatcher R :=
  d <| seen_ ::= filter (fun kv => ~ tdiff kv.2 now <= 0) |>.

Definition schedule_pump (now delay_ms : Z) d : Dispatcher R :=
  let due := u32 (now + delay_ms) in
  if pump_timer_ d && (0 <=? tdiff due (pump_due_ms_ d)) then d
  else d <| pump_due_ms_ := due |> <| pump_timer_ := true |>.

(** [r] is the byte drawn for the listen-before-transmit jitter. *)
Fixpoint pump_fuel (fuel : nat) (now r : Z) d : Dispatcher R * Results :=
  match fuel with
  | O => (d, [])
  | S fuel =>
      match queue_ d with
      | [] => (d, [])
      | _ :: _ =>
          if radio_tx_busy (radio_ d) then (d, []) else
          let '(dropped, kept) := split_expired now (queue_ d) in
          let d := d <| queue_ := kept |>
                     <| stats_ ::= fun s => s <| tx_dropped ::= fun v => u32 (v + zlen dropped) |> |> in
          let rs := map (fun q => (q, false)) dropped in
          match kept with
          | [] => (d, rs)
          | front :: _ =>
              if negb (radio_ready (radio_ d)) || negb (has_frequency (radio_params (radio_ d)))
              then (schedule_pump now kRadioDownRecheckMs d, rs) else
              match list_find (fun q => tdiff (q_not_before_ms q) now <= 0) kept with
              | None =>
                  let s := soonest now front kept in
                  (schedule_pump now (if 0 <? s then s else 1) d, rs)
              | Some (i, q) =>
                  let raw := encode (q_packet q) in
                  let candidate_airtime := airtime_ms (radio_params (radio_ d)) (zlen raw) in
                  let '(wait, duty) := DutyCycle.wait_ms now candidate_airtime (duty_ d) in
                  let d := d <| duty_ := duty |> in
                  if 0 <? wait then (schedule_pump now (Z.min wait 30000) d, rs) else
                  let '(busy, radio) := radio_channel_busy (radio_ d) in
                  let d := d <| radio_ := radio |> in
                  let since := if busy_since_ms_ d =? 0 then now else busy_since_ms_ d in
                  if busy && (u32 (now - since) <? kChannelBusyMaxMs)
                  then
                    let d := d <| busy_since_ms_ := since |>
                               <| stats_ ::= fun s => s <| tx_deferred ::= incr |> |> in
                    (schedule_pump now (kChannelBusyRetryMs + r mod kChannelBusyJitterMs) d, rs)
                  else
                    let d := if busy then d <| stats_ ::= fun s => s <| tx_forced ::= incr |> |> else d in
                    let d := d <| busy_since_ms_ := 0 |> <| queue_ := delete i kept |> in
                    if (kMaxPacketSize <? length raw)%nat
                    then
                      let d := d <| stats_ ::= fun s => s <| tx_dropped ::= incr |> |> in
                      let '(d, rs') := pump_fuel fuel now r d in
                      (d, rs ++ (q, false) :: rs')
                    else
                      let '(accepted, radio) := radio_send (radio_ d) raw in
                      let d := d <| radio_ := radio |> in
                      if negb accepted
                      then (schedule_pump now 20 (d <| queue_ ::= cons q |>), rs)
                      else
                        let d := d <| stats_ ::= fun s =>
                          if is_flood (q_packet q) then s <| tx_total ::= incr |> <| tx_flood ::= incr |>
                          else s <| tx_total ::= incr |> <| tx_direct ::= incr |> |> in
                        (d, rs ++ [(q, true)])
              end
          end
      end
  end.

(** Each recursive call follows the removal of an entry. *)
Definition pump (now r : Z) d : Dispatcher R * Results :=
  pump_fuel (S (length (queue_ d))) now r d.

(** The callback of the pump timer. *)
Definition on_pump_timer (now r : Z) d : Dispatcher R * Results :=
  pump now r (d <| pump_timer_ := false |> <| pump_due_ms_ := 0 |>).

(** The queue entry [send] builds. *)
Definition new_entry (now : Z) (p : Packet) (priority delay_ms : Z) (on_result : option Z) d : Queued :=
  mkQueued p priority (u32 (now + kExpiryPerPriorityMs * priority)) (u32 (now + delay_ms))
    (next_seq_ d) on_result.

Definition send (now r : Z) (p : Packet) (priority delay_ms : Z) (on_result : option Z) d :
    bool * Dispatcher R * Results :=
  if negb (valid p)
  then (false, d <| stats_ ::= fun s => s <| tx_dropped ::= incr |> |>, [])
  else
    let d := (check_and_mark_seen now p d).2 in
    let q := new_entry now p priority delay_ms on_result d in
    let d := d <| next_seq_ ::= fun v => u64 (v + 1) |> in
    let d := d <| queue_ ::= fun l => insert_at (upper_bound q l) q l |> in
    let '(d, rs) :=
      if (queue_limit_ d <? length (queue_ d))%nat
      then
        match take_at (victim (queue_ d)) (queue_ d) with
        | Some (dropped, rest) =>
            (d <| queue_ := rest |> <| stats_ ::= fun s => s <| tx_dropped ::= incr |> |>,
             [(dropped, false)])
        | None => (d, [])
        end
      else (d, []) in
    let '(d, rs') := pump now r d in
    (true, d, rs ++ rs').

Definition reconfigure (now r : Z) (params : RadioParams) d : Dispatcher R * Results :=
  let d := d <| duty_ ::= fun u => DutyCycle.set_percent u (rp_duty_cycle_pct params) |> in
  let d := if negb (RadioParams_eqb params (radio_params (radio_ d)))
           then d <| radio_ ::= fun x => radio_reconfigure x params |> else d in
  pump now r d.

Definition on_radio_rx_error (f : RxFailure) d : Dispatcher R :=
  let d := d <| stats_ ::= fun s =>
    match rf_error f with
    | HeaderError => s <| rx_header_err ::= incr |>
    | CrcError => s <| rx_crc_err ::= incr |>
    | RxTimeout => s <| rx_timeout ::= incr |>
    end |> in
  if rf_has_signal f
  then d <| stats_ ::= fun s => s <| last_failed_rssi := rf_rssi f |> <| last_failed_snr := rf_snr f |> |>
  else d.

(** What a reception leads to: the call of the raw hook, and the call of the
    receive handler unless the packet is a duplicate. *)
Record RxCalls := mkRxCalls { raw_hook : option Packet; delivered : option Packet }.

Definition on_radio_rx (now : Z) (rx : RxPacket) d : Dispatcher R * RxCalls :=
  let d := d <| stats_ ::= fun s =>
    s <| rx_total ::= incr |> <| last_rssi := rx_rssi rx |> <| last_snr := rx_snr rx |> |> in
  match decode (rx_data rx) with
  | None => (d <| stats_ ::= fun s => s <| rx_bad ::= incr |> |>, mkRxCalls None None)
  | Some p =>
      let p := set_metadata p (rx_rssi rx) (rx_snr rx) (rx_rx_millis rx) in
      let d := d <| stats_ ::= fun s =>
        if is_flood p then s <| rx_flood ::= incr |> else s <| rx_direct ::= incr |> |> in
      let '(dup, d) := check_and_mark_seen now p d in
      if dup then (d <| stats_ ::= fun s => s <| rx_dup ::= incr |> |>, mkRxCalls (Some p) None)
      else (d, mkRxCalls (Some p) (Some p))
  end.

(** [r] is the byte drawn for the jitter. *)
Definition on_radio_tx_done (now r airtime : Z) d : Dispatcher R :=
  let d := d <| stats_ ::= fun s => s <| st_airtime_ms ::= fun v => u64 (v + airtime) |> |> in
  let d := d <| duty_ ::= DutyCycle.record now airtime |> in
  schedule_pump now (1 + (r * kJitterMs) / 255) d.

End dispatcher.

(** ** Lemmas: the queue primitives *)

Lemma insert_at_perm {A} i (x : A) l : insert_at i x l ≡ₚ x :: l.
Proof.
  unfold insert_at. rewrite <- Permutation_middle. by rewrite take_drop.
Qed.

Lemma victim_loop_bound l i best v :
  (best < i)%nat -> (victim_loop l i best v < i + length l)%nat.
Proof.
  revert i best v. induction l as [|it l IH]; intros i best v Hb; simpl; [lia|].
  case_match.
  - specialize (IH (S i) i it). lia.
  - specialize (IH (S i) best v). lia.
Qed.

Lemma victim_bound l : l <> [] -> (victim l < length l)%nat.
Proof.
  destruct l as [|v l]; [done|]. intros _. unfold victim.
  pose proof (victim_loop_bound l 1 0 v). simpl. lia.
Qed.

Lemma take_at_some {A} i (l : list A) :
  (i < length l)%nat ->
  exists x, take_at i l = Some (x, delete i l) /\ l ≡ₚ x :: delete i l /\ length l = S (length (delete i l)).
Proof.
  intros [x Hx]%lookup_lt_is_Some_2. exists x. unfold take_at. rewrite Hx.
  pose proof (delete_Permutation _ _ _ Hx) as Hp. split_and!; [done|done|].
  by rewrite Hp at 1.
Qed.

Lemma split_expired_app now l dropped kept :
  split_expired now l = (dropped, kept) -> l = dropped ++ kept.
Proof.
  revert dropped kept. induction l as [|q l IH]; simpl; intros dropped kept; [by intros [= <- <-]|].
  case_match; [|by intros [= <- <-]].
  destruct (split_expired now l) as [dr ke]. intros [= <- <-]. simpl. f_equal. by apply IH.
Qed.

Section facts.
Context `{CryptoLib} {R : Type} `{RadioLaws R}.
Implicit Types (d : Dispatcher R).

(** ** Lemmas: one operation *)

Lemma schedule_pump_fields now delay d :
  pump_timer_ (schedule_pump now delay d) = true /\
  queue_ (schedule_pump now delay d) = queue_ d /\
  queue_limit_ (schedule_pump now delay d) = queue_limit_ d /\
  next_seq_ (schedule_pump now delay d) = next_seq_ d /\
  seen_ (schedule_pump now delay d) = seen_ d /\
  radio_ (schedule_pump now delay d) = radio_ d.
Proof.
  unfold schedule_pump. destruct (pump_timer_ d) eqn:E; simpl; [case_match|]; done.
Qed.

Lemma schedule_pump_seen now delay d : seen_ (schedule_pump now delay d) = seen_ d.
Proof. apply schedule_pump_fields. Qed.

(** A non-empty queue has something that will pump it. *)
Definition live d : Prop :=
  queue_ d <> [] -> radio_tx_busy (radio_ d) = true \/ pump_timer_ d = true.

Definition queue_valid d : Prop := Forall (fun q => valid (q_packet q) = true) (queue_ d).

(** What a pump does, whatever branch it takes. *)
Record pump_post d d' (rs : Results) : Prop := {
  pp_queue : queue_ d ≡ₚ queue_ d' ++ map fst rs;
  pp_limit : queue_limit_ d' = queue_limit_ d;
  pp_seq : next_seq_ d' = next_seq_ d;
  pp_seen : seen_ d' = seen_ d;
  pp_live : live d';
}.

Lemma pump_post_scheduled d d1 rs now delay :
  queue_ d ≡ₚ queue_ d1 ++ map fst rs -> queue_limit_ d1 = queue_limit_ d ->
  next_seq_ d1 = next_seq_ d -> seen_ d1 = seen_ d ->
  pump_post d (schedule_pump now delay d1) rs.
Proof.
  intros Hq Hl Hs He.
  destruct (schedule_pump_fields now delay d1) as (E1 & E2 & E3 & E4 & E5 & E6).
  constructor; try congruence. unfold live. rewrite E1. by right.
Qed.

Lemma map_fst_false (l : list Queued) : map fst (map (fun q => (q, false)) l) = l.
Proof. rewrite map_map. apply map_id. Qed.

Lemma pump_fuel_spec n now r d d' rs :
  queue_valid d -> pump_fuel (S n) now r d = (d', rs) -> pump_post d d' rs.
Proof.
  intros Hv. simpl. unfold queue_valid in Hv.
  destruct (queue_ d) as [|q0 qs] eqn:Eq.
  { intros [= <- <-]. constructor; rewrite ?Eq; try done. unfold live. by rewrite Eq. }
  rewrite <- Eq in *. destruct (radio_tx_busy (radio_ d)) eqn:Eb.
  { intros [= <- <-]. constructor; simpl; rewrite ?app_nil_r; try done. by left. }
  destruct (split_expired now (queue_ d)) as [dropped kept] eqn:Es.
  apply split_expired_app in Es.
  assert (queue_ d ≡ₚ kept ++ map fst (map (fun q => (q, false)) dropped)) as Hp
    by (rewrite map_fst_false, Es; apply Permutation_app_comm).
  destruct kept as [|front kept'] eqn:Ek.
  { intros [= <- <-]. constructor; try done. by unfold live. }
  rewrite <- Ek in *.
  destruct (_ || _).
  { intros [= <- <-]. by apply pump_post_scheduled. }
  destruct (list_find _ kept) as [[i q]|] eqn:Ef.
  2:{ intros [= <- <-]. by apply pump_post_scheduled. }
  apply list_find_Some in Ef as (Hi & _ & _).
  assert (queue_ d ≡ₚ q :: delete i kept ++ map fst (map (fun q => (q, false)) dropped)) as Hdel.
  { etrans; [exact Hp|]. by apply (Permutation_app_tail _ (delete_Permutation kept i q Hi)). }
  assert (length (encode (q_packet q)) <= 255)%nat as Hfit.
  { apply valid_encode_fits. rewrite Es in Hv. apply Forall_app in Hv as [_ Hv].
    by eapply Forall_lookup_1 in Hv. }
  destruct (DutyCycle.wait_ms _ _ _) as [wait duty].
  destruct (0 <? wait).
  { intros [= <- <-]. by apply pump_post_scheduled. }
  cbn [radio_ duty_ queue_ setf]. destruct (radio_channel_busy _) as [busy radio].
  destruct (busy && _).
  { intros [= <- <-]. by apply pump_post_scheduled. }
  change (kMaxPacketSize <? _)%nat with (255 <? length (encode (q_packet q)))%nat.
  rewrite (proj2 (Nat.ltb_ge _ _) Hfit).
  destruct (radio_send _ _) as [accepted radio'] eqn:Esend.
  destruct accepted; cbn [negb].
  - intros [= <- <-].
    constructor; destruct busy; try done; simpl;
      first [by intros _; left; eapply send_busy|rewrite Hdel, map_app; simpl; solve_Permutation].
  - intros [= <- <-]. apply pump_post_scheduled; destruct busy; done.
Qed.

Lemma pump_spec now r d d' rs :
  queue_valid d -> pump now r d = (d', rs) -> pump_post d d' rs.
Proof. apply pump_fuel_spec. Qed.

(** What every operation promises: nothing is lost or duplicated, the limit is
    kept, and a queue that was live stays so. *)
Record op_post d (accepted : list Queued) d' (rs : Results) : Prop := {
  op_queue : accepted ++ queue_ d ≡ₚ queue_ d' ++ map fst rs;
  op_limit : queue_limit_ d' = queue_limit_ d;
  op_bound : (length (queue_ d') <= queue_limit_ d')%nat;
  op_live : live d';
}.

Record ok d : Prop := {
  ok_valid : queue_valid d;
  ok_bound : (length (queue_ d) <= queue_limit_ d)%nat;
  ok_limit : (1 <= queue_limit_ d)%nat;
  ok_live : live d;
}.

Lemma op_post_valid d acc d' rs :
  queue_valid d -> Forall (fun q => valid (q_packet q) = true) acc -> op_post d acc d' rs -> queue_valid d'.
Proof.
  intros Hv Ha [Hq _ _ _]. assert (Forall (fun q => valid (q_packet q) = true) (acc ++ queue_ d)) as Hall
    by by apply Forall_app. rewrite Hq in Hall. by apply Forall_app in Hall as [? _].
Qed.

Lemma pump_post_op d0 acc d d' rs rs0 :
  pump_post d d' rs -> acc ++ queue_ d0 ≡ₚ queue_ d ++ map fst rs0 ->
  queue_limit_ d = queue_limit_ d0 -> (length (queue_ d) <= queue_limit_ d)%nat ->
  op_post d0 acc d' (rs0 ++ rs).
Proof.
  intros [Hq Hl _ _ Hlive] Hp Hlim Hb. constructor; [|congruence| |done].
  - rewrite Hp, Hq, map_app. solve_Permutation.
  - apply Permutation_length in Hq. rewrite length_app in Hq. lia.
Qed.

Lemma send_spec now r p prio delay cb d b d' rs :
  ok d -> send now r p prio delay cb d = (b, d', rs) ->
  b = valid p /\ op_post d (if b then [new_entry now p prio delay cb d] else []) d' rs.
Proof.
  intros [Hv Hb Hl Hlive]. unfold send. destruct (valid p) eqn:Ev; cbn [negb].
  2:{ intros [= <- <- <-]. split; [done|]. constructor; simpl; rewrite ?app_nil_r; done. }
  assert ((check_and_mark_seen now p d).2 =
    d <| seen_ ::= <[pack_hash (dedup_hash p) := u32 (now + kSeenTtlMs)]> |>) as ->
    by (unfold check_and_mark_seen; repeat case_match; done).
  change (new_entry now p prio delay cb (setf _ d)) with (new_entry now p prio delay cb d).
  set (q := new_entry now p prio delay cb d). cbn [queue_ queue_limit_ setf].
  set (l := insert_at (upper_bound q (queue_ d)) q (queue_ d)).
  assert (l ≡ₚ q :: queue_ d) as Hl' by apply insert_at_perm.
  assert (length l = S (length (queue_ d))) as Hlen by by rewrite Hl'.
  assert (Forall (fun q => valid (q_packet q) = true) l) as Hvl by (rewrite Hl'; by constructor).
  destruct (Nat.ltb_spec (queue_limit_ d) (length l)) as [Ho|Ho].
  - destruct (take_at_some (victim l) l) as (x & -> & Hx & Hxl).
    { apply victim_bound. intros E. by rewrite E in Hlen. }
    destruct (pump now r _) as [d1 rs1] eqn:Ep. intros [= <- <- <-]. split; [done|].
    apply pump_spec in Ep.
    + apply (pump_post_op d [q] _ d1 rs1 [(x, false)] Ep); simpl; [|done|lia].
      rewrite <- Hl'. etrans; [exact Hx|]. solve_Permutation.
    + unfold queue_valid. simpl. rewrite Hx in Hvl. by apply Forall_cons_iff in Hvl as [_ ?].
  - destruct (pump now r _) as [d1 rs1] eqn:Ep. intros [= <- <- <-]. split; [done|].
    apply pump_spec in Ep; [|done].
    apply (pump_post_op d [q] _ d1 rs1 [] Ep); simpl; [by rewrite app_nil_r, <- Hl'|done|exact Ho].
Qed.

Lemma pump_op now r d d0 d' rs :
  ok d0 -> queue_ d = queue_ d0 -> queue_limit_ d = queue_limit_ d0 ->
  pump now r d = (d', rs) -> op_post d0 [] d' rs.
Proof.
  intros [Hv Hb _ _] Eq El Ep. apply pump_spec in Ep; [|unfold queue_valid; by rewrite Eq].
  apply (pump_post_op d0 [] d d' rs []); simpl; rewrite ?app_nil_r, ?Eq; try done. by rewrite El.
Qed.

(** ** The dispatcher as a state machine

    An event is a call from a sender, a timer, or the radio; [radio'] in an event
    is the state the radio has moved to on its own. *)
Inductive Event :=
| EvSend (p : Packet) (priority delay_ms : Z) (on_result : option Z)
| EvPumpTimer
| EvTxDone (radio' : R) (airtime : Z)
| EvRadio (radio' : R)
| EvRx (rx : RxPacket)
| EvRxError (f : RxFailure)
| EvReconfigure (params : RadioParams)
| EvSweep.

(** When an event can happen: a timer must be armed, and a transmission in
    flight only ends with the transmit-done handler. *)
Definition enabled d (ev : Event) : Prop :=
  match ev with
  | EvPumpTimer => pump_timer_ d = true
  | EvRadio radio' => radio_tx_busy (radio_ d) = true -> radio_tx_busy radio' = true
  | _ => True
  end.

(** The handler of an event, with the entries that left the queue. *)
Definition handle (now r : Z) (ev : Event) d : Dispatcher R * Results :=
  match ev with
  | EvSend p priority delay_ms on_result =>
      let '(_, d, rs) := send now r p priority delay_ms on_result d in (d, rs)
  | EvPumpTimer => on_pump_timer now r d
  | EvTxDone radio' airtime => (on_radio_tx_done now r airtime (d <| radio_ := radio' |>), [])
  | EvRadio radio' => (d <| radio_ := radio' |>, [])
  | EvRx rx => ((on_radio_rx now rx d).1, [])
  | EvRxError f => (on_radio_rx_error f d, [])
  | EvReconfigure params => reconfigure now r params d
  | EvSweep => (expire_seen now d, [])
  end.

(** The entry an event puts into the queue. *)
Definition accepts (now : Z) (ev : Event) d : list Queued :=
  match ev with
  | EvSend p priority delay_ms on_result =>
      if valid p then [new_entry now p priority delay_ms on_result d] else []
  | _ => []
  end.

(** [reach d0 acc rs d]: from [d0], some run accepted the entries [acc], reported
    [rs] and ended in [d]. *)
Inductive reach (d0 : Dispatcher R) : list Queued -> Results -> Dispatcher R -> Prop :=
| reach_start : reach d0 [] [] d0
| reach_step acc rs d now r ev d' rs' :
    reach d0 acc rs d -> enabled d ev -> handle now r ev d = (d', rs') ->
    reach d0 (acc ++ accepts now ev d) (rs ++ rs') d'.

Lemma op_post_same d d' :
  ok d -> queue_ d' = queue_ d -> queue_limit_ d' = queue_limit_ d -> live d' -> op_post d [] d' [].
Proof.
  intros [_ Hb _ _] Eq El Hl. constructor; simpl; rewrite ?app_nil_r, ?Eq, ?El; done.
Qed.

Lemma on_radio_rx_fields now rx d :
  queue_ (on_radio_rx now rx d).1 = queue_ d /\ queue_limit_ (on_radio_rx now rx d).1 = queue_limit_ d /\
  radio_ (on_radio_rx now rx d).1 = radio_ d /\ pump_timer_ (on_radio_rx now rx d).1 = pump_timer_ d.
Proof. unfold on_radio_rx, check_and_mark_seen. repeat case_match; simplify_eq/=; done. Qed.

Lemma on_radio_rx_error_fields f d :
  queue_ (on_radio_rx_error f d) = queue_ d /\ queue_limit_ (on_radio_rx_error f d) = queue_limit_ d /\
  radio_ (on_radio_rx_error f d) = radio_ d /\ pump_timer_ (on_radio_rx_error f d) = pump_timer_ d.
Proof. unfold on_radio_rx_error. repeat case_match; done. Qed.

Lemma handle_spec now r ev d d' rs :
  ok d -> enabled d ev -> handle now r ev d = (d', rs) -> op_post d (accepts now ev d) d' rs.
Proof.
  intros Hok He. pose proof (ok_live d Hok) as Hlive. destruct ev; simpl in *.
  - destruct (send _ _ _ _ _ _ _) as [[b d1] rs1] eqn:Es. intros [= <- <-].
    destruct (send_spec _ _ _ _ _ _ _ _ _ _ Hok Es) as [-> ?]. done.
  - by apply pump_op.
  - intros [= <- <-]. unfold on_radio_tx_done.
    destruct (schedule_pump_fields now (1 + r * kJitterMs / 255)
      ((d <| radio_ := radio' |> <| stats_ ::= fun s => s <| st_airtime_ms ::= fun v => u64 (v + airtime) |> |>)
       <| duty_ ::= DutyCycle.record now airtime |>)) as (Et & Eq & El & _).
    apply op_post_same; [done|done|done|]. intros _. by right.
  - intros [= <- <-]. apply op_post_same; try done. intros Hq. simpl.
    destruct (Hlive Hq) as [?|?]; auto.
  - intros [= <- <-]. destruct (on_radio_rx_fields now rx d) as (E1 & E2 & E3 & E4).
    apply op_post_same; try done. unfold live. by rewrite E1, E3, E4.
  - intros [= <- <-]. destruct (on_radio_rx_error_fields f d) as (E1 & E2 & E3 & E4).
    apply op_post_same; try done. unfold live. by rewrite E1, E3, E4.
  - unfold reconfigure. apply pump_op; [done|by case_match..].
  - intros [= <- <-]. by apply op_post_same.
Qed.

Lemma handle_ok now r ev d d' rs :
  ok d -> enabled d ev -> handle now r ev d = (d', rs) -> ok d'.
Proof.
  intros Hok He Hh. pose proof (handle_spec _ _ _ _ _ _ Hok He Hh) as Hp.
  destruct Hok as [Hv _ Hl _]. split; [|apply Hp|rewrite (op_limit _ _ _ _ Hp); done|apply Hp].
  eapply op_post_valid; [exact Hv| |exact Hp]. destruct ev; simpl; try done. case_match; auto.
Qed.

Lemma reach_ok d0 acc rs d : ok d0 -> reach d0 acc rs d -> ok d.
Proof. intros Hstart. induction 1 as [|acc rs d now r ev d' rs' _ IH He Hh]; [done|]. by eapply handle_ok. Qed.

Lemma reach_conserves d0 acc rs d :
  ok d0 -> reach d0 acc rs d -> acc ++ queue_ d0 ≡ₚ queue_ d ++ map fst rs.
Proof.
  intros Hstart. induction 1 as [|acc rs d now r ev d' rs' Hr IH He Hh]; simpl; [by rewrite app_nil_r|].
  pose proof (reach_ok _ _ _ _ Hstart Hr) as Hok.
  destruct (handle_spec _ _ _ _ _ _ Hok He Hh) as [Hq _ _ _].
  rewrite map_app. transitivity (accepts now ev d ++ (queue_ d ++ map fst rs)).
  - rewrite <- IH. solve_Permutation.
  - rewrite app_assoc, Hq. solve_Permutation.
Qed.

Lemma make_dispatcher_ok radio limit : ok (make_dispatcher radio limit).
Proof. constructor; simpl; [apply Forall_nil_2|lia|lia|by intros ?]. Qed.

(** C11. Exactly-once reporting: over every run, the packets accepted by [send] are,
    as a multiset, those still queued together with those reported, so each one is
    reported once at most and none is forgotten. *)
Theorem tx_reported_exactly_once radio limit acc rs d :
  reach (make_dispatcher radio limit) acc rs d -> acc ≡ₚ queue_ d ++ map fst rs.
Proof.
  intros Hr. rewrite <- (reach_conserves _ _ _ _ (make_dispatcher_ok radio limit) Hr). simpl.
  by rewrite app_nil_r.
Qed.

(** The transmit queue never stalls: in every reachable state with something
    queued, a transmission is in flight (whose completion schedules the pump) or
    the pump timer is armed. *)
Theorem tx_never_stalls radio limit acc rs d :
  reach (make_dispatcher radio limit) acc rs d -> queue_ d <> [] ->
  radio_tx_busy (radio_ d) = true \/ pump_timer_ d = true.
Proof. intros Hr. exact (ok_live _ (reach_ok _ _ _ _ (make_dispatcher_ok radio limit) Hr)). Qed.

(** The queue is bounded and everything in it can be put on the air: at most
    the limit (at least one) entries, each with a packet that encodes within 255
    bytes. *)
Theorem tx_queue_bounded radio limit acc rs d :
  reach (make_dispatcher radio limit) acc rs d ->
  (length (queue_ d) <= Nat.max limit 1)%nat /\
  Forall (fun q => (length (encode (q_packet q)) <= kMaxPacketSize)%nat) (queue_ d).
Proof.
  intros Hr. pose proof (make_dispatcher_ok radio limit) as Hstart.
  destruct (reach_ok _ _ _ _ Hstart Hr) as [Hv Hb _ _]. split.
  - assert (queue_limit_ d = Nat.max limit 1) as <-; [|done].
    clear Hv Hb. induction Hr as [|acc rs d now r ev d' rs' Hr IH He Hh]; [done|].
    rewrite <- IH. apply (op_limit _ _ _ _ (handle_spec _ _ _ _ _ _ (reach_ok _ _ _ _ Hstart Hr) He Hh)).
  - eapply Forall_impl; [|exact Hv]. intros q. apply valid_encode_fits.
Qed.

(** ** Deduplication over time

    A run in absolute time: each handler runs at an instant no earlier than the
    one before it, and reads the wrapped clock. *)
Inductive timed (d0 : Dispatcher R) (T0 : Z) : Dispatcher R -> Z -> Prop :=
| timed_start : timed d0 T0 d0 T0
| timed_step d T T' r ev d' rs :
    timed d0 T0 d T -> T <= T' -> handle (u32 T') r ev d = (d', rs) -> timed d0 T0 d' T'.

(** The dedup key of a packet. *)
Definition seen_key (p : Packet) : Z := pack_hash (dedup_hash p).

(** The table still suppresses [key], marked at [T0] or later. *)
Definition marked (key T0 T : Z) d : Prop :=
  exists E, seen_ d !! key = Some (u32 E) /\ T0 + kSeenTtlMs <= E <= T + kSeenTtlMs.

Lemma check_and_mark_seen_snd now p d :
  (check_and_mark_seen now p d).2 = d <| seen_ ::= <[seen_key p := u32 (now + kSeenTtlMs)]> |>.
Proof. unfold check_and_mark_seen, seen_key. by repeat case_match. Qed.

Lemma mark_marks p T d : marked (seen_key p) T T (check_and_mark_seen (u32 T) p d).2.
Proof.
  rewrite check_and_mark_seen_snd. exists (T + kSeenTtlMs). simpl. rewrite lookup_insert_eq.
  rewrite u32_idemp_add. split; [done|lia].
Qed.

Lemma mark_keeps key p T0 T d :
  T0 <= T -> marked key T0 T d -> marked key T0 T (check_and_mark_seen (u32 T) p d).2.
Proof.
  intros HT (E & HE & HE'). rewrite check_and_mark_seen_snd. unfold marked. simpl.
  destruct (decide (seen_key p = key)) as [->|Hne].
  - exists (T + kSeenTtlMs). rewrite lookup_insert_eq, u32_idemp_add. split; [done|lia].
  - exists E. by rewrite lookup_insert_ne.
Qed.

Lemma marked_suppresses T0 T p d :
  T0 <= T < T0 + kSeenTtlMs -> marked (seen_key p) T0 T d -> (check_and_mark_seen (u32 T) p d).1 = true.
Proof.
  intros HT (E & HE & HE'). unfold check_and_mark_seen. fold (seen_key p). rewrite HE.
  replace (tdiff (u32 E) (u32 T)) with (E - T).
  - by rewrite (proj2 (Z.ltb_lt _ _)) by lia.
  - replace E with (T + (E - T)) at 2 by lia. replace (u32 T) with (u32 (T + 0)) by (f_equal; lia).
    rewrite tdiff_elapsed; unfold kSeenTtlMs in *; lia.
Qed.

Lemma sweep_keeps key T0 T d :
  T0 <= T < T0 + kSeenTtlMs -> marked key T0 T d -> marked key T0 T (expire_seen (u32 T) d).
Proof.
  intros HT (E & HE & HE'). exists E. split; [|done]. unfold expire_seen. simpl.
  apply map_lookup_filter_Some. split; [done|]. simpl.
  replace (tdiff (u32 E) (u32 T)) with (E - T); [lia|].
  replace E with (T + (E - T)) at 2 by lia. replace (u32 T) with (u32 (T + 0)) by (f_equal; lia).
  rewrite tdiff_elapsed; unfold kSeenTtlMs in *; lia.
Qed.

(** Pumping leaves the radio's parameters alone, and [reconfigure] hands it the new ones
    unless it has them. *)
Lemma schedule_pump_radio now delay d : radio_ (schedule_pump now delay d) = radio_ d.
Proof. unfold schedule_pump. by case_match. Qed.

Lemma pump_fuel_params n now r d : radio_params (radio_ (pump_fuel n now r d).1) = radio_params (radio_ d).
Proof.
  revert d. induction n as [|n IH]; intros d; [done|]. cbn [pump_fuel].
  destruct (queue_ d) as [|q0 qs]; [done|]. destruct (radio_tx_busy _); [done|]. destruct (split_expired _ _) as [dropped kept].
  destruct kept as [|front kept]; [done|]. cbv zeta. cbn [radio_ setf].
  destruct (_ || _); [cbn [fst]; by rewrite schedule_pump_radio|]. destruct (list_find _ _) as [[i q]|]; [|cbn [fst]; by rewrite schedule_pump_radio].
  destruct (DutyCycle.wait_ms _ _ _) as [wait duty]. destruct (0 <? wait); [cbn [fst]; by rewrite schedule_pump_radio|].
  pose proof (channel_params (radio_ d)) as Hc. cbn [radio_ setf]. destruct (radio_channel_busy (radio_ d)) as [busy radio].
  cbn [snd] in Hc. destruct (busy && _); [cbn [fst]; by rewrite schedule_pump_radio|].
  destruct (kMaxPacketSize <? _)%nat.
  - match goal with |- context [pump_fuel n now r ?x] => specialize (IH x); destruct (pump_fuel n now r x) as [d' rs'] end.
    cbn [fst] in *. rewrite IH. by destruct busy.
  - match goal with |- context [radio_send ?x ?raw] => pose proof (send_params x raw) as Hs; destruct (radio_send x raw) as [acc radio'] end.
    cbn [snd] in Hs. destruct acc; cbn [negb fst]; rewrite ?schedule_pump_radio; cbn [radio_ setf]; rewrite Hs; by destruct busy.
Qed.

Lemma reconfigure_takes now r params d :
  let got := radio_params (radio_ (reconfigure now r params d).1) in
  got = params \/ RadioParams_eqb params got = true.
Proof.
  unfold reconfigure, pump. rewrite pump_fuel_params. destruct (negb _) eqn:E; cbn [radio_ setf].
  - left. apply reconfigure_params.
  - right. by apply negb_false_iff in E.
Qed.

Lemma pump_fuel_seen n now r d : seen_ (pump_fuel n now r d).1 = seen_ d.
Proof.
  revert d. induction n as [|n IH]; intros d; [done|]. simpl.
  repeat (case_match; simpl; try done); simplify_eq/=;
    rewrite ?schedule_pump_seen; try done;
    match goal with Hp : pump_fuel n ?a ?b ?x = (?d', _) |- _ =>
      specialize (IH x); rewrite Hp in IH; simpl in IH; rewrite IH end; done.
Qed.

Lemma pump_seen now r d : seen_ (pump now r d).1 = seen_ d.
Proof. apply pump_fuel_seen. Qed.

Lemma send_seen now r p prio delay cb d :
  seen_ (send now r p prio delay cb d).1.2 =
  if valid p then seen_ (check_and_mark_seen now p d).2 else seen_ d.
Proof.
  unfold send. destruct (valid p); [|done]. cbn [negb].
  match goal with |- context [let '(_, _) := ?x in _] => destruct x as [d1 rs1] eqn:E1 end.
  assert (seen_ d1 = seen_ (check_and_mark_seen now p d).2) as <-
    by (repeat case_match; simplify_eq/=; done).
  destruct (pump now r d1) as [d2 rs2] eqn:Ep. simpl.
  pose proof (pump_seen now r d1) as Hs. by rewrite Ep in Hs.
Qed.

Lemma handle_marked key T0 T T' r ev d d' rs :
  T0 <= T <= T' -> T' < T0 + kSeenTtlMs -> marked key T0 T d ->
  handle (u32 T') r ev d = (d', rs) -> marked key T0 T' d'.
Proof.
  intros HT HT' Hm0 Hh.
  assert (marked key T0 T' d) as Hm by (destruct Hm0 as (E & ? & ?); exists E; split; [done|lia]).
  assert (forall dd, seen_ dd = seen_ d -> marked key T0 T' dd) as Hsame
    by (intros dd Hdd; unfold marked; by rewrite Hdd).
  destruct ev; simpl in Hh.
  - destruct (send _ _ _ _ _ _ _) as [[b d1] rs1] eqn:Es. injection Hh as <- <-.
    pose proof (send_seen (u32 T') r p priority delay_ms on_result d) as Hs. rewrite Es in Hs. simpl in Hs.
    destruct (valid p); [|by apply Hsame]. unfold marked. rewrite Hs. by apply mark_keeps; [lia|].
  - apply Hsame. change (seen_ d) with (seen_ (d <| pump_timer_ := false |> <| pump_due_ms_ := 0 |>)).
    rewrite <- (pump_seen (u32 T') r (d <| pump_timer_ := false |> <| pump_due_ms_ := 0 |>)).
    unfold on_pump_timer in Hh. by rewrite Hh.
  - injection Hh as <- <-. apply Hsame. unfold on_radio_tx_done. by rewrite schedule_pump_seen.
  - injection Hh as <- <-. by apply Hsame.
  - injection Hh as <- <-. unfold on_radio_rx. destruct (decode _); [|by apply Hsame].
    destruct (check_and_mark_seen _ _ _) as [dup d1] eqn:Ec. assert (marked key T0 T' d1).
    { change d1 with (dup, d1).2. rewrite <- Ec. apply mark_keeps; [lia|by apply Hsame]. }
    by destruct dup.
  - injection Hh as <- <-. apply Hsame. unfold on_radio_rx_error. by repeat case_match.
  - unfold reconfigure in Hh. apply Hsame.
    match goal with Hh : pump _ _ ?x = _ |- _ => pose proof (pump_seen (u32 T') r x) as Hs end.
    rewrite Hh in Hs. simpl in Hs. rewrite Hs. by case_match.
  - injection Hh as <- <-. apply sweep_keeps; [lia|done].
Qed.

Lemma timed_marked key d0 T0 d T :
  timed d0 T0 d T -> T < T0 + kSeenTtlMs -> marked key T0 T0 d0 -> T0 <= T /\ marked key T0 T d.
Proof.
  intros Ht. induction Ht as [|d T T' r ev d' rs _ IH HT Hh]; intros Hlt Hm; [split; [lia|done]|].
  destruct IH as [? ?]; [lia|done|]. split; [lia|]. eapply handle_marked; [|done|done|exact Hh]. lia.
Qed.

Lemma send_marks now_ r p prio delay cb d d1 rs :
  send (u32 now_) r p prio delay cb d = (true, d1, rs) -> marked (seen_key p) now_ now_ d1.
Proof.
  intros Es. pose proof (send_seen (u32 now_) r p prio delay cb d) as Hs. rewrite Es in Hs. simpl in Hs.
  destruct (valid p) eqn:Ev; [|by unfold send in Es; rewrite Ev in Es].
  unfold marked. rewrite Hs. apply mark_marks.
Qed.

Lemma rx_marks T rx p d :
  raw_hook (on_radio_rx (u32 T) rx d).2 = Some p -> marked (seen_key p) T T (on_radio_rx (u32 T) rx d).1.
Proof.
  unfold on_radio_rx. destruct (decode _) as [p0|]; [|done].
  destruct (check_and_mark_seen _ _ _) as [dup d1] eqn:Ec.
  assert (marked (seen_key (set_metadata p0 (rx_rssi rx) (rx_snr rx) (rx_rx_millis rx))) T T d1).
  { change d1 with (dup, d1).2. rewrite <- Ec. apply mark_marks. }
  destruct dup; simpl; by intros [= <-].
Qed.

(** C14. No echo: once a packet was sent, or received for the first time or again,
    no copy with the same dedup key that arrives within the following minute is
    handed to the node, whatever happens in between (sends, receptions, timers,
    sweeps of the table) and across a wrap of the millisecond counter. *)
Theorem echoes_suppressed d T d1 d2 T2 p rx p' :
  (exists r prio delay cb rs, send (u32 T) r p prio delay cb d = (true, d1, rs)) \/
  (exists rx0, d1 = (on_radio_rx (u32 T) rx0 d).1 /\ raw_hook (on_radio_rx (u32 T) rx0 d).2 = Some p) ->
  timed d1 T d2 T2 -> T2 < T + kSeenTtlMs ->
  decode (rx_data rx) = Some p' -> dedup_hash p' = dedup_hash p ->
  delivered (on_radio_rx (u32 T2) rx d2).2 = None.
Proof.
  intros Hfirst Ht HT2 Hd Hh.
  assert (marked (seen_key p) T T d1) as Hm.
  { destruct Hfirst as [(r & prio & delay & cb & rs & Es)|(rx0 & -> & Hr)];
      [by eapply send_marks|by apply rx_marks]. }
  destruct (timed_marked _ _ _ _ _ Ht HT2 Hm) as [Hle Hm2].
  unfold on_radio_rx. rewrite Hd.
  destruct (check_and_mark_seen _ _ _) as [dup d3] eqn:Ec.
  assert (dup = true) as ->; [|done].
  change dup with (dup, d3).1. rewrite <- Ec. apply (marked_suppresses T); [lia|].
  unfold seen_key in *. by rewrite <- Hh in Hm2.
Qed.

End facts.

(** ** The overflow victim *)

(** [v] is a no better candidate to keep than [q]. *)
Definition sheds_before (v q : Queued) : Prop :=
  q_priority q < q_priority v \/ (q_priority q = q_priority v /\ q_seq v <= q_seq q).

Lemma sheds_before_trans a b c : sheds_before a b -> sheds_before b c -> sheds_before a c.
Proof. unfold sheds_before. lia. Qed.

Lemma victim_loop_spec pre l best v :
  pre !! best = Some v -> Forall (sheds_before v) pre ->
  exists w, (pre ++ l) !! victim_loop l (length pre) best v = Some w /\ Forall (sheds_before w) (pre ++ l).
Proof.
  revert pre best v. induction l as [|it l IH]; intros pre best v Hb Hv; simpl.
  - rewrite app_nil_r. eauto.
  - replace (pre ++ it :: l) with ((pre ++ [it]) ++ l) by by rewrite <- app_assoc.
    replace (S (length pre)) with (length (pre ++ [it])) by (rewrite length_app; simpl; lia).
    destruct (_ || _) eqn:E.
    + apply IH; [by rewrite lookup_app_r, Nat.sub_diag|].
      assert (sheds_before it v) by (unfold sheds_before; lia).
      apply Forall_app. split; [|apply Forall_singleton; unfold sheds_before; lia].
      eapply Forall_impl; [|exact Hv]. intros x. by apply sheds_before_trans.
    + apply IH; [rewrite lookup_app_l; [done|by apply lookup_lt_Some in Hb]|].
      apply Forall_app. split; [done|]. apply Forall_singleton. unfold sheds_before. lia.
Qed.

Lemma victim_spec l w : l !! victim l = Some w -> Forall (sheds_before w) l.
Proof.
  destruct l as [|v l]; [done|]. unfold victim.
  destruct (victim_loop_spec [v] l 0 v) as (w' & Hw & Hall); [done|apply Forall_singleton; unfold sheds_before; lia|].
  simpl in *. rewrite Hw. by intros [= <-].
Qed.

(** ** The order of the queue *)

Definition in_order (l : list Queued) : Prop :=
  StronglySorted (fun a b => queued_before b a = false) l.

(** Expiries within 24 days of each other, so that comparing them through their
    wrapped difference is an order. *)
Definition same_era (base : Z) (q : Queued) : Prop := 0 <= u32 (q_expiry_ms q - base) < 2 ^ 30.

Lemma queued_before_lex base a b :
  same_era base a -> same_era base b ->
  is_u32 (q_expiry_ms a) -> is_u32 (q_expiry_ms b) ->
  queued_before a b = true <->
  q_priority a < q_priority b \/ (q_priority a = q_priority b /\
    (u32 (q_expiry_ms a - base) < u32 (q_expiry_ms b - base) \/
     (u32 (q_expiry_ms a - base) = u32 (q_expiry_ms b - base) /\ q_seq a < q_seq b))).
Proof.
  unfold same_era, queued_before. intros Ha Hb Hua Hub.
  assert (tdiff (q_expiry_ms a) (q_expiry_ms b) = u32 (q_expiry_ms a - base) - u32 (q_expiry_ms b - base))
    as -> by (unfold tdiff; width).
  destruct (Z.eqb_spec (q_priority a) (q_priority b)); cbn [negb]; [|lia].
  destruct (Z.eqb_spec (q_expiry_ms a) (q_expiry_ms b)) as [->|Hne]; cbn [negb]; [lia|].
  assert (u32 (q_expiry_ms a - base) <> u32 (q_expiry_ms b - base)) by width. lia.
Qed.

(** An entry of the era with a 32-bit expiry. *)
Definition in_era (base : Z) (q : Queued) : Prop := same_era base q /\ is_u32 (q_expiry_ms q).

Lemma before_trans base a b c :
  in_era base a -> in_era base b -> in_era base c ->
  queued_before a b = true -> queued_before c b = false -> queued_before a c = true.
Proof.
  intros [? ?] [? ?] [? ?]. rewrite <- not_true_iff_false, !(queued_before_lex base) by done. lia.
Qed.

Lemma before_asym base a b :
  in_era base a -> in_era base b -> queued_before a b = true -> queued_before b a = false.
Proof.
  intros [? ?] [? ?]. rewrite <- not_true_iff_false, !(queued_before_lex base) by done. lia.
Qed.

(** The binary search finds the boundary between the entries [q] goes after and
    those it goes before. *)
Lemma upper_bound_loop_spec base q l fuel first len :
  in_era base q -> Forall (in_era base) l -> in_order l ->
  (len <= fuel)%nat -> (first + len <= length l)%nat ->
  (forall i x, (i < first)%nat -> l !! i = Some x -> queued_before q x = false) ->
  (forall i x, (first + len <= i)%nat -> l !! i = Some x -> queued_before q x = true) ->
  let k := upper_bound_loop fuel q l first len in
  (k <= length l)%nat /\
  (forall i x, (i < k)%nat -> l !! i = Some x -> queued_before q x = false) /\
  (forall i x, (k <= i)%nat -> l !! i = Some x -> queued_before q x = true).
Proof.
  intros Hq Hl Hs. revert first len. induction fuel as [|fuel IH]; intros first len Hf Hb Hlo Hhi; simpl.
  { split_and!; [lia|done|]. intros i x Hi. apply Hhi. lia. }
  destruct (Nat.eqb_spec len 0) as [->|Hn].
  { split_and!; [lia|done|]. intros i x Hi. apply Hhi. lia. }
  change (fst (Nat.divmod len 1 0 1)) with (len / 2)%nat.
  assert (len / 2 < len)%nat as Hh by (apply Nat.div_lt; lia).
  destruct (lookup_lt_is_Some_2 l (first + len / 2)) as [m Hm]; [lia|]. rewrite Hm.
  assert (forall i x, l !! i = Some x -> in_era base x) as Hera by (intros i x; by apply Forall_lookup_1).
  assert (forall i j x y, (i < j)%nat -> l !! i = Some x -> l !! j = Some y -> queued_before y x = false) as Hord
    by (intros i j x y Hij Hx Hy; by apply (sorted_lookup _ l i j x y Hs)).
  destruct (queued_before q m) eqn:Eqm.
  - apply IH; [lia|lia|done|]. intros i x Hi Hx.
    destruct (decide (i = first + len / 2)%nat) as [->|]; [congruence|].
    eapply (before_trans base q m x); eauto. eapply (Hord _ i); [|exact Hm|exact Hx]. lia.
  - apply IH; [lia|lia| |intros i x Hi; apply Hhi; lia]. intros i x Hi Hx.
    destruct (decide (i = first + len / 2)%nat) as [->|]; [congruence|].
    destruct (queued_before q x) eqn:E; [|done]. rewrite <- Eqm. symmetry.
    eapply (before_trans base q x m); eauto. eapply (Hord i); [|exact Hx|exact Hm]. lia.
Qed.

Lemma insert_in_order base q l :
  in_era base q -> Forall (in_era base) l -> in_order l -> in_order (insert_at (upper_bound q l) q l).
Proof.
  intros Hq Hl Hs.
  destruct (upper_bound_loop_spec base q l (length l) 0 (length l)) as (Hk & Hlo & Hhi); try done; [lia| |].
  { intros i x Hi Hx. apply lookup_lt_Some in Hx. lia. }
  unfold insert_at. fold (upper_bound q l) in *. set (k := upper_bound q l) in *.
  pose proof Hs as Hs'. rewrite <- (take_drop k l) in Hs'. apply StronglySorted_app in Hs' as (Hx & Ht & Hd).
  assert (forall x, x ∈ take k l -> queued_before q x = false) as Htake.
  { intros x [i Hi]%list_elem_of_lookup. apply lookup_take_Some in Hi as [Hi Hik]. eauto. }
  assert (forall x, x ∈ drop k l -> queued_before x q = false) as Hdrop.
  { intros x [i Hi]%list_elem_of_lookup. rewrite lookup_drop in Hi.
    apply (before_asym base); [done|by eapply Forall_lookup_1|]. eapply Hhi; [|exact Hi]. lia. }
  apply StronglySorted_app_2; [|done|constructor; [done|]].
  2:{ apply Forall_forall. intros x Hin. by apply Hdrop, list_elem_of_In. }
  intros x y Hx' [->|Hy]%elem_of_cons; [by apply Htake|by apply Hx].
Qed.

(** The transmit queue keeps its order: inserting by the binary search of
    [std::upper_bound] into a queue ordered by priority, expiry and arrival gives
    an ordered queue again, the new entry behind everything at least as urgent,
    even when the 32-bit expiries straddle a wrap of the clock. *)
Theorem queue_stays_in_order base q l :
  in_era base q -> Forall (in_era base) l -> in_order l ->
  in_order (insert_at (upper_bound q l) q l).
Proof. apply insert_in_order. Qed.

(** Overflow spares urgent traffic: when [send] finds the queue full, the
    entry dropped, and reported as such before anything else, is of the least
    urgent priority present (the new packet included) and the oldest of it. *)
Theorem overflow_sheds_least_urgent `{CryptoLib} {R} `{RadioLaws R} now r p prio delay cb
    (d : Dispatcher R) b d' rs :
  ok d -> length (queue_ d) = queue_limit_ d -> valid p = true ->
  send now r p prio delay cb d = (b, d', rs) ->
  exists x rest, rs = (x, false) :: rest /\
    x ∈ new_entry now p prio delay cb d :: queue_ d /\
    Forall (sheds_before x) (new_entry now p prio delay cb d :: queue_ d).
Proof.
  intros Hok Hfull Hv. unfold send. rewrite Hv. cbn [negb]. rewrite check_and_mark_seen_snd.
  change (new_entry now p prio delay cb (setf _ d)) with (new_entry now p prio delay cb d).
  set (q := new_entry now p prio delay cb d). cbn [queue_ queue_limit_ setf].
  set (l := insert_at (upper_bound q (queue_ d)) q (queue_ d)).
  assert (l ≡ₚ q :: queue_ d) as Hl by apply insert_at_perm.
  assert (length l = S (length (queue_ d))) as Hlen by by rewrite Hl.
  rewrite (proj2 (Nat.ltb_lt _ _)) by lia.
  assert (l <> []) as Hne by (intros E; by rewrite E in Hlen).
  destruct (lookup_lt_is_Some_2 l (victim l) (victim_bound l Hne)) as [x Hx].
  unfold take_at. rewrite Hx. destruct (pump now r _) as [d1 rs1]. intros [= <- <- <-].
  exists x, rs1. split_and!; [done| |].
  - rewrite <- Hl. by apply list_elem_of_lookup_2 in Hx.
  - rewrite <- Hl. by apply victim_spec.
Qed.
