(* ===== verification/SimRadio.v ===== *)
(** * A simulated radio, and the dispatcher run on it

    A concrete implementation of the [Radio] interface that satisfies
    [RadioLaws], and runs of the dispatcher over it: the dispatcher's theorems at
    concrete states, and two behaviours that differ from the comments in the
    source. *)

From S2P Require Import Prelude ByteIO Floats Crypto Identity Toy Packet Radio Dispatcher.

Record SimRadio := mkSim { sim_params : RadioParams; sim_up : bool; sim_tx : bool; sim_channel : bool }.

#[export] Instance sim_radio : Radio SimRadio := {
  radio_params := sim_params;
  radio_tx_busy := sim_tx;
  radio_ready := sim_up;
  radio_channel_busy r := (sim_channel r, r);
  radio_send r raw :=
    if sim_tx r || negb (sim_up r) then (false, r)
    else (true, mkSim (sim_params r) (sim_up r) true (sim_channel r));
  radio_reconfigure r p := mkSim p (sim_up r) (sim_tx r) (sim_channel r);
}.

#[export] Instance sim_radio_laws : RadioLaws SimRadio.
Proof.
  constructor; simpl; try done.
  - intros r raw r'. destruct (_ || _); [done|]. by intros [= <-].
  - intros r raw. by destruct (_ || _).
Qed.

(** MeshCore's settings at 868 MHz with no duty-cycle limit. *)
Definition sim_settings : RadioParams :=
  RadioParams_default <| rp_freq_mhz := d_of_Z 868 |> <| rp_duty_cycle_pct := d_of_Z 100 |>.

Definition sim_idle : SimRadio := mkSim sim_settings true false false.
Definition sim_down : SimRadio := mkSim sim_settings false false false.

Definition sim_packet (payload : Bytes) : Packet := make_packet PayloadType.TxtMsg Flood 1 [] payload.

(** ** Runs *)

(** Two sends on an idle radio: the first goes out at once, the second waits for
    the transmission in flight. *)
Definition sim_d0 : Dispatcher SimRadio := make_dispatcher sim_idle 2.
Definition sim_ev1 : Event := EvSend (R := SimRadio) (sim_packet [1]) kPriorityFlood 0 (Some 1).
Definition sim_ev2 : Event := EvSend (R := SimRadio) (sim_packet [2]) kPriorityFlood 0 (Some 2).
Definition sim_d1 : Dispatcher SimRadio := (handle 1000 0 sim_ev1 sim_d0).1.
Definition sim_d2 : Dispatcher SimRadio := (handle 1001 0 sim_ev2 sim_d1).1.
Definition sim_acc : list Queued := ([] ++ accepts 1000 sim_ev1 sim_d0) ++ accepts 1001 sim_ev2 sim_d1.
Definition sim_rs : Results := ([] ++ (handle 1000 0 sim_ev1 sim_d0).2) ++ (handle 1001 0 sim_ev2 sim_d1).2.

Lemma sim_reach : reach sim_d0 sim_acc sim_rs sim_d2.
Proof.
  apply (reach_step _ _ _ _ 1001 0 sim_ev2 _ _); [|exact I|apply surjective_pairing].
  apply (reach_step _ _ _ _ 1000 0 sim_ev1 _ _); [constructor|exact I|apply surjective_pairing].
Qed.

Lemma tx_reported_exactly_once_witness : sim_acc ≡ₚ queue_ sim_d2 ++ map fst sim_rs.
Proof. apply (tx_reported_exactly_once sim_idle 2). exact sim_reach. Defined.

Lemma tx_never_stalls_witness :
  queue_ sim_d2 <> [] /\ (radio_tx_busy (radio_ sim_d2) = true \/ pump_timer_ sim_d2 = true).
Proof.
  split; [vm_compute; discriminate|].
  apply (tx_never_stalls sim_idle 2 sim_acc sim_rs); [exact sim_reach|vm_compute; discriminate].
Defined.

Lemma tx_queue_bounded_witness :
  (length (queue_ sim_d2) <= Nat.max 2 1)%nat /\
  Forall (fun q => (length (encode (q_packet q)) <= kMaxPacketSize)%nat) (queue_ sim_d2).
Proof. apply (tx_queue_bounded sim_idle 2 sim_acc sim_rs). exact sim_reach. Defined.

(** The packet just sent comes back from a repeater five seconds later, after the
    millisecond counter has wrapped. *)
Definition sim_T : Z := 2 ^ 32 - 100.
Definition sim_sent : bool * Dispatcher SimRadio * Results :=
  send (u32 sim_T) 0 (sim_packet [1]) kPriorityFlood 0 None sim_d0.
Definition sim_echo : RxPacket := mkRx [9; 1; 170; 1] (-80) (f_of_Z 5) 7.

Lemma echoes_suppressed_witness :
  delivered (on_radio_rx (u32 (sim_T + 5000)) sim_echo (expire_seen (u32 (sim_T + 5000)) sim_sent.1.2)).2
  = None.
Proof.
  apply (echoes_suppressed sim_d0 sim_T sim_sent.1.2 (expire_seen (u32 (sim_T + 5000)) sim_sent.1.2)
           (sim_T + 5000) (sim_packet [1]) sim_echo (set_path (sim_packet [1]) [170])).
  - left. exists 0, kPriorityFlood, 0, None. eexists. vm_compute. reflexivity.
  - eapply (timed_step _ _ _ sim_T (sim_T + 5000) 0 EvSweep); [constructor|vm_compute; discriminate|reflexivity].
  - vm_compute. reflexivity.
  - vm_compute. reflexivity.
  - vm_compute. reflexivity.
Defined.

(** Expiries on both sides of a wrap. *)
Definition sim_entry (prio expiry seq : Z) : Queued :=
  mkQueued (sim_packet [seq]) prio expiry 0 seq None.

Lemma queue_stays_in_order_witness :
  in_order (insert_at
    (upper_bound (sim_entry 3 10 7) [sim_entry 1 (2 ^ 32 - 500) 4; sim_entry 3 (2 ^ 32 - 200) 5; sim_entry 3 900 6])
    (sim_entry 3 10 7) [sim_entry 1 (2 ^ 32 - 500) 4; sim_entry 3 (2 ^ 32 - 200) 5; sim_entry 3 900 6]).
Proof.
  apply (queue_stays_in_order (2 ^ 32 - 1000)); unfold in_era, same_era, is_u32;
    repeat constructor; vm_compute; congruence.
Defined.

(** A full queue behind a radio that is down. *)
Definition sim_full : Dispatcher SimRadio :=
  (send 1 0 (sim_packet [2]) kPriorityAck 0 None
    (send 0 0 (sim_packet [1]) kPriorityRepeat 0 (Some 5) (make_dispatcher sim_down 2)).1.2).1.2.

Lemma sim_full_ok : ok sim_full.
Proof.
  constructor; [vm_compute; repeat constructor|vm_compute; lia|vm_compute; lia|].
  intros _. right. vm_compute. reflexivity.
Qed.

Lemma overflow_sheds_least_urgent_witness :
  let q := new_entry 2 (sim_packet [3]) kPriorityDirect 0 None sim_full in
  exists x rest, (send 2 0 (sim_packet [3]) kPriorityDirect 0 None sim_full).2 = (x, false) :: rest /\
    x ∈ q :: queue_ sim_full /\ Forall (sheds_before x) (q :: queue_ sim_full).
Proof.
  destruct (send 2 0 (sim_packet [3]) kPriorityDirect 0 None sim_full) as [[b d'] rs] eqn:E.
  apply (overflow_sheds_least_urgent 2 0 (sim_packet [3]) kPriorityDirect 0 None sim_full b d' rs);
    [exact sim_full_ok|vm_compute; reflexivity|vm_compute; reflexivity|exact E].
Defined.

(** ** Differences from the documented behaviour *)

(** A flood is queued at instant 0 while the radio is down, so it expires at
    40000; at 39000 a direct packet is queued with a delay and becomes the head. *)
Definition sim_late1 : Dispatcher SimRadio :=
  (send 0 0 (sim_packet [1]) kPriorityFlood 0 None (make_dispatcher sim_down 128)).1.2.
Definition sim_late2 : Dispatcher SimRadio :=
  (send 39000 0 (sim_packet [2]) kPriorityDirect 9000 None sim_late1).1.2.
(** At 41000 the radio is back and the pump timer fires. *)
Definition sim_late3 : Dispatcher SimRadio := sim_late2 <| radio_ := sim_idle |>.

(** The pump drops expired entries only from the front of the queue: an expired
    packet behind a fresh entry that is not due yet is transmitted. *)
Theorem expired_packet_transmitted :
  exists q, (on_pump_timer 41000 0 sim_late3).2 = [(q, true)] /\ tdiff (q_expiry_ms q) 41000 <= 0.
Proof. eexists. split; [vm_compute; reflexivity|]. vm_compute. discriminate. Qed.

(** A radio that looks idle but refuses a send, as while it is being retuned. *)
Record Refusing := mkRefusing {}.
#[export] Instance refusing_radio : Radio Refusing := {
  radio_params _ := sim_settings;
  radio_tx_busy _ := false;
  radio_ready _ := true;
  radio_channel_busy r := (false, r);
  radio_send r _ := (false, r);
  radio_reconfigure r _ := r;
}.

(** A refused packet is put back at the front of the queue whatever its priority,
    in front of more urgent entries, so the queue the next insertion searches is
    no longer in order. *)
Theorem refused_packet_jumps_queue :
  let d0 := make_dispatcher (mkRefusing) 128 in
  let d1 := (send 0 0 (sim_packet [1]) kPriorityAck 5000 None d0).1.2 in
  let d2 := (send 0 0 (sim_packet [2]) kPriorityAdvert 0 None d1).1.2 in
  map q_priority (queue_ d2) = [kPriorityAdvert; kPriorityAck] /\ ~ in_order (queue_ d2).
Proof.
  split; [vm_compute; reflexivity|]. intros Hs.
  eapply (sorted_lookup _ _ 0 1) in Hs; [|lia|vm_compute; reflexivity|vm_compute; reflexivity].
  vm_compute in Hs. discriminate.
Qed.
