(* ===== verification/DutyRuns.v ===== *)
(** * The duty cycle over whole runs of the dispatcher

    [Radio] shows that the ledger holds the last hour and what its gate lets through; here the
    dispatcher ([src/src/mesh/dispatcher.cpp]) is run with it: sends, timers, receptions,
    changes of the parameters and completed transmissions in absolute time, the handlers
    reading the wrapped clock.  The theorem: whatever the run, a packet is handed to the radio
    only when it fits the hour's budget. *)

From S2P Require Import Prelude ByteIO Floats Crypto Identity Toy Packet Radio Dispatcher SimRadio.

Section runs.
Context `{CryptoLib} {R : Type} `{RadioLaws R}.
Implicit Types (d : Dispatcher R).

(** ** What an operation does to the ledger *)

(** Untouched, or pruned by the gate. *)
Definition looked (now : Z) (u u' : DutyCycle.t) : Prop := u' = u \/ u' = DutyCycle.prune now u.

Lemma wait_ms_looks now a u : looked now u (DutyCycle.wait_ms now a u).2.
Proof. unfold DutyCycle.wait_ms, looked. repeat case_match; auto. Qed.

Lemma release_wait_nonneg now excess es rel : 0 <= DutyCycle.release_wait now excess rel es.
Proof. revert rel. induction es as [|e es IH]; intros rel; simpl; [done|]. repeat case_match; auto; lia. Qed.

Lemma wait_ms_nonneg now a u : 0 <= (DutyCycle.wait_ms now a u).1.
Proof. unfold DutyCycle.wait_ms. repeat case_match; simpl; try done; try lia. apply release_wait_nonneg. Qed.

Lemma schedule_pump_duty now delay d : duty_ (schedule_pump now delay d) = duty_ d.
Proof. unfold schedule_pump. by case_match. Qed.

(** The airtime of a packet under the parameters of a radio. *)
Definition airtime_on (radio : R) (q : Queued) : Z := airtime_ms (radio_params radio) (zlen (encode (q_packet q))).

(** A pump looks at the ledger at most, and transmits only what the gate lets through. *)
Lemma pump_ledger now r d d' rs :
  queue_valid d -> pump now r d = (d', rs) ->
  looked now (duty_ d) (duty_ d') /\
  (forall q, (q, true) ∈ rs -> DutyCycle.wait_ms now (airtime_on (radio_ d) q) (duty_ d) = (0, duty_ d')).
Proof.
  intros Hv. unfold pump. cbn [pump_fuel]. unfold queue_valid in Hv.
  assert (forall l (q : Queued), (q, true) ∈ map (fun q => (q, false)) l -> False) as Hno.
  { intros l q Hin. apply list_elem_of_fmap in Hin as (x & Hx & _). done. }
  destruct (queue_ d) as [|q0 qs] eqn:Eq.
  { intros [= <- <-]. split; [by left|]. intros q Hin. by apply not_elem_of_nil in Hin. }
  rewrite <- Eq in *. destruct (radio_tx_busy (radio_ d)).
  { intros [= <- <-]. split; [by left|]. intros q Hin. by apply not_elem_of_nil in Hin. }
  destruct (split_expired now (queue_ d)) as [dropped kept] eqn:Es. apply split_expired_app in Es.
  destruct kept as [|front kept'] eqn:Ek.
  { intros [= <- <-]. split; [by left|]. intros q Hin. by apply Hno in Hin. }
  rewrite <- Ek in *. destruct (_ || _).
  { intros [= <- <-]. rewrite schedule_pump_duty. split; [by left|]. intros q Hin. by apply Hno in Hin. }
  destruct (list_find _ kept) as [[i q]|] eqn:Ef.
  2:{ intros [= <- <-]. rewrite schedule_pump_duty. split; [by left|]. intros q Hin. by apply Hno in Hin. }
  apply list_find_Some in Ef as (Hi & _ & _).
  assert (length (encode (q_packet q)) <= 255)%nat as Hfit.
  { apply valid_encode_fits. rewrite Es in Hv. apply Forall_app in Hv as [_ Hv]. by eapply Forall_lookup_1 in Hv. }
  cbn [radio_ duty_ queue_ setf].
  pose proof (wait_ms_looks now (airtime_on (radio_ d) q) (duty_ d)) as Hlook.
  pose proof (wait_ms_nonneg now (airtime_on (radio_ d) q) (duty_ d)) as Hnn.
  fold (airtime_on (radio_ d) q).
  destruct (DutyCycle.wait_ms now (airtime_on (radio_ d) q) (duty_ d)) as [wait duty] eqn:Ew. cbn [fst snd] in Hlook, Hnn.
  destruct (Z.ltb_spec 0 wait).
  { intros [= <- <-]. rewrite schedule_pump_duty. split; [done|]. intros x Hin. by apply Hno in Hin. }
  destruct (radio_channel_busy _) as [busy radio]. destruct (busy && _).
  { intros [= <- <-]. rewrite schedule_pump_duty. split; [done|]. intros x Hin. by apply Hno in Hin. }
  change (kMaxPacketSize <? _)%nat with (255 <? length (encode (q_packet q)))%nat.
  rewrite (proj2 (Nat.ltb_ge _ _) Hfit). destruct (radio_send _ _) as [accepted radio'].
  assert (wait = 0) as -> by lia.
  destruct accepted; cbn [negb]; intros [= <- <-].
  - split; [by destruct busy|]. intros x [Hin|Hin]%elem_of_app; [by apply Hno in Hin|].
    apply list_elem_of_singleton in Hin as [= ->]. rewrite Ew. by destruct busy.
  - rewrite schedule_pump_duty. split; [by destruct busy|]. intros x Hin. by apply Hno in Hin.
Qed.

(** The ledger and the radio the pump of an event starts from. *)
Definition gate_duty (ev : Event (R := R)) d : DutyCycle.t :=
  match ev with EvReconfigure params => DutyCycle.set_percent (duty_ d) (rp_duty_cycle_pct params) | _ => duty_ d end.
Definition gate_radio (ev : Event (R := R)) d : R :=
  match ev with
  | EvReconfigure params =>
      if negb (RadioParams_eqb params (radio_params (radio_ d))) then radio_reconfigure (radio_ d) params else radio_ d
  | _ => radio_ d
  end.

(** [send] pumps a valid queue, over the same ledger and radio. *)
Lemma send_pumps now r p prio delay cb d b d' rs :
  ok d -> send now r p prio delay cb d = (b, d', rs) ->
  d' = d <| stats_ ::= fun s => s <| tx_dropped ::= incr |> |> /\ rs = [] \/
  exists d1 rs0 rs1, queue_valid d1 /\ duty_ d1 = duty_ d /\ radio_ d1 = radio_ d /\
    pump now r d1 = (d', rs1) /\ rs = rs0 ++ rs1 /\ Forall (fun x => x.2 = false) rs0.
Proof.
  intros [Hv _ _ _]. unfold send. destruct (valid p) eqn:Ev; cbn [negb]; [|intros [= <- <- <-]; by left].
  rewrite check_and_mark_seen_snd. intros E. right.
  set (q := new_entry _ _ _ _ _ _) in E. cbn [queue_ queue_limit_ setf] in E.
  set (l := insert_at (upper_bound q (queue_ d)) q (queue_ d)) in E.
  assert (Forall (fun q => valid (q_packet q) = true) l) as Hvl
    by (unfold l; rewrite insert_at_perm; by constructor).
  destruct (_ <? _)%nat; [destruct (take_at (victim l) l) as [[x rest]|] eqn:Et|].
  - destruct (pump now r _) as [d1 rs1] eqn:Ep in E. injection E as <- <- <-.
    eexists _, [(x, false)], rs1. split_and!; [| | |exact Ep|done|by repeat constructor]; try done.
    unfold queue_valid. simpl. unfold take_at in Et. destruct (l !! victim l) as [y|] eqn:Ey; [|done].
    injection Et as <- <-. apply (delete_Permutation _ _ _) in Ey. rewrite Ey in Hvl. by apply Forall_cons_iff in Hvl as [_ ?].
  - destruct (pump now r _) as [d1 rs1] eqn:Ep in E. injection E as <- <- <-.
    eexists _, [], rs1. by split_and!; [| | |exact Ep|done|constructor].
  - destruct (pump now r _) as [d1 rs1] eqn:Ep in E. injection E as <- <- <-.
    eexists _, [], rs1. by split_and!; [| | |exact Ep|done|constructor].
Qed.

(** What an event does to the ledger, and what it let onto the air. *)
Definition ledger_step (now : Z) (ev : Event (R := R)) d d' (rs : Results) : Prop :=
  match ev with
  | EvTxDone _ a => duty_ d' = DutyCycle.record now a (duty_ d) /\ rs = []
  | _ => looked now (gate_duty ev d) (duty_ d') /\
      forall q, (q, true) ∈ rs ->
        DutyCycle.wait_ms now (airtime_on (gate_radio ev d) q) (gate_duty ev d) = (0, duty_ d')
  end.

Lemma handle_ledger now r ev d d' rs : ok d -> handle now r ev d = (d', rs) -> ledger_step now ev d d' rs.
Proof.
  intros Hok. pose proof (ok_valid d Hok) as Hv.
  assert (forall x : Dispatcher R, duty_ x = duty_ d -> looked now (duty_ d) (duty_ x) /\
    forall q, (q, true) ∈ ([] : Results) -> DutyCycle.wait_ms now (airtime_on (radio_ d) q) (duty_ d) = (0, duty_ x)) as Hidle.
  { intros x ->. split; [by left|]. intros q Hin. by apply not_elem_of_nil in Hin. }
  destruct ev; simpl; unfold ledger_step; cbn [gate_duty gate_radio].
  - destruct (send _ _ _ _ _ _ _) as [[b d1] rs1] eqn:Es. intros [= <- <-].
    destruct (send_pumps _ _ _ _ _ _ _ _ _ _ Hok Es) as [[-> ->]|(d2 & rs2 & rs3 & Hv2 & Ed & Er & Ep & -> & Hf)]; [by apply Hidle|].
    destruct (pump_ledger _ _ _ _ _ Hv2 Ep) as [Hl Hw]. rewrite Ed, ?Er in *. split; [done|].
    intros q [Hin|Hin]%elem_of_app; [|by apply Hw].
    apply list_elem_of_In in Hin. rewrite List.Forall_forall in Hf. by specialize (Hf _ Hin).
  - intros Ep. by apply (pump_ledger now r (d <| pump_timer_ := false |> <| pump_due_ms_ := 0 |>)) in Ep.
  - intros [= <- <-]. unfold on_radio_tx_done. by rewrite schedule_pump_duty.
  - intros [= <- <-]. by apply Hidle.
  - intros [= <- <-]. apply Hidle. unfold on_radio_rx, check_and_mark_seen. by repeat case_match; simplify_eq/=.
  - intros [= <- <-]. apply Hidle. unfold on_radio_rx_error. by repeat case_match.
  - unfold reconfigure. intros Ep. apply pump_ledger in Ep; [|by destruct (negb _)].
    by destruct (negb (RadioParams_eqb params (radio_params (radio_ d)))) eqn:Eb; cbn [duty_ radio_ setf] in *; rewrite ?Eb in *.
  - intros [= <- <-]. by apply Hidle.
Qed.

(** ** Runs in absolute time *)

(** The transmission an event reports. *)
Definition aired (T : Z) (ev : Event (R := R)) : DutyFacts.history := match ev with EvTxDone _ a => [(T, a)] | _ => [] end.

(** [metered d0 h L T d]: a run from [d0] to [d] at the instant [T] in which the transmissions
    [h] were completed.  The ledger held no entry older than an hour at [L]; between that and
    an event there are less than 24 days, the range of the wrapped clock. *)
Inductive metered (d0 : Dispatcher R) : DutyFacts.history -> Z -> Z -> Dispatcher R -> Prop :=
| metered_start T : metered d0 [] T T d0
| metered_step h L T T' r ev d d' rs :
    metered d0 h L T d -> T <= T' < L + 2 ^ 31 - DutyCycle.kWindowMs -> enabled d ev -> handle (u32 T') r ev d = (d', rs) ->
    metered d0 (h ++ aired T' ev) (match ev with EvTxDone _ _ => T' | _ => L end) T' d'
| metered_current h L T d :
    metered d0 h L T d -> T < L + 2 ^ 31 - DutyCycle.kWindowMs -> DutyCycle.prune (u32 T) (duty_ d) = duty_ d ->
    metered d0 h T T d.

Lemma looked_reach h L u u' T :
  DutyFacts.reach h L u -> L <= T < L + 2 ^ 31 - DutyCycle.kWindowMs -> looked (u32 T) u u' ->
  exists L', L <= L' <= T /\ DutyFacts.reach h L' u'.
Proof.
  intros Hr HT [->| ->]; [exists L; split; [lia|done]|]. exists T. split; [lia|]. by eapply DutyFacts.reach_prune.
Qed.

Lemma gate_duty_reach h L ev d : DutyFacts.reach h L (duty_ d) -> DutyFacts.reach h L (gate_duty ev d).
Proof. intros Hr. destruct ev; try done. by apply DutyFacts.reach_percent. Qed.

(** The ledger along a run is one of those [Radio] is about, exact at [L] or later. *)
Lemma metered_inv radio limit h L T d :
  metered (make_dispatcher radio limit) h L T d ->
  ok d /\ L <= T /\ exists L', L <= L' <= T /\ DutyFacts.reach h L' (duty_ d).
Proof.
  induction 1 as [T|h L T T' r ev d d' rs _ (Hok & HL & L' & HL' & Hr) HT He Hh|h L T d _ (Hok & HL & L' & HL' & Hr) HT Hp].
  - split; [apply make_dispatcher_ok|]. split; [lia|]. exists T. split; [lia|]. apply DutyFacts.reach_make.
  - split; [by eapply handle_ok|]. pose proof (handle_ledger _ _ _ _ _ _ Hok Hh) as Hs.
    assert (forall e, looked (u32 T') (gate_duty e d) (duty_ d') ->
      L <= T' /\ exists L2, L <= L2 <= T' /\ DutyFacts.reach (h ++ []) L2 (duty_ d')) as Hlook.
    { intros e Hl. split; [lia|]. rewrite app_nil_r.
      destruct (looked_reach h L' _ _ T' (gate_duty_reach h L' e d Hr) ltac:(lia) Hl) as (L2 & H2 & Hr2). exists L2. split; [lia|done]. }
    destruct ev; simpl in Hs |- *; try (destruct Hs as [Hs _]); try by eapply (Hlook (EvRadio radio) Hs).
    + split; [lia|]. exists T'. split; [lia|]. rewrite Hs. apply (DutyFacts.reach_record h L'); [done|lia].
    + by eapply (Hlook (EvReconfigure params)).
  - split; [done|]. split; [lia|]. exists T. split; [lia|]. rewrite <- Hp. apply (DutyFacts.reach_prune h L'); [done|lia].
Qed.

Lemma looked_percent now u u' : looked now u u' -> DutyCycle.percent_ u' = DutyCycle.percent_ u.
Proof. by intros [->| ->]. Qed.

(** C15. The duty cycle is respected over every run: whatever was sent, received, reconfigured
    and completed before, when an event hands a packet to the radio under a limit, the airtime
    of the transmissions completed in the last hour of real time and of this packet together is
    within the hour's budget, or a transmission a full hour old, leaving the window at that
    very instant, frees the excess; wraps of the millisecond counter included.  Between two
    uses of the ledger there may be up to 2^31 ms (about 24 days) less the window: [metered]. *)
Theorem duty_cycle_respected radio limit h L T d T' r ev d' rs q :
  metered (make_dispatcher radio limit) h L T d -> T <= T' < L + 2 ^ 31 - DutyCycle.kWindowMs ->
  handle (u32 T') r ev d = (d', rs) -> (q, true) ∈ rs -> DutyFacts.limited (duty_ d') = true ->
  let hour := DutyFacts.image (DutyFacts.recent T' h) in
  let spent := d_of_Z (u64 (DutyCycle.total hour + airtime_on (gate_radio ev d) q)) in
  f_le spent (DutyFacts.budget (duty_ d')) = true \/
  exists old e rest, hour = old ++ e :: rest /\
    DutyCycle.kWindowMs <= tdiff (u32 T') (DutyCycle.at_ms e) /\
    f_lt (d_of_Z (DutyCycle.total (old ++ [e]))) (d_sub spent (DutyFacts.budget (duty_ d'))) = false.
Proof.
  intros Hm HT Hh Hq Hlim hour spent. destruct (metered_inv _ _ _ _ _ _ Hm) as (Hok & HL & L' & HL' & Hr).
  pose proof (handle_ledger _ _ _ _ _ _ Hok Hh) as Hs.
  assert (looked (u32 T') (gate_duty ev d) (duty_ d') /\
    DutyCycle.wait_ms (u32 T') (airtime_on (gate_radio ev d) q) (gate_duty ev d) = (0, duty_ d')) as [Hl Hw].
  { destruct ev; simpl in Hs; try (destruct Hs as [Hs Hs']; split; [done|by apply Hs']).
    destruct Hs as [_ ->]. by apply not_elem_of_nil in Hq. }
  apply looked_percent in Hl. unfold DutyFacts.limited, DutyFacts.budget in *. rewrite Hl in *.
  eapply (duty_admits_within_budget h L' (gate_duty ev d) T' (airtime_on (gate_radio ev d) q) (duty_ d')); try done;
    [by apply gate_duty_reach|lia].
Qed.
End runs.

(** ** A limited node, across a wrap of the counter *)

Definition du_radio : SimRadio := mkSim (sim_settings <| rp_duty_cycle_pct := d_of_Z 10 |>) true false false.
Definition du_send (b : Z) : Event := EvSend (R := SimRadio) (sim_packet [b]) kPriorityFlood 0 None.
Definition du_done : Event := EvTxDone (R := SimRadio) du_radio 407.
Definition du_d0 : Dispatcher SimRadio := make_dispatcher du_radio 8.
Definition du_d1 : Dispatcher SimRadio := (handle (u32 (2 ^ 32 - 100)) 0 (du_send 1) du_d0).1.
Definition du_d2 : Dispatcher SimRadio := (handle (u32 (2 ^ 32 + 307)) 0 du_done du_d1).1.
Definition du_last : Dispatcher SimRadio * Results := handle (u32 (2 ^ 32 + 5000)) 0 (du_send 2) du_d2.
Definition du_sent : Queued := List.hd (new_entry 0 (sim_packet []) 0 0 None du_d0) (map fst du_last.2).

Lemma du_run : metered du_d0 [(2 ^ 32 + 307, 407)] (2 ^ 32 + 307) (2 ^ 32 + 307) du_d2.
Proof.
  refine (metered_step du_d0 [] (2 ^ 32 - 100) (2 ^ 32 - 100) (2 ^ 32 + 307) 0 du_done du_d1 du_d2 _ _ _ I (surjective_pairing _));
    [|unfold DutyCycle.kWindowMs; lia].
  refine (metered_step du_d0 [] (2 ^ 32 - 100) (2 ^ 32 - 100) (2 ^ 32 - 100) 0 (du_send 1) du_d0 du_d1 _ _ _ I (surjective_pairing _));
    [|unfold DutyCycle.kWindowMs; lia].
  apply metered_start.
Qed.

Lemma duty_cycle_respected_witness :
  let spent := d_of_Z (u64 (DutyCycle.total [DutyCycle.mkEntry 307 407] + airtime_on du_radio du_sent)) in
  f_le spent (d_of_Z 360000) = true \/
  exists old e rest, [DutyCycle.mkEntry 307 407] = old ++ e :: rest /\
    DutyCycle.kWindowMs <= tdiff (u32 (2 ^ 32 + 5000)) (DutyCycle.at_ms e) /\
    f_lt (d_of_Z (DutyCycle.total (old ++ [e]))) (d_sub spent (d_of_Z 360000)) = false.
Proof.
  pose proof (duty_cycle_respected du_radio 8 [(2 ^ 32 + 307, 407)] (2 ^ 32 + 307) (2 ^ 32 + 307) du_d2 (2 ^ 32 + 5000) 0 (du_send 2)
    du_last.1 du_last.2 du_sent du_run) as Hr.
  assert ((du_sent, true) ∈ du_last.2) as Hin.
  { replace du_last.2 with [(du_sent, true)] by (vm_compute; reflexivity). by apply list_elem_of_singleton. }
  pose proof (Hr ltac:(unfold DutyCycle.kWindowMs; lia) (surjective_pairing _) Hin ltac:(vm_compute; reflexivity)) as Hr2.
  assert (DutyFacts.budget (duty_ du_last.1) = d_of_Z 360000) as Hb by (vm_compute; reflexivity). rewrite Hb in Hr2.
  assert (gate_radio (du_send 2) du_d2 = du_radio) as Hg by (vm_compute; reflexivity). rewrite Hg in Hr2. exact Hr2.
Defined.
