(* ===== verification/Drain.v ===== *)
(** * The transmit queue drains ([src/src/mesh/dispatcher.cpp])

    [Dispatcher] shows that a queue with something in it has a transmission in flight or its
    pump timer armed.  Here the two are let happen: the radio completes what it is sending, the
    loop fires the timer when it is due.  With a radio that takes what it is given, a free
    channel and no duty-cycle limit the queue is empty after three such steps per packet and
    three more: a packet costs one completion, and one or two pumps, the first of which may
    find that nothing may go out yet. *)

From S2P Require Import Prelude ByteIO Floats Crypto Identity Toy Packet Radio Dispatcher SimRadio.

Section drain.
Context `{CryptoLib} {R : Type} `{RadioLaws R}.
Implicit Types (d : Dispatcher R).

(** A radio that is up on some frequency, hears nobody, and takes a packet when it is not
    sending one; [finish] is what it is once the transmission is over. *)
Record cooperative (usable : R -> Prop) (finish : R -> R) : Prop := {
  co_ready x : usable x -> radio_ready x = true /\ has_frequency (radio_params x) = true;
  co_channel x : usable x -> (radio_channel_busy x).1 = false /\ usable (radio_channel_busy x).2;
  co_send x raw : usable x -> radio_tx_busy x = false -> (length raw <= kMaxPacketSize)%nat ->
    (radio_send x raw).1 = true /\ usable (radio_send x raw).2;
  co_finish x : usable x -> usable (finish x) /\ radio_tx_busy (finish x) = false;
}.

Context (usable : R -> Prop) (finish : R -> R) (Hco : cooperative usable finish).
(** The random byte and the airtime of each step. *)
Context (draw airtime : nat -> Z).

(** What happens next, and what it reports: the transmission in flight ends, or the pump timer
    fires at its instant. *)
Definition proceed (k : nat) (now : Z) d : Z * (Dispatcher R * Results) :=
  if radio_tx_busy (radio_ d)
  then (u32 (now + airtime k),
        handle (u32 (now + airtime k)) (draw k) (EvTxDone (finish (radio_ d)) (airtime k)) d)
  else if pump_timer_ d then (pump_due_ms_ d, handle (pump_due_ms_ d) (draw k) EvPumpTimer d)
  else (now, (d, [])).

(** [n] steps from the step [k], with what was reported and when. *)
Fixpoint drive (n k : nat) (now : Z) d : Dispatcher R * list (Z * (Queued * bool)) :=
  match n with
  | O => (d, [])
  | S n =>
      let '(now, (d, rs)) := proceed k now d in
      let '(d, log) := drive n (S k) now d in (d, map (pair now) rs ++ log)
  end.

(** Something in the queue may go out at [t]. *)
Definition some_due (t : Z) (l : list Queued) : bool := existsb (fun q => tdiff (q_not_before_ms q) t <=? 0) l.

Definition unlimited d : Prop := DutyFacts.limited (duty_ d) = false.

Record drainable d : Prop := { dr_ok : ok d; dr_usable : usable (radio_ d); dr_unlimited : unlimited d }.

(** Steps left at most. *)
Definition steps_left d : nat :=
  match queue_ d with
  | [] => 0
  | l => 3 * length l + (if radio_tx_busy (radio_ d) then 3 else if some_due (pump_due_ms_ d) l then 1 else 2)
  end.

Lemma unlimited_wait now a u : DutyFacts.limited u = false -> DutyCycle.wait_ms now a u = (0, u).
Proof. unfold DutyFacts.limited, DutyCycle.wait_ms. by intros ->%negb_false_iff. Qed.

Lemma schedule_unarmed now delay d :
  pump_timer_ d = false -> schedule_pump now delay d = d <| pump_due_ms_ := u32 (now + delay) |> <| pump_timer_ := true |>.
Proof. unfold schedule_pump. by intros ->. Qed.

(** The instant the pump is scheduled for when nothing may go out is one at which something may. *)
Lemma soonest_spec now front l :
  front ∈ l -> Forall (fun q => 0 < tdiff (q_not_before_ms q) now) l ->
  0 < soonest now front l /\ exists q, q ∈ l /\ tdiff (q_not_before_ms q) now = soonest now front l.
Proof.
  intros Hfront Hl. rewrite List.Forall_forall in Hl.
  assert (forall q, q ∈ l -> 0 < tdiff (q_not_before_ms q) now) as Hpos by (intros q Hq; by apply Hl, list_elem_of_In).
  assert (forall l' s, l' ⊆ l -> 0 < s -> (exists q, q ∈ l /\ tdiff (q_not_before_ms q) now = s) ->
    let s' := fold_left (fun s q => Z.min s (tdiff (q_not_before_ms q) now)) l' s in
    0 < s' /\ exists q, q ∈ l /\ tdiff (q_not_before_ms q) now = s') as Hgen.
  { induction l' as [|x l' IH]; intros s Hsub Hs Hex; [done|]. cbn [fold_left].
    assert (x ∈ l) as Hx by (apply Hsub, elem_of_cons; by left). specialize (Hpos x Hx).
    apply IH; [intros y Hy; apply Hsub, elem_of_cons; by right|lia|].
    destruct (Z.min_spec s (tdiff (q_not_before_ms x) now)) as [[_ ->]|[_ ->]]; [done|by exists x]. }
  apply Hgen; [done|by apply Hpos|by exists front].
Qed.

Lemma due_then now t : 0 < tdiff t now -> tdiff t (u32 (now + tdiff t now)) = 0.
Proof. unfold tdiff. intros _. width. Qed.

Lemma not_due_all now l : list_find (fun q => tdiff (q_not_before_ms q) now <= 0) l = None ->
  Forall (fun q => 0 < tdiff (q_not_before_ms q) now) l.
Proof. intros Hn%list_find_None. eapply Forall_impl; [|exact Hn]. cbn. lia. Qed.

Lemma some_due_spec t l q : q ∈ l -> tdiff (q_not_before_ms q) t <= 0 -> some_due t l = true.
Proof. intros Hq Ht. apply existsb_exists. exists q. split; [by apply list_elem_of_In|by apply Z.leb_le]. Qed.

Lemma none_due now l : Forall (fun q => 0 < tdiff (q_not_before_ms q) now) l -> some_due now l = false.
Proof.
  intros Hf. apply not_true_is_false. intros (q & Hq & Ht)%existsb_exists. rewrite List.Forall_forall in Hf.
  specialize (Hf q Hq). apply Z.leb_le in Ht. lia.
Qed.

(** A report of success, or of a packet past its expiry. *)
Definition fair (now : Z) (x : Queued * bool) : Prop := x.2 = true \/ tdiff (q_expiry_ms x.1) now <= 0.

Lemma expired_fair now l dropped kept : split_expired now l = (dropped, kept) -> Forall (fair now) (map (fun q => (q, false)) dropped).
Proof.
  revert dropped kept. induction l as [|q l IH]; simpl; intros dropped kept; [by intros [= <- <-]|].
  case_match eqn:E; [|by intros [= <- <-]]. destruct (split_expired now l) as [dr ke]. intros [= <- <-].
  constructor; [right; by apply Z.leb_le|by eapply IH].
Qed.

(** A pump of an idle radio takes something off the queue, or finds that nothing may go out and
    is scheduled for when something may. *)
Lemma pump_progress now r d d' rs :
  queue_valid d -> usable (radio_ d) -> unlimited d -> radio_tx_busy (radio_ d) = false -> pump_timer_ d = false ->
  queue_ d <> [] -> pump now r d = (d', rs) ->
  usable (radio_ d') /\ unlimited d' /\ Forall (fair now) rs /\
  ((length (queue_ d') < length (queue_ d))%nat \/
   queue_ d' = queue_ d /\ radio_ d' = radio_ d /\ some_due now (queue_ d) = false /\ some_due (pump_due_ms_ d') (queue_ d') = true).
Proof.
  intros Hv Hu Hlim Hidle Ht Hne. unfold pump. cbn [pump_fuel]. unfold queue_valid in Hv.
  destruct (queue_ d) as [|q0 qs] eqn:Eq; [done|]. rewrite <- Eq in *. rewrite Hidle.
  destruct (split_expired now (queue_ d)) as [dropped kept] eqn:Es. pose proof (expired_fair _ _ _ _ Es) as Hfair. apply split_expired_app in Es.
  assert (length (queue_ d) = length dropped + length kept)%nat as Hlen by (rewrite Es; apply length_app).
  destruct kept as [|front kept'] eqn:Ek.
  { intros [= <- <-]. split_and!; [done|done|done|]. left. cbn. rewrite Eq. simpl. lia. }
  rewrite <- Ek in *. destruct (co_ready _ _ Hco _ Hu) as [Er Ef]. cbn [radio_ setf]. rewrite Er, Ef. cbn [negb orb].
  destruct (list_find _ kept) as [[i q]|] eqn:El.
  2:{ intros [= <- <-]. apply not_due_all in El.
    destruct (soonest_spec now front kept) as (Hs & q & Hq & Eqs); [rewrite Ek; apply elem_of_cons; by left|done|].
    rewrite (proj2 (Z.ltb_lt _ _) Hs).
    rewrite schedule_unarmed by done. split_and!; [done|done|done|]. destruct dropped as [|x dropped].
    - right. rewrite Es. cbn [app queue_ radio_ pump_due_ms_ setf]. split_and!; [done|done|by apply none_due|].
      apply (some_due_spec _ _ q); [done|]. rewrite <- Eqs, due_then; [done|]. rewrite Eqs. lia.
    - left. rewrite Hlen. cbn. lia. }
  apply list_find_Some in El as (Hi & _ & _).
  assert (length (encode (q_packet q)) <= 255)%nat as Hfit.
  { apply valid_encode_fits. rewrite Es in Hv. apply Forall_app in Hv as [_ Hv]. by eapply Forall_lookup_1 in Hv. }
  cbn [radio_ duty_ setf]. rewrite unlimited_wait by done. change (0 <? 0) with false. cbv iota.
  destruct (co_channel _ _ Hco _ Hu) as [Eb Hu2]. pose proof (channel_tx (radio_ d)) as Htx.
  destruct (radio_channel_busy (radio_ d)) as [busy radio2]. cbn [fst snd] in Eb, Hu2, Htx. subst busy. cbn [andb].
  change (kMaxPacketSize <? _)%nat with (255 <? length (encode (q_packet q)))%nat.
  rewrite (proj2 (Nat.ltb_ge _ _) Hfit). cbn [radio_ setf].
  destruct (co_send _ _ Hco radio2 (encode (q_packet q)) Hu2) as [Eacc Hu3]; [congruence|done|].
  destruct (radio_send radio2 (encode (q_packet q))) as [accepted radio3]. cbn [fst snd] in Eacc, Hu3. subst accepted. cbn [negb].
  intros [= <- <-]. split_and!; [done|done|apply Forall_app; split; [done|constructor; [by left|constructor]]|]. left. cbn. apply lookup_lt_Some in Hi as Hlt.
  pose proof (length_delete kept i ltac:(by eexists)). lia.
Qed.

Lemma steps_left_le d n : (length (queue_ d) <= n)%nat -> (steps_left d <= 3 * n + 3)%nat.
Proof. intros Hn. unfold steps_left. destruct (queue_ d); [lia|]. repeat case_match; simpl in *; lia. Qed.

Lemma steps_left_pos d : queue_ d <> [] -> (3 * length (queue_ d) < steps_left d)%nat.
Proof. intros Hn. unfold steps_left. destruct (queue_ d); [done|]. repeat case_match; lia. Qed.

(** What every step keeps: nothing is lost, and nothing dropped before its time. *)
Definition accounted d now d' (rs : Results) : Prop := queue_ d ≡ₚ queue_ d' ++ map fst rs /\ Forall (fair now) rs.

(** A completed transmission leaves the queue, and arms the pump. *)
Lemma finish_step k now d now' d' rs :
  drainable d -> radio_tx_busy (radio_ d) = true -> proceed k now d = (now', (d', rs)) ->
  drainable d' /\ queue_ d' = queue_ d /\ radio_tx_busy (radio_ d') = false /\ rs = [].
Proof.
  intros [Hok Hu Hlim] Hb. destruct (co_finish _ _ Hco _ Hu) as [Hu' Hidle]. unfold proceed. rewrite Hb.
  destruct (handle _ _ _ d) as [d1 rs1] eqn:E. intros [= <- <- <-].
  pose proof (handle_ok _ _ (EvTxDone (finish (radio_ d)) (airtime k)) _ _ _ Hok I E) as Hok1.
  cbn [handle] in E. injection E as <- <-. unfold on_radio_tx_done in *.
  match goal with |- context [schedule_pump ?a ?b ?x] => destruct (schedule_pump_fields a b x) as (E1 & E2 & _ & _ & _ & E6) end.
  split_and!; [split; [done|by rewrite E6|]|by rewrite E2|by rewrite E6|done].
  unfold unlimited, DutyFacts.limited, schedule_pump. by case_match.
Qed.

(** Every step brings the empty queue nearer. *)
Lemma proceed_decreases k now d now' d' rs :
  drainable d -> queue_ d <> [] -> proceed k now d = (now', (d', rs)) ->
  drainable d' /\ (steps_left d' < steps_left d)%nat /\ accounted d now' d' rs.
Proof.
  intros Hd Hne Hp. destruct (radio_tx_busy (radio_ d)) eqn:Hb.
  - destruct (finish_step k now d now' d' rs Hd Hb Hp) as (Hd' & Eq & Eb & ->). split; [done|].
    unfold steps_left, accounted. rewrite Eq, Eb, Hb, app_nil_r. split; [|done]. destruct (queue_ d); [done|]. case_match; lia.
  - destruct Hd as [Hok Hu Hlim]. destruct (ok_live _ Hok Hne) as [?|Ht]; [congruence|].
    revert Hp. unfold proceed. rewrite Hb, Ht. destruct (handle _ _ EvPumpTimer d) as [d1 rs1] eqn:E. intros [= <- <- <-].
    pose proof (handle_ok _ _ EvPumpTimer _ _ _ Hok Ht E) as Hok'.
    destruct (handle_spec _ _ EvPumpTimer _ _ _ Hok Ht E) as [Hq _ _ _].
    destruct (pump_progress (pump_due_ms_ d) (draw k) (d <| pump_timer_ := false |> <| pump_due_ms_ := 0 |>) d1 rs1)
      as (Hu' & Hlim' & Hfair & Hcase); try done; [apply Hok|]. split; [by split|].
    split; [|split; [exact Hq|exact Hfair]].
    change (queue_ (d <| pump_timer_ := false |> <| pump_due_ms_ := 0 |>)) with (queue_ d) in Hcase.
    destruct Hcase as [Hlt|(Eq & Er & Hno & Hdue)].
    + apply (Nat.le_lt_trans _ (3 * length (queue_ d))); [|by apply steps_left_pos].
      transitivity (3 * (length (queue_ d) - 1) + 3)%nat; [apply steps_left_le; lia|lia].
    + unfold steps_left. rewrite Eq, Er, Hb. change (radio_ (d <| pump_timer_ := false |> <| pump_due_ms_ := 0 |>)) with (radio_ d).
      rewrite Hb. rewrite Eq in Hdue. destruct (queue_ d); [done|]. rewrite Hno, Hdue. lia.
Qed.

(** An empty queue stays so, and nothing is reported. *)
Lemma proceed_empty k now d now' d' rs :
  drainable d -> queue_ d = [] -> proceed k now d = (now', (d', rs)) -> drainable d' /\ queue_ d' = [] /\ rs = [].
Proof.
  intros Hd He Hp. destruct (radio_tx_busy (radio_ d)) eqn:Hb.
  - destruct (finish_step k now d now' d' rs Hd Hb Hp) as (Hd' & Eq & _ & ->). by rewrite Eq.
  - revert Hp. unfold proceed. rewrite Hb. destruct (pump_timer_ d); [|by intros [= <- <- <-]].
    destruct Hd as [[Hv Hbd Hl Hlive] Hu Hlim].
    unfold handle, on_pump_timer, pump. cbn [queue_ setf pump_fuel]. rewrite He. intros [= <- <- <-].
    split; [|by split]. split; [split|done|done]; try done. intros ?. done.
Qed.

Lemma drive_drains n k now d :
  drainable d -> (steps_left d <= n)%nat ->
  let '(d', log) := drive n k now d in
  queue_ d' = [] /\ map (fst ∘ snd) log ≡ₚ queue_ d /\ Forall (fun x => fair x.1 x.2) log.
Proof.
  revert k now d. induction n as [|n IH]; intros k now d Hd Hs; cbn [drive].
  - destruct (queue_ d) as [|q l] eqn:E; [done|]. pose proof (steps_left_pos d) as Hp. rewrite E in Hp.
    specialize (Hp ltac:(done)). simpl in Hp. lia.
  - destruct (proceed k now d) as [now' [d' rs]] eqn:Hp.
    assert (drainable d' /\ (steps_left d' <= n)%nat /\ accounted d now' d' rs) as (Hd' & Hn & Hacc & Hfair).
    { destruct (queue_ d) as [|q l] eqn:E.
      - destruct (proceed_empty k now d _ _ _ Hd E Hp) as (Hd' & He & ->). split; [done|]. unfold steps_left, accounted.
        rewrite He, E. split; [lia|done].
      - destruct (proceed_decreases k now d _ _ _ Hd ltac:(by rewrite E) Hp) as (Hd' & Hlt & Hacc). split_and!; [done|lia|done..]. }
    specialize (IH (S k) now' d' Hd' Hn). destruct (drive n (S k) now' d') as [d'' log]. destruct IH as (He & Hlog & Hf).
    split; [done|]. split.
    + rewrite map_app, Hlog, map_map, Hacc. apply Permutation_app_comm.
    + apply Forall_app. split; [|done]. apply Forall_map. exact Hfair.
Qed.

(** C12. The transmit queue drains: whatever is in the queue, in whatever order and with whatever
    delays, if the radio takes what it is given, the channel is free and no duty cycle limits it,
    then letting transmissions end and the pump timer fire at its instants empties the queue
    within three steps for each packet and three more; each packet it held is reported once,
    and reported as dropped only at an instant past its expiry. *)
Theorem queue_drains now d :
  drainable d ->
  let run := drive (3 * length (queue_ d) + 3) 0 now d in
  queue_ run.1 = [] /\ map (fst ∘ snd) run.2 ≡ₚ queue_ d /\
  (forall t q, (t, (q, false)) ∈ run.2 -> tdiff (q_expiry_ms q) t <= 0).
Proof.
  intros Hd. pose proof (drive_drains (3 * length (queue_ d) + 3) 0 now d Hd) as H'.
  destruct (drive _ 0 now d) as [d' log]. destruct H' as (He & Hl & Hf); [by apply steps_left_le|].
  split_and!; [done|done|]. intros t q Hin. rewrite list.Forall_forall in Hf. by destruct (Hf _ Hin).
Qed.
End drain.

(** ** The simulated radio, three packets, one of them delayed *)

Definition sim_usable (x : SimRadio) : Prop :=
  sim_up x = true /\ sim_channel x = false /\ has_frequency (sim_params x) = true.
Definition sim_finish (x : SimRadio) : SimRadio := mkSim (sim_params x) (sim_up x) false (sim_channel x).

Lemma sim_cooperative : cooperative sim_usable sim_finish.
Proof.
  constructor; unfold sim_usable; cbn; intros x.
  - by intros (-> & _ & ->).
  - by intros (-> & -> & ->).
  - intros raw (Hu & Hc & Hf) -> _. rewrite Hu. cbn. by rewrite Hc, Hf.
  - by intros (-> & -> & ->).
Qed.

Definition dr_send (b delay now : Z) (d : Dispatcher SimRadio) : Dispatcher SimRadio :=
  (handle now 0 (EvSend (R := SimRadio) (sim_packet [b]) kPriorityFlood delay None) d).1.
Definition dr_queue : Dispatcher SimRadio := dr_send 3 0 1002 (dr_send 2 5000 1001 (dr_send 1 0 1000 (make_dispatcher sim_idle 8))).

Lemma dr_drainable : drainable sim_usable dr_queue.
Proof.
  assert (forall b delay now d, ok d -> ok (dr_send b delay now d)) as Hsend.
  { intros b delay now d Hok. unfold dr_send. destruct (handle _ _ _ d) as [d' rs] eqn:E.
    exact (handle_ok _ _ (EvSend (sim_packet [b]) kPriorityFlood delay None) _ _ _ Hok I E). }
  split; [|vm_compute; done|vm_compute; done]. do 3 apply Hsend. apply make_dispatcher_ok.
Qed.

#[local] Abbreviation dr_run := (drive sim_finish (fun _ => 0) (fun _ => 400) (3 * length (queue_ dr_queue) + 3) 0 1002 dr_queue).

Lemma queue_drains_witness :
  length (queue_ dr_queue) = 2%nat /\ queue_ dr_run.1 = [] /\ map (fst ∘ snd) dr_run.2 ≡ₚ queue_ dr_queue /\
  map (fun x => (x.1, x.2.2)) dr_run.2 = [(1403, true); (6001, true)].
Proof.
  pose proof (queue_drains sim_usable sim_finish sim_cooperative (fun _ => 0) (fun _ => 400) 1002 dr_queue dr_drainable) as H.
  split; [vm_compute; reflexivity|]. split; [exact (proj1 H)|]. split; [exact (proj1 (proj2 H))|vm_compute; reflexivity].
Defined.
