(* ===== verification/Record.v ===== *)
(** * The line-per-record state files ([src/src/mesh/record.h])

    Contacts, channels and the message queue are kept in the same shape: a
    version header, then one record of tab separated fields per line.  This file
    has the shared reading half of the source ([split_fields], [parse_unsigned],
    [parse_signed]), what the stores use of the standard library (decimal output
    of [operator<<], [std::from_chars], [std::getline]), and the lemmas that the
    reading half undoes the writing half. *)

From S2P Require Import Prelude ByteIO.

Inductive LoadResult := Missing | Loaded | Corrupt.

#[export] Instance LoadResult_eq_dec : EqDecision LoadResult.
Proof. solve_decision. Defined.

Definition tab : Z := 9.
Definition newline : Z := 10.
Definition carriage_return : Z := 13.

(** [line.find('\t')]: the part before the first occurrence and the part after. *)
Fixpoint cut_at (c : Z) (s : Str) : option (Str * Str) :=
  match s with
  | [] => None
  | x :: s =>
      if x =? c then Some ([], s)
      else match cut_at c s with Some (a, b) => Some (x :: a, b) | None => None end
  end.

Fixpoint split_fields (line : Str) (count : nat) : option (list Str) :=
  match count with
  | O => match cut_at tab line with Some _ => None | None => Some [line] end
  | S O => match cut_at tab line with Some _ => None | None => Some [line] end
  | S count =>
      match cut_at tab line with
      | None => None
      | Some (field, rest) =>
          match split_fields rest count with Some fs => Some (field :: fs) | None => None end
      end
  end.

(** ** Decimal numbers *)

Definition is_digit (c : Z) : bool := (48 <=? c) && (c <=? 57).

(** The digits [from_chars] consumes, and the rest. *)
Fixpoint span_digits (s : Str) : Str * Str :=
  match s with
  | c :: s' => if is_digit c then let '(d, r) := span_digits s' in (c :: d, r) else ([], s)
  | [] => ([], [])
  end.

Definition digits_value (ds : Str) : Z := fold_left (fun acc c => acc * 10 + (c - 48)) ds 0.

(** [std::from_chars] into a [uint64_t], base 10: the value and the rest of the
    text; [None] for no digits or a value out of range. *)
Definition from_chars_u64 (s : Str) : option (Z * Str) :=
  let '(ds, rest) := span_digits s in
  match ds with
  | [] => None
  | _ => let v := digits_value ds in if 2 ^ 64 <=? v then None else Some (v, rest)
  end.

(** Into an [int64_t]: an optional minus sign. *)
Definition from_chars_i64 (s : Str) : option (Z * Str) :=
  let '(neg, s) := match s with c :: s' => if c =? 45 then (true, s') else (false, s) | [] => (false, []) end in
  let '(ds, rest) := span_digits s in
  match ds with
  | [] => None
  | _ =>
      let v := if neg then - digits_value ds else digits_value ds in
      if (v <? - 2 ^ 63) || (2 ^ 63 <=? v) then None else Some (v, rest)
  end.

Definition parse_unsigned (text : Str) (max : Z) : option Z :=
  match text with
  | [] => None
  | _ =>
      match from_chars_u64 text with
      | Some (parsed, []) => if max <? parsed then None else Some parsed
      | _ => None
      end
  end.

Definition parse_signed (text : Str) (min max : Z) : option Z :=
  match text with
  | [] => None
  | _ =>
      match from_chars_i64 text with
      | Some (parsed, []) => if (parsed <? min) || (max <? parsed) then None else Some parsed
      | _ => None
      end
  end.

(** [out << n]: decimal output.  Twenty digits hold every 64-bit value. *)
Fixpoint dec_digits (fuel : nat) (n : Z) : Str :=
  match fuel with
  | O => []
  | S fuel => (if n <? 10 then [] else dec_digits fuel (n / 10)) ++ [48 + n mod 10]
  end.
Definition show_int (n : Z) : Str :=
  if n <? 0 then 45 :: dec_digits 20 (- n) else dec_digits 20 n.

(** ** Lines *)

(** [while (std::getline(in, line))] over a text: a last line without its newline
    counts, an empty remainder does not. *)
Fixpoint getlines_loop (s : Str) (cur : Str) : list Str :=
  match s with
  | [] => match cur with [] => [] | _ => [rev cur] end
  | c :: s => if c =? newline then rev cur :: getlines_loop s [] else getlines_loop s (c :: cur)
  end.
Definition getlines (s : Str) : list Str := getlines_loop s [].

(** Fields with their separating tabs, as the writers put them out. *)
Fixpoint join_tabs (fields : list Str) : Str :=
  match fields with
  | [] => []
  | [f] => f
  | f :: fs => f ++ tab :: join_tabs fs
  end.

(** The writers replace the bytes that would end a field or a line. *)
Definition sanitise (s : Str) : Str :=
  map (fun c => if (c =? tab) || (c =? newline) || (c =? carriage_return) then 32 else c) s.

(** What an [std::ifstream] on a path gives: it does not open, or opens with this
    content, then possibly goes bad. *)
Inductive Input := NoFile | File (content : Str) (bad : bool).

(** ** Lemmas *)

(** No separator in a field. *)
Definition plain (s : Str) : Prop := Forall (fun c => c <> tab /\ c <> newline) s.

Lemma plain_app a b : plain (a ++ b) <-> plain a /\ plain b.
Proof. apply Forall_app. Qed.

Lemma sanitise_plain s : plain (sanitise s).
Proof.
  unfold plain, sanitise. apply Forall_map, Forall_true. intros c. simpl.
  unfold tab, newline, carriage_return.
  destruct (Z.eqb_spec c 9), (Z.eqb_spec c 10), (Z.eqb_spec c 13); simpl; lia.
Qed.

Lemma sanitise_id s : plain s -> Forall (fun c => c <> carriage_return) s -> sanitise s = s.
Proof.
  intros Hp Hr. unfold sanitise. rewrite <- (map_id s) at 2. apply map_ext_Forall.
  induction Hp as [|c s [H1 H2] _ IH]; [done|]. apply Forall_cons_iff in Hr as [H3 Hr].
  constructor; [|by apply IH].
  by rewrite (proj2 (Z.eqb_neq _ _) H1), (proj2 (Z.eqb_neq _ _) H2), (proj2 (Z.eqb_neq _ _) H3).
Qed.

Lemma hex_plain b : bytes_ok b -> plain (hex b).
Proof.
  intros Hb. eapply Forall_impl; [|by apply hex_chars].
  intros c. unfold is_hex_char, tab, newline. lia.
Qed.

Lemma cut_at_app c a b : Forall (fun x => x <> c) a -> cut_at c (a ++ c :: b) = Some (a, b).
Proof.
  induction 1 as [|x a Hx _ IH]; simpl; [by rewrite Z.eqb_refl|].
  rewrite (proj2 (Z.eqb_neq _ _) Hx). by rewrite IH.
Qed.

Lemma cut_at_none c a : Forall (fun x => x <> c) a -> cut_at c a = None.
Proof.
  induction 1 as [|x a Hx _ IH]; simpl; [done|].
  rewrite (proj2 (Z.eqb_neq _ _) Hx). by rewrite IH.
Qed.

Lemma plain_no_tab s : plain s -> Forall (fun x => x <> tab) s.
Proof. intros H. eapply Forall_impl; [|exact H]. by intros c [? ?]. Qed.

(** Splitting undoes joining. *)
Lemma split_join fields :
  fields <> [] -> Forall plain fields ->
  split_fields (join_tabs fields) (length fields) = Some fields.
Proof.
  intros Hne Hp. induction Hp as [|f fs Hf Hfs IH]; [done|].
  destruct fs as [|g fs].
  - simpl. by rewrite cut_at_none by by apply plain_no_tab.
  - change (join_tabs (f :: g :: fs)) with (f ++ tab :: join_tabs (g :: fs)).
    change (split_fields ?l (length (f :: g :: fs))) with
      (match cut_at tab l with
       | None => None
       | Some (field, rest) =>
           match split_fields rest (length (g :: fs)) with Some r => Some (field :: r) | None => None end
       end).
    rewrite cut_at_app by by apply plain_no_tab. by rewrite IH.
Qed.

Lemma join_tabs_no_newline fields :
  Forall plain fields -> Forall (fun c => c <> newline) (join_tabs fields).
Proof.
  induction 1 as [|f fs Hf _ IH]; [done|]. assert (Forall (fun c => c <> newline) f)
    by (eapply Forall_impl; [|exact Hf]; by intros c [? ?]).
  destruct fs as [|g fs]; [done|]. apply Forall_app. split; [done|]. by constructor.
Qed.

(** Reading lines undoes writing them. *)
Lemma getlines_loop_line l cur rest :
  Forall (fun c => c <> newline) l ->
  getlines_loop (l ++ newline :: rest) cur = (rev cur ++ l) :: getlines_loop rest [].
Proof.
  intros Hl. revert cur. induction Hl as [|c l Hc _ IH]; intros cur; simpl.
  - by rewrite app_nil_r.
  - rewrite (proj2 (Z.eqb_neq _ _) Hc), IH. simpl. by rewrite <- app_assoc.
Qed.

Lemma getlines_cons l rest :
  Forall (fun c => c <> newline) l -> getlines (l ++ newline :: rest) = l :: getlines rest.
Proof. intros Hl. unfold getlines. by rewrite getlines_loop_line. Qed.

Lemma getlines_concat ls :
  Forall (Forall (fun c => c <> newline)) ls -> getlines (concat (map (fun l => l ++ [newline]) ls)) = ls.
Proof.
  induction 1 as [|l ls Hl _ IH]; [done|]. simpl. rewrite <- app_assoc. simpl.
  by rewrite getlines_cons, IH.
Qed.

(** Decimal output reads back. *)
Lemma digits_value_snoc ds c : digits_value (ds ++ [c]) = digits_value ds * 10 + (c - 48).
Proof. unfold digits_value. by rewrite fold_left_app. Qed.

Lemma dec_digits_spec fuel n :
  0 <= n < 10 ^ Z.of_nat fuel ->
  digits_value (dec_digits fuel n) = n /\ Forall (fun c => is_digit c = true) (dec_digits fuel n).
Proof.
  revert n. induction fuel as [|fuel IH]; intros n Hn; [simpl in *; split; [unfold digits_value; simpl; lia|done]|].
  assert (is_digit (48 + n mod 10) = true) as Hd by (unfold is_digit; pose proof (Z.mod_pos_bound n 10); lia).
  simpl. rewrite digits_value_snoc. destruct (Z.ltb_spec n 10).
  - split; [rewrite Z.mod_small by lia; unfold digits_value; simpl; lia|].
    by apply Forall_app; repeat constructor.
  - destruct (IH (n / 10)) as [Hv Hf].
    { rewrite Nat2Z.inj_succ, Z.pow_succ_r in Hn by lia. split; [apply Z.div_pos; lia|].
      apply Z.div_lt_upper_bound; lia. }
    split; [rewrite Hv; pose proof (Z.div_mod n 10); lia|]. by apply Forall_app; repeat constructor.
Qed.

Lemma dec_digits_nonnil fuel n : exists c ds, dec_digits (S fuel) n = c :: ds.
Proof.
  change (dec_digits (S fuel) n) with ((if n <? 10 then [] else dec_digits fuel (n / 10)) ++ [48 + n mod 10]).
  destruct (if n <? 10 then [] else dec_digits fuel (n / 10)); eauto.
Qed.

Lemma span_digits_all ds : Forall (fun c => is_digit c = true) ds -> span_digits ds = (ds, []).
Proof. induction 1 as [|c ds Hc _ IH]; simpl; [done|]. by rewrite Hc, IH. Qed.

Lemma parse_show_unsigned n max :
  0 <= n <= max -> max < 2 ^ 64 -> parse_unsigned (show_int n) max = Some n.
Proof.
  intros Hn Hm. unfold show_int. rewrite (proj2 (Z.ltb_ge _ _)) by lia.
  destruct (dec_digits_spec 20 n) as [Hv Hf]; [change (10 ^ Z.of_nat 20) with 100000000000000000000; lia|].
  destruct (dec_digits_nonnil 19 n) as (c & ds & E). unfold parse_unsigned, from_chars_u64.
  rewrite span_digits_all by done. rewrite E in *. rewrite Hv.
  rewrite (proj2 (Z.leb_gt _ _)) by lia. by rewrite (proj2 (Z.ltb_ge _ _)) by lia.
Qed.

Lemma parse_show_signed n lo hi :
  lo <= n <= hi -> - 2 ^ 63 <= lo -> hi < 2 ^ 63 -> parse_signed (show_int n) lo hi = Some n.
Proof.
  intros Hn Hl Hh. unfold show_int, parse_signed, from_chars_i64.
  destruct (Z.ltb_spec n 0) as [Hneg|Hpos].
  - destruct (dec_digits_spec 20 (- n)) as [Hv Hf]; [change (10 ^ Z.of_nat 20) with 100000000000000000000; lia|].
    destruct (dec_digits_nonnil 19 (- n)) as (c & ds & E). rewrite Z.eqb_refl.
    rewrite span_digits_all by done. rewrite E in *. rewrite Hv, Z.opp_involutive.
    rewrite (proj2 (Z.ltb_ge n (- 2 ^ 63))), (proj2 (Z.leb_gt (2 ^ 63) n)) by lia. cbn [orb].
    by rewrite (proj2 (Z.ltb_ge n lo)), (proj2 (Z.ltb_ge hi n)) by lia.
  - destruct (dec_digits_spec 20 n) as [Hv Hf]; [change (10 ^ Z.of_nat 20) with 100000000000000000000; lia|].
    destruct (dec_digits_nonnil 19 n) as (c & ds & E). rewrite E in *.
    pose proof Hf as Hc. apply Forall_cons_iff in Hc as [Hc _].
    rewrite (proj2 (Z.eqb_neq c 45)) by (unfold is_digit in Hc; lia).
    rewrite span_digits_all by done. rewrite Hv.
    rewrite (proj2 (Z.ltb_ge n (- 2 ^ 63))), (proj2 (Z.leb_gt (2 ^ 63) n)) by lia. cbn [orb].
    by rewrite (proj2 (Z.ltb_ge n lo)), (proj2 (Z.ltb_ge hi n)) by lia.
Qed.

Lemma show_int_plain n : - 2 ^ 64 < n < 2 ^ 64 -> plain (show_int n).
Proof.
  intros Hn.
  assert (forall m, 0 <= m < 2 ^ 64 -> plain (dec_digits 20 m)) as Hp.
  { intros m Hm. destruct (dec_digits_spec 20 m) as [_ Hf]; [change (10 ^ Z.of_nat 20) with 100000000000000000000; lia|].
    eapply Forall_impl; [|exact Hf]. intros c. unfold is_digit, tab, newline. lia. }
  unfold show_int. destruct (Z.ltb_spec n 0).
  - constructor; [unfold tab, newline; lia|apply Hp; lia].
  - apply Hp. lia.
Qed.
