(* ===== verification/Persist.v ===== *)
(** * Durable replacement of state files ([src/src/util/persist.cpp], [persist.h])

    The save sequence every store shares: write a temporary, restrict it to its
    owner, sync it, keep the file being replaced as a backup, rename, sync the
    directory.  The file system is modelled by a directory (names to inodes) and
    the inodes (content, mode, and whether the content has reached the disk); any
    system call may fail, as told by a fault assignment.  A function returns, with
    its result, every state of the file system it passed through, so that a crash
    at any point is one of those states.  An [EINTR] retry loop is the outcome the
    call ends with; [Syscalls] has the loops and the descriptors.

    The theorems: at every point of a save the state file holds the previous
    content or the new one, completely; a save that reports success has installed
    the new content, synced and readable only by its owner. *)

From S2P Require Import Prelude ByteIO Record.

Record Inode := mkInode { i_content : Bytes; i_mode : Z; i_synced : bool }.

Record Fs := mkFs { names : gmap Str nat; inodes : gmap nat Inode }.

#[export] Instance eta_Inode : Eta Inode := fun i => mkInode (i_content i) (i_mode i) (i_synced i).
#[export] Instance eta_Fs : Eta Fs := fun f => mkFs (names f) (inodes f).

(** The file a path names. *)
Definition lookup_file (fs : Fs) (path : Str) : option Inode :=
  i ← names fs !! path; inodes fs !! i.

(** Permission bits. *)
Definition S_IRUSR : Z := 256.
Definition S_IWUSR : Z := 128.
Definition S_IRWXU : Z := 448.
Definition S_IRWXG : Z := 56.
Definition S_IRWXO : Z := 7.

(** Which system calls of a save fail. *)
Record Faults := mkFaults {
  f_create : bool;   (** the [ofstream] does not open *)
  f_write : bool;    (** writing, flushing or closing it fails *)
  f_open : bool;
  f_fchmod : bool;
  f_fsync : bool;
  f_close : bool;
  f_unlink : bool;
  f_link : bool;
  f_rename : bool;
  f_open_dir : bool;
  f_fsync_dir : bool;
  f_close_dir : bool;
}.

Definition no_faults : Faults :=
  mkFaults false false false false false false false false false false false false.

(** Any number not in use. *)
Definition fresh_inode (fs : Fs) : nat := fresh (dom (inodes fs)).

(** The system calls, on a path or an inode number. *)
Definition sys_fchmod (i : nat) (mode : Z) (fs : Fs) : Fs :=
  fs <| inodes ::= alter (fun x => x <| i_mode := mode |>) i |>.
Definition sys_fsync (i : nat) (fs : Fs) : Fs :=
  fs <| inodes ::= alter (fun x => x <| i_synced := true |>) i |>.
Definition sys_unlink (path : Str) (fs : Fs) : Fs := fs <| names ::= delete path |>.
(** [link(2)] fails when the old path is missing or the new one exists. *)
Definition sys_link (old new : Str) (fs : Fs) : option Fs :=
  match names fs !! old, names fs !! new with
  | Some i, None => Some (fs <| names ::= <[new := i]> |>)
  | _, _ => None
  end.
(** [rename(2)] replaces the destination. *)
Definition sys_rename (old new : Str) (fs : Fs) : option Fs :=
  match names fs !! old with
  | Some i => Some (fs <| names ::= fun m => <[new := i]> (delete old m) |>)
  | None => None
  end.
(** Opening for writing with truncation, then writing everything: an existing
    file keeps its inode and mode, a new one is created with [umask_mode]. *)
Definition create_trunc (path : Str) (umask_mode : Z) (fs : Fs) : nat * Fs :=
  match names fs !! path with
  | Some i => (i, fs <| inodes ::= alter (fun x => x <| i_content := [] |> <| i_synced := false |>) i |>)
  | None =>
      let i := fresh_inode fs in
      (i, fs <| names ::= <[path := i]> |> <| inodes ::= <[i := mkInode [] umask_mode false]> |>)
  end.
Definition write_all (i : nat) (text : Bytes) (fs : Fs) : Fs :=
  fs <| inodes ::= alter (fun x => x <| i_content := text |>) i |>.

(** The result, the final state, and every state passed through. *)
Definition Outcome : Type := bool * Fs * list Fs.

Definition durable_replace (faults : Faults) (tmp_path path : Str) (keep_backup : bool) (fs : Fs) : Outcome :=
  match names fs !! tmp_path, f_open faults with
  | None, _ | _, true => (false, fs, [])
  | Some tmp_fd, false =>
      if f_fchmod faults then (false, fs, []) else
      let fs1 := sys_fchmod tmp_fd (Z.lor S_IRUSR S_IWUSR) fs in
      if f_fsync faults then (false, fs1, [fs1]) else
      let fs2 := sys_fsync tmp_fd fs1 in
      if f_close faults then (false, fs2, [fs1; fs2]) else
      let '(fs4, passed) :=
        if keep_backup then
          let backup := path ++ lit ".bak" in
          let fs3 := if f_unlink faults then fs2 else sys_unlink backup fs2 in
          let fs4 := if f_link faults then fs3 else default fs3 (sys_link path backup fs3) in
          (fs4, [fs3; fs4])
        else (fs2, []) in
      let seen := [fs1; fs2] ++ passed in
      match (if f_rename faults then None else sys_rename tmp_path path fs4) with
      | None => (false, fs4, seen)
      | Some fs5 =>
          (negb (f_open_dir faults) && negb (f_fsync_dir faults) && negb (f_close_dir faults),
           fs5, seen ++ [fs5])
      end
  end.

(** The saving half every store shares, around its own [text]. *)
Definition save_file (faults : Faults) (umask_mode : Z) (path : Str) (text : Bytes) (keep_backup : bool)
    (fs : Fs) : Outcome :=
  let tmp := path ++ lit ".tmp" in
  if f_create faults then (false, fs, []) else
  let '(i, fs1) := create_trunc tmp umask_mode fs in
  if f_write faults then (false, fs1, [fs1]) else
  let fs2 := write_all i text fs1 in
  let '(ok, fs3, seen) := durable_replace faults tmp path keep_backup fs2 in
  (ok, fs3, [fs1; fs2] ++ seen).

(** [std::ifstream in(path)] and everything read from it. *)
Definition open_file (fs : Fs) (path : Str) : Input :=
  match lookup_file fs path with Some i => File (i_content i) false | None => NoFile end.

(** [suffix] is what [strftime] makes of the current second. *)
Definition quarantine (rename_fails : bool) (suffix : Str) (path : Str) (fs : Fs) : Str * Fs :=
  let dest := path ++ suffix in
  match (if rename_fails then None else sys_rename path dest fs) with
  | None => ([], fs)
  | Some fs => (dest, fs)
  end.

(** [S_ISREG] is a parameter of the file: the state files are regular files. *)
Definition restrict_to_owner (is_regular chmod_fails : bool) (path : Str) (fs : Fs) : Fs :=
  match names fs !! path with
  | None => fs
  | Some i =>
      match inodes fs !! i with
      | None => fs
      | Some st =>
          if negb is_regular || (Z.land (i_mode st) (Z.lor S_IRWXG S_IRWXO) =? 0) then fs
          else if chmod_fails then fs
          else sys_fchmod i (Z.land (i_mode st) S_IRWXU) fs
      end
  end.

(** ** Crash safety *)

(** The state file at [path] is complete: what it held before, or [text]. *)
Definition old_or_new (fs0 : Fs) (path : Str) (text : Bytes) (fs : Fs) : Prop :=
  i_content <$> lookup_file fs path = i_content <$> lookup_file fs0 path \/
  lookup_file fs path = Some (mkInode text (Z.lor S_IRUSR S_IWUSR) true).

(** No other name leads to the temporary: saves give it an inode of its own, and
    the rename takes the name away. *)
Definition tmp_private (fs : Fs) (path : Str) : Prop :=
  forall i p, names fs !! (path ++ lit ".tmp") = Some i -> names fs !! p = Some i -> p = path ++ lit ".tmp".

(** Names lead to inodes. *)
Definition fs_wf (fs : Fs) : Prop := forall p i, names fs !! p = Some i -> is_Some (inodes fs !! i).

Lemma suffix_ne (p s : Str) : s <> [] -> p ++ s <> p.
Proof. intros Hs E. apply (f_equal length) in E. rewrite length_app in E. destruct s; [done|]. simpl in E. lia. Qed.

Lemma tmp_ne_bak (p : Str) : p ++ lit ".tmp" <> p ++ lit ".bak".
Proof. intros E. by apply app_inv_head in E. Qed.

(** [fs'] differs from [fs] at most in inode [t] and in names other than [path]. *)
Definition framed (path : Str) (t : nat) (fs fs' : Fs) : Prop :=
  names fs' !! path = names fs !! path /\ forall i, i <> t -> inodes fs' !! i = inodes fs !! i.

Lemma framed_refl path t fs : framed path t fs fs.
Proof. by split. Qed.

Lemma framed_trans path t a b c : framed path t a b -> framed path t b c -> framed path t a c.
Proof. intros [E1 F1] [E2 F2]. split; [congruence|]. intros i Hi. rewrite F2, F1; done. Qed.

Lemma framed_alter path t f fs : framed path t fs (fs <| inodes ::= alter f t |>).
Proof. split; [done|]. intros i Hi. simpl. by rewrite lookup_alter_ne. Qed.

Lemma framed_unlink path t q fs : q <> path -> framed path t fs (sys_unlink q fs).
Proof. intros Hq. split; [|done]. simpl. by rewrite lookup_delete_ne. Qed.

Lemma framed_link path t q fs : q <> path -> framed path t fs (default fs (sys_link path q fs)).
Proof.
  intros Hq. unfold sys_link. destruct (names fs !! path) as [i|] eqn:E; [|apply framed_refl].
  destruct (names fs !! q); [apply framed_refl|]. split; [|done]. simpl. by rewrite lookup_insert_ne.
Qed.

Lemma framed_lookup path t fs fs' :
  names fs !! path <> Some t -> framed path t fs fs' -> lookup_file fs' path = lookup_file fs path.
Proof.
  intros Ht [En Ei]. unfold lookup_file. rewrite En. destruct (names fs !! path) as [i|] eqn:E; [|done].
  simpl. apply Ei. congruence.
Qed.

(** The new file, complete, synced and private. *)
Definition installed (path : Str) (text : Bytes) (fs : Fs) : Prop :=
  lookup_file fs path = Some (mkInode text (Z.lor S_IRUSR S_IWUSR) true).

Lemma rename_installs path text t fs fs' :
  names fs !! (path ++ lit ".tmp") = Some t ->
  inodes fs !! t = Some (mkInode text (Z.lor S_IRUSR S_IWUSR) true) ->
  sys_rename (path ++ lit ".tmp") path fs = Some fs' -> installed path text fs'.
Proof.
  intros Ht Hi. unfold sys_rename. rewrite Ht. intros [= <-]. unfold installed, lookup_file. simpl.
  rewrite lookup_insert_eq. done.
Qed.

(** The backup steps, together. *)
Definition backup_steps (faults : Faults) (path : Str) (keep_backup : bool) (fs2 : Fs) : Fs * list Fs :=
  if keep_backup then
    let backup := path ++ lit ".bak" in
    let fs3 := if f_unlink faults then fs2 else sys_unlink backup fs2 in
    let fs4 := if f_link faults then fs3 else default fs3 (sys_link path backup fs3) in
    (fs4, [fs3; fs4])
  else (fs2, []).

Lemma backup_steps_framed faults path kb t fs fs' seen :
  backup_steps faults path kb fs = (fs', seen) ->
  Forall (framed path t fs) (fs' :: seen) /\ inodes fs' = inodes fs /\
  names fs' !! (path ++ lit ".tmp") = names fs !! (path ++ lit ".tmp").
Proof.
  assert (path ++ lit ".bak" <> path) as Hb by by apply suffix_ne.
  pose proof (tmp_ne_bak path) as Htb.
  unfold backup_steps. destruct kb; [|intros [= <- <-]; split_and!; [each; apply framed_refl|..]; done].
  set (fs3 := if f_unlink faults then fs else _).
  set (fs4 := if f_link faults then fs3 else _). intros [= <- <-].
  assert (framed path t fs fs3) as H3
    by (unfold fs3; destruct (f_unlink faults); [apply framed_refl|by apply framed_unlink]).
  assert (framed path t fs fs4) as H4.
  { apply (framed_trans _ _ _ fs3); [done|]. unfold fs4.
    destruct (f_link faults); [apply framed_refl|by apply framed_link]. }
  split; [by each|]. subst fs4 fs3. unfold sys_link.
  destruct (f_unlink faults), (f_link faults); repeat case_match; simpl; split; try done;
    by rewrite ?lookup_insert_ne, ?lookup_delete_ne.
Qed.

Lemma durable_replace_spec faults path text kb fs ok fs' seen t m s :
  names fs !! (path ++ lit ".tmp") = Some t -> inodes fs !! t = Some (mkInode text m s) ->
  durable_replace faults (path ++ lit ".tmp") path kb fs = (ok, fs', seen) ->
  Forall (fun f => framed path t fs f \/ installed path text f) (fs' :: seen) /\
  (ok = true -> installed path text fs').
Proof.
  intros Ht Hi. unfold durable_replace. rewrite Ht.
  destruct (f_open faults); [intros [= <- <- <-]; split; [each; left; apply framed_refl|done]|].
  destruct (f_fchmod faults); [intros [= <- <- <-]; split; [each; left; apply framed_refl|done]|].
  set (fs1 := sys_fchmod t _ fs). assert (framed path t fs fs1) as H1 by apply framed_alter.
  destruct (f_fsync faults); [intros [= <- <- <-]; split; [each; by left|done]|].
  set (fs2 := sys_fsync t fs1).
  assert (framed path t fs fs2) as H2 by (eapply framed_trans; [exact H1|apply framed_alter]).
  destruct (f_close faults); [intros [= <- <- <-]; split; [each; by left|done]|].
  fold (backup_steps faults path kb fs2). destruct (backup_steps _ _ _ _) as [fs4 passed] eqn:Eb.
  destruct (backup_steps_framed _ _ _ t _ _ _ Eb) as (Hf & Hin & Hnm).
  assert (Forall (framed path t fs) (fs4 :: [fs1; fs2] ++ passed)) as Hall.
  { apply Forall_cons_iff in Hf as [Hf4 Hf]. simpl. apply List.Forall_cons; [|apply List.Forall_cons; [done|apply List.Forall_cons; [done|]]].
    - by apply (framed_trans _ _ _ fs2).
    - eapply Forall_impl; [|exact Hf]. intros f. by apply framed_trans. }
  assert (inodes fs4 !! t = Some (mkInode text (Z.lor S_IRUSR S_IWUSR) true)) as Hit.
  { rewrite Hin. unfold fs2, fs1, sys_fsync, sys_fchmod. simpl. by rewrite !lookup_alter_eq, Hi. }
  assert (forall l, Forall (framed path t fs) l -> Forall (fun f => framed path t fs f \/ installed path text f) l)
    as Hweak by (intros l Hl; eapply Forall_impl; [|exact Hl]; by left).
  destruct (if f_rename faults then _ else _) as [fs5|] eqn:Er.
  - destruct (f_rename faults); [done|].
    assert (installed path text fs5) as Hin5 by (eapply rename_installs; [|exact Hit|exact Er]; by rewrite Hnm).
    intros [= <- <- <-]. split; [|done]. apply List.Forall_cons; [by right|].
    apply (Forall_app _ ([fs1; fs2] ++ passed) [fs5]).
    split; [apply Hweak; by apply Forall_cons_iff in Hall as [_ ?]|].
    each. by right.
  - intros [= <- <- <-]. split; [by apply Hweak|done].
Qed.

Lemma create_trunc_spec tmp path mode fs t fs1 :
  tmp <> path -> fs_wf fs -> create_trunc tmp mode fs = (t, fs1) ->
  (forall i, names fs !! path = Some i -> names fs !! tmp <> Some i) ->
  names fs1 !! tmp = Some t /\ (exists x, inodes fs1 !! t = Some x) /\
  framed path t fs fs1 /\ names fs !! path <> Some t.
Proof.
  intros Hne Hwf. unfold create_trunc. destruct (names fs !! tmp) as [i|] eqn:E.
  - intros [= <- <-] Hp. destruct (Hwf _ _ E) as [x Hx]. split_and!; [done| |apply framed_alter|].
    + simpl. rewrite lookup_alter_eq, Hx. eauto.
    + intros E'. by apply (Hp i).
  - intros [= <- <-] _. assert (inodes fs !! fresh_inode fs = None) as Hf
      by (unfold fresh_inode; apply not_elem_of_dom; apply is_fresh).
    split_and!; simpl.
    + by rewrite lookup_insert_eq.
    + rewrite lookup_insert_eq. eauto.
    + split; simpl; [by rewrite lookup_insert_ne|]. intros i Hi. by rewrite lookup_insert_ne.
    + intros E'. destruct (Hwf _ _ E') as [x Hx]. congruence.
Qed.

Lemma save_file_spec faults mode path text kb fs ok fs' seen :
  fs_wf fs -> tmp_private fs path -> save_file faults mode path text kb fs = (ok, fs', seen) ->
  Forall (fun f => lookup_file f path = lookup_file fs path \/ installed path text f) (fs' :: seen) /\
  (ok = true -> installed path text fs').
Proof.
  intros Hwf Hpriv. unfold save_file. destruct (f_create faults).
  { intros [= <- <- <-]. split; [each; by left|done]. }
  destruct (create_trunc _ _ _) as [t fs1] eqn:Ec.
  assert (path ++ lit ".tmp" <> path) as Hne by by apply suffix_ne.
  destruct (create_trunc_spec _ path _ _ _ _ Hne Hwf Ec) as (Hn1 & [x Hx] & Hf1 & Hnt).
  { intros i Hi E. apply Hne. symmetry. by apply (Hpriv i). }
  destruct (f_write faults).
  { intros [= <- <- <-]. split; [each; left; by eapply framed_lookup|done]. }
  set (fs2 := write_all t text fs1).
  assert (framed path t fs fs2) as Hf2 by (eapply framed_trans; [exact Hf1|apply framed_alter]).
  destruct (durable_replace _ _ _ _ _) as [[ok3 fs3] seen3] eqn:Ed. intros [= <- <- <-].
  assert (inodes fs2 !! t = Some (mkInode text (i_mode x) (i_synced x))) as Hi2
    by (simpl; by rewrite lookup_alter_eq, Hx).
  destruct (durable_replace_spec faults path text kb fs2 ok3 fs3 seen3 t _ _ Hn1 Hi2 Ed) as [Hall Hok].
  split; [|done].
  assert (forall f, framed path t fs2 f \/ installed path text f ->
    lookup_file f path = lookup_file fs path \/ installed path text f) as Hlift.
  { intros f [Hf|Hf]; [left|by right]. eapply framed_lookup; [done|]. by eapply framed_trans. }
  apply Forall_cons_iff in Hall as [H3 Hall]. apply List.Forall_cons; [by apply Hlift|].
  simpl. apply List.Forall_cons; [left; by eapply framed_lookup|].
  apply List.Forall_cons; [left; by eapply framed_lookup|]. eapply Forall_impl; [exact Hlift|exact Hall].
Qed.

(** C31. A state file is never torn: whichever system calls fail and wherever the
    daemon or the machine stops during a save, the path holds the complete
    previous file or the complete new one, the latter only once it is synced and
    restricted to its owner; and a save that reports success has installed it. *)
Theorem save_never_tears faults mode path text kb fs ok fs' seen :
  fs_wf fs -> tmp_private fs path -> save_file faults mode path text kb fs = (ok, fs', seen) ->
  Forall (old_or_new fs path text) (fs' :: seen) /\
  (ok = true -> lookup_file fs' path = Some (mkInode text (Z.lor S_IRUSR S_IWUSR) true)).
Proof.
  intros Hwf Hp Hs. destruct (save_file_spec _ _ _ _ _ _ _ _ _ Hwf Hp Hs) as [Hall Hok].
  split; [|exact Hok]. eapply Forall_impl; [|exact Hall].
  intros f [E|E]; [left; by rewrite E|by right].
Qed.

Definition ex_fs : Fs :=
  mkFs (<[lit "contacts" := 0%nat]> ∅) (<[0%nat := mkInode [1; 2] 384 true]> ∅).

Lemma ex_fs_wf : fs_wf ex_fs.
Proof.
  intros p i. unfold ex_fs. simpl. intros [[_ <-]|[_ ?]]%lookup_insert_Some; [|done].
  rewrite lookup_insert_eq. eauto.
Qed.

Lemma ex_fs_private : tmp_private ex_fs (lit "contacts").
Proof. intros i p H. vm_compute in H. discriminate. Qed.

Lemma save_never_tears_witness :
  let '(ok, fs', seen) := save_file no_faults 420 (lit "contacts") [3] true ex_fs in
  Forall (old_or_new ex_fs (lit "contacts") [3]) (fs' :: seen) /\
  (ok = true -> lookup_file fs' (lit "contacts") = Some (mkInode [3] (Z.lor S_IRUSR S_IWUSR) true)).
Proof.
  destruct (save_file _ _ _ _ _ _) as [[ok fs'] seen] eqn:E.
  exact (save_never_tears _ _ _ _ _ _ _ _ _ ex_fs_wf ex_fs_private E).
Defined.

(** Two corrupt files in the same second: the comment in [quarantine] says that the
    first one is kept, but [rename] replaces it by the second. *)
Theorem quarantine_keeps_the_second :
  let fs := mkFs (<[lit "c" := 1%nat]> (<[lit "c.corrupt-1" := 0%nat]> ∅))
                 (<[0%nat := mkInode [1] 384 true]> (<[1%nat := mkInode [2] 384 true]> ∅)) in
  lookup_file (quarantine false (lit ".corrupt-1") (lit "c") fs).2 (lit "c.corrupt-1")
  = Some (mkInode [2] 384 true).
Proof. vm_compute. reflexivity. Qed.
