(* ===== verification/Syscalls.v ===== *)
(** * Durable replacement, call by call ([src/src/util/persist.cpp])

    [Persist] models a save by the system calls that fail in the end.  Here is the code one
    level below: every call is made on descriptors, ends with an [errno] or not, and some are
    made again while a signal interrupts them.  What the kernel answers is a script, one
    outcome per call; a script that has ended answers without fault.  The process holds the
    files, the open descriptors, the states the files went through and the warnings logged.

    A retry loop has as much fuel as the script has outcomes left, and one more: only an
    outcome of the script interrupts, so the loop ends before the fuel does ([retry_ends]).

    The theorem: this code implements [Persist.durable_replace] under some assignment of
    faults, passes through no other states, and closes every descriptor it opened. *)

From S2P Require Import Prelude ByteIO Record Persist.

Inductive Errno := EINTR | ENOENT | EOTHER.

#[export] Instance Errno_eq : EqDecision Errno.
Proof. solve_decision. Defined.

(** What a descriptor is open on. *)
Inductive Desc := OnFile (inode : nat) | OnDirectory (path : Str).

Record Proc := mkProc {
  pr_fs : Fs;
  pr_fds : gmap nat Desc;
  pr_script : list (option Errno);
  pr_passed : list Fs;
  pr_log : list Str;
}.

#[export] Instance eta_Proc : Eta Proc := fun p =>
  mkProc (pr_fs p) (pr_fds p) (pr_script p) (pr_passed p) (pr_log p).

(** ** System calls: a result or an [errno] *)

Definition Sys (A : Type) : Type := Proc -> A * Proc.

#[export] Instance Sys_ret : MRet Sys := fun A a p => (a, p).
#[export] Instance Sys_bind : MBind Sys := fun A B f m p => let '(a, p1) := m p in f a p1.

(** The next outcome of the script. *)
Definition outcome : Sys (option Errno) := fun p =>
  match pr_script p with
  | [] => (None, p)
  | o :: rest => (o, p <| pr_script := rest |>)
  end.

(** A call that changes the files when it succeeds, and fails with [refused] when it cannot. *)
Definition effect (f : Fs -> option Fs) (refused : Errno) : Sys (option Errno) := fun p =>
  match f (pr_fs p) with
  | None => (Some refused, p)
  | Some fs => (None, p <| pr_fs := fs |> <| pr_passed ::= fun l => l ++ [fs] |>)
  end.
Definition change (f : Fs -> option Fs) (refused : Errno) : Sys (option Errno) :=
  o ← outcome;
  match o with Some e => mret (Some e) | None => effect f refused end.

Definition new_fd (p : Proc) : nat := fresh (dom (pr_fds p)).

Definition open_on (d : Fs -> option Desc) : Sys (Errno + nat) := fun p =>
  match d (pr_fs p) with
  | None => (inl ENOENT, p)
  | Some d => (inr (new_fd p), p <| pr_fds ::= <[new_fd p := d]> |>)
  end.
Definition call_open (d : Fs -> option Desc) : Sys (Errno + nat) :=
  o ← outcome;
  match o with Some e => mret (inl e) | None => open_on d end.

(** The descriptor is gone whatever [close] answers. *)
Definition release (fd : nat) : Sys unit := fun p => (tt, p <| pr_fds ::= delete fd |>).
Definition call_close (fd : nat) : Sys (option Errno) := o ← outcome; _ ← release fd; mret o.

Definition on_inode (fd : nat) (f : nat -> Fs -> Fs) : Sys (option Errno) := fun p =>
  change (fun fs => match pr_fds p !! fd with Some (OnFile i) => Some (f i fs) | Some (OnDirectory _) => Some fs | None => None end)
    EOTHER p.

Definition call_fchmod (fd : nat) (mode : Z) : Sys (option Errno) := on_inode fd (fun i => sys_fchmod i mode).
Definition call_fsync (fd : nat) : Sys (option Errno) := on_inode fd sys_fsync.
Definition call_unlink (path : Str) : Sys (option Errno) := change (fun fs => Some (sys_unlink path fs)) EOTHER.
Definition call_link (old new : Str) : Sys (option Errno) := fun p =>
  change (sys_link old new) (match names (pr_fs p) !! old with None => ENOENT | Some _ => EOTHER end) p.
Definition call_rename (old new : Str) : Sys (option Errno) := change (sys_rename old new) ENOENT.

(** [do { ... } while (failed && errno == EINTR)] *)
Fixpoint retry_fuel {A} (fuel : nat) (interrupted : A -> bool) (call : Sys A) : Sys A := fun p =>
  let '(a, p) := call p in
  match fuel with
  | O => (a, p)
  | S fuel => if interrupted a then retry_fuel fuel interrupted call p else (a, p)
  end.
Definition retry {A} (interrupted : A -> bool) (call : Sys A) : Sys A := fun p =>
  retry_fuel (S (length (pr_script p))) interrupted call p.

Definition eintr (o : option Errno) : bool := bool_decide (o = Some EINTR).
Definition open_eintr (r : Errno + nat) : bool := match r with inl e => bool_decide (e = EINTR) | inr _ => false end.

(** ** The code *)

Section code.
Context (strerror : Errno -> Str).

Definition open_nointr (d : Fs -> option Desc) : Sys (Errno + nat) := retry open_eintr (call_open d).

(** Empty when it succeeded; the error otherwise. *)
Definition sync_and_close (fd : nat) (what : Str) : Sys (bool * Str) :=
  rc ← retry eintr (call_fsync fd);
  match rc with
  | Some e => _ ← call_close fd; mret (false, lit "cannot fsync " ++ what ++ lit ": " ++ strerror e)
  | None =>
      rc ← call_close fd;
      match rc with
      | Some e => mret (false, lit "cannot close " ++ what ++ lit ": " ++ strerror e)
      | None => mret (true, [])
      end
  end.

(** The text before the last slash, and whether there is one. *)
Fixpoint until_last_slash (s : Str) : option Str :=
  match s with
  | [] => None
  | c :: s =>
      match until_last_slash s with
      | Some dir => Some (c :: dir)
      | None => if c =? 47 then Some [] else None
      end
  end.

Definition parent_directory (path : Str) : Str :=
  match until_last_slash path with
  | None => lit "."
  | Some [] => lit "/"
  | Some dir => dir
  end.

Definition log_warn (text : Str) : Sys unit := fun p => (tt, p <| pr_log ::= fun l => l ++ [text] |>).

Definition keep_copy (path : Str) : Sys unit :=
  let backup := path ++ lit ".bak" in
  _ ← call_unlink backup;
  rc ← call_link path backup;
  match rc with
  | Some e => if bool_decide (e = ENOENT) then mret tt
              else log_warn (lit "cannot keep a backup of " ++ path ++ lit ": " ++ strerror e)
  | None => mret tt
  end.

Definition durable_replace_calls (tmp_path path : Str) (keep_backup : bool) : Sys (bool * Str) :=
  tmp_fd ← open_nointr (fun fs => OnFile <$> names fs !! tmp_path);
  match tmp_fd with
  | inl e => mret (false, lit "cannot open " ++ tmp_path ++ lit " for syncing: " ++ strerror e)
  | inr tmp_fd =>
      rc ← call_fchmod tmp_fd (Z.lor S_IRUSR S_IWUSR);
      match rc with
      | Some e =>
          _ ← call_close tmp_fd;
          mret (false, lit "cannot restrict " ++ tmp_path ++ lit " to its owner: " ++ strerror e)
      | None =>
          synced ← sync_and_close tmp_fd tmp_path;
          if negb synced.1 then mret (false, synced.2) else
          _ ← (if keep_backup then keep_copy path else mret tt);
          rc ← retry eintr (call_rename tmp_path path);
          match rc with
          | Some e => mret (false, lit "cannot rename " ++ tmp_path ++ lit " to " ++ path ++ lit ": " ++ strerror e)
          | None =>
              let parent := parent_directory path in
              parent_fd ← open_nointr (fun _ => Some (OnDirectory parent));
              match parent_fd with
              | inl e => mret (false, lit "cannot open directory " ++ parent ++ lit " for syncing: " ++ strerror e)
              | inr fd => sync_and_close fd (lit "directory " ++ parent)
              end
          end
      end
  end.

End code.

(** ** Interruptions *)

(** The script after the interruptions at its head. *)
Fixpoint past_eintr (l : list (option Errno)) : list (option Errno) :=
  match l with Some EINTR :: l => past_eintr l | _ => l end.

Lemma past_eintr_settled l : past_eintr (Some EINTR :: l) <> Some EINTR :: l.
Proof.
  assert (length (past_eintr l) <= length l)%nat as Hl.
  { induction l as [|[[]|] l IH]; simpl; lia. }
  cbn. intros E. rewrite E in Hl. simpl in Hl. lia.
Qed.

Definition settled (p : Proc) : Proc := p <| pr_script ::= past_eintr |>.

(** A call that an interruption leaves without effect, and that is interrupted only by the
    script. *)
Definition interruptible {A} (interrupted : A -> bool) (call : Sys A) : Prop :=
  (forall p l, pr_script p = Some EINTR :: l -> exists a, call p = (a, p <| pr_script := l |>) /\ interrupted a = true) /\
  (forall p, past_eintr (pr_script p) = pr_script p -> interrupted (call p).1 = false).

Lemma settled_id p : past_eintr (pr_script p) = pr_script p -> settled p = p.
Proof. destruct p as [fs fds s l g]. intros E. cbn in E. unfold settled, setf. cbn. by rewrite E. Qed.

(** A retry loop is the call made once the interruptions are over, and it ends. *)
Lemma retry_ends {A} interrupted (call : Sys A) p :
  interruptible interrupted call -> retry interrupted call p = call (settled p).
Proof.
  intros [Hi Ho]. unfold retry. generalize (le_n (S (length (pr_script p)))). generalize (S (length (pr_script p))) at 2 3.
  intros fuel. remember (pr_script p) as l eqn:El. revert fuel p El. induction l as [|o l IH]; intros fuel p El Hf.
  - rewrite settled_id by (by rewrite <- El).
    specialize (Ho p). rewrite <- El in Ho. specialize (Ho eq_refl).
    destruct fuel as [|fuel]; cbn; destruct (call p) as [a p1]; [done|]. cbn in Ho. by rewrite Ho.
  - destruct (decide (o = Some EINTR)) as [->|Hne].
    + destruct fuel as [|fuel]; [simpl in Hf; lia|]. cbn [retry_fuel].
      destruct (Hi p l (eq_sym El)) as (a & -> & ->). rewrite (IH fuel); [|done|simpl in Hf; lia].
      destruct p as [? ? s ? ?]. cbn in El. by subst s.
    + assert (past_eintr (o :: l) = o :: l) as Ep by (destruct o as [[]|]; done).
      rewrite settled_id by (by rewrite <- El). specialize (Ho p). rewrite <- El in Ho. specialize (Ho Ep).
      destruct fuel as [|fuel]; cbn; destruct (call p) as [a p1]; [done|]. cbn in Ho. by rewrite Ho.
Qed.

Lemma change_interruptible f e : e <> EINTR -> interruptible eintr (change f e).
Proof.
  intros He. split.
  - intros p l E. exists (Some EINTR). unfold change, mbind, Sys_bind, outcome. by rewrite E.
  - intros p E. unfold change, mbind, Sys_bind, outcome. destruct (pr_script p) as [|[err|] l].
    + unfold effect. destruct (f (pr_fs p)); cbn; [done|]. by destruct e.
    + destruct err; try done. by apply past_eintr_settled in E.
    + unfold effect. destruct (f _); cbn; [done|]. by destruct e.
Qed.

Lemma call_open_interruptible d : interruptible open_eintr (call_open d).
Proof.
  split.
  - intros p l E. exists (inl EINTR). unfold call_open, mbind, Sys_bind, outcome. by rewrite E.
  - intros p E. unfold call_open, mbind, Sys_bind, outcome. destruct (pr_script p) as [|[err|] l].
    + unfold open_on. by destruct (d (pr_fs p)).
    + destruct err; try done. by apply past_eintr_settled in E.
    + unfold open_on. by destruct (d _).
Qed.

Lemma fsync_interruptible fd : interruptible eintr (call_fsync fd).
Proof.
  split.
  - intros p l E. unfold call_fsync, on_inode. by apply change_interruptible.
  - intros p E. unfold call_fsync, on_inode. by apply change_interruptible.
Qed.

(** ** What each call leaves *)

(** As [p] but for the script. *)
Definition same_but_script (p p' : Proc) : Prop :=
  pr_fs p' = pr_fs p /\ pr_fds p' = pr_fds p /\ pr_passed p' = pr_passed p.

(** A changing call fails without effect, or its change is made. *)
Lemma change_spec f e p :
  exists r p', change f e p = (r, p') /\
  match r with
  | Some _ => same_but_script p p'
  | None => exists fs, f (pr_fs p) = Some fs /\ pr_fs p' = fs /\ pr_fds p' = pr_fds p /\ pr_passed p' = pr_passed p ++ [fs]
  end.
Proof.
  unfold change, mbind, Sys_bind, outcome, effect. destruct (pr_script p) as [|[err|] l]; cbn.
  - destruct (f (pr_fs p)) eqn:E; eexists _, _; (split; [done|]); [by eexists|done].
  - by eexists _, _.
  - destruct (f (pr_fs p)) eqn:E; eexists _, _; (split; [done|]); [by eexists|done].
Qed.

Lemma open_spec d p :
  exists r p', call_open d p = (r, p') /\
  match r with
  | inl _ => same_but_script p p'
  | inr fd => exists x, d (pr_fs p) = Some x /\ pr_fs p' = pr_fs p /\ pr_fds p' = <[fd := x]> (pr_fds p) /\
      pr_fds p !! fd = None /\ pr_passed p' = pr_passed p
  end.
Proof.
  assert (pr_fds p !! new_fd p = None) as Hf.
  { apply not_elem_of_dom. exact (is_fresh (dom (pr_fds p))). }
  unfold call_open, mbind, Sys_bind, outcome, open_on. destruct (pr_script p) as [|[err|] l]; cbn.
  - destruct (d (pr_fs p)) eqn:E; eexists _, _; (split; [done|]); [by eexists|done].
  - by eexists _, _.
  - destruct (d (pr_fs p)) eqn:E; eexists _, _; (split; [done|]); [by eexists|done].
Qed.

Lemma close_spec fd p :
  exists r p', call_close fd p = (r, p') /\ pr_fs p' = pr_fs p /\ pr_fds p' = delete fd (pr_fds p) /\ pr_passed p' = pr_passed p.
Proof. unfold call_close, mbind, Sys_bind, outcome, release. destruct (pr_script p); by eexists _, _. Qed.

(** What a call on a descriptor does to the files. *)
Definition through (x : Desc) (f : nat -> Fs -> Fs) : Fs -> Fs := match x with OnFile i => f i | OnDirectory _ => id end.

Lemma on_inode_spec fd f x p :
  pr_fds p !! fd = Some x ->
  exists r p', on_inode fd f p = (r, p') /\
  match r with
  | Some _ => same_but_script p p'
  | None => let fs := through x f (pr_fs p) in pr_fs p' = fs /\ pr_fds p' = pr_fds p /\ pr_passed p' = pr_passed p ++ [fs]
  end.
Proof.
  intros Hx. unfold on_inode. rewrite Hx.
  match goal with |- context [change ?f ?e p] => destruct (change_spec f e p) as (r & p' & E & H) end.
  exists r, p'. split; [exact E|]. destruct r; [done|]. destruct H as (fs & H & F1 & F2 & F3).
  assert (fs = through x f (pr_fs p)) as -> by (destruct x; by injection H as <-). done.
Qed.

Lemma sys_step {A B} (m : Sys A) (f : A -> Sys B) p a p1 : m p = (a, p1) -> (m ≫= f) p = f a p1.
Proof. unfold mbind, Sys_bind. by intros ->. Qed.

Section spec.
Context (strerror : Errno -> Str).

Lemma sync_and_close_spec fd x what p :
  pr_fds p !! fd = Some x ->
  exists ok err p', sync_and_close strerror fd what p = ((ok, err), p') /\
    pr_fds p' = delete fd (pr_fds p) /\ (ok = true <-> err = []) /\
    (ok = false /\ pr_fs p' = pr_fs p /\ pr_passed p' = pr_passed p \/
     pr_fs p' = through x sys_fsync (pr_fs p) /\ pr_passed p' = pr_passed p ++ [through x sys_fsync (pr_fs p)]).
Proof.
  intros Hx. unfold sync_and_close.
  pose proof (retry_ends eintr (call_fsync fd) p (fsync_interruptible fd)) as Hr.
  destruct (on_inode_spec fd sys_fsync x (settled p) Hx) as (r & p1 & E1 & H1).
  change (call_fsync fd (settled p)) with (on_inode fd sys_fsync (settled p)) in Hr.
  rewrite E1 in Hr. rewrite (sys_step _ _ _ _ _ Hr). clear Hr E1.
  destruct (close_spec fd p1) as (r2 & p2 & E2 & Efs & Efd & Eps). destruct r as [e|].
  - rewrite (sys_step _ _ _ _ _ E2). destruct H1 as (F1 & F2 & F3). eexists _, _, _. split; [done|].
    split_and!; [by rewrite Efd, F2|by split|]. left. split_and!; [done|by rewrite Efs, F1|by rewrite Eps, F3].
  - rewrite (sys_step _ _ _ _ _ E2). destruct H1 as (F1 & F2 & F3).
    destruct r2; eexists _, _, _; (split; [done|]); (split_and!; [by rewrite Efd, F2|by split|]); right;
      by rewrite Efs, F1, Eps, F3.
Qed.

(** What the process has done since [p], leaving the descriptors as they were: it went through
    states of [seen] only. *)
Definition passes (p : Proc) (seen : list Fs) (p' : Proc) : Prop :=
  pr_fds p' = pr_fds p /\ exists l, pr_passed p' = pr_passed p ++ l /\ Forall (fun fs => fs ∈ seen) l.

Lemma passes_trans p p1 p2 seen : passes p seen p1 -> passes p1 seen p2 -> passes p seen p2.
Proof.
  intros [E1 (l1 & Ep1 & F1)] [E2 (l2 & Ep2 & F2)]. split; [congruence|]. exists (l1 ++ l2).
  rewrite Ep2, Ep1, app_assoc. split; [done|by apply Forall_app].
Qed.

Lemma passes_more p p' seen seen' : seen ⊆ seen' -> passes p seen p' -> passes p seen' p'.
Proof. intros Hs [E (l & Ep & F)]. split; [done|]. exists l. split; [done|].
  eapply Forall_impl; [|exact F]. intros x Hx. by apply Hs. Qed.

Lemma keep_copy_spec path p :
  exists unlink link p', keep_copy strerror path p = (tt, p') /\
    let fs3 := if unlink : bool then pr_fs p else sys_unlink (path ++ lit ".bak") (pr_fs p) in
    let fs4 := if link : bool then fs3 else default fs3 (sys_link path (path ++ lit ".bak") fs3) in
    pr_fs p' = fs4 /\ passes p [pr_fs p; fs3; fs4] p'.
Proof.
  unfold keep_copy. destruct (change_spec (fun fs => Some (sys_unlink (path ++ lit ".bak") fs)) EOTHER p) as (r & p1 & E1 & H1).
  rewrite (sys_step _ _ _ _ _ E1).
  destruct (change_spec (sys_link path (path ++ lit ".bak"))
    (match names (pr_fs p1) !! path with None => ENOENT | Some _ => EOTHER end) p1) as (r2 & p2 & E2 & H2).
  rewrite (sys_step (call_link path (path ++ lit ".bak")) _ p1 r2 p2 E2).
  exists (match r with Some _ => true | None => false end), (match r2 with Some _ => true | None => false end).
  set (fs3 := if match r with Some _ => true | None => false end then _ else _).
  assert (pr_fs p1 = fs3 /\ passes p [pr_fs p; fs3] p1) as [Ef3 Hp1].
  { destruct r as [e|]; subst fs3; cbn.
    - destruct H1 as (F1 & F2 & F3). split; [done|]. split; [done|]. exists []. by rewrite F3, app_nil_r.
    - destruct H1 as (fs & [= <-] & F1 & F2 & F3). split; [done|]. split; [done|]. eexists. split; [exact F3|].
      apply Forall_singleton. set_solver. }
  assert (exists p', (match r2 with Some e => if bool_decide (e = ENOENT) then mret tt
      else log_warn (lit "cannot keep a backup of " ++ path ++ lit ": " ++ strerror e) | None => mret tt end : Sys unit) p2
      = (tt, p') /\ pr_fs p' = pr_fs p2 /\ pr_fds p' = pr_fds p2 /\ pr_passed p' = pr_passed p2) as (p' & E3 & G1 & G2 & G3).
  { destruct r2 as [e|]; [destruct (bool_decide (e = ENOENT))|]; by eexists. }
  exists p'. split; [exact E3|]. cbv zeta.
  set (fs4 := if match r2 with Some _ => true | None => false end then _ else _). rewrite Ef3 in H2.
  destruct r2 as [e|]; subst fs4; cbv beta iota.
  - destruct H2 as (F1 & F2 & F3). split; [by rewrite G1, F1|]. destruct Hp1 as [D1 (l & P1 & P2)]. split; [congruence|].
    exists l. split; [congruence|]. eapply Forall_impl; [|exact P2]. intros x Hx. set_solver.
  - destruct H2 as (fs & F0 & F1 & F2 & F3). rewrite F0. cbv beta iota delta [default from_option id]. split; [congruence|].
    destruct Hp1 as [D1 (l & P1 & P2)]. split; [congruence|]. exists (l ++ [fs]). split; [by rewrite G3, F3, P1, app_assoc|].
    apply Forall_app. split; [eapply Forall_impl; [|exact P2]; intros x Hx; set_solver|]. apply Forall_singleton. set_solver.
Qed.

(** The second half: rename, then sync the directory. *)
Definition install (tmp_path path : Str) : Sys (bool * Str) :=
  rc ← retry eintr (call_rename tmp_path path);
  match rc with
  | Some e => mret (false, lit "cannot rename " ++ tmp_path ++ lit " to " ++ path ++ lit ": " ++ strerror e)
  | None =>
      let parent := parent_directory path in
      parent_fd ← open_nointr (fun _ => Some (OnDirectory parent));
      match parent_fd with
      | inl e => mret (false, lit "cannot open directory " ++ parent ++ lit " for syncing: " ++ strerror e)
      | inr fd => sync_and_close strerror fd (lit "directory " ++ parent)
      end
  end.

Lemma install_spec tmp_path path p :
  exists ok err p', install tmp_path path p = ((ok, err), p') /\ (ok = true <-> err = []) /\
    (ok = false /\ pr_fs p' = pr_fs p /\ passes p [] p' \/
     exists fs, sys_rename tmp_path path (pr_fs p) = Some fs /\ pr_fs p' = fs /\ passes p [fs] p').
Proof.
  unfold install.
  pose proof (retry_ends eintr (call_rename tmp_path path) p (change_interruptible _ ENOENT ltac:(done))) as Hr.
  destruct (change_spec (sys_rename tmp_path path) ENOENT (settled p)) as (r & p1 & E1 & H1).
  unfold call_rename in Hr. rewrite E1 in Hr. rewrite (sys_step (retry eintr (call_rename tmp_path path)) _ p r p1 Hr). destruct r as [e|].
  { destruct H1 as (F1 & F2 & F3). eexists _, _, _. split; [done|]. split; [by split|]. left. split_and!; [done..|].
    split; [done|]. exists []. by rewrite F3, app_nil_r. }
  destruct H1 as (fs & F0 & F1 & F2 & F3). change (pr_fs (settled p)) with (pr_fs p) in F0.
  set (dir := OnDirectory (parent_directory path)).
  pose proof (retry_ends open_eintr (call_open (fun _ => Some dir)) p1 (call_open_interruptible _)) as Ho.
  destruct (open_spec (fun _ => Some dir) (settled p1)) as (r & p2 & E2 & H2). rewrite E2 in Ho.
  rewrite (sys_step (open_nointr (fun _ => Some dir)) _ p1 r p2 Ho). destruct r as [e|fd].
  { destruct H2 as (G1 & G2 & G3). eexists _, _, _. split; [done|]. split; [by split|]. right. exists fs.
    split_and!; [done|by rewrite G1|]. split; [by rewrite G2|]. exists [fs].
    split; [by rewrite G3|apply Forall_singleton; set_solver]. }
  destruct H2 as (x & [= <-] & G1 & G2 & G3 & G4).
  destruct (sync_and_close_spec fd dir (lit "directory " ++ parent_directory path) p2) as (ok & err & p3 & E3 & D3 & Hok & Hst).
  { rewrite G2. apply lookup_insert_eq. }
  exists ok, err, p3. split; [exact E3|]. split; [done|]. right. exists fs. split; [done|].
  change (pr_fs (settled p1)) with (pr_fs p1) in *. change (pr_fds (settled p1)) with (pr_fds p1) in *.
  change (pr_passed (settled p1)) with (pr_passed p1) in *.
  assert (pr_fds p3 = pr_fds p) as D by (by rewrite D3, G2, delete_insert_id, F2).
  destruct Hst as [(_ & S1 & S2)|(S1 & S2)].
  - split; [by rewrite S1, G1|]. split; [done|]. exists [fs]. split; [by rewrite S2, G4, F3|]. apply Forall_singleton. set_solver.
  - split; [by rewrite S1, G1|]. split; [done|]. exists [fs; fs]. cbn in S2.
    split; [by rewrite S2, G4, F3, G1, F1, <- app_assoc|]. repeat constructor; set_solver.
Qed.

(** The first half: restrict and sync the temporary. *)
Lemma prepare_spec tmp_path p :
  exists r p1, open_nointr (fun fs => OnFile <$> names fs !! tmp_path) p = (r, p1) /\
  match r with
  | inl _ => pr_fs p1 = pr_fs p /\ passes p [] p1
  | inr fd => exists i, names (pr_fs p) !! tmp_path = Some i /\ pr_fs p1 = pr_fs p /\ pr_passed p1 = pr_passed p /\
      pr_fds p1 = <[fd := OnFile i]> (pr_fds p) /\ pr_fds p !! fd = None
  end.
Proof.
  pose proof (retry_ends open_eintr (call_open (fun fs => OnFile <$> names fs !! tmp_path)) p (call_open_interruptible _)) as Ho.
  destruct (open_spec (fun fs => OnFile <$> names fs !! tmp_path) (settled p)) as (r & p1 & E1 & H1). rewrite E1 in Ho.
  exists r, p1. split; [exact Ho|]. change (pr_fs (settled p)) with (pr_fs p) in *. destruct r as [e|fd].
  - destruct H1 as (F1 & F2 & F3). split; [done|]. split; [done|]. exists []. by rewrite F3, app_nil_r.
  - destruct H1 as (x & F0 & F1 & F2 & F3 & F4). destruct (names (pr_fs p) !! tmp_path) as [i|] eqn:Ei; [|done].
    injection F0 as <-. by exists i.
Qed.

Lemma passes_closed p p1 p2 fd x fs l :
  pr_fds p1 = <[fd := x]> (pr_fds p) -> pr_fds p !! fd = None -> pr_passed p1 = pr_passed p ++ l ->
  pr_fds p2 = delete fd (pr_fds p1) -> pr_passed p2 = pr_passed p1 ++ fs -> passes p (l ++ fs) p2.
Proof.
  intros E1 E2 E3 E4 E5. split; [by rewrite E4, E1, delete_insert_id|]. exists (l ++ fs).
  split; [by rewrite E5, E3, app_assoc|]. apply Forall_forall. intros y Hy. by apply list_elem_of_In.
Qed.

(** What [durable_replace_calls] and [Persist.durable_replace] agree on. *)
Definition agrees (faults : Faults) (tmp_path path : Str) (keep_backup : bool) (p : Proc) (ok : bool) (p' : Proc) : Prop :=
  exists seen, durable_replace faults tmp_path path keep_backup (pr_fs p) = (ok, pr_fs p', seen) /\
    passes p (pr_fs p :: seen) p'.

Lemma finish_spec tmp_path path kb p fs1 i p2 (u l : bool) p3 :
  let fs2 := sys_fsync i fs1 in
  names (pr_fs p) !! tmp_path = Some i -> fs1 = sys_fchmod i (Z.lor S_IRUSR S_IWUSR) (pr_fs p) ->
  pr_fs p2 = fs2 -> passes p [fs1; fs2] p2 ->
  let fs3 := if u then fs2 else sys_unlink (path ++ lit ".bak") fs2 in
  let fs4 := if l then fs3 else default fs3 (sys_link path (path ++ lit ".bak") fs3) in
  (if kb : bool then pr_fs p3 = fs4 /\ passes p2 [fs2; fs3; fs4] p3 else p3 = p2) ->
  exists ok err p', install tmp_path path p3 = ((ok, err), p') /\ (ok = true <-> err = []) /\
    exists faults, agrees faults tmp_path path kb p ok p'.
Proof.
  intros fs2 Hi -> Hp2 Hpass fs3 fs4 Hkb.
  destruct (install_spec tmp_path path p3) as (ok & err & p' & E & Hok & Hst).
  exists ok, err, p'. split; [done|]. split; [done|].
  set (passed := if kb then [fs3; fs4] else []).
  assert (pr_fs p3 = (if kb then fs4 else fs2) /\ passes p (pr_fs p :: [sys_fchmod i (Z.lor S_IRUSR S_IWUSR) (pr_fs p); fs2] ++ passed) p3) as [Hp3 Hpass3].
  { subst passed. destruct kb.
    - destruct Hkb as [E4 H4]. split; [done|]. eapply passes_trans; (eapply passes_more; [|eassumption]); set_solver.
    - subst p3. split; [done|]. eapply passes_more; [|exact Hpass]. set_solver. }
  destruct Hst as [(-> & S1 & S2)|(fs & S0 & S1 & S2)].
  - exists (mkFaults false false false false false false u l true false false false),
      ([sys_fchmod i (Z.lor S_IRUSR S_IWUSR) (pr_fs p); fs2] ++ passed). split.
    + rewrite S1, Hp3. unfold durable_replace. rewrite Hi. by destruct kb.
    + eapply passes_trans; [exact Hpass3|]. eapply passes_more; [|exact S2]. apply list_subseteq_nil.
  - rewrite Hp3 in S0.
    exists (mkFaults false false false false false false u l false (negb ok) false false),
      ([sys_fchmod i (Z.lor S_IRUSR S_IWUSR) (pr_fs p); fs2] ++ passed ++ [fs]). split.
    + rewrite S1. unfold durable_replace. rewrite Hi. subst passed.
      destruct kb; cbn [f_open f_fchmod f_fsync f_close f_unlink f_link f_rename f_open_dir f_fsync_dir f_close_dir];
        fold fs2; fold fs3; fold fs4; rewrite S0; by destruct ok.
    + eapply passes_trans; [eapply passes_more; [|exact Hpass3]; set_solver|]. eapply passes_more; [|exact S2]. set_solver.
Qed.

(** C32. The save of a state file, at the level of system calls, implements the one every other
    theorem about saves is stated for: whatever the kernel answers to each call and however
    often signals interrupt it, it ends, its result and the files are those of
    [Persist.durable_replace] under some assignment of faults, the files pass through no state
    that one does not, every descriptor it opened is closed, none other is, and it reports an
    error exactly when it fails. *)
Theorem replace_implemented tmp_path path keep_backup p :
  let '((ok, err), p') := durable_replace_calls strerror tmp_path path keep_backup p in
  (exists faults seen,
     durable_replace faults tmp_path path keep_backup (pr_fs p) = (ok, pr_fs p', seen) /\
     exists l, pr_passed p' = pr_passed p ++ l /\ Forall (fun fs => fs ∈ pr_fs p :: seen) l) /\
  pr_fds p' = pr_fds p /\ (ok = true <-> err = []).
Proof.
  enough (exists ok err p', durable_replace_calls strerror tmp_path path keep_backup p = ((ok, err), p') /\
    (ok = true <-> err = []) /\ exists faults, agrees faults tmp_path path keep_backup p ok p') as
    (ok & err & p' & -> & Hok & faults & seen & Hd & Hfd & Hl) by (split_and!; eauto).
  unfold durable_replace_calls. destruct (prepare_spec tmp_path p) as (r & p1 & E1 & H1).
  rewrite (sys_step _ _ _ _ _ E1). destruct r as [e|fd].
  { destruct H1 as [F1 F2]. eexists _, _, _. split; [done|]. split; [by split|].
    exists (mkFaults false false true false false false false false false false false false), []. split; [|by eapply passes_more; [|exact F2]; apply list_subseteq_nil].
    unfold durable_replace. rewrite F1. by destruct (names (pr_fs p) !! tmp_path). }
  destruct H1 as (i & Hi & F1 & F2 & F3 & F4).
  assert (pr_fds p1 !! fd = Some (OnFile i)) as Hfd by (rewrite F3; apply lookup_insert_eq).
  destruct (on_inode_spec fd (fun i => sys_fchmod i (Z.lor S_IRUSR S_IWUSR)) (OnFile i) p1 Hfd) as (r & p2 & E2 & H2).
  rewrite (sys_step (call_fchmod fd (Z.lor S_IRUSR S_IWUSR)) _ p1 r p2 E2). destruct r as [e|].
  { destruct H2 as (G1 & G2 & G3). destruct (close_spec fd p2) as (r2 & p3 & E3 & K1 & K2 & K3).
    rewrite (sys_step _ _ _ _ _ E3). eexists _, _, _. split; [done|]. split; [by split|].
    exists (mkFaults false false false true false false false false false false false false), []. split.
    - unfold durable_replace. rewrite Hi. cbn. by rewrite K1, G1, F1.
    - eapply passes_more; [apply list_subseteq_nil|].
      apply (passes_closed p p2 p3 fd (OnFile i) [] []); rewrite ?app_nil_r; congruence. }
  destruct H2 as (G1 & G2 & G3). cbn [through] in G1, G3. rewrite F1 in G1, G3. set (fs1 := sys_fchmod i _ (pr_fs p)) in *.
  destruct (sync_and_close_spec fd (OnFile i) tmp_path p2) as (ok & err & p3 & E3 & K1 & Hok & K2); [by rewrite G2|].
  rewrite (sys_step _ _ _ _ _ E3). cbn [fst snd]. destruct ok; cbn [negb].
  2:{ eexists _, _, _. split; [done|]. split; [done|]. destruct K2 as [(_ & K2 & K3)|(K2 & K3)].
    - exists (mkFaults false false false false true false false false false false false false), [fs1]. split.
      + unfold durable_replace. rewrite Hi. cbn [f_open f_fchmod f_fsync]. by rewrite K2, G1.
      + eapply passes_more; [|apply (passes_closed p p2 p3 fd (OnFile i) [] [fs1])]; rewrite ?app_nil_r; try congruence. set_solver.
    - exists (mkFaults false false false false false true false false false false false false), [fs1; sys_fsync i fs1]. split.
      + unfold durable_replace. rewrite Hi. cbn [f_open f_fchmod f_fsync f_close]. cbn [through] in K2. by rewrite K2, G1.
      + cbn [through] in K3. rewrite G1 in K3.
        eapply passes_more; [|apply (passes_closed p p2 p3 fd (OnFile i) [sys_fsync i fs1] [fs1])]; try congruence. set_solver. }
  destruct K2 as [[? _]|(K2 & K3)]; [done|]. cbn [through] in K2, K3. rewrite G1 in K2, K3.
  assert (passes p [fs1; sys_fsync i fs1] p3) as Hpass
    by (apply (passes_closed p p2 p3 fd (OnFile i) [sys_fsync i fs1] [fs1]); congruence).
  destruct keep_backup.
  - destruct (keep_copy_spec path p3) as (u & l & p4 & E4 & Hfs4 & Hpass4). rewrite K2 in Hfs4, Hpass4.
    rewrite (sys_step _ _ _ _ _ E4). by apply (finish_spec tmp_path path true p fs1 i p3 u l p4).
  - rewrite (sys_step (mret tt) _ p3 tt p3 eq_refl). by apply (finish_spec tmp_path path false p fs1 i p3 false false p3).
Qed.

End spec.

(** A save whose first [fsync] is interrupted twice and whose last [close] fails: the new file
    is installed, the failure is reported, and nothing stays open. *)
Example replace_interrupted :
  let tmp := lit "/s/c.tmp" in let path := lit "/s/c" in
  let fs := mkFs {[tmp := 1%nat; path := 2%nat]} {[1%nat := mkInode [7] 420 false; 2%nat := mkInode [5] 384 true]} in
  let p := mkProc fs ∅ [None; None; Some EINTR; Some EINTR; None; None; None; None; None; None; None; Some EOTHER] [] [] in
  let '(r, p') := durable_replace_calls (fun _ => lit "E") tmp path true p in
  r = (false, lit "cannot close directory /s: E") /\ pr_fds p' = ∅ /\ pr_script p' = [] /\
  lookup_file (pr_fs p') path = Some (mkInode [7] 384 true) /\
  lookup_file (pr_fs p') (path ++ lit ".bak") = Some (mkInode [5] 384 true) /\ length (pr_passed p') = 6%nat.
Proof. vm_compute. done. Qed.

Example parent_directories :
  map parent_directory [lit "contacts"; lit "/contacts"; lit "/var/lib/x/contacts"; lit "a/"] =
  [lit "."; lit "/"; lit "/var/lib/x"; lit "a"].
Proof. done. Qed.
