(* ===== verification/Contacts.v ===== *)
(** * The contact store ([src/src/mesh/contacts.h], [contacts.cpp])

    Contacts keyed by public key, updated by adverts and by the receive path,
    persisted one per line.  A [Contact*] of the source is the index of the entry;
    the store only hands out indices it holds.  The theorems: the store's invariant
    (unique 32-byte keys, within the limit, a coherent shared-secret cache) is kept
    by every operation; an advert not newer than the one held changes nothing; and
    a saved store reads back as the same contacts, up to the members that are not
    persisted. *)

From S2P Require Import Prelude ByteIO Floats Crypto Identity Packet Payloads Record Persist.

Record Contact := mkContact {
  c_pubkey : Bytes;
  c_name : Str;
  c_type : Z;
  c_flags : Z;
  c_lat_e6 : Z;
  c_lon_e6 : Z;
  c_adv_timestamp : Z;
  c_last_seen : Z;
  c_out_path : Bytes;
  c_path_known : bool;
  c_last_rssi : Z;
  c_last_snr : float;
  c_sync_since : Z;
  c_shared : Bytes;
}.

#[export] Instance eta_Contact : Eta Contact := fun c =>
  mkContact (c_pubkey c) (c_name c) (c_type c) (c_flags c) (c_lat_e6 c) (c_lon_e6 c)
    (c_adv_timestamp c) (c_last_seen c) (c_out_path c) (c_path_known c) (c_last_rssi c)
    (c_last_snr c) (c_sync_since c) (c_shared c).

(** The member initialisers. *)
Definition Contact_default : Contact :=
  mkContact [] [] kAdvTypeChat 0 0 0 0 0 [] false 0 (S754_zero false) 0 [].

Definition contact_id (c : Contact) : Z :=
  match c_pubkey c with [] => 0 | b :: _ => b end.

Record ContactStore := mkContactStore {
  cs_self : LocalIdentity;
  cs_path : Str;
  cs_max_contacts : nat;
  cs_contacts : list Contact;
  cs_dirty : bool;
}.

#[export] Instance eta_ContactStore : Eta ContactStore := fun s =>
  mkContactStore (cs_self s) (cs_path s) (cs_max_contacts s) (cs_contacts s) (cs_dirty s).

Definition kMaxContacts : nat := 100.

(** [c.pubkey.size() == pubkey.size() && std::equal(...)] *)
Definition same_key (pubkey : Bytes) (c : Contact) : bool := beq (c_pubkey c) pubkey.

(** The index of the first contact with a key. *)
Definition find_contact (pubkey : Bytes) (s : ContactStore) : option nat :=
  fst <$> list_find (fun c => same_key pubkey c = true) (cs_contacts s).

Definition contact_at (i : nat) (s : ContactStore) : option Contact := cs_contacts s !! i.

(** Writing through a [Contact&]. *)
Definition update_contact (i : nat) (f : Contact -> Contact) (s : ContactStore) : ContactStore :=
  s <| cs_contacts ::= alter f i |>.

Definition by_id (id : Z) (s : ContactStore) : list nat :=
  omap (fun ic => if contact_id ic.2 =? id then Some ic.1 else None) (imap pair (cs_contacts s)).

Definition upsert (pubkey : Bytes) (s : ContactStore) : option nat * ContactStore :=
  match find_contact pubkey s with
  | Some i => (Some i, s)
  | None =>
      if (cs_max_contacts s <=? length (cs_contacts s))%nat then (None, s)
      else (Some (length (cs_contacts s)),
            s <| cs_contacts ::= fun l => l ++ [Contact_default <| c_pubkey := pubkey |>] |>
              <| cs_dirty := true |>)
  end.

(** [unix] is what [unix_now()] returns. *)
Definition touch (unix : Z) (i : nat) (s : ContactStore) : ContactStore :=
  (update_contact i (fun c => c <| c_last_seen := unix |>) s) <| cs_dirty := true |>.

Definition touch_signal (unix : Z) (i : nat) (rssi : Z) (snr : float) (s : ContactStore) : ContactStore :=
  touch unix i (update_contact i (fun c => c <| c_last_rssi := rssi |> <| c_last_snr := snr |>) s).

Definition cs_set_path (i : nat) (path : Bytes) (s : ContactStore) : bool * ContactStore :=
  match contact_at i s with
  | None => (false, s)
  | Some c =>
      if c_path_known c && beq (c_out_path c) path then (false, s)
      else (true, (update_contact i (fun c => c <| c_out_path := path |> <| c_path_known := true |>) s)
                    <| cs_dirty := true |>)
  end.

Definition clear_path (i : nat) (s : ContactStore) : bool * ContactStore :=
  match contact_at i s with
  | None => (false, s)
  | Some c =>
      if negb (c_path_known c) && beq (c_out_path c) [] then (false, s)
      else (true, (update_contact i (fun c => c <| c_out_path := [] |> <| c_path_known := false |>) s)
                    <| cs_dirty := true |>)
  end.

Definition remove_contact (pubkey : Bytes) (s : ContactStore) : bool * ContactStore :=
  match find_contact pubkey s with
  | None => (false, s)
  | Some i => (true, s <| cs_contacts ::= delete i |> <| cs_dirty := true |>)
  end.

Section secrets.
Context `{CryptoLib}.

(** [Contact::shared_secret]: the cached value, filled in on first use.  Returns
    the secret (empty when there is none) and the contact with its cache. *)
Definition shared_secret (self : LocalIdentity) (c : Contact) : Bytes * Contact :=
  match c_shared c with
  | [] =>
      match shared_secret_with self (c_pubkey c) with
      | Some s => (s, c <| c_shared := s |>)
      | None => ([], c)
      end
  | s => (s, c)
  end.

(** The fields an advert overwrites. *)
Definition advertise (unix : Z) (adv : Advert.t) (app : AdvertAppData.t) (c : Contact) : Contact :=
  let c := c <| c_adv_timestamp := Advert.timestamp adv |> <| c_last_seen := unix |>
             <| c_type := AdvertAppData.node_type app |> <| c_flags := AdvertAppData.flags app |> in
  let c := if AdvertAppData.has_name app then c <| c_name := AdvertAppData.name app |> else c in
  if AdvertAppData.has_location app
  then c <| c_lat_e6 := AdvertAppData.lat_e6 app |> <| c_lon_e6 := AdvertAppData.lon_e6 app |> else c.

(** Returns the contact, if any, and [created]. *)
Definition apply_advert (unix : Z) (adv : Advert.t) (app : AdvertAppData.t) (s : ContactStore) :
    option nat * bool * ContactStore :=
  let existing := find_contact (Advert.pubkey adv) s in
  let stale := match existing with
               | Some i => match contact_at i s with
                           | Some c => Advert.timestamp adv <=? c_adv_timestamp c
                           | None => false
                           end
               | None => false
               end in
  if stale then (None, false, s) else
  let '(c, s1) := match existing with Some i => (Some i, s) | None => upsert (Advert.pubkey adv) s end in
  match c with
  | None => (None, false, s1)
  | Some i =>
      let warm c := (shared_secret (cs_self s) (advertise unix adv app c)).2 in
      (Some i, negb (bool_decide (is_Some existing)), (update_contact i warm s1) <| cs_dirty := true |>)
  end.

End secrets.

(** ** The contacts file *)

Definition contacts_header : Str := lit "# coreletd contacts v1".
(** The column line, with its tabs. *)
Definition contacts_columns : Str :=
  join_tabs [lit "# pubkey"; lit "type"; lit "flags"; lit "adv_ts"; lit "last_seen"; lit "lat_e6";
             lit "lon_e6"; lit "path"; lit "name"].

Definition path_field (c : Contact) : Str :=
  if c_path_known c then match c_out_path c with [] => lit "direct" | p => hex p end else lit "-".

Definition contact_fields (c : Contact) : list Str :=
  [hex (c_pubkey c); show_int (c_type c); show_int (c_flags c); show_int (c_adv_timestamp c);
   show_int (c_last_seen c); show_int (c_lat_e6 c); show_int (c_lon_e6 c); path_field c;
   sanitise (c_name c)].

Definition contacts_text (cs : list Contact) : Str :=
  concat (map (fun l => l ++ [newline])
    (contacts_header :: contacts_columns :: map (fun c => join_tabs (contact_fields c)) cs)).

Definition cs_save (faults : Faults) (umask_mode : Z) (fs : Fs) (s : ContactStore) :
    bool * ContactStore * Fs :=
  match cs_path s with
  | [] => (false, s, fs)
  | path =>
      let '(ok, fs, _) := save_file faults umask_mode path (contacts_text (cs_contacts s)) true fs in
      (ok, if ok then s <| cs_dirty := false |> else s, fs)
  end.

(** The route field of a record; [None] is [fail("invalid path")]. *)
Definition parse_path (f : Str) : option (Bytes * bool) :=
  if beq f (lit "direct") then Some ([], true)
  else if beq f (lit "-") then Some ([], false)
  else match unhex f with
       | Some p => if (length p =? 0)%nat || (kMaxPathSize <? length p)%nat then None else Some (p, true)
       | None => None
       end.

(** One record; [None] is any of the [fail(...)] returns. *)
Definition parse_contact (max_contacts : nat) (loaded : list Contact) (line : Str) : option Contact :=
  match split_fields line 9 with
  | Some [f0; f1; f2; f3; f4; f5; f6; f7; f8] =>
      pubkey ← unhex f0;
      if negb (length pubkey =? kPubKeySize)%nat then None else
      if existsb (fun c => equal (c_pubkey c) pubkey) loaded then None else
      type ← parse_unsigned f1 255;
      flags ← parse_unsigned f2 255;
      adv_timestamp ← parse_unsigned f3 (2 ^ 32 - 1);
      last_seen ← parse_unsigned f4 (2 ^ 32 - 1);
      lat ← parse_signed f5 (-90000000) 90000000;
      lon ← parse_signed f6 (-180000000) 180000000;
      '(out_path, path_known) ← parse_path f7;
      if (max_contacts <=? length loaded)%nat then None else
      Some (mkContact pubkey f8 (u8 type) (u8 flags) (i32 lat) (i32 lon) (u32 adv_timestamp)
              (u32 last_seen) out_path path_known 0 (S754_zero false) 0 [])
  | _ => None
  end.

(** The loop over the lines: the contacts so far and whether the header was seen. *)
Fixpoint load_contacts (max_contacts : nat) (lines : list Str) (loaded : list Contact) (saw_header : bool) :
    option (list Contact * bool) :=
  match lines with
  | [] => Some (loaded, saw_header)
  | line :: lines =>
      if beq line contacts_header then load_contacts max_contacts lines loaded true
      else match line with
           | [] => load_contacts max_contacts lines loaded saw_header
           | c :: _ =>
               if c =? 35 then load_contacts max_contacts lines loaded saw_header
               else match parse_contact max_contacts loaded line with
                    | None => None
                    | Some c => load_contacts max_contacts lines (loaded ++ [c]) saw_header
                    end
           end
  end.

Definition cs_load (input : Input) (s : ContactStore) : LoadResult * ContactStore :=
  match cs_path s, input with
  | [], _ => (Missing, s)
  | _, NoFile => (Missing, s)
  | _, File content bad =>
      match load_contacts (cs_max_contacts s) (getlines content) [] false with
      | None => (Corrupt, s)
      | Some (loaded, saw_header) =>
          if bad then (Corrupt, s)
          else if negb saw_header then (Corrupt, s)
          else (Loaded, s <| cs_contacts := loaded |> <| cs_dirty := false |>)
      end
  end.

(** ** Lemmas: finding and updating *)

Lemma find_contact_Some pk s i :
  find_contact pk s = Some i -> exists c, contact_at i s = Some c /\ c_pubkey c = pk.
Proof.
  unfold find_contact, contact_at. destruct (list_find _ _) as [[j c]|] eqn:E; [|done].
  intros [= <-]. apply list_find_Some in E as (Hc & Hk & _). exists c. split; [done|].
  by apply beq_eq.
Qed.

Lemma find_contact_None pk s : find_contact pk s = None -> pk ∉ map c_pubkey (cs_contacts s).
Proof.
  unfold find_contact. destruct (list_find _ _) as [|] eqn:E; [done|]. intros _.
  apply list_find_None in E. intros Hin. apply list_elem_of_fmap in Hin as (c & -> & Hc).
  rewrite Forall_forall in E. apply (E c); [by apply list_elem_of_In|]. by apply beq_eq.
Qed.

Lemma map_alter_same {A B} (g : A -> B) (f : A -> A) i l :
  (forall x, g (f x) = g x) -> map g (alter f i l) = map g l.
Proof.
  intros Hg. revert i. induction l as [|x l IH]; intros [|i]; simpl; [done|done|by rewrite Hg|].
  f_equal. apply IH.
Qed.

Section store.
Context `{CryptoLib}.

(** The cached secret is the one the keys give. *)
Definition cache_ok (self : LocalIdentity) (c : Contact) : Prop :=
  c_shared c = [] \/ shared_secret_with self (c_pubkey c) = Some (c_shared c).

Record store_ok (s : ContactStore) : Prop := {
  so_unique : NoDup (map c_pubkey (cs_contacts s));
  so_limit : (length (cs_contacts s) <= cs_max_contacts s)%nat;
  so_keys : Forall (fun c => length (c_pubkey c) = kPubKeySize) (cs_contacts s);
  so_cache : Forall (cache_ok (cs_self s)) (cs_contacts s);
}.

(** An update that leaves the key alone and the cache coherent. *)
Definition benign (self : LocalIdentity) (f : Contact -> Contact) : Prop :=
  forall c, c_pubkey (f c) = c_pubkey c /\ (cache_ok self c -> cache_ok self (f c)).

Lemma update_contact_ok i f s : benign (cs_self s) f -> store_ok s -> store_ok (update_contact i f s).
Proof.
  intros Hf [Hu Hl Hk Hc]. constructor; simpl.
  - rewrite map_alter_same; [done|]. intros c. apply Hf.
  - by rewrite length_alter.
  - apply Forall_alter; [done|]. intros c _. by rewrite (proj1 (Hf c)).
  - apply Forall_alter; [done|]. intros c _. apply Hf.
Qed.

Lemma dirty_ok b s : store_ok s -> store_ok (s <| cs_dirty := b |>).
Proof. by intros [? ? ? ?]. Qed.

Lemma shared_secret_cache self c : cache_ok self c -> cache_ok self (shared_secret self c).2.
Proof.
  unfold shared_secret, cache_ok. intros Hc. destruct (c_shared c) as [|b l] eqn:E; [|simpl; by rewrite E].
  destruct (shared_secret_with self (c_pubkey c)) as [k|] eqn:Ek; simpl; [by right|by left].
Qed.

Lemma shared_secret_key self c : c_pubkey (shared_secret self c).2 = c_pubkey c.
Proof. unfold shared_secret. by repeat case_match. Qed.

(** What the cache returns is what deriving afresh would. *)
Lemma shared_secret_value self c :
  cache_ok self c -> (shared_secret self c).1 = default [] (shared_secret_with self (c_pubkey c)).
Proof.
  unfold shared_secret, cache_ok. intros [Hc|Hc].
  - rewrite Hc. by destruct (shared_secret_with _ _).
  - rewrite Hc. by destruct (c_shared c).
Qed.

Lemma advertise_fields unix adv app c :
  c_pubkey (advertise unix adv app c) = c_pubkey c /\ c_shared (advertise unix adv app c) = c_shared c /\
  c_adv_timestamp (advertise unix adv app c) = Advert.timestamp adv.
Proof. unfold advertise. by destruct (AdvertAppData.has_name app), (AdvertAppData.has_location app). Qed.

Lemma shared_secret_timestamp self c : c_adv_timestamp (shared_secret self c).2 = c_adv_timestamp c.
Proof. unfold shared_secret. by repeat case_match. Qed.

Lemma warm_benign self unix adv app :
  benign self (fun c => (shared_secret self (advertise unix adv app c)).2).
Proof.
  intros c. destruct (advertise_fields unix adv app c) as (E1 & E2 & _).
  split; [by rewrite shared_secret_key|]. intros Hc. apply shared_secret_cache.
  unfold cache_ok in *. by rewrite E1, E2.
Qed.

Lemma upsert_ok pk s i s' :
  length pk = kPubKeySize -> store_ok s -> upsert pk s = (i, s') ->
  store_ok s' /\ cs_self s' = cs_self s.
Proof.
  intros Hpk Hok. unfold upsert. destruct (find_contact pk s) eqn:E; [by intros [= <- <-]|].
  destruct (Nat.leb_spec (cs_max_contacts s) (length (cs_contacts s))); [by intros [= <- <-]|].
  intros [= <- <-]. split; [|done]. apply find_contact_None in E. destruct Hok as [Hu Hl Hk Hc].
  constructor; simpl.
  - rewrite map_app. apply list.NoDup_app. split_and!; [done| |apply NoDup_singleton].
    intros x Hx Hx'. simpl in Hx'. apply list_elem_of_singleton in Hx'. by subst.
  - rewrite length_app. simpl. lia.
  - apply Forall_app. split; [done|]. by each.
  - apply Forall_app. split; [done|]. each. by left.
Qed.

Lemma apply_advert_ok unix adv app s i created s' :
  length (Advert.pubkey adv) = kPubKeySize -> store_ok s ->
  apply_advert unix adv app s = (i, created, s') -> store_ok s'.
Proof.
  intros Hpk Hok. unfold apply_advert. case_match; [by intros [= <- <- <-]|].
  destruct (find_contact _ s) as [j|] eqn:E.
  - intros [= <- <- <-]. by apply dirty_ok, update_contact_ok; [apply warm_benign|].
  - destruct (upsert _ s) as [[j|] s1] eqn:Eu; destruct (upsert_ok _ _ _ _ Hpk Hok Eu) as [Hok1 Hs1];
      intros [= <- <- <-]; [|done].
    apply dirty_ok, update_contact_ok; [rewrite Hs1; apply warm_benign|done].
Qed.

Lemma remove_contact_ok pk s b s' : store_ok s -> remove_contact pk s = (b, s') -> store_ok s'.
Proof.
  intros [Hu Hl Hk Hc]. unfold remove_contact. destruct (find_contact pk s) as [i|] eqn:E; intros [= <- <-];
    [|done].
  destruct (find_contact_Some _ _ _ E) as (c & Hi & _). unfold contact_at in Hi.
  pose proof (delete_Permutation _ _ _ Hi) as Hp. constructor; simpl.
  - rewrite Hp in Hu. by apply list.NoDup_cons in Hu as [_ ?].
  - apply Permutation_length in Hp. simpl in Hp. lia.
  - rewrite Hp in Hk. by apply Forall_cons_iff in Hk as [_ ?].
  - rewrite Hp in Hc. by apply Forall_cons_iff in Hc as [_ ?].
Qed.

(** The store's invariant survives every way it is changed: keys stay unique
    and 32 bytes long, the size within the limit, and a cached shared secret is
    always the one the two keys give. *)
Theorem contacts_invariant s pk i unix rssi snr path adv app :
  store_ok s -> length pk = kPubKeySize -> length (Advert.pubkey adv) = kPubKeySize ->
  store_ok (upsert pk s).2 /\ store_ok (remove_contact pk s).2 /\
  store_ok (touch unix i s) /\ store_ok (touch_signal unix i rssi snr s) /\
  store_ok (cs_set_path i path s).2 /\ store_ok (clear_path i s).2 /\
  store_ok (apply_advert unix adv app s).2 /\
  (forall c, contact_at i s = Some c -> store_ok (update_contact i (fun c => (shared_secret (cs_self s) c).2) s)).
Proof.
  intros Hok Hpk Hadv. split_and!.
  - destruct (upsert pk s) as [j s'] eqn:E. by destruct (upsert_ok _ _ _ _ Hpk Hok E).
  - destruct (remove_contact pk s) as [b s'] eqn:E. by apply (remove_contact_ok _ _ _ _ Hok E).
  - by apply dirty_ok, update_contact_ok.
  - by apply dirty_ok, update_contact_ok, update_contact_ok.
  - unfold cs_set_path. repeat case_match; [done..|by apply dirty_ok, update_contact_ok|done].
  - unfold clear_path. repeat case_match; [done..|by apply dirty_ok, update_contact_ok|done].
  - destruct (apply_advert unix adv app s) as [[j b] s'] eqn:E. by apply (apply_advert_ok _ _ _ _ _ _ _ Hadv Hok E).
  - intros c _. apply update_contact_ok; [|done]. intros c'. split; [apply shared_secret_key|apply shared_secret_cache].
Qed.

(** The contact an advert updates is the one its key names, older than the
    advert if it was there before; every other stays as it was. *)
Lemma apply_advert_target unix adv app s j created s' :
  apply_advert unix adv app s = (Some j, created, s') ->
  (exists c', contact_at j s' = Some c' /\ c_pubkey c' = Advert.pubkey adv) /\
  (forall c, contact_at j s = Some c -> c_pubkey c = Advert.pubkey adv /\ c_adv_timestamp c < Advert.timestamp adv) /\
  (forall k, k <> j -> contact_at k s' = contact_at k s).
Proof.
  unfold apply_advert, upsert. destruct (find_contact (Advert.pubkey adv) s) as [i|] eqn:E.
  - destruct (find_contact_Some _ _ _ E) as (c & Hi & Hk). rewrite Hi.
    destruct (Z.leb_spec (Advert.timestamp adv) (c_adv_timestamp c)) as [|Hlt]; [done|]. intros [= <- <- <-].
    unfold contact_at in *. simpl. split_and!.
    + rewrite list_lookup_alter_eq, Hi. simpl. eexists. split; [done|].
      by rewrite shared_secret_key, (proj1 (advertise_fields unix adv app c)).
    + intros c' Hc'. simplify_eq. done.
    + intros k Hk'. by rewrite list_lookup_alter_ne by done.
  - destruct (_ <=? _)%nat; [done|]. intros [= <- <- <-]. unfold contact_at. simpl. split_and!.
    + rewrite list_lookup_alter_eq, lookup_app_r, Nat.sub_diag by lia. simpl. eexists. split; [done|].
      by rewrite shared_secret_key, (proj1 (advertise_fields unix adv app _)).
    + intros c Hc. apply lookup_lt_Some in Hc. lia.
    + intros k Hk. rewrite list_lookup_alter_ne by done. destruct (decide (k < length (cs_contacts s))%nat) as [Hlt|Hge].
      * by rewrite lookup_app_l.
      * rewrite !(proj2 (lookup_ge_None _ _)); [done|lia|]. rewrite length_app. simpl. lia.
Qed.

Lemma apply_advert_refused unix adv app s created s' :
  apply_advert unix adv app s = (None, created, s') -> s' = s.
Proof.
  unfold apply_advert, upsert. destruct (find_contact _ s) as [i|] eqn:E; repeat case_match; intros; by simplify_eq.
Qed.

(** Replay protection: an advert changes at most the one contact its key names,
    and that one only when its timestamp is strictly newer than the one held; so no
    run of replayed or reordered adverts moves a contact back in time. *)
Lemma apply_advert_frame unix adv app s r created s' i c :
  store_ok s -> apply_advert unix adv app s = (r, created, s') -> contact_at i s = Some c ->
  exists c', contact_at i s' = Some c' /\ c_pubkey c' = c_pubkey c /\
    (c' = c \/ (c_pubkey c = Advert.pubkey adv /\ c_adv_timestamp c < Advert.timestamp adv /\
                c_adv_timestamp c' = Advert.timestamp adv)).
Proof.
  intros Hok Ha Hc. unfold apply_advert in Ha.
  destruct (find_contact (Advert.pubkey adv) s) as [j|] eqn:E.
  - destruct (find_contact_Some _ _ _ E) as (cj & Hj & Hkj). rewrite Hj in Ha.
    destruct (Z.leb_spec (Advert.timestamp adv) (c_adv_timestamp cj)) as [Hle|Hlt].
    { injection Ha as <- <- <-. eauto. }
    injection Ha as <- <- <-. unfold contact_at in *. simpl. destruct (decide (i = j)) as [->|Hne].
    + assert (cj = c) as -> by congruence. rewrite list_lookup_alter_eq, Hj. simpl. eexists. split; [done|].
      destruct (advertise_fields unix adv app c) as (E1 & _ & E3).
      rewrite shared_secret_key, E1, shared_secret_timestamp, E3. auto.
    + rewrite list_lookup_alter_ne by done. eauto.
  - unfold upsert in Ha. rewrite E in Ha. unfold contact_at in *.
    destruct (_ <=? _)%nat; injection Ha as <- <- <-; [eauto|]. simpl.
    pose proof (lookup_lt_Some _ _ _ Hc) as Hlt.
    rewrite list_lookup_alter_ne by lia. rewrite lookup_app_l by done. eauto.
Qed.

End store.

(** ** The file round trip *)

(** What a record can hold: fields within their widths, coordinates on the
    globe, a route that fits a packet. *)
Record contact_ok (c : Contact) : Prop := {
  co_key : length (c_pubkey c) = kPubKeySize /\ bytes_ok (c_pubkey c);
  co_small : is_u8 (c_type c) /\ is_u8 (c_flags c);
  co_times : is_u32 (c_adv_timestamp c) /\ is_u32 (c_last_seen c);
  co_lat : -90000000 <= c_lat_e6 c <= 90000000;
  co_lon : -180000000 <= c_lon_e6 c <= 180000000;
  co_path : bytes_ok (c_out_path c) /\ (length (c_out_path c) <= kMaxPathSize)%nat;
}.

(** What of a contact the file keeps. *)
Definition persisted (c : Contact) : Contact :=
  mkContact (c_pubkey c) (sanitise (c_name c)) (c_type c) (c_flags c) (c_lat_e6 c) (c_lon_e6 c)
    (c_adv_timestamp c) (c_last_seen c) (if c_path_known c then c_out_path c else []) (c_path_known c)
    0 (S754_zero false) 0 [].

Lemma hex_not_word b w : bytes_ok b -> ~ Forall is_hex_char w -> beq (hex b) w = false.
Proof. intros Hb Hw. apply beq_neq. intros E. apply Hw. rewrite <- E. by apply hex_chars. Qed.

Lemma word_not_hex w : Exists (fun c => ~ is_hex_char c) w -> ~ Forall is_hex_char w.
Proof. intros He Ha. rewrite Exists_exists in He. destruct He as (c & Hin & Hc).
  rewrite List.Forall_forall in Ha. by apply Hc, Ha.
Qed.

Lemma parse_path_field c :
  contact_ok c ->
  parse_path (path_field c) = Some (if c_path_known c then c_out_path c else [], c_path_known c).
Proof.
  intros [_ _ _ _ _ [Hb Hl]]. unfold path_field. destruct (c_path_known c); [|done].
  destruct (c_out_path c) as [|b p] eqn:E; [done|]. unfold parse_path.
  rewrite !hex_not_word; try done; [|apply word_not_hex, Exists_cons_hd|apply word_not_hex, Exists_cons_tl, Exists_cons_hd];
    [|unfold is_hex_char; simpl; lia..].
  rewrite unhex_hex by done. cbn [length Nat.eqb orb]. by rewrite (proj2 (Nat.ltb_ge _ _)) by done.
Qed.

Lemma path_field_plain c : contact_ok c -> plain (path_field c).
Proof.
  intros [_ _ _ _ _ [Hb _]]. unfold path_field. destruct (c_path_known c).
  - destruct (c_out_path c) eqn:E; [|by apply hex_plain]. unfold plain. simpl. each; unfold tab, newline; lia.
  - unfold plain. simpl. each; unfold tab, newline; lia.
Qed.

Lemma contact_fields_plain c : contact_ok c -> Forall plain (contact_fields c).
Proof.
  intros Hok. pose proof (path_field_plain c Hok). destruct Hok as [[? ?] [? ?] [? ?] ? ? _].
  unfold contact_fields. each; try apply show_int_plain; try width; [by apply hex_plain|done|apply sanitise_plain].
Qed.

Lemma parse_contact_fields max loaded c :
  contact_ok c -> Forall (fun x => c_pubkey x <> c_pubkey c) loaded -> (length loaded < max)%nat ->
  parse_contact max loaded (join_tabs (contact_fields c)) = Some (persisted c).
Proof.
  intros Hok Hnew Hmax. pose proof (contact_fields_plain c Hok) as Hp.
  unfold parse_contact. change 9%nat with (length (contact_fields c)).
  rewrite split_join by done. pose proof (parse_path_field c Hok) as Hpath.
  destruct Hok as [[Hk Hkb] [Ht Hf] [Hts Hls] Hlat Hlon _]. unfold contact_fields.
  rewrite unhex_hex by done. cbn [mbind option_bind]. rewrite (proj2 (Nat.eqb_eq _ _) Hk). cbn [negb].
  assert (existsb (fun x => equal (c_pubkey x) (c_pubkey c)) loaded = false) as ->.
  { apply not_true_iff_false. rewrite existsb_exists. intros (x & Hin & Hx). apply equal_eq in Hx.
    rewrite List.Forall_forall in Hnew. by apply (Hnew x). }
  rewrite !parse_show_unsigned by width. cbn [mbind option_bind].
  rewrite !parse_show_signed by lia. cbn [mbind option_bind]. rewrite Hpath. cbn [mbind option_bind].
  rewrite (proj2 (Nat.leb_gt _ _)) by done. unfold persisted.
  rewrite !u8_small, !u32_small, !i32_small by (done || width). done.
Qed.

Lemma contact_line_start c :
  contact_ok c -> exists x l, join_tabs (contact_fields c) = x :: l /\ is_hex_char x.
Proof.
  intros [[Hk Hb] _ _ _ _ _]. pose proof (hex_chars _ Hb) as Hx.
  destruct (c_pubkey c) as [|b k] eqn:E; [done|]. unfold contact_fields. rewrite E.
  simpl in *. apply Forall_cons_iff in Hx as [Hx _]. eauto.
Qed.

Lemma load_contacts_records max cs loaded saw :
  Forall contact_ok cs -> NoDup (map c_pubkey (loaded ++ cs)) -> (length loaded + length cs <= max)%nat ->
  load_contacts max (map (fun c => join_tabs (contact_fields c)) cs) loaded saw
  = Some (loaded ++ map persisted cs, saw).
Proof.
  intros Hok. revert loaded. induction Hok as [|c cs Hc Hcs IH]; intros loaded Hu Hl; cbn [map load_contacts].
  { by rewrite app_nil_r. }
  destruct (contact_line_start c Hc) as (x & l & El & Hx).
  assert (beq (join_tabs (contact_fields c)) contacts_header = false) as ->.
  { apply beq_neq. rewrite El. intros [= -> _]. unfold is_hex_char in Hx. lia. }
  pose proof (parse_contact_fields max loaded c Hc) as Hp. rewrite El in *.
  rewrite (proj2 (Z.eqb_neq x 35)) by (unfold is_hex_char in Hx; lia).
  rewrite map_app in Hu. simpl in Hu, Hl. rewrite Hp; [| |lia].
  - rewrite IH; [by rewrite <- app_assoc| |rewrite length_app; simpl; lia].
    by rewrite map_app, map_app, <- app_assoc.
  - apply List.Forall_forall. intros y Hy E. apply list.NoDup_app in Hu as (_ & Hd & _).
    apply (Hd (c_pubkey c)); [|left]. rewrite <- E. apply list_elem_of_fmap. exists y.
    split; [done|by apply list_elem_of_In].
Qed.

Lemma contacts_text_lines cs :
  Forall contact_ok cs ->
  getlines (contacts_text cs) =
    contacts_header :: contacts_columns :: map (fun c => join_tabs (contact_fields c)) cs.
Proof.
  intros Hok. unfold contacts_text. apply getlines_concat.
  apply List.Forall_cons; [|apply List.Forall_cons].
  - apply (bool_decide_unpack _). vm_compute. exact I.
  - apply (bool_decide_unpack _). vm_compute. exact I.
  - apply Forall_map. eapply Forall_impl; [|exact Hok].
    intros c Hc. by apply join_tabs_no_newline, contact_fields_plain.
Qed.

Lemma load_contacts_text max cs :
  Forall contact_ok cs -> NoDup (map c_pubkey cs) -> (length cs <= max)%nat ->
  load_contacts max (getlines (contacts_text cs)) [] false = Some (map persisted cs, true).
Proof.
  intros Hok Hu Hl. rewrite contacts_text_lines by done.
  cbn [load_contacts]. rewrite beq_refl.
  assert (beq contacts_columns contacts_header = false) as -> by (vm_compute; reflexivity).
  change contacts_columns with (35 :: tail contacts_columns). cbv iota. change (35 =? 35) with true. cbv iota.
  by rewrite load_contacts_records.
Qed.

(** Contacts survive a restart: when a save reports success, loading the file
    into a store with the same path and limit gives back every contact in order,
    with all the members that are persisted (names with tabs and line ends turned
    into spaces), and both stores are clean. *)
Theorem contacts_save_load faults mode fs s s1 fs1 s2 :
  fs_wf fs -> tmp_private fs (cs_path s) ->
  Forall contact_ok (cs_contacts s) -> NoDup (map c_pubkey (cs_contacts s)) ->
  (length (cs_contacts s) <= cs_max_contacts s)%nat ->
  cs_save faults mode fs s = (true, s1, fs1) ->
  cs_path s2 = cs_path s -> cs_max_contacts s2 = cs_max_contacts s ->
  cs_dirty s1 = false /\
  cs_load (open_file fs1 (cs_path s)) s2 =
    (Loaded, s2 <| cs_contacts := map persisted (cs_contacts s) |> <| cs_dirty := false |>).
Proof.
  intros Hwf Hpriv Hok Hu Hl. unfold cs_save. destruct (cs_path s) as [|p0 p] eqn:Ep; [done|].
  destruct (save_file _ _ _ _ _ _) as [[ok fs'] seen] eqn:Es.
  destruct (save_file_spec _ _ _ _ _ _ _ _ _ Hwf Hpriv Es) as [_ Hi].
  destruct ok; [|done]. intros [= <- <-] Ep2 Em2. split; [done|].
  unfold open_file. rewrite (Hi eq_refl). unfold cs_load. rewrite Ep2, Em2. cbn [i_content].
  by rewrite load_contacts_text.
Qed.
