(* ===== verification/ContactBook.v ===== *)
(** * The contact store is a bounded map from keys to contacts

    [src/src/mesh/contacts.cpp] keeps a deque that it scans; what the rest of the program is
    promised is a map.  The abstract book below is a finite map with a capacity and says what
    each operation answers and leaves; the theorem is a simulation: any sequence of operations
    on the store, each looking its contact up by key the way the callers do, answers and ends as
    the same sequence on the book. *)

From S2P Require Import Prelude ByteIO Floats Crypto Identity Toy Packet Payloads Record Persist Contacts.

(** ** Operations *)

Inductive BookOp :=
| BFind (pk : Bytes)
| BUpsert (pk : Bytes)
| BRemove (pk : Bytes)
| BAdvert (unix : Z) (adv : Advert.t) (app : AdvertAppData.t)
| BTouch (unix : Z) (pk : Bytes)
| BHeard (unix : Z) (pk : Bytes) (rssi : Z) (snr : float)
| BSetPath (pk path : Bytes)
| BClearPath (pk : Bytes).

(** The contact a call points to, and the flag it returns. *)
Definition Answer : Type := option Contact * bool.

Abbreviation Book := (gmap Bytes Contact).

Definition new_contact (pk : Bytes) : Contact := Contact_default <| c_pubkey := pk |>.
Definition seen_at (unix : Z) (c : Contact) : Contact := c <| c_last_seen := unix |>.
Definition heard_at (rssi : Z) (snr : float) (c : Contact) : Contact := c <| c_last_rssi := rssi |> <| c_last_snr := snr |>.
Definition routed_by (path : Bytes) (c : Contact) : Contact := c <| c_out_path := path |> <| c_path_known := true |>.
Definition unrouted (c : Contact) : Contact := c <| c_out_path := [] |> <| c_path_known := false |>.

Section book.
Context `{CryptoLib}.

(** The store: a lookup by key, then the operation on the contact found. *)
Definition exec (op : BookOp) (s : ContactStore) : Answer * ContactStore :=
  match op with
  | BFind pk => ((find_contact pk s ≫= fun i => contact_at i s, false), s)
  | BUpsert pk => let '(i, s') := upsert pk s in ((i ≫= fun i => contact_at i s', false), s')
  | BRemove pk => let '(b, s') := remove_contact pk s in ((None, b), s')
  | BAdvert unix adv app =>
      let '(i, created, s') := apply_advert unix adv app s in ((i ≫= fun i => contact_at i s', created), s')
  | BTouch unix pk =>
      match find_contact pk s with Some i => ((None, true), touch unix i s) | None => ((None, false), s) end
  | BHeard unix pk rssi snr =>
      match find_contact pk s with Some i => ((None, true), touch_signal unix i rssi snr s) | None => ((None, false), s) end
  | BSetPath pk path =>
      match find_contact pk s with
      | Some i => let '(b, s') := cs_set_path i path s in ((None, b), s')
      | None => ((None, false), s)
      end
  | BClearPath pk =>
      match find_contact pk s with
      | Some i => let '(b, s') := clear_path i s in ((None, b), s')
      | None => ((None, false), s)
      end
  end.

(** The book: what is promised. *)
Section promised.
Context (capacity : nat) (self : LocalIdentity).

(** Changing the contact of a key, if it is there and the change is one. *)
Definition change (pk : Bytes) (same : Contact -> bool) (f : Contact -> Contact) (m : Book) : Answer * Book :=
  match m !! pk with
  | Some c => if same c then ((None, false), m) else ((None, true), <[pk := f c]> m)
  | None => ((None, false), m)
  end.

(** Entering a new one, while there is room. *)
Definition enter (pk : Bytes) (c : Contact) (created : bool) (m : Book) : Answer * Book :=
  if (size m <? capacity)%nat then ((Some c, created), <[pk := c]> m) else ((None, false), m).

Definition promise (op : BookOp) (m : Book) : Answer * Book :=
  match op with
  | BFind pk => ((m !! pk, false), m)
  | BUpsert pk => match m !! pk with Some c => ((Some c, false), m) | None => enter pk (new_contact pk) false m end
  | BRemove pk => ((None, bool_decide (is_Some (m !! pk))), delete pk m)
  | BAdvert unix adv app =>
      let pk := Advert.pubkey adv in
      let warm c := (shared_secret self (advertise unix adv app c)).2 in
      match m !! pk with
      | Some c => if Advert.timestamp adv <=? c_adv_timestamp c then ((None, false), m)
                  else ((Some (warm c), false), <[pk := warm c]> m)
      | None => enter pk (warm (new_contact pk)) true m
      end
  | BTouch unix pk => change pk (fun _ => false) (seen_at unix) m
  | BHeard unix pk rssi snr => change pk (fun _ => false) (fun c => seen_at unix (heard_at rssi snr c)) m
  | BSetPath pk path => change pk (fun c => c_path_known c && beq (c_out_path c) path) (routed_by path) m
  | BClearPath pk => change pk (fun c => negb (c_path_known c) && beq (c_out_path c) []) unrouted m
  end.
End promised.

(** A sequence of operations, with the answers. *)
Fixpoint perform {S : Type} (step : BookOp -> S -> Answer * S) (ops : list BookOp) (s : S) : list Answer * S :=
  match ops with
  | [] => ([], s)
  | op :: ops => let '(a, s) := step op s in let '(rest, s) := perform step ops s in (a :: rest, s)
  end.

(** Keys have 32 bytes: the callers check it. *)
Definition op_ok (op : BookOp) : Prop :=
  match op with
  | BUpsert pk => length pk = kPubKeySize
  | BAdvert _ adv _ => length (Advert.pubkey adv) = kPubKeySize
  | _ => True
  end.

(** ** The book of a store *)

Definition book_of (l : list Contact) : Book := list_to_map (map (fun c => (c_pubkey c, c)) l).
Definition book (s : ContactStore) : Book := book_of (cs_contacts s).

Lemma book_keys l : map fst (map (fun c => (c_pubkey c, c)) l) = map c_pubkey l.
Proof. by rewrite map_map. Qed.

Lemma book_of_Some l pk c :
  NoDup (map c_pubkey l) -> book_of l !! pk = Some c <-> c ∈ l /\ c_pubkey c = pk.
Proof.
  intros Hnd. unfold book_of. rewrite <- book_keys in Hnd. rewrite <- elem_of_list_to_map by exact Hnd.
  split.
  - intros (x & [= -> ->] & Hx)%list_elem_of_fmap. done.
  - intros [Hc <-]. apply list_elem_of_fmap. by exists c.
Qed.

Lemma book_find s pk : store_ok s -> book s !! pk = find_contact pk s ≫= fun i => contact_at i s.
Proof.
  intros Hok. destruct (find_contact pk s) as [i|] eqn:E; simpl.
  - destruct (find_contact_Some _ _ _ E) as (c & Hc & Hk). rewrite Hc. apply book_of_Some; [apply Hok|].
    split; [by eapply list_elem_of_lookup_2|done].
  - apply find_contact_None in E. destruct (book s !! pk) as [c|] eqn:Eb; [|done].
    apply book_of_Some in Eb as [Hc <-]; [|apply Hok]. exfalso. apply E. apply list_elem_of_fmap. by exists c.
Qed.

Lemma book_size s : store_ok s -> size (book s) = length (cs_contacts s).
Proof.
  intros Hok. pose proof (so_unique _ Hok) as Hnd. rewrite <- book_keys in Hnd. unfold book, book_of.
  rewrite map_size_list_to_map by exact Hnd. apply length_map.
Qed.

Lemma book_alter l i f c :
  NoDup (map c_pubkey l) -> l !! i = Some c -> (forall x, c_pubkey (f x) = c_pubkey x) ->
  book_of (alter f i l) = <[c_pubkey c := f c]> (book_of l).
Proof.
  intros Hnd Hi Hf. apply map_eq. intros pk. apply option_eq. intros x.
  assert (NoDup (map c_pubkey (alter f i l))) as Hnd' by (by rewrite map_alter_same).
  rewrite book_of_Some by done. destruct (decide (c_pubkey c = pk)) as [<-|Hne].
  - rewrite lookup_insert_eq. split.
    + intros [[j Hj]%list_elem_of_lookup Hk]. destruct (decide (j = i)) as [->|Hji].
      * rewrite list_lookup_alter_eq, Hi in Hj. by injection Hj as <-.
      * rewrite list_lookup_alter_ne in Hj by done. exfalso. apply Hji.
        apply (NoDup_lookup _ _ _ (c_pubkey c) Hnd); [rewrite <- Hk|]; by apply list_lookup_fmap_Some_2.
    + intros [= <-]. split; [|apply Hf]. apply (list_elem_of_lookup_2 _ i). by rewrite list_lookup_alter_eq, Hi.
  - rewrite lookup_insert_ne, book_of_Some by done. split.
    + intros [[j Hj]%list_elem_of_lookup Hk]. destruct (decide (j = i)) as [->|Hji].
      * rewrite list_lookup_alter_eq, Hi in Hj. injection Hj as <-. by rewrite Hf in Hk.
      * rewrite list_lookup_alter_ne in Hj by done. split; [by eapply list_elem_of_lookup_2|done].
    + intros [[j Hj]%list_elem_of_lookup Hk]. split; [|done]. apply (list_elem_of_lookup_2 _ j).
      rewrite list_lookup_alter_ne; [done|]. intros ->. congruence.
Qed.

Lemma book_app l c : c_pubkey c ∉ map c_pubkey l -> book_of (l ++ [c]) = <[c_pubkey c := c]> (book_of l).
Proof.
  intros Hn. unfold book_of. rewrite map_app. apply list_to_map_snoc. by rewrite <- book_keys in Hn.
Qed.

Lemma book_delete l i c : NoDup (map c_pubkey l) -> l !! i = Some c -> book_of (delete i l) = delete (c_pubkey c) (book_of l).
Proof.
  intros Hnd Hi. pose proof (delete_Permutation _ _ _ Hi) as Hp.
  assert (NoDup (map c_pubkey (c :: delete i l))) as Hnd' by (by rewrite <- Hp).
  assert (book_of l = book_of (c :: delete i l)) as ->.
  { unfold book_of. apply list_to_map_proper; [|by apply Permutation_map]. rewrite <- book_keys in Hnd. exact Hnd. }
  change (book_of (c :: delete i l)) with (<[c_pubkey c := c]> (book_of (delete i l))).
  rewrite delete_insert_id; [done|]. apply list.NoDup_cons in Hnd' as [Hn _].
  destruct (book_of (delete i l) !! c_pubkey c) as [x|] eqn:E; [|done].
  apply elem_of_list_to_map_2, list_elem_of_fmap in E as (y & [= Hy ->] & Hin). exfalso. apply Hn.
  rewrite Hy. by apply list_elem_of_fmap_2.
Qed.

(** ** The simulation *)

(** Changing one contact through the index its key was found at. *)
Lemma update_book s i c f :
  store_ok s -> contact_at i s = Some c -> benign (cs_self s) f ->
  book (update_contact i f s) = <[c_pubkey c := f c]> (book s).
Proof. intros Hok Hc Hf. apply book_alter; [apply Hok|done|]. intros x. apply Hf. Qed.

Lemma benign_same self f : (forall c, c_pubkey (f c) = c_pubkey c /\ c_shared (f c) = c_shared c) -> benign self f.
Proof. intros Hf c. destruct (Hf c) as [E1 E2]. split; [done|]. unfold cache_ok. by rewrite E1, E2. Qed.

(** What a step of the store must do against the same step of the book. *)
Definition simulates (op : BookOp) (s : ContactStore) : Prop :=
  let '(a, s') := exec op s in
  promise (cs_max_contacts s) (cs_self s) op (book s) = (a, book s') /\
  store_ok s' /\ cs_max_contacts s' = cs_max_contacts s /\ cs_self s' = cs_self s.

Lemma upsert_simulates pk s : store_ok s -> length pk = kPubKeySize -> simulates (BUpsert pk) s.
Proof.
  intros Hok Hpk. unfold simulates. cbn [exec promise]. destruct (upsert pk s) as [i s'] eqn:E.
  destruct (upsert_ok _ _ _ _ Hpk Hok E) as [Hok' Hself]. unfold upsert in E. rewrite (book_find s pk Hok).
  destruct (find_contact pk s) as [j|] eqn:Ef.
  - injection E as <- <-. destruct (find_contact_Some _ _ _ Ef) as (c & Hc & _). cbn. by rewrite Hc.
  - cbn. unfold enter. rewrite (book_size s Hok).
    destruct (Nat.leb_spec (cs_max_contacts s) (length (cs_contacts s))); injection E as <- <-.
    + rewrite (proj2 (Nat.ltb_ge _ _)) by lia. done.
    + rewrite (proj2 (Nat.ltb_lt _ _)) by lia. split; [|done]. cbn. unfold contact_at. cbn.
      rewrite lookup_app_r, Nat.sub_diag by lia. cbn. f_equal. symmetry.
      apply (book_app (cs_contacts s) (new_contact pk)). by apply find_contact_None.
Qed.

Lemma remove_simulates pk s : store_ok s -> simulates (BRemove pk) s.
Proof.
  intros Hok. unfold simulates. cbn [exec promise]. destruct (remove_contact pk s) as [b s'] eqn:E.
  pose proof (remove_contact_ok _ _ _ _ Hok E) as Hok'. unfold remove_contact in E. rewrite (book_find s pk Hok).
  destruct (find_contact pk s) as [i|] eqn:Ef; injection E as <- <-; cbn.
  - destruct (find_contact_Some _ _ _ Ef) as (c & Hc & <-). rewrite Hc. split; [|done]. f_equal.
    symmetry. by apply (book_delete (cs_contacts s) i c); [apply Hok|].
  - split; [|done]. f_equal. apply delete_id. by rewrite (book_find s pk Hok), Ef.
Qed.

Lemma advert_simulates unix adv app s :
  store_ok s -> length (Advert.pubkey adv) = kPubKeySize -> simulates (BAdvert unix adv app) s.
Proof.
  intros Hok Hpk. unfold simulates. cbn [exec promise].
  destruct (apply_advert unix adv app s) as [[i created] s'] eqn:E.
  pose proof (apply_advert_ok _ _ _ _ _ _ _ Hpk Hok E) as Hok'. unfold apply_advert in E. rewrite (book_find s _ Hok).
  destruct (find_contact (Advert.pubkey adv) s) as [j|] eqn:Ef.
  - destruct (find_contact_Some _ _ _ Ef) as (c & Hc & Hk). cbn. rewrite Hc in *.
    destruct (Advert.timestamp adv <=? c_adv_timestamp c); injection E as <- <- <-; [done|]. split; [|done].
    cbn. unfold contact_at, update_contact in *. cbn -[alter]. rewrite list_lookup_alter_eq, Hc. cbn. f_equal.
    rewrite <- Hk. symmetry. by apply (update_book s j c _ Hok Hc (warm_benign (cs_self s) unix adv app)).
  - pose proof (upsert_simulates (Advert.pubkey adv) s Hok Hpk) as Hu. unfold simulates in Hu. cbn [exec promise] in Hu.
    rewrite (book_find s _ Hok), Ef in Hu. cbn in Hu |- *. unfold enter in *.
    destruct (upsert (Advert.pubkey adv) s) as [[j|] s1] eqn:Eu; injection E as <- <- <-; destruct Hu as (Hb & Hok1 & Hm1 & Hs1).
    + unfold upsert in Eu. rewrite Ef in Eu. destruct (_ <=? _)%nat; [done|].
      destruct (size (book s) <? cs_max_contacts s)%nat; [|by injection Hb as Hc _; injection Eu as <- <-; unfold contact_at in Hc; cbn in Hc; rewrite lookup_app_r, Nat.sub_diag in Hc].
      assert (contact_at j s1 = Some (new_contact (Advert.pubkey adv))) as Hc by (by injection Hb as <- _).
      assert (book s1 = <[Advert.pubkey adv := new_contact (Advert.pubkey adv)]> (book s)) as Hbk by (by injection Hb as _ <-).
      split; [|done]. cbn. unfold contact_at at 1. cbn -[alter]. rewrite list_lookup_alter_eq. fold (contact_at j s1). rewrite Hc. cbn. f_equal.
      pose proof (update_book s1 j _ _ Hok1 Hc (warm_benign (cs_self s1) unix adv app)) as Hup.
      change (c_pubkey (new_contact (Advert.pubkey adv))) with (Advert.pubkey adv) in Hup.
      rewrite Hbk, insert_insert_eq, Hs1 in Hup. symmetry. exact Hup.
    + unfold upsert in Eu. rewrite Ef in Eu. destruct (_ <=? _)%nat; [|done]. injection Eu as <-.
      destruct (size (book s) <? cs_max_contacts s)%nat; [done|]. done.
Qed.

(** The operations that change one contact in place. *)
Lemma change_simulates (pk : Bytes) (same : Contact -> bool) (f : Contact -> Contact) (s s' : ContactStore) i c (b : bool) :
  store_ok s -> find_contact pk s = Some i -> contact_at i s = Some c -> benign (cs_self s) f ->
  (if same c then b = false /\ s' = s else b = true /\ book s' = book (update_contact i f s)) ->
  change pk same f (book s) = ((None, b), book s').
Proof.
  intros Hok Hf Hc Hb Hs. unfold change. rewrite (book_find s pk Hok), Hf. cbn. rewrite Hc.
  destruct (find_contact_Some _ _ _ Hf) as (c' & Hc' & Hk). rewrite Hc in Hc'. injection Hc' as <-.
  destruct (same c); destruct Hs as [-> Hs]; [by rewrite Hs|]. rewrite Hs, (update_book s i c f Hok Hc Hb). by rewrite Hk.
Qed.

Lemma change_misses (pk : Bytes) (same : Contact -> bool) (f : Contact -> Contact) (s : ContactStore) : store_ok s -> find_contact pk s = None -> change pk same f (book s) = ((None, false), book s).
Proof. intros Hok Hf. unfold change. by rewrite (book_find s pk Hok), Hf. Qed.

Lemma step_simulates op s : store_ok s -> op_ok op -> simulates op s.
Proof.
  intros Hok Hop. destruct op as [pk|pk|pk|unix adv app|unix pk|unix pk rssi snr|pk path|pk].
  - unfold simulates. cbn. by rewrite (book_find s pk Hok).
  - by apply upsert_simulates.
  - by apply remove_simulates.
  - by apply advert_simulates.
  - unfold simulates. cbn [exec promise]. destruct (find_contact pk s) as [i|] eqn:E; [|by rewrite change_misses].
    destruct (find_contact_Some _ _ _ E) as (c & Hc & _). split; [|split; [|done]].
    + by apply (change_simulates pk _ _ s _ i c true); try done; apply benign_same.
    + by apply dirty_ok, update_contact_ok.
  - unfold simulates. cbn [exec promise]. destruct (find_contact pk s) as [i|] eqn:E; [|by rewrite change_misses].
    destruct (find_contact_Some _ _ _ E) as (c & Hc & _). split; [|split; [|done]].
    + apply (change_simulates pk _ _ s _ i c true); [done..|by apply benign_same|]. split; [done|].
      unfold touch_signal, touch, update_contact, book. cbn -[alter book_of]. f_equal.
      by rewrite list_alter_alter_eq.
    + by apply dirty_ok, update_contact_ok, update_contact_ok.
  - unfold simulates. cbn [exec promise]. destruct (find_contact pk s) as [i|] eqn:E; [|by rewrite change_misses].
    destruct (find_contact_Some _ _ _ E) as (c & Hc & _). unfold cs_set_path. rewrite Hc.
    destruct (c_path_known c && beq (c_out_path c) path) eqn:Es.
    + split; [|done]. apply (change_simulates pk _ _ s s i c false); [done..|by apply benign_same|]. by rewrite Es.
    + split; [|split; [by apply dirty_ok, update_contact_ok|done]].
      apply (change_simulates pk _ _ s _ i c true); [done..|by apply benign_same|]. by rewrite Es.
  - unfold simulates. cbn [exec promise]. destruct (find_contact pk s) as [i|] eqn:E; [|by rewrite change_misses].
    destruct (find_contact_Some _ _ _ E) as (c & Hc & _). unfold clear_path. rewrite Hc.
    destruct (negb (c_path_known c) && beq (c_out_path c) []) eqn:Es.
    + split; [|done]. apply (change_simulates pk _ _ s s i c false); [done..|by apply benign_same|]. by rewrite Es.
    + split; [|split; [by apply dirty_ok, update_contact_ok|done]].
      apply (change_simulates pk _ _ s _ i c true); [done..|by apply benign_same|]. by rewrite Es.
Qed.

(** The contacts tried for the first byte of a key are those of the book that have it. *)
Lemma by_id_spec id s c :
  store_ok s -> (exists i, i ∈ by_id id s /\ contact_at i s = Some c) <-> book s !! c_pubkey c = Some c /\ contact_id c = id.
Proof.
  intros Hok. unfold book. rewrite book_of_Some by apply Hok. unfold by_id, contact_at. split.
  - intros (i & ([j x] & Hx & Hi)%list_elem_of_omap & Hc).
    apply list_elem_of_lookup in Hx as [k Hk]. rewrite list_lookup_imap in Hk.
    destruct (cs_contacts s !! k) as [y|] eqn:Ey; [|done]. injection Hk as <- <-. cbn in Hi.
    destruct (Z.eqb_spec (contact_id y) id); [|done]. injection Hi as <-. rewrite Ey in Hc. injection Hc as <-.
    split; [|done]. split; [by eapply list_elem_of_lookup_2|done].
  - intros [[[i Hi]%list_elem_of_lookup _] Hid]. exists i. split; [|done]. apply list_elem_of_omap. exists (i, c).
    split; [apply (list_elem_of_lookup_2 _ i); by rewrite list_lookup_imap, Hi|]. cbn. by rewrite (proj2 (Z.eqb_eq _ _) Hid).
Qed.

(** C5. The contact store implements a bounded map: any sequence of lookups, entries, removals,
    adverts, receptions and changes of routes on it answers exactly as the same sequence on the
    book, and leaves the store whose book is the one the sequence leaves; the number of
    contacts is the size of the book, within its capacity, and the contacts tried for a
    first key byte are exactly those of the book that have it. *)
Theorem contacts_implement_book ops s answers s' :
  store_ok s -> Forall op_ok ops -> perform exec ops s = (answers, s') ->
  perform (promise (cs_max_contacts s) (cs_self s)) ops (book s) = (answers, book s') /\
  size (book s') = length (cs_contacts s') /\ (size (book s') <= cs_max_contacts s)%nat /\
  (forall id c, (exists i, i ∈ by_id id s' /\ contact_at i s' = Some c) <->
     book s' !! c_pubkey c = Some c /\ contact_id c = id).
Proof.
  intros Hok Hops. revert s answers s' Hok. induction Hops as [|op ops Hop _ IH]; intros s answers s' Hok; cbn [perform].
  - intros [= <- <-]. split; [done|]. rewrite (book_size s Hok). split_and!; [done|apply Hok|]. intros id c. by apply by_id_spec.
  - pose proof (step_simulates op s Hok Hop) as Hs. unfold simulates in Hs. destruct (exec op s) as [a s1].
    destruct Hs as (Hb & Hok1 & Hm & Hself). destruct (perform exec ops s1) as [rest s2] eqn:E. intros [= <- <-].
    destruct (IH _ _ _ Hok1 E) as (Hr & Hrest). rewrite Hm in Hr, Hrest. rewrite Hself in Hr. by rewrite Hb, Hr.
Qed.
End book.
