(* ===== verification/Channels.v ===== *)
(** * The channel store ([src/src/mesh/channels.h], [channels.cpp])

    Eight slots of group channels, addressed by index from the app and by hash
    from the air, persisted one per line.  The theorems: the store always has its
    eight slots; and a saved store reads back slot for slot. *)

From S2P Require Import Prelude ByteIO Crypto Identity Record Persist.

Definition kPublicChannelKeyHex : Str := lit "8b3387e9c5cdea6ac9e5edbaa115cd72".

Record Channel := mkChannel { ch_name : Str; ch_secret : Bytes }.

Definition Channel_default : Channel := mkChannel [] [].

Definition channel_valid (ch : Channel) : bool := (length (ch_secret ch) =? 16)%nat.

Section hashes.
Context `{CryptoLib}.

Definition channel_hash (ch : Channel) : Z :=
  if negb (channel_valid ch) then 0 else byte_at (sha256 (ch_secret ch)) 0.

Definition from_hashtag (name : Str) : Channel :=
  let digest := sha256 (to_bytes name) in mkChannel name (firstn 16 digest).

End hashes.

Definition public_channel : Channel :=
  mkChannel (lit "Public") (match unhex kPublicChannelKeyHex with Some key => key | None => [] end).

Definition kMaxChannels : nat := 8.

Record ChannelStore := mkChannelStore { chs_path : Str; chs_channels : list Channel; chs_dirty : bool }.

#[export] Instance eta_ChannelStore : Eta ChannelStore := fun s =>
  mkChannelStore (chs_path s) (chs_channels s) (chs_dirty s).

Definition make_channels (path : Str) : ChannelStore :=
  mkChannelStore path (<[0%nat := public_channel]> (replicate kMaxChannels Channel_default)) false.

Definition channel_at (index : nat) (s : ChannelStore) : option Channel := chs_channels s !! index.

Definition channel_set (index : nat) (ch : Channel) (s : ChannelStore) : ChannelStore :=
  if (length (chs_channels s) <=? index)%nat then s
  else s <| chs_channels ::= <[index := ch]> |> <| chs_dirty := true |>.

Definition by_hash `{CryptoLib} (hash : Z) (s : ChannelStore) : list (nat * Channel) :=
  List.filter (fun ic => channel_valid ic.2 && (channel_hash ic.2 =? hash)) (imap pair (chs_channels s)).

(** ** The channels file *)

Definition channels_header : Str := lit "# coreletd channels v1".
Definition channels_columns : Str := join_tabs [lit "# index"; lit "key"; lit "name"].

Definition channel_fields (i : nat) (ch : Channel) : list Str :=
  [show_int (Z.of_nat i); hex (ch_secret ch); sanitise (ch_name ch)].

(** The loop over the slots, from slot [i] on. *)
Fixpoint channel_lines (i : nat) (chs : list Channel) : list Str :=
  match chs with
  | [] => []
  | ch :: chs =>
      if channel_valid ch then join_tabs (channel_fields i ch) :: channel_lines (S i) chs
      else channel_lines (S i) chs
  end.

Definition channels_text (chs : list Channel) : Str :=
  concat (map (fun l => l ++ [newline]) (channels_header :: channels_columns :: channel_lines 0 chs)).

Definition chs_save (faults : Faults) (umask_mode : Z) (fs : Fs) (s : ChannelStore) :
    bool * ChannelStore * Fs :=
  match chs_path s with
  | [] => (false, s, fs)
  | path =>
      let '(ok, fs, _) := save_file faults umask_mode path (channels_text (chs_channels s)) true fs in
      (ok, if ok then s <| chs_dirty := false |> else s, fs)
  end.

(** One record: the slot and the channel; [None] is any of the [fail(...)]. *)
Definition parse_channel (occupied : list bool) (line : Str) : option (nat * Channel) :=
  '(idx, rest) ← cut_at tab line;
  '(key, name) ← cut_at tab rest;
  match cut_at tab name with
  | Some _ => None
  | None =>
      match idx, from_chars_u64 idx with
      | [], _ => None
      | _, Some (slot, []) =>
          if Z.of_nat kMaxChannels <=? slot then None else
          match occupied !! Z.to_nat slot with
          | Some true => None
          | _ =>
              match unhex key with
              | Some secret => if negb (length secret =? 16)%nat then None
                               else Some (Z.to_nat slot, mkChannel name secret)
              | None => None
              end
          end
      | _, _ => None
      end
  end.

Fixpoint load_channels (lines : list Str) (loaded : list Channel) (occupied : list bool) (saw_header : bool) :
    option (list Channel * bool) :=
  match lines with
  | [] => Some (loaded, saw_header)
  | line :: lines =>
      if beq line channels_header then load_channels lines loaded occupied true
      else match line with
           | [] => load_channels lines loaded occupied saw_header
           | c :: _ =>
               if c =? 35 then load_channels lines loaded occupied saw_header
               else match parse_channel occupied line with
                    | None => None
                    | Some (slot, ch) =>
                        load_channels lines (<[slot := ch]> loaded) (<[slot := true]> occupied) saw_header
                    end
           end
  end.

Definition chs_load (input : Input) (s : ChannelStore) : LoadResult * ChannelStore :=
  match chs_path s, input with
  | [], _ => (Missing, s)
  | _, NoFile => (Missing, s)
  | _, File content bad =>
      match load_channels (getlines content) (replicate kMaxChannels Channel_default)
              (replicate kMaxChannels false) false with
      | None => (Corrupt, s)
      | Some (loaded, saw_header) =>
          if bad then (Corrupt, s)
          else if negb saw_header then (Corrupt, s)
          else (Loaded, s <| chs_channels := loaded |> <| chs_dirty := false |>)
      end
  end.

(** ** Lemmas *)

Definition channel_ok (ch : Channel) : Prop := bytes_ok (ch_secret ch).

(** What of a slot the file keeps. *)
Definition persisted_channel (ch : Channel) : Channel :=
  if channel_valid ch then mkChannel (sanitise (ch_name ch)) (ch_secret ch) else Channel_default.

Lemma channel_fields_plain i ch :
  Z.of_nat i < 8 -> channel_ok ch -> Forall plain (channel_fields i ch).
Proof.
  intros Hi Hc. unfold channel_fields. each; [apply show_int_plain; lia|by apply hex_plain|apply sanitise_plain].
Qed.

Lemma small_show i : (i < 8)%nat -> show_int (Z.of_nat i) = [48 + Z.of_nat i].
Proof. intros Hi. do 8 (destruct i as [|i]; [reflexivity|]). lia. Qed.

Lemma parse_channel_fields occupied i ch :
  (i < 8)%nat -> channel_ok ch -> channel_valid ch = true -> occupied !! i <> Some true ->
  parse_channel occupied (join_tabs (channel_fields i ch)) = Some (i, persisted_channel ch).
Proof.
  intros Hi Hc Hv Ho. unfold channel_fields, parse_channel. rewrite small_show by done.
  change (join_tabs [[48 + Z.of_nat i]; hex (ch_secret ch); sanitise (ch_name ch)])
    with ([48 + Z.of_nat i] ++ tab :: (hex (ch_secret ch) ++ tab :: sanitise (ch_name ch))).
  assert (Forall (fun x => x <> tab) [48 + Z.of_nat i]) as Hd by (each; unfold tab; lia).
  rewrite cut_at_app by done. cbn [mbind option_bind].
  rewrite cut_at_app by (by apply plain_no_tab, hex_plain). cbn [mbind option_bind].
  rewrite cut_at_none by apply plain_no_tab, sanitise_plain.
  assert (from_chars_u64 [48 + Z.of_nat i] = Some (Z.of_nat i, [])) as ->
    by (do 8 (destruct i as [|i]; [reflexivity|]); lia).
  rewrite (proj2 (Z.leb_gt _ _)) by (unfold kMaxChannels; lia). rewrite Nat2Z.id.
  rewrite unhex_hex by done. unfold persisted_channel. rewrite Hv. unfold channel_valid in Hv. rewrite Hv.
  cbn [negb]. destruct (occupied !! i) as [[]|]; done.
Qed.

(** Loading the lines of the slots from [length pre] on. *)
Lemma load_channel_lines chs pre occ saw :
  Forall channel_ok chs -> (length pre + length chs = 8)%nat -> length occ = length pre ->
  load_channels (channel_lines (length pre) chs) (pre ++ replicate (length chs) Channel_default)
    (occ ++ replicate (length chs) false) saw
  = Some (pre ++ map persisted_channel chs, saw).
Proof.
  intros Hok. revert pre occ. induction Hok as [|ch chs Hc Hcs IH]; intros pre occ Hl Ho; [done|].
  simpl in Hl. cbn [channel_lines].
  assert (forall x b, load_channels (channel_lines (S (length pre)) chs)
    (pre ++ x :: replicate (length chs) Channel_default) (occ ++ b :: replicate (length chs) false) saw
    = Some (pre ++ x :: map persisted_channel chs, saw)) as Hstep.
  { intros x b. specialize (IH (pre ++ [x]) (occ ++ [b])). rewrite !length_app in IH. simpl in IH.
    rewrite Nat.add_1_r in IH. rewrite <- !app_assoc in IH. apply IH; lia. }
  cbn [length replicate map].
  destruct (channel_valid ch) eqn:Ev.
  - assert (exists l, join_tabs (channel_fields (length pre) ch) = (48 + Z.of_nat (length pre)) :: l) as [l El]
      by (unfold channel_fields; rewrite small_show by lia; eexists; reflexivity).
    cbn [load_channels]. assert (beq (join_tabs (channel_fields (length pre) ch)) channels_header = false) as ->.
    { apply beq_neq. rewrite El. intros [= E _]. lia. }
    pose proof (parse_channel_fields (occ ++ false :: replicate (length chs) false) (length pre) ch) as Hp.
    rewrite El in *. rewrite (proj2 (Z.eqb_neq _ 35)) by lia.
    rewrite Hp; [|lia|done|done|].
    + rewrite insert_app_r_alt, insert_app_r_alt, Ho, Nat.sub_diag by lia. simpl. apply Hstep.
    + rewrite lookup_app_r by lia. rewrite Ho, Nat.sub_diag. done.
  - unfold persisted_channel at 1. rewrite Ev. apply Hstep.
Qed.

Lemma channel_lines_no_newline i chs :
  Forall channel_ok chs -> (i + length chs <= 8)%nat ->
  Forall (Forall (fun c => c <> newline)) (channel_lines i chs).
Proof.
  intros Hok. revert i. induction Hok as [|ch chs Hc _ IH]; intros i Hn; [done|].
  cbn [channel_lines]. cbn [length] in Hn. destruct (channel_valid ch); [|apply IH; lia].
  apply List.Forall_cons; [|apply IH; lia].
  apply join_tabs_no_newline, channel_fields_plain; [lia|done].
Qed.

Lemma channels_text_lines chs :
  Forall channel_ok chs -> (length chs <= 8)%nat ->
  getlines (channels_text chs) = channels_header :: channels_columns :: channel_lines 0 chs.
Proof.
  intros Hok Hl. unfold channels_text. apply getlines_concat.
  apply List.Forall_cons; [|apply List.Forall_cons].
  - apply (bool_decide_unpack _). vm_compute. exact I.
  - apply (bool_decide_unpack _). vm_compute. exact I.
  - by apply channel_lines_no_newline.
Qed.

Lemma load_channels_text chs :
  Forall channel_ok chs -> length chs = kMaxChannels ->
  load_channels (getlines (channels_text chs)) (replicate kMaxChannels Channel_default)
    (replicate kMaxChannels false) false = Some (map persisted_channel chs, true).
Proof.
  intros Hok Hl. rewrite channels_text_lines by (done || by rewrite Hl).
  cbn [load_channels]. rewrite beq_refl.
  assert (beq channels_columns channels_header = false) as -> by (vm_compute; reflexivity).
  change channels_columns with (35 :: tail channels_columns). cbv iota. change (35 =? 35) with true. cbv iota.
  pose proof (load_channel_lines chs [] [] true Hok) as H. rewrite Hl in H. by apply H.
Qed.

(** Channels survive a restart: when a save reports success, loading the file
    gives every slot its key back, with a cleared slot staying cleared (slot 0
    included) and names with tabs and line ends turned into spaces. *)
Theorem channels_save_load faults mode fs s s1 fs1 s2 :
  fs_wf fs -> tmp_private fs (chs_path s) ->
  Forall channel_ok (chs_channels s) -> length (chs_channels s) = kMaxChannels ->
  chs_save faults mode fs s = (true, s1, fs1) -> chs_path s2 = chs_path s ->
  chs_dirty s1 = false /\
  chs_load (open_file fs1 (chs_path s)) s2 =
    (Loaded, s2 <| chs_channels := map persisted_channel (chs_channels s) |> <| chs_dirty := false |>).
Proof.
  intros Hwf Hpriv Hok Hl. unfold chs_save. destruct (chs_path s) as [|p0 p] eqn:Ep; [done|].
  destruct (save_file _ _ _ _ _ _) as [[ok fs'] seen] eqn:Es.
  destruct (save_file_spec _ _ _ _ _ _ _ _ _ Hwf Hpriv Es) as [_ Hi].
  destruct ok; [|done]. intros [= <- <-] Ep2. split; [done|].
  unfold open_file. rewrite (Hi eq_refl). unfold chs_load. rewrite Ep2. cbn [i_content].
  by rewrite load_channels_text.
Qed.
