(* ===== verification/Inbox.v ===== *)
(** * The message queue and the state writer
    ([src/src/mesh/inbox.h], [inbox.cpp], [state_writer.h], [state_writer.cpp])

    Received messages wait here until the app collects them.  [store] commits to
    disk before it returns, because the acknowledgement goes out straight after;
    [pop] is persisted lazily by the [StateWriter], which coalesces the writes of
    the three stores.  The theorems: the queue is first-in first-out and keeps the
    newest messages within its limit; a message whose [store] returned true is read
    back by a later [load], last in the queue; a flush that reports success leaves
    nothing dirty. *)

From S2P Require Import Prelude ByteIO Floats Crypto Identity Packet Payloads Record Persist Contacts Channels.

Record StoredMessage := mkStored {
  sm_is_channel : bool;
  sm_sender_pubkey : Bytes;
  sm_channel_index : Z;
  sm_timestamp : Z;
  sm_txt_type : Z;
  sm_text : Str;
  sm_snr_q4 : Z;
  sm_path_len : Z;
}.

Definition kDefaultLimit : nat := 256.

Record MessageInbox := mkInbox {
  mi_path : Str;
  mi_messages : list StoredMessage;
  mi_limit : nat;
  mi_dropped : Z;
  mi_dirty : bool;
}.

#[export] Instance eta_MessageInbox : Eta MessageInbox := fun m =>
  mkInbox (mi_path m) (mi_messages m) (mi_limit m) (mi_dropped m) (mi_dirty m).

(** [while (messages.size() > limit) { dropped++; messages.pop_front(); }] *)
Fixpoint evict (fuel : nat) (limit : nat) (ms : list StoredMessage) (dropped : Z) : list StoredMessage * Z :=
  match fuel with
  | O => (ms, dropped)
  | S fuel => if (limit <? length ms)%nat then evict fuel limit (tail ms) (u32 (dropped + 1)) else (ms, dropped)
  end.

Definition pop (m : MessageInbox) : option StoredMessage * MessageInbox :=
  match mi_messages m with
  | [] => (None, m)
  | x :: rest => (Some x, m <| mi_messages := rest |> <| mi_dirty := true |>)
  end.

(** ** The messages file *)

Definition kHeader : Str := lit "# coreletd messages v1".
Definition kFields : nat := 8.
Definition messages_columns : Str :=
  join_tabs [lit "# kind"; lit "peer"; lit "channel"; lit "timestamp"; lit "txt_type"; lit "snr_q4";
             lit "path_len"; lit "text_hex"].

Definition sender_field (key : Bytes) : Str := match key with [] => lit "-" | _ => hex key end.

Definition message_fields (m : StoredMessage) : list Str :=
  [if sm_is_channel m then lit "channel" else lit "direct";
   sender_field (sm_sender_pubkey m);
   show_int (sm_channel_index m); show_int (sm_timestamp m); show_int (sm_txt_type m);
   show_int (sm_snr_q4 m); show_int (sm_path_len m); hex (sm_text m)].

Definition messages_text (ms : list StoredMessage) : Str :=
  concat (map (fun l => l ++ [newline])
    (kHeader :: messages_columns :: map (fun m => join_tabs (message_fields m)) ms)).

Definition mi_save (faults : Faults) (umask_mode : Z) (fs : Fs) (m : MessageInbox) :
    bool * MessageInbox * Fs :=
  match mi_path m with
  | [] => (false, m, fs)
  | path =>
      let '(ok, fs, _) := save_file faults umask_mode path (messages_text (mi_messages m)) true fs in
      (ok, if ok then m <| mi_dirty := false |> else m, fs)
  end.

Definition store (faults : Faults) (umask_mode : Z) (fs : Fs) (msg : StoredMessage) (m : MessageInbox) :
    bool * MessageInbox * Fs :=
  let ms := mi_messages m ++ [msg] in
  let '(ms, dropped) := evict (length ms) (mi_limit m) ms (mi_dropped m) in
  let m := m <| mi_messages := ms |> <| mi_dropped := dropped |> <| mi_dirty := true |> in
  match mi_path m with
  | [] => (true, m, fs)
  | _ => mi_save faults umask_mode fs m
  end.

Definition parse_kind (f : Str) : option bool :=
  if beq f (lit "channel") then Some true else if beq f (lit "direct") then Some false else None.

Definition parse_sender (is_channel : bool) (f : Str) : option Bytes :=
  if negb (beq f (lit "-"))
  then match unhex f with
       | Some pubkey => if negb (length pubkey =? kPubKeySize)%nat then None else Some pubkey
       | None => None
       end
  else if negb is_channel then None else Some [].

(** One record; [None] is any of the [fail(...)] returns. *)
Definition parse_message (line : Str) : option StoredMessage :=
  match split_fields line kFields with
  | Some [f0; f1; f2; f3; f4; f5; f6; f7] =>
      is_channel ← parse_kind f0;
      sender ← parse_sender is_channel f1;
      channel ← parse_unsigned f2 255;
      timestamp ← parse_unsigned f3 (2 ^ 32 - 1);
      txt_type ← parse_unsigned f4 255;
      snr ← parse_signed f5 (-128) 127;
      path_len ← parse_unsigned f6 255;
      text ← unhex f7;
      Some (mkStored is_channel sender (u8 channel) (u32 timestamp) (u8 txt_type) text (i8 snr) (u8 path_len))
  | _ => None
  end.

Fixpoint load_messages (lines : list Str) (loaded : list StoredMessage) (saw_header : bool) :
    option (list StoredMessage * bool) :=
  match lines with
  | [] => Some (loaded, saw_header)
  | line :: lines =>
      if beq line kHeader then load_messages lines loaded true
      else match line with
           | [] => load_messages lines loaded saw_header
           | c :: _ =>
               if c =? 35 then load_messages lines loaded saw_header
               else match parse_message line with
                    | None => None
                    | Some m => load_messages lines (loaded ++ [m]) saw_header
                    end
           end
  end.

(** Unlike the other stores, [MessageInbox::load] does not look at [in.bad()]. *)
Definition mi_load (input : Input) (m : MessageInbox) : LoadResult * MessageInbox :=
  match mi_path m, input with
  | [], _ => (Missing, m)
  | _, NoFile => (Missing, m)
  | _, File content _ =>
      match load_messages (getlines content) [] false with
      | None => (Corrupt, m)
      | Some (loaded, saw_header) =>
          if negb saw_header then (Corrupt, m)
          else
            let '(loaded, dropped) := evict (length loaded) (mi_limit m) loaded (mi_dropped m) in
            (Loaded, m <| mi_messages := loaded |> <| mi_dropped := dropped |> <| mi_dirty := false |>)
      end
  end.

(** ** The state writer *)

(** Both timers are registrations on the event loop: armed or not. *)
Record StateWriter := mkStateWriter {
  sw_coalesce_ms : Z;
  sw_sweep : bool;
  sw_pending : option Z;  (** due instant of the coalesced write *)
  sw_healthy : bool;
}.

#[export] Instance eta_StateWriter : Eta StateWriter := fun w =>
  mkStateWriter (sw_coalesce_ms w) (sw_sweep w) (sw_pending w) (sw_healthy w).

Definition kCoalesceMs : Z := 1000.
Definition kSweepMs : Z := 60000.

Definition make_writer (coalesce_ms : Z) : StateWriter := mkStateWriter coalesce_ms false None true.

Definition writer_start (w : StateWriter) : StateWriter :=
  if sw_sweep w then w else w <| sw_sweep := true |>.

Definition request_save (now : Z) (w : StateWriter) : StateWriter :=
  match sw_pending w with
  | Some _ => w
  | None => w <| sw_pending := Some (u32 (now + sw_coalesce_ms w)) |>
  end.

(** The three stores the writer holds by reference. *)
Record Stores := mkStores { contacts_ : ContactStore; channels_ : ChannelStore; inbox_ : MessageInbox }.

(** [flush] with the faults of each of the three saves. *)
Definition flush (f1 f2 f3 : Faults) (umask_mode : Z) (fs : Fs) (st : Stores) (w : StateWriter) :
    bool * Stores * StateWriter * Fs :=
  let '(ok1, c, fs) := if cs_dirty (contacts_ st) then cs_save f1 umask_mode fs (contacts_ st)
                       else (true, contacts_ st, fs) in
  let '(ok2, ch, fs) := if chs_dirty (channels_ st) then chs_save f2 umask_mode fs (channels_ st)
                        else (true, channels_ st, fs) in
  let '(ok3, i, fs) := if mi_dirty (inbox_ st) then mi_save f3 umask_mode fs (inbox_ st)
                       else (true, inbox_ st, fs) in
  let ok := ok3 && (ok2 && ok1) in
  (ok, mkStores c ch i, w <| sw_healthy := ok |>, fs).

(** The coalescing timer fires. *)
Definition on_pending_timer (f1 f2 f3 : Faults) (umask_mode : Z) (fs : Fs) (st : Stores) (w : StateWriter) :
    bool * Stores * StateWriter * Fs :=
  flush f1 f2 f3 umask_mode fs st (w <| sw_pending := None |>).

(** ** Lemmas: the queue *)

Lemma evict_spec fuel limit ms d :
  (length ms <= limit + fuel)%nat ->
  (evict fuel limit ms d).1 = drop (length ms - limit) ms /\
  ((length (evict fuel limit ms d).1 <= limit)%nat).
Proof.
  revert ms d. induction fuel as [|fuel IH]; intros ms d Hl; simpl.
  - replace (length ms - limit)%nat with 0%nat by lia. rewrite drop_0. split; [done|lia].
  - destruct (Nat.ltb_spec limit (length ms)) as [H|H]; simpl.
    + destruct ms as [|x ms]; simpl in *; [lia|]. destruct (IH ms (u32 (d + 1))) as [-> Hb]; [lia|].
      replace (S (length ms) - limit)%nat with (S (length ms - limit)) by lia. simpl. split; [done|].
      rewrite length_drop. lia.
    + replace (length ms - limit)%nat with 0%nat by lia. rewrite drop_0. split; [done|lia].
Qed.

(** ** Lemmas: the file *)

Record message_ok (m : StoredMessage) : Prop := {
  mo_sender : (sm_sender_pubkey m = [] /\ sm_is_channel m = true) \/ length (sm_sender_pubkey m) = kPubKeySize;
  mo_bytes : bytes_ok (sm_sender_pubkey m) /\ bytes_ok (sm_text m);
  mo_small : is_u8 (sm_channel_index m) /\ is_u8 (sm_txt_type m) /\ is_u8 (sm_path_len m);
  mo_time : is_u32 (sm_timestamp m);
  mo_snr : is_i8 (sm_snr_q4 m);
}.

Lemma message_fields_plain m : message_ok m -> Forall plain (message_fields m).
Proof.
  intros [Hs [Hb Ht] (H1 & H2 & H3) Hts Hsn]. unfold message_fields.
  each; try (apply show_int_plain; width); try (by apply hex_plain).
  - destruct (sm_is_channel m); unfold plain; simpl; each; unfold tab, newline; lia.
  - unfold sender_field. destruct (sm_sender_pubkey m) eqn:E; [|by apply hex_plain]. unfold plain. simpl. each; unfold tab, newline; lia.
Qed.

Lemma parse_sender_field is_channel key :
  (key = [] /\ is_channel = true) \/ length key = kPubKeySize -> bytes_ok key ->
  parse_sender is_channel (sender_field key) = Some key.
Proof.
  intros Hs Hb. unfold parse_sender, sender_field. destruct key as [|b k].
  - destruct Hs as [[_ ->]|Hs]; [vm_compute; reflexivity|done].
  - rewrite hex_not_word; [|done|apply word_not_hex, Exists_cons_hd; unfold is_hex_char; simpl; lia].
    cbn [negb]. rewrite unhex_hex by done.
    destruct Hs as [[? _]|Hs]; [done|]. by rewrite (proj2 (Nat.eqb_eq _ _) Hs).
Qed.

Lemma parse_message_fields m : message_ok m -> parse_message (join_tabs (message_fields m)) = Some m.
Proof.
  intros Hok. pose proof (message_fields_plain m Hok) as Hp. unfold parse_message.
  change kFields with (length (message_fields m)). rewrite split_join by done.
  destruct Hok as [Hs [Hb Ht] (H1 & H2 & H3) Hts Hsn]. unfold message_fields.
  assert (parse_kind (if sm_is_channel m then lit "channel" else lit "direct") = Some (sm_is_channel m)) as ->
    by (destruct (sm_is_channel m); vm_compute; reflexivity).
  cbn [mbind option_bind]. rewrite (parse_sender_field (sm_is_channel m) (sm_sender_pubkey m)) by done. cbn [mbind option_bind].
  rewrite !parse_show_unsigned by width. cbn [mbind option_bind].
  rewrite parse_show_signed by width. cbn [mbind option_bind].
  rewrite unhex_hex by done. cbn [mbind option_bind].
  rewrite !u8_small, u32_small, i8_small by done. by destruct m.
Qed.

Lemma message_line_start m :
  exists x l, join_tabs (message_fields m) = x :: l /\ (x = 99 \/ x = 100).
Proof.
  unfold message_fields. destruct (sm_is_channel m); eexists _, _; (split; [reflexivity|]); [by left|by right].
Qed.

Lemma load_messages_records ms loaded saw :
  Forall message_ok ms ->
  load_messages (map (fun m => join_tabs (message_fields m)) ms) loaded saw = Some (loaded ++ ms, saw).
Proof.
  intros Hok. revert loaded. induction Hok as [|m ms Hm _ IH]; intros loaded; cbn [map load_messages].
  { by rewrite app_nil_r. }
  destruct (message_line_start m) as (x & l & El & Hx).
  assert (beq (join_tabs (message_fields m)) kHeader = false) as ->.
  { apply beq_neq. rewrite El. intros [= -> _]. lia. }
  pose proof (parse_message_fields m Hm) as Hp. rewrite El in *.
  rewrite (proj2 (Z.eqb_neq x 35)) by lia. rewrite Hp, IH. by rewrite <- app_assoc.
Qed.

Lemma load_messages_text ms :
  Forall message_ok ms -> load_messages (getlines (messages_text ms)) [] false = Some (ms, true).
Proof.
  intros Hok. unfold messages_text. rewrite getlines_concat.
  - cbn [load_messages]. rewrite beq_refl.
    assert (beq messages_columns kHeader = false) as -> by (vm_compute; reflexivity).
    change messages_columns with (35 :: tail messages_columns). cbv iota. change (35 =? 35) with true. cbv iota.
    by rewrite load_messages_records.
  - apply List.Forall_cons; [|apply List.Forall_cons].
    + apply (bool_decide_unpack _). vm_compute. exact I.
    + apply (bool_decide_unpack _). vm_compute. exact I.
    + apply Forall_map. eapply Forall_impl; [|exact Hok].
      intros m Hm. by apply join_tabs_no_newline, message_fields_plain.
Qed.

Lemma mi_save_load faults mode fs m m1 fs1 m2 :
  fs_wf fs -> tmp_private fs (mi_path m) -> Forall message_ok (mi_messages m) ->
  (length (mi_messages m) <= mi_limit m2)%nat ->
  mi_save faults mode fs m = (true, m1, fs1) -> mi_path m2 = mi_path m ->
  mi_dirty m1 = false /\
  mi_load (open_file fs1 (mi_path m)) m2 =
    (Loaded, m2 <| mi_messages := mi_messages m |> <| mi_dirty := false |>).
Proof.
  intros Hwf Hpriv Hok Hl. unfold mi_save. destruct (mi_path m) as [|p0 p] eqn:Ep; [done|].
  destruct (save_file _ _ _ _ _ _) as [[ok fs'] seen] eqn:Es.
  destruct (save_file_spec _ _ _ _ _ _ _ _ _ Hwf Hpriv Es) as [_ Hi].
  destruct ok; [|done]. intros [= <- <-] Ep2. split; [done|].
  unfold open_file. rewrite (Hi eq_refl). unfold mi_load. rewrite Ep2. cbn [i_content].
  rewrite load_messages_text by done. cbn [negb].
  assert (evict (length (mi_messages m)) (mi_limit m2) (mi_messages m) (mi_dropped m2)
    = (mi_messages m, mi_dropped m2)) as -> by (destruct (mi_messages m); simpl in *; [done|];
      by rewrite (proj2 (Nat.ltb_ge _ _)) by lia).
  done.
Qed.

(** C33. Delivery is committed before it is acknowledged: when [store] returns true
    for a queue with a file, the file holds the whole queue as it now stands, the
    new message last, and loading it after a crash gives exactly that queue (the
    newest messages within the limit). *)
Theorem stored_message_survives faults mode fs msg m m1 fs1 m2 :
  fs_wf fs -> tmp_private fs (mi_path m) -> mi_path m <> [] -> (1 <= mi_limit m)%nat ->
  Forall message_ok (mi_messages m) -> message_ok msg ->
  store faults mode fs msg m = (true, m1, fs1) ->
  mi_path m2 = mi_path m -> mi_limit m2 = mi_limit m ->
  mi_messages m1 = drop (S (length (mi_messages m)) - mi_limit m) (mi_messages m ++ [msg]) /\
  (exists older, mi_messages m1 = older ++ [msg]) /\
  mi_load (open_file fs1 (mi_path m)) m2 =
    (Loaded, m2 <| mi_messages := mi_messages m1 |> <| mi_dirty := false |>).
Proof.
  intros Hwf Hpriv Hp Hlim Hok Hmsg. unfold store.
  destruct (evict_spec (length (mi_messages m ++ [msg])) (mi_limit m) (mi_messages m ++ [msg]) (mi_dropped m))
    as [He Hb]; [lia|].
  destruct (evict _ _ _ _) as [ms dropped] eqn:Ee. cbn [fst] in He, Hb.
  rewrite length_app, Nat.add_1_r in He.
  set (mx := m <| mi_messages := ms |> <| mi_dropped := dropped |> <| mi_dirty := true |>).
  change (mi_path mx) with (mi_path m). destruct (mi_path m) as [|p0 p] eqn:Ep; [done|]. rewrite <- Ep in *.
  intros Hs Ep2 El2.
  assert (Forall message_ok ms) as Hms by (rewrite He; apply Forall_drop, Forall_app; split; [done|by each]).
  assert (mi_messages m1 = ms) as Em.
  { unfold mi_save in Hs. change (mi_path mx) with (mi_path m) in Hs. rewrite Ep in Hs.
    destruct (save_file _ _ _ _ _ _) as [[ok fs'] seen]. injection Hs as -> <- <-. done. }
  destruct (mi_save_load faults mode fs mx m1 fs1 m2) as [_ HL]; try done; [by rewrite El2|].
  rewrite Em. split_and!; [done| |exact HL].
  rewrite He. rewrite drop_app_le by lia. eauto.
Qed.

(** A flush that reports success leaves nothing to write, and one that does
    not leaves every store it could not write dirty, so that the next sweep tries
    again; [healthy()] is the last answer. *)
Theorem flush_reports_truthfully f1 f2 f3 mode fs st w ok st' w' fs' :
  flush f1 f2 f3 mode fs st w = (ok, st', w', fs') ->
  sw_healthy w' = ok /\
  (ok = true <-> cs_dirty (contacts_ st') = false /\ chs_dirty (channels_ st') = false /\
                 mi_dirty (inbox_ st') = false) /\
  cs_contacts (contacts_ st') = cs_contacts (contacts_ st) /\
  chs_channels (channels_ st') = chs_channels (channels_ st) /\
  mi_messages (inbox_ st') = mi_messages (inbox_ st).
Proof.
  unfold flush.
  destruct (if cs_dirty (contacts_ st) then _ else _) as [[ok1 c] fs1] eqn:E1.
  destruct (if chs_dirty (channels_ st) then _ else _) as [[ok2 ch] fs2] eqn:E2.
  destruct (if mi_dirty (inbox_ st) then _ else _) as [[ok3 i] fs3] eqn:E3.
  assert (cs_dirty c = negb ok1 /\ cs_contacts c = cs_contacts (contacts_ st)) as [D1 C1].
  { destruct (cs_dirty (contacts_ st)) eqn:D; [|by injection E1 as <- <- <-].
    unfold cs_save in E1. repeat case_match; by simplify_eq/=. }
  assert (chs_dirty ch = negb ok2 /\ chs_channels ch = chs_channels (channels_ st)) as [D2 C2].
  { destruct (chs_dirty (channels_ st)) eqn:D; [|by injection E2 as <- <- <-].
    unfold chs_save in E2. repeat case_match; by simplify_eq/=. }
  assert (mi_dirty i = negb ok3 /\ mi_messages i = mi_messages (inbox_ st)) as [D3 C3].
  { destruct (mi_dirty (inbox_ st)) eqn:D; [|by injection E3 as <- <- <-].
    unfold mi_save in E3. repeat case_match; by simplify_eq/=. }
  intros [= <- <- <- <-]. simpl. rewrite D1, D2, D3. split_and!; try done.
  destruct ok1, ok2, ok3; simpl; intuition congruence.
Qed.
