(* ===== verification/Disk.v ===== *)
(** * What the stores have on disk

    The three stores share one contract: a store that is not marked dirty is on disk, so that
    loading its file gives it back.  Saves are sequences of steps on the file system
    ([saving]), each of which leaves other files alone and the temporaries private; the class
    [Saved] states what the daemon needs of a store, and the three stores implement it. *)

From S2P Require Import Prelude ByteIO Floats Crypto Identity Packet Record Persist Contacts Channels Inbox.

#[local] Arguments lit : simpl never.

(** ** The steps of a save *)

Section saving.
Variable q : Str.
Abbreviation tmp := (q ++ lit ".tmp").
Abbreviation bak := (q ++ lit ".bak").

(** One system call of a save at [q]. *)
Inductive saving : Fs -> Fs -> Prop :=
| sv_write t f fs : names fs !! tmp = Some t -> saving fs (fs <| inodes ::= alter f t |>)
| sv_create x fs : names fs !! tmp = None ->
    saving fs (fs <| names ::= <[tmp := fresh_inode fs]> |> <| inodes ::= <[fresh_inode fs := x]> |>)
| sv_unlink p fs : p = tmp \/ p = bak -> saving fs (sys_unlink p fs)
| sv_link fs fs' : sys_link q bak fs = Some fs' -> saving fs fs'
| sv_rename fs fs' : sys_rename tmp q fs = Some fs' -> saving fs fs'.

Lemma durable_replace_saving faults kb fs ok fs' seen :
  durable_replace faults tmp q kb fs = (ok, fs', seen) -> rtc saving fs fs'.
Proof.
  unfold durable_replace. destruct (names fs !! tmp) as [t|] eqn:Et; [|intros [= <- <- <-]; done].
  destruct (f_open faults); [by intros [= <- <- <-]|]. destruct (f_fchmod faults); [by intros [= <- <- <-]|].
  set (fs1 := sys_fchmod t _ fs). assert (rtc saving fs fs1) as H1 by (by apply rtc_once, sv_write).
  destruct (f_fsync faults); [by intros [= <- <- <-]|].
  set (fs2 := sys_fsync t fs1). assert (rtc saving fs fs2) as H2 by (by eapply rtc_r; [exact H1|apply sv_write]).
  destruct (f_close faults); [by intros [= <- <- <-]|].
  fold (backup_steps faults q kb fs2). destruct (backup_steps faults q kb fs2) as [fs4 passed] eqn:Eb.
  assert (rtc saving fs fs4) as H4.
  { etrans; [exact H2|]. unfold backup_steps in Eb. destruct kb; [|by simplify_eq].
    set (fs3 := if f_unlink faults then fs2 else _) in *.
    assert (rtc saving fs2 fs3) as H3 by (subst fs3; destruct (f_unlink faults); [done|apply rtc_once, sv_unlink; by right]).
    etrans; [exact H3|]. simplify_eq/=. destruct (f_link faults); [done|].
    destruct (sys_link _ _ _) eqn:El; [by apply rtc_once, sv_link|done]. }
  destruct (if f_rename faults then _ else _) as [fs5|] eqn:Er; [|by intros [= <- <- <-]].
  intros [= <- <- <-]. eapply rtc_r; [exact H4|]. destruct (f_rename faults); [done|by apply sv_rename].
Qed.

Lemma save_file_saving faults mode text kb fs ok fs' seen :
  save_file faults mode q text kb fs = (ok, fs', seen) -> rtc saving fs fs'.
Proof.
  unfold save_file. destruct (f_create faults); [by intros [= <- <- <-]|].
  destruct (create_trunc _ _ _) as [t fs1] eqn:Ec.
  assert (rtc saving fs fs1 /\ names fs1 !! tmp = Some t) as [H1 Ht].
  { unfold create_trunc in Ec. destruct (names fs !! tmp) as [i|] eqn:Et; simplify_eq/=.
    - split; [by apply rtc_once, sv_write|done].
    - split; [by apply rtc_once, sv_create|]. by rewrite lookup_insert_eq. }
  destruct (f_write faults); [by intros [= <- <- <-]|].
  destruct (durable_replace _ _ _ _ _) as [[ok3 fs3] seen3] eqn:Ed. intros [= <- <- <-].
  etrans; [exact H1|]. apply (rtc_l _ _ (write_all t text fs1)); [by apply (sv_write t)|]. eapply durable_replace_saving, Ed.
Qed.
End saving.

(** ** What a save leaves alone *)

(** The temporaries [ts] have no other name. *)
Definition private (ts : list Str) (fs : Fs) : Prop :=
  forall t i p, t ∈ ts -> names fs !! t = Some i -> names fs !! p = Some i -> p = t.

Lemma private_tmp ts fs q : private ts fs -> q ++ lit ".tmp" ∈ ts -> tmp_private fs q.
Proof. intros Hp Hq i p H1 H2. by eapply Hp. Qed.

(** The temporary of [q] is among [ts], its other names are not. *)
Record tmp_among (ts : list Str) (q : Str) : Prop := {
  ta_tmp : q ++ lit ".tmp" ∈ ts;
  ta_path : q ∉ ts;
  ta_bak : q ++ lit ".bak" ∉ ts }.

Definition tidy (ts : list Str) (fs : Fs) : Prop := fs_wf fs /\ private ts fs.

Lemma fresh_unused fs p : fs_wf fs -> names fs !! p <> Some (fresh_inode fs).
Proof.
  intros Hwf E. destruct (Hwf _ _ E) as [x Hx].
  assert (inodes fs !! fresh_inode fs = None) by (unfold fresh_inode; apply not_elem_of_dom, is_fresh). congruence.
Qed.

Lemma saving_tidy ts q fs fs' : tmp_among ts q -> saving q fs fs' -> tidy ts fs -> tidy ts fs'.
Proof.
  intros [Ht Hq Hb] Hs [Hwf Hp]. destruct Hs as [t f fs Ett|x fs Ett|p fs Ep|fs fs' El|fs fs' Er].
  - split; [|done]. intros p i Hi. simpl in *. destruct (Hwf p i Hi) as [y Hy].
    destruct (decide (i = t)) as [->|]; [rewrite lookup_alter_eq, Hy|rewrite lookup_alter_ne by done]; eauto.
  - split.
    + intros p i Hi. simpl in *. apply lookup_insert_Some in Hi as [[<- <-]|[_ Hi]]; [rewrite lookup_insert_eq; eauto|].
      rewrite lookup_insert_ne; [by eapply Hwf|]. intros <-. by eapply fresh_unused.
    + intros u i p Hu Hi Hj. simpl in *. apply lookup_insert_Some in Hi as [[<- <-]|[Hne Hi]], Hj as [[E1 E2]|[_ Hj]].
      * done.
      * by apply fresh_unused in Hj.
      * subst i. by apply fresh_unused in Hi.
      * by eapply Hp.
  - split.
    + intros u i Hi. simpl in *. apply lookup_delete_Some in Hi as [_ Hi]. by eapply Hwf.
    + intros u i v Hu Hi Hj. simpl in *. apply lookup_delete_Some in Hi as [_ Hi], Hj as [_ Hj]. by eapply Hp.
  - unfold sys_link in El. destruct (names fs !! q) as [j|] eqn:Ej; [|done]. destruct (names fs !! (q ++ lit ".bak")); [done|].
    injection El as <-. split.
    + intros u i Hi. simpl in *. apply lookup_insert_Some in Hi as [[_ <-]|[_ Hi]]; by eapply Hwf.
    + intros u i v Hu Hi Hj. simpl in *. apply lookup_insert_Some in Hi as [[<- _]|[_ Hi]]; [done|].
      apply lookup_insert_Some in Hj as [[_ <-]|[_ Hj]]; [|by eapply Hp]. destruct Hq. by rewrite (Hp u j q Hu Hi Ej).
  - unfold sys_rename in Er. destruct (names fs !! (q ++ lit ".tmp")) as [j|] eqn:Ej; [|done]. injection Er as <-. split.
    + intros u i Hi. simpl in *. apply lookup_insert_Some in Hi as [[_ <-]|[_ [_ Hi]%lookup_delete_Some]]; by eapply Hwf.
    + intros u i v Hu Hi Hj. simpl in *. apply lookup_insert_Some in Hi as [[<- _]|[_ [Hne Hi]%lookup_delete_Some]]; [done|].
      apply lookup_insert_Some in Hj as [[_ <-]|[_ [_ Hj]%lookup_delete_Some]]; [|by eapply Hp].
      destruct Hne. by eapply Hp.
Qed.

(** [p] is none of the names a save at [q] uses. *)
Definition apart (p q : Str) : Prop := p <> q /\ p <> q ++ lit ".tmp" /\ p <> q ++ lit ".bak".

Lemma saving_elsewhere ts q p fs fs' :
  tmp_among ts q -> apart p q -> tidy ts fs -> saving q fs fs' -> lookup_file fs' p = lookup_file fs p.
Proof.
  intros [Ht _ _] (A1 & A2 & A3) [Hwf Hp] Hs. unfold lookup_file. destruct Hs as [t f fs Ett|x fs Ett|u fs Eu|fs fs' El|fs fs' Er]; simpl.
  - destruct (names fs !! p) as [i|] eqn:Ei; [|done]. simpl. apply lookup_alter_ne. intros ->. apply A2. by eapply Hp.
  - rewrite lookup_insert_ne by done. destruct (names fs !! p) as [i|] eqn:Ei; [|done]. simpl. apply lookup_insert_ne.
    intros <-. by eapply fresh_unused.
  - rewrite lookup_delete_ne; [done|]. by destruct Eu as [-> | ->].
  - unfold sys_link in El. destruct (names fs !! q); [|done]. destruct (names fs !! (q ++ lit ".bak")); [done|].
    injection El as <-. simpl. by rewrite lookup_insert_ne.
  - unfold sys_rename in Er. destruct (names fs !! (q ++ lit ".tmp")); [|done]. injection Er as <-. simpl.
    by rewrite lookup_insert_ne, lookup_delete_ne.
Qed.

Lemma saves_tidy ts q fs fs' : tmp_among ts q -> rtc (saving q) fs fs' -> tidy ts fs -> tidy ts fs'.
Proof. intros Ha. induction 1; eauto using saving_tidy. Qed.

Lemma saves_elsewhere ts q p fs fs' :
  tmp_among ts q -> apart p q -> tidy ts fs -> rtc (saving q) fs fs' -> lookup_file fs' p = lookup_file fs p.
Proof.
  intros Ha Hp Ht. induction 1 as [|fs fs1 fs' H1 _ IH]; [done|].
  rewrite IH by (by eapply saving_tidy). by eapply saving_elsewhere.
Qed.

(** ** The contract of a store *)

(** [sv_key] is the path and the limit, fixed at construction; [sv_cards] is what of the store
    its file sees, [sv_view] what of that the file keeps. *)
Class Saved (S C V : Type) := {
  sv_key : S -> Str * nat;
  sv_dirty : S -> bool;
  sv_cards : S -> C;
  sv_view : C -> V;
  sv_ok : nat -> C -> Prop;
  sv_load : Input -> S -> LoadResult * S;
  sv_save : Faults -> Z -> Fs -> S -> bool * S * Fs }.

(** What a save does: it works on its own path, changes nothing but the mark, clears it only
    when it reports success, and then a new store loads what the file keeps. *)
Class SavedLaws (S C V : Type) `{Saved S C V} : Prop := {
  save_keeps f mode fs s ok s' fs' : sv_save f mode fs s = (ok, s', fs') ->
    sv_key s' = sv_key s /\ sv_cards s' = sv_cards s /\ sv_dirty s' = (if ok then false else sv_dirty s) /\
    rtc (saving (sv_key s).1) fs fs';
  save_loads f mode fs s s' fs' s0 : fs_wf fs -> tmp_private fs (sv_key s).1 -> sv_ok (sv_key s).2 (sv_cards s) ->
    sv_key s0 = sv_key s -> sv_save f mode fs s = (true, s', fs') ->
    exists s2, sv_load (open_file fs' (sv_key s).1) s0 = (Loaded, s2) /\ sv_view (sv_cards s2) = sv_view (sv_cards s);
  load_key input s : sv_key (sv_load input s).2 = sv_key s;
  load_missing s : sv_load NoFile s = (Missing, s);
  load_corrupt input s s' : sv_load input s = (Corrupt, s') -> s' = s }.

Section on_disk.
Context {S C V : Type} `{SavedLaws S C V}.
Implicit Types (s : S) (fs : Fs).

(** A store that is not dirty is what its file gives to a new store [s0]. *)
Definition on_disk s0 fs s : Prop :=
  sv_key s = sv_key s0 /\
  (sv_dirty s = false -> sv_ok (sv_key s0).2 (sv_cards s) ->
   exists r s', sv_load (open_file fs (sv_key s0).1) s0 = (r, s') /\ r <> Corrupt /\ sv_view (sv_cards s') = sv_view (sv_cards s)).

(** Nothing the file sees has changed. *)
Definition same_cards s s' : Prop := sv_key s' = sv_key s /\ sv_dirty s' = sv_dirty s /\ sv_cards s' = sv_cards s.

#[export] Instance same_cards_equiv : Equivalence same_cards.
Proof. split; unfold same_cards; [done|intros ? ? (?&?&?); auto|intros ? ? ? (?&?&?) (?&?&?); split_and!; congruence]. Qed.

#[export] Instance on_disk_proper s0 fs : Proper (same_cards ==> iff) (on_disk s0 fs).
Proof. intros s s' (E1 & E2 & E3). unfold on_disk. by rewrite E1, E2, E3. Qed.

(** A change that is marked needs nothing of the disk. *)
Lemma on_disk_marked s0 fs s s' : on_disk s0 fs s -> sv_key s' = sv_key s -> sv_dirty s' = true -> on_disk s0 fs s'.
Proof. intros [Hk _] E1 E2. split; congruence. Qed.

(** Either nothing has changed or the change is marked. *)
Definition marked_or_same s s' : Prop := same_cards s s' \/ sv_key s' = sv_key s /\ sv_dirty s' = true.

Lemma on_disk_step s0 fs s s' : marked_or_same s s' -> on_disk s0 fs s -> on_disk s0 fs s'.
Proof. intros [Hs|[E1 E2]] Hd; [by rewrite <- Hs|by eapply on_disk_marked]. Qed.

Lemma on_disk_file s0 fs fs' s : open_file fs' (sv_key s0).1 = open_file fs (sv_key s0).1 -> on_disk s0 fs s -> on_disk s0 fs' s.
Proof. intros E. unfold on_disk. by rewrite E. Qed.

Lemma on_disk_elsewhere s0 fs fs' s p :
  lookup_file fs' p = lookup_file fs p -> (sv_key s0).1 = p -> on_disk s0 fs s -> on_disk s0 fs' s.
Proof. intros E <-. apply on_disk_file. unfold open_file. by rewrite E. Qed.

(** Saving a dirty store. *)
Lemma on_disk_saved ts s0 f mode fs s ok s' fs' :
  tidy ts fs -> tmp_among ts (sv_key s0).1 -> sv_key s = sv_key s0 -> sv_dirty s = true ->
  sv_save f mode fs s = (ok, s', fs') ->
  on_disk s0 fs' s' /\ sv_dirty s' = negb ok /\ sv_cards s' = sv_cards s.
Proof.
  intros [Hwf Hp] Ha Hk Hd Hs. destruct (save_keeps _ _ _ _ _ _ _ Hs) as (E1 & E2 & E3 & E4).
  assert (sv_dirty s' = negb ok) as E5 by (rewrite E3; by destruct ok). split; [|done]. split; [congruence|].
  rewrite E2, E5. destruct ok; [|done]. intros _ Hok. rewrite <- Hk in Ha, Hok |- *.
  destruct (save_loads f mode fs s s' fs' s0) as (s2 & L & Hv); try done; [by eapply private_tmp; [|apply Ha]|].
  by exists Loaded, s2.
Qed.
End on_disk.

(** ** The three stores *)

(** The cached secret is no part of the card. *)
Definition saved_card (c : Contact) : Contact := c <| c_shared := [] |>.

#[export] Instance contacts_saved : Saved ContactStore (list Contact) (list Contact) := {
  sv_key s := (cs_path s, cs_max_contacts s);
  sv_dirty := cs_dirty;
  sv_cards s := map saved_card (cs_contacts s);
  sv_view := map persisted;
  sv_ok max cs := Forall contact_ok cs /\ NoDup (map c_pubkey cs) /\ (length cs <= max)%nat;
  sv_load := cs_load;
  sv_save := cs_save }.

#[export] Instance channels_saved : Saved ChannelStore (list Channel) (list Channel) := {
  sv_key s := (chs_path s, kMaxChannels);
  sv_dirty := chs_dirty;
  sv_cards := chs_channels;
  sv_view := map persisted_channel;
  sv_ok max chs := Forall channel_ok chs /\ length chs = max;
  sv_load := chs_load;
  sv_save := chs_save }.

#[export] Instance inbox_saved : Saved MessageInbox (list StoredMessage) (list StoredMessage) := {
  sv_key m := (mi_path m, mi_limit m);
  sv_dirty := mi_dirty;
  sv_cards := mi_messages;
  sv_view ms := ms;
  sv_ok max ms := Forall message_ok ms /\ (length ms <= max)%nat;
  sv_load := mi_load;
  sv_save := mi_save }.

Lemma saved_card_ok c : contact_ok (saved_card c) <-> contact_ok c.
Proof. split; intros []; by constructor. Qed.

Lemma saved_cards_ok cs : Forall contact_ok (map saved_card cs) <-> Forall contact_ok cs.
Proof. rewrite Forall_map. apply Forall_iff. intros c. apply saved_card_ok. Qed.

Lemma saved_cards_keys cs : map c_pubkey (map saved_card cs) = map c_pubkey cs.
Proof. rewrite map_map. by apply map_ext. Qed.

Lemma cards_persisted cs : map persisted (map saved_card cs) = map persisted cs.
Proof. rewrite map_map. by apply map_ext. Qed.

Lemma sanitise_again s : sanitise (sanitise s) = sanitise s.
Proof. unfold sanitise. rewrite map_map. apply map_ext. intros c. by destruct ((c =? tab) || (c =? newline) || (c =? carriage_return)) eqn:E; [|rewrite E]. Qed.

(** Keeping what the file keeps changes nothing. *)
Lemma persisted_again c : persisted (persisted c) = persisted c.
Proof. unfold persisted. simpl. rewrite sanitise_again. by destruct (c_path_known c). Qed.

Lemma persisted_channel_again ch : persisted_channel (persisted_channel ch) = persisted_channel ch.
Proof.
  unfold persisted_channel. destruct (channel_valid ch) eqn:E; [|done].
  unfold channel_valid in *. simpl. by rewrite E, sanitise_again.
Qed.

#[export] Instance contacts_laws : SavedLaws ContactStore (list Contact) (list Contact).
Proof.
  constructor; simpl.
  - intros f mode fs s ok s' fs'. unfold cs_save. destruct (cs_path s) as [|p0 p] eqn:Ep; [intros [= <- <- <-]; by rewrite Ep|].
    destruct (save_file _ _ _ _ _ _) as [[ok1 fs1] seen] eqn:Es. intros [= <- <- <-].
    apply save_file_saving in Es. destruct ok1; simpl; by rewrite Ep.
  - intros f mode fs s s' fs' s0 Hwf Hp (Hok & Hu & Hl) [= E1 E2] Hs.
    rewrite saved_cards_ok in Hok. rewrite saved_cards_keys in Hu. rewrite length_map in Hl.
    destruct (contacts_save_load f mode fs s s' fs' s0) as [_ L]; try done. eexists. split; [exact L|]. simpl.
    rewrite !cards_persisted, map_map. apply map_ext, persisted_again.
  - intros input []. unfold cs_load. simpl. by repeat case_match.
  - intros s. unfold cs_load. by destruct (cs_path s).
  - intros input s s'. unfold cs_load. repeat case_match; congruence.
Qed.

#[export] Instance channels_laws : SavedLaws ChannelStore (list Channel) (list Channel).
Proof.
  constructor; simpl.
  - intros f mode fs s ok s' fs'. unfold chs_save. destruct (chs_path s) as [|p0 p] eqn:Ep; [intros [= <- <- <-]; by rewrite Ep|].
    destruct (save_file _ _ _ _ _ _) as [[ok1 fs1] seen] eqn:Es. intros [= <- <- <-].
    apply save_file_saving in Es. destruct ok1; simpl; by rewrite Ep.
  - intros f mode fs s s' fs' s0 Hwf Hp [Hok Hl] [= E1] Hs.
    destruct (channels_save_load f mode fs s s' fs' s0) as [_ L]; try done. eexists. split; [exact L|]. simpl.
    rewrite map_map. apply map_ext, persisted_channel_again.
  - intros input []. unfold chs_load. simpl. by repeat case_match.
  - intros s. unfold chs_load. by destruct (chs_path s).
  - intros input s s'. unfold chs_load. repeat case_match; congruence.
Qed.

#[export] Instance inbox_laws : SavedLaws MessageInbox (list StoredMessage) (list StoredMessage).
Proof.
  constructor; simpl.
  - intros f mode fs s ok s' fs'. unfold mi_save. destruct (mi_path s) as [|p0 p] eqn:Ep; [intros [= <- <- <-]; by rewrite Ep|].
    destruct (save_file _ _ _ _ _ _) as [[ok1 fs1] seen] eqn:Es. intros [= <- <- <-].
    apply save_file_saving in Es. destruct ok1; simpl; by rewrite Ep.
  - intros f mode fs s s' fs' s0 Hwf Hp [Hok Hl] [= E1 E2] Hs.
    destruct (mi_save_load f mode fs s s' fs' s0) as [_ L]; try done; [by rewrite E2|]. eexists. by split; [exact L|].
  - intros input []. unfold mi_load. simpl. by repeat case_match.
  - intros s. unfold mi_load. by destruct (mi_path s).
  - intros input s s'. unfold mi_load. repeat case_match; congruence.
Qed.
