(* ===== verification/Sender.v ===== *)
(** * Reliable direct messages ([src/src/mesh/sender.h], [sender.cpp], [routing.h])

    Direct text messages, retried until acknowledged: four attempts 8, 16 and 32
    seconds apart, the last one flooded.  The sender works on three components at
    once, so its functions take and return them together ([Mesh]): the dispatcher
    it queues packets in, the contacts it addresses, and its own table of pending
    sends.  The transmit-result callbacks the dispatcher runs are applied to the
    table right after the dispatcher call that ran them; they only touch the table
    and its timers.

    The theorems are about every state reachable by sends, retries,
    acknowledgements and any activity of the dispatcher and the contact store: no
    pending send is ever stuck, none is attempted more than four times, and an
    acknowledgement of any attempt completes the send it belongs to. *)

From S2P Require Import Prelude ByteIO Floats Crypto Identity Packet Payloads Radio.
From S2P Require Import Dispatcher Record Persist Contacts.

(** Why a send failed; [SendError::None] is [None] of the option. *)
Inductive SendError := NoSharedSecret | PendingFull | TooLong.

Definition kRetryDelayMs : list Z := [8000; 16000; 32000].
Definition kMaxAttempts : Z := 4.
Definition kDefaultPendingLimit : nat := 64.

Record Pending := mkPending {
  pd_id : Z;
  pd_ack_hash : Bytes;
  pd_accepted_ack_hashes : list Bytes;
  pd_dest_pubkey : Bytes;
  pd_text : Str;
  pd_txt_type : Z;
  pd_timestamp : Z;
  pd_attempt : Z;
  pd_timer : option Z;  (** due instant of the armed retry timer *)
}.

#[export] Instance eta_Pending : Eta Pending := fun p =>
  mkPending (pd_id p) (pd_ack_hash p) (pd_accepted_ack_hashes p) (pd_dest_pubkey p) (pd_text p)
    (pd_txt_type p) (pd_timestamp p) (pd_attempt p) (pd_timer p).

Record ReliableSender := mkSender {
  rs_pending_limit : nat;
  rs_pending : list Pending;
  rs_next_id : Z;
}.

#[export] Instance eta_ReliableSender : Eta ReliableSender := fun s =>
  mkSender (rs_pending_limit s) (rs_pending s) (rs_next_id s).

Definition make_sender (pending_limit : nat) : ReliableSender := mkSender pending_limit [] 1.

Record Completion := mkCompletion { cm_ack_hash : Bytes; cm_dest_pubkey : Bytes }.

(** [ReliableSender::find] *)
Definition find_pending (id : Z) (s : ReliableSender) : option Pending :=
  snd <$> list_find (fun p => pd_id p = id) (rs_pending s).

(** [ReliableSender::erase] *)
Definition erase_pending (id : Z) (s : ReliableSender) : ReliableSender :=
  s <| rs_pending ::= List.filter (fun p => negb (pd_id p =? id)) |>.

(** Writing through the [Pending*] that [find] returned. *)
Definition update_pending (id : Z) (f : Pending -> Pending) (s : ReliableSender) : ReliableSender :=
  s <| rs_pending ::= map (fun p => if pd_id p =? id then f p else p) |>.

Definition queue_retry (now id : Z) (s : ReliableSender) : ReliableSender :=
  match find_pending id s with
  | None => s
  | Some p =>
      let delay := nth (Nat.min (Z.to_nat (pd_attempt p)) (length kRetryDelayMs - 1)) kRetryDelayMs 0 in
      update_pending id (fun p => p <| pd_timer := Some (u32 (now + delay)) |>) s
  end.

Definition on_tx_result (now id : Z) (transmitted : bool) (s : ReliableSender) : ReliableSender :=
  match find_pending id s with
  | None => s
  | Some _ =>
      if transmitted then queue_retry now id s
      else update_pending id (fun p => p <| pd_timer := Some (u32 (now + 1)) |>) s
  end.

(** The callbacks a dispatcher call ran, in order. *)
Definition on_tx_results (now : Z) (rs : Results) (s : ReliableSender) : ReliableSender :=
  fold_left (fun s '(id, b) => on_tx_result now id b s) (callbacks rs) s.

Definition complete (ack_hash : Bytes) (s : ReliableSender) : option Completion * ReliableSender :=
  match list_find (fun p => existsb (fun h => equal h ack_hash) (pd_accepted_ack_hashes p) = true)
          (rs_pending s) with
  | None => (None, s)
  | Some (i, p) =>
      (Some (mkCompletion (pd_ack_hash p) (pd_dest_pubkey p)), s <| rs_pending ::= delete i |>)
  end.

Record Mesh {R : Type} := mkMesh { m_disp : Dispatcher R; m_contacts : ContactStore; m_sender : ReliableSender }.
Arguments Mesh : clear implicits.

#[export] Instance eta_Mesh {R} : Eta (Mesh R) := fun m => mkMesh R (m_disp m) (m_contacts m) (m_sender m).

Section sender.
Context `{CryptoLib} {R : Type} `{Radio R}.
Implicit Types (m : Mesh R) (d : Dispatcher R).

(** [routing.h]: along the known path, or by flooding. *)
Definition route_to (now r : Z) (p : Packet) (to : Contact) (priority : Z) (force_flood : bool)
    (on_result : option Z) d : bool * Dispatcher R * Results :=
  let p :=
    if c_path_known to && negb force_flood
    then mkPacket (p_payload_version p) Direct (p_type p) (p_transport_code1 p) (p_transport_code2 p)
           1 (c_out_path to) (p_payload p) (p_rssi p) (p_snr p) (p_rx_millis p) (p_internal p)
    else mkPacket (p_payload_version p) Flood (p_type p) (p_transport_code1 p) (p_transport_code2 p)
           (p_path_hash_size p) [] (p_payload p) (p_rssi p) (p_snr p) (p_rx_millis p) (p_internal p) in
  send now r p priority 0 on_result d.

(** The plaintext of an attempt. *)
Definition attempt_plaintext (p : Pending) : Bytes :=
  TextMessage.encode
    (TextMessage.mk (pd_timestamp p) (pd_txt_type p) (pd_attempt p) 0 (to_bytes (pd_text p))).

(** The key an ack is made with: the recipient's for signed messages, ours
    otherwise. *)
Definition ack_key (self : LocalIdentity) (txt_type : Z) (dest_pubkey : Bytes) : Bytes :=
  if txt_type =? kTxtSignedPlain then dest_pubkey else pub self.

(** [send_attempt] up to the dispatcher: the on-air ack hash, the pending send
    with it recorded, and the payload; [None] without a shared secret. *)
Definition seal_attempt (self : LocalIdentity) (shared : Bytes) (to : Contact) (p : Pending) :
    option (Bytes * Pending * Bytes) :=
  match shared with
  | [] => None
  | _ =>
      let plaintext := attempt_plaintext p in
      let ack_hash := message_ack_hash plaintext (ack_key self (pd_txt_type p) (c_pubkey to)) in
      let p1 := if pd_attempt p =? 0 then p <| pd_ack_hash := ack_hash |> else p in
      let p2 := p1 <| pd_accepted_ack_hashes ::= fun l => l ++ [ack_hash] |> in
      let env := DirectEnvelope.seal (contact_id to) (byte_at (pub self) 0) shared plaintext in
      Some (ack_hash, p2, DirectEnvelope.encode env)
  end.

(** [send_attempt] of a registered send ([id <> 0], held in the table) or of an
    unregistered one ([id = 0], held by the caller).  [i] is the contact. *)
Definition send_attempt (now r : Z) (self : LocalIdentity) (p : Pending) (i : nat) (force_flood : bool) m :
    option Bytes * option SendError * Mesh R :=
  match contact_at i (m_contacts m) with
  | None => (None, Some NoSharedSecret, m)
  | Some to =>
      let '(shared, to) := shared_secret self to in
      let m := m <| m_contacts ::= update_contact i (fun _ => to) |> in
      match seal_attempt self shared to p with
      | None => (None, Some NoSharedSecret, m)
      | Some (ack_hash, p2, payload) =>
          let m := m <| m_sender ::= update_pending (pd_id p) (fun _ => p2) |> in
          let flood := force_flood || negb (c_path_known to) in
          let on_result := if pd_id p =? 0 then None else Some (pd_id p) in
          let '(queued, d, rs) :=
            route_to now r (make_packet PayloadType.TxtMsg Flood 1 [] payload) to kPriorityDirect flood
              on_result (m_disp m) in
          let m := m <| m_disp := d |> <| m_sender ::= on_tx_results now rs |> in
          if negb queued then (None, Some TooLong, m) else (Some ack_hash, None, m)
      end
  end.

(** [pd.dest_pubkey == to.pubkey && ...]: an identical send already waiting. *)
Definition is_duplicate (to : Contact) (text : Str) (txt_type timestamp : Z) (p : Pending) : bool :=
  beq (pd_dest_pubkey p) (c_pubkey to) && (pd_timestamp p =? timestamp)
  && (pd_txt_type p =? txt_type) && beq (pd_text p) text.

(** [ReliableSender::send] to the contact [i]. *)
Definition send_message (now r : Z) (self : LocalIdentity) (i : nat) (text : Str) (txt_type timestamp : Z) m :
    option Bytes * option SendError * Mesh R :=
  match contact_at i (m_contacts m) with
  | None => (None, None, m)
  | Some to =>
      let acked := negb (txt_type =? kTxtCliData) in
      match (if acked then List.find (is_duplicate to text txt_type timestamp) (rs_pending (m_sender m)) else None) with
      | Some duplicate => (Some (pd_ack_hash duplicate), None, m)
      | None =>
          if acked && (rs_pending_limit (m_sender m) <=? length (rs_pending (m_sender m)))%nat
          then (None, Some PendingFull, m)
          else
            let id := if acked then rs_next_id (m_sender m) else 0 in
            let p := mkPending id [] [] (c_pubkey to) text txt_type timestamp 0 None in
            let m := if acked
                     then m <| m_sender ::= fun s => s <| rs_next_id ::= fun v => u64 (v + 1) |>
                                                       <| rs_pending ::= fun l => l ++ [p] |> |>
                     else m in
            let '(ack_hash, err, m) := send_attempt now r self p i false m in
            match ack_hash with
            | None => (None, err, if acked then m <| m_sender ::= erase_pending id |> else m)
            | Some h => (Some h, err, m)
            end
      end
  end.

(** [on_retry] *)
Definition on_retry (now r : Z) (self : LocalIdentity) (id : Z) m : Mesh R :=
  match find_pending id (m_sender m) with
  | None => m
  | Some p =>
      let p := p <| pd_attempt ::= fun a => u8 (a + 1) |> in
      let m := m <| m_sender ::= update_pending id (fun _ => p) |> in
      if kMaxAttempts <=? pd_attempt p then m <| m_sender ::= erase_pending id |>
      else match find_contact (pd_dest_pubkey p) (m_contacts m) with
           | None => m <| m_sender ::= erase_pending id |>
           | Some i =>
               let last := pd_attempt p =? kMaxAttempts - 1 in
               let '(ack_hash, _, m) := send_attempt now r self p i last m in
               match ack_hash with
               | None => m <| m_sender ::= erase_pending id |>
               | Some _ => m
               end
           end
  end.

(** The event loop runs the timer of a pending send: a one-shot timer is spent
    before its callback runs. *)
Definition on_retry_timer (now r : Z) (self : LocalIdentity) (id : Z) m : Mesh R :=
  on_retry now r self id (m <| m_sender ::= update_pending id (fun p => p <| pd_timer := None |>) |>).

End sender.

(** ** Lemmas: the table *)

Lemma update_pending_miss id f s :
  find_pending id s = None -> update_pending id f s = s.
Proof.
  unfold find_pending. destruct (list_find _ _) as [[? ?]|] eqn:E; [done|]. intros _.
  apply list_find_None in E. unfold update_pending. destruct s as [l ps n]. simpl in *.
  change (setf _ (mkSender l ps n)) with (mkSender l (map (fun p => if pd_id p =? id then f p else p) ps) n).
  f_equal. rewrite <- (map_id ps) at 2. apply map_ext_Forall. eapply Forall_impl; [|exact E].
  intros p Hp. simpl. by rewrite (proj2 (Z.eqb_neq _ _) Hp).
Qed.

Lemma find_pending_Some id s p :
  find_pending id s = Some p -> p ∈ rs_pending s /\ pd_id p = id.
Proof.
  unfold find_pending. destruct (list_find _ _) as [[j q]|] eqn:E; [|done]. intros [= <-].
  apply list_find_Some in E as (Hj & Hid & _). split; [by eapply list_elem_of_lookup_2|done].
Qed.

(** A transmit result arms the timer of the send it belongs to, if it is still
    there, and does nothing else. *)
Lemma on_tx_result_arms now id b s :
  exists due, on_tx_result now id b s = update_pending id (fun p => p <| pd_timer := Some due |>) s.
Proof.
  unfold on_tx_result, queue_retry. destruct (find_pending id s) as [p|] eqn:E.
  - destruct b; eauto.
  - exists 0. by rewrite update_pending_miss.
Qed.

(** How a run of callbacks changes one entry: the timer at most, never from armed
    to not, and to armed when its own result is among them. *)
Definition rearmed (ids : list Z) (p p' : Pending) : Prop :=
  exists t, p' = p <| pd_timer := t |> /\
    (is_Some (pd_timer p) -> is_Some t) /\ (pd_id p ∈ ids -> is_Some t).

Lemma rearmed_step id ids due p p' :
  rearmed ids (if pd_id p =? id then p <| pd_timer := Some due |> else p) p' -> rearmed (id :: ids) p p'.
Proof.
  destruct (Z.eqb_spec (pd_id p) id) as [E|E]; intros (t & -> & H1 & H2); exists t.
  - split_and!; [done|intros _; apply H1; simpl; eauto|intros _; apply H1; simpl; eauto].
  - split_and!; [done|done|]. intros [?|?]%elem_of_cons; [done|auto].
Qed.

Lemma on_tx_results_spec now rs s :
  rs_pending_limit (on_tx_results now rs s) = rs_pending_limit s /\
  rs_next_id (on_tx_results now rs s) = rs_next_id s /\
  Forall2 (rearmed (map fst (callbacks rs))) (rs_pending s) (rs_pending (on_tx_results now rs s)).
Proof.
  unfold on_tx_results. generalize (callbacks rs) as cbs. clear rs. intros cbs. revert s.
  induction cbs as [|[id b] cbs IH]; intros s; simpl.
  - split_and!; [done|done|]. induction (rs_pending s) as [|p l IHl]; constructor; [|done].
    exists (pd_timer p). split_and!; [by destruct p|done|]. intros Hin. by apply not_elem_of_nil in Hin.
  - destruct (on_tx_result_arms now id b s) as [due ->].
    destruct (IH (update_pending id (fun p => p <| pd_timer := Some due |>) s)) as (-> & -> & Hf).
    split_and!; [done|done|]. 
    change (rs_pending (update_pending _ ?f s)) with
      ((fun p => if pd_id p =? id then f p else p) <$> rs_pending s) in Hf.
    rewrite Forall2_fmap_l in Hf.
    eapply Forall2_impl; [|exact Hf]. intros p p'. by apply rearmed_step.
Qed.

(** The callbacks are those of the reported entries. *)
Lemma callbacks_ids rs : map fst (callbacks rs) = omap q_on_result (map fst rs).
Proof.
  unfold callbacks. induction rs as [|[q b] rs IH]; simpl; [done|].
  destruct (q_on_result q); simpl; [f_equal|]; exact IH.
Qed.

(** The operations that have a packet in the transmit queue. *)
Definition tokens {R} (d : Dispatcher R) : list Z := omap q_on_result (queue_ d).

Lemma tokens_conserved {R} (d d' : Dispatcher R) acc rs id :
  acc ++ queue_ d ≡ₚ queue_ d' ++ map fst rs ->
  id ∈ omap q_on_result acc \/ id ∈ tokens d -> id ∈ tokens d' \/ id ∈ map fst (callbacks rs).
Proof.
  intros Hp Hin. rewrite callbacks_ids. unfold tokens in *.
  rewrite !list_elem_of_omap in *.
  assert (exists q, q ∈ acc ++ queue_ d /\ q_on_result q = Some id) as (q & Hq & Hr)
    by (destruct Hin as [(q & ? & ?)|(q & ? & ?)]; exists q; set_solver).
  rewrite Hp in Hq. apply elem_of_app in Hq as [?|?]; eauto.
Qed.

(** A pending send will be advanced: its timer is armed or its packet queued. *)
Definition pend_live {R} (d : Dispatcher R) (p : Pending) : Prop :=
  is_Some (pd_timer p) \/ pd_id p ∈ tokens d.

Lemma pend_live_step {R} (d d' : Dispatcher R) acc rs p p' :
  acc ++ queue_ d ≡ₚ queue_ d' ++ map fst rs ->
  (is_Some (pd_timer p) \/ pd_id p ∈ omap q_on_result acc \/ pd_id p ∈ tokens d) ->
  rearmed (map fst (callbacks rs)) p p' -> pend_live d' p'.
Proof.
  intros Hp Hl (t & -> & H1 & H2). unfold pend_live. simpl. destruct Hl as [Hl|Hl]; [auto|].
  destruct (tokens_conserved _ _ _ _ _ Hp Hl); auto.
Qed.

Lemma Forall2_Forall {A B} (P : A -> Prop) (Q : B -> Prop) (S : A -> B -> Prop) l k :
  Forall2 S l k -> Forall P l -> (forall x y, S x y -> P x -> Q y) -> Forall Q k.
Proof. intros H2 HP HS. induction H2; [done|]. apply Forall_cons_iff in HP as [? ?]. constructor; eauto. Qed.

Lemma rearmed_ids ids l k : Forall2 (rearmed ids) l k -> map pd_id k = map pd_id l.
Proof. induction 1 as [|p p' l k (t & -> & _) _ IH]; [done|]. simpl. by rewrite IH. Qed.

Lemma update_pending_ids id f s :
  (forall p, pd_id p = id -> pd_id (f p) = id) -> map pd_id (rs_pending (update_pending id f s)) = map pd_id (rs_pending s).
Proof.
  intros Hf. simpl. rewrite map_map. apply map_ext. intros p.
  destruct (Z.eqb_spec (pd_id p) id) as [E|E]; [|done]. by rewrite E, Hf.
Qed.

Section facts.
Context `{CryptoLib} {R : Type} `{RadioLaws R}.
Implicit Types (m : Mesh R) (d : Dispatcher R).

(** ** The joint invariant *)

(** The on-air ack hash of attempt [k] of a send. *)
Definition attempt_hash (self : LocalIdentity) (p : Pending) (k : Z) : Bytes :=
  message_ack_hash (attempt_plaintext (p <| pd_attempt := k |>)) (ack_key self (pd_txt_type p) (pd_dest_pubkey p)).

Definition hashes (self : LocalIdentity) (p : Pending) (n : nat) : list Bytes :=
  map (fun k => attempt_hash self p (Z.of_nat k)) (seq 0 n).

(** The hashes of every attempt made so far are accepted, and the first is the
    one the caller was given. *)
Definition pend_sound (self : LocalIdentity) (p : Pending) : Prop :=
  0 <= pd_attempt p <= 3 /\ pd_accepted_ack_hashes p = hashes self p (S (Z.to_nat (pd_attempt p))) /\
  pd_ack_hash p = attempt_hash self p 0.

(** The same just before attempt [pd_attempt p] is made. *)
Definition pend_ready (self : LocalIdentity) (p : Pending) : Prop :=
  0 <= pd_attempt p <= 3 /\ pd_accepted_ack_hashes p = hashes self p (Z.to_nat (pd_attempt p)) /\
  (pd_attempt p <> 0 -> pd_ack_hash p = attempt_hash self p 0).

Lemma hashes_snoc self p n : hashes self p (S n) = hashes self p n ++ [attempt_hash self p (Z.of_nat n)].
Proof. unfold hashes. by rewrite seq_S, map_app. Qed.

Lemma seal_attempt_sound self shared to p h p2 payload :
  pend_ready self p -> c_pubkey to = pd_dest_pubkey p ->
  seal_attempt self shared to p = Some (h, p2, payload) ->
  pend_sound self p2 /\ pd_id p2 = pd_id p /\ pd_timer p2 = pd_timer p /\ h = attempt_hash self p (pd_attempt p).
Proof.
  intros (Ha & Hacc & Hfirst) Hk. unfold seal_attempt. destruct shared; [done|].
  assert (message_ack_hash (attempt_plaintext p) (ack_key self (pd_txt_type p) (c_pubkey to))
    = attempt_hash self p (pd_attempt p)) as E by (rewrite Hk; by destruct p).
  rewrite E. intros [= <- <- _].
  destruct (Z.eqb_spec (pd_attempt p) 0) as [E0|E0]; (split; [|done]);
    (split; [exact Ha|split]); cbn [pd_attempt pd_accepted_ack_hashes pd_ack_hash setf];
    try (rewrite hashes_snoc, Z2Nat.id by lia; by rewrite Hacc).
  - by rewrite E0.
  - by apply Hfirst.
Qed.

Record mesh_ok (self : LocalIdentity) m : Prop := {
  mo_disp : ok (m_disp m);
  mo_ids : NoDup (map pd_id (rs_pending (m_sender m)));
  mo_range : Forall (fun p => 1 <= pd_id p < rs_next_id (m_sender m)) (rs_pending (m_sender m));
  mo_next : 1 <= rs_next_id (m_sender m);
  mo_live : Forall (pend_live (m_disp m)) (rs_pending (m_sender m));
  mo_sound : Forall (pend_sound self) (rs_pending (m_sender m));
}.

(** The invariant of every send but [id]. *)
Definition others_ok (self : LocalIdentity) (id : Z) m : Prop :=
  Forall (fun p => pd_id p <> id -> pend_live (m_disp m) p /\ pend_sound self p) (rs_pending (m_sender m)).

Lemma rearmed_sound self ids p p' : rearmed ids p p' -> pend_sound self p -> pend_sound self p'.
Proof. by intros (t & -> & _) ?. Qed.

(** What sending an attempt does: nothing to the other sends, and the send itself
    is live and sound again when it returns a hash. *)
Lemma send_attempt_spec now r self p i force m h e m' :
  ok (m_disp m) -> pend_ready self p -> pd_id p <> 0 ->
  (exists to, contact_at i (m_contacts m) = Some to /\ c_pubkey to = pd_dest_pubkey p) ->
  others_ok self (pd_id p) m -> send_attempt now r self p i force m = (h, e, m') ->
  ok (m_disp m') /\ map pd_id (rs_pending (m_sender m')) = map pd_id (rs_pending (m_sender m)) /\
  rs_next_id (m_sender m') = rs_next_id (m_sender m) /\
  rs_pending_limit (m_sender m') = rs_pending_limit (m_sender m) /\
  others_ok self (pd_id p) m' /\
  (h <> None -> Forall (fun x => pend_live (m_disp m') x /\ pend_sound self x) (rs_pending (m_sender m'))).
Proof.
  intros Hok Hr Hid (to & Hto & Hk) Hoth. unfold send_attempt. rewrite Hto.
  destruct (shared_secret self to) as [shared to'] eqn:Es.
  assert (c_pubkey to' = pd_dest_pubkey p) as Hk'
    by (rewrite <- Hk; change to' with (shared, to').2; rewrite <- Es; apply shared_secret_key).
  destruct (seal_attempt self shared to' p) as [[[ack p2] payload]|] eqn:Ea; [|by intros [= <- <- <-]].
  destruct (seal_attempt_sound _ _ _ _ _ _ _ Hr Hk' Ea) as (Hsound & Hid2 & Ht2 & _).
  rewrite (proj2 (Z.eqb_neq _ _) Hid). unfold route_to.
  destruct (send now r _ _ _ _ _) as [[b d'] rs] eqn:Esend. cbn [m_disp setf] in Esend.
  destruct (send_spec _ _ _ _ _ _ _ _ _ _ Hok Esend) as [Hb Hpost].
  assert (ok d') as Hok'.
  { eapply (handle_ok now r (EvSend _ kPriorityDirect 0 (Some (pd_id p)))); [exact Hok|exact I|].
    simpl. by rewrite Esend. }
  set (acc := if b then _ else []) in Hpost. pose proof (op_queue _ _ _ _ Hpost) as Hq.
  set (s1 := update_pending (pd_id p) (fun _ => p2) (m_sender m)).
  destruct (on_tx_results_spec now rs s1) as (El & En & Hre).
  assert (Forall (fun x => pd_id x <> pd_id p -> pend_live (m_disp m) x /\ pend_sound self x) (rs_pending s1))
    as Hoth1.
  { unfold s1. simpl. apply Forall_map. eapply Forall_impl; [|exact Hoth]. intros x Hx. simpl.
    destruct (Z.eqb_spec (pd_id x) (pd_id p)); [by rewrite Hid2|done]. }
  assert (others_ok self (pd_id p)
    (m <| m_contacts ::= update_contact i (fun _ => to') |> <| m_disp := d' |>
       <| m_sender := on_tx_results now rs s1 |>)) as Hoth'.
  { unfold others_ok. simpl. eapply Forall2_Forall; [exact Hre|exact Hoth1|].
    intros x y Hxy Hx Hy. assert (pd_id x <> pd_id p) as Hne by (by destruct Hxy as (t & -> & _)).
    destruct (Hx Hne) as [Hlive Hs]. split; [|by eapply rearmed_sound].
    eapply pend_live_step; [exact Hq| |exact Hxy]. destruct Hlive; auto. }
  destruct b; cbn [negb]; intros [= <- <- <-]; cbn [m_disp m_sender setf]; fold s1;
    (split_and!; [done|rewrite (rearmed_ids _ _ _ Hre); unfold s1; by apply update_pending_ids|by rewrite En|by rewrite El
      |exact Hoth'|]); [|done].
  intros _. eapply (Forall2_Forall (fun x => pend_sound self x /\
    (is_Some (pd_timer x) \/ pd_id x ∈ omap q_on_result acc \/ pd_id x ∈ tokens (m_disp m)))); [exact Hre| |].
  - unfold s1. simpl. apply Forall_map. eapply Forall_impl; [|exact Hoth]. intros x Hx. simpl.
    destruct (Z.eqb_spec (pd_id x) (pd_id p)) as [E|E].
    + split; [done|]. right. left. rewrite Hid2. unfold acc. simpl. by apply list_elem_of_singleton.
    + destruct (Hx E) as [[?|?] ?]; auto.
  - intros x y Hxy [Hs Hl]. split; [by eapply pend_live_step|by eapply rearmed_sound].
Qed.

(** ** The sender as a state machine *)

(** Everything that can happen to the three components.  [MDisp] is any event of
    the dispatcher: other parts of the node send without a result callback. *)
Inductive MEvent :=
| MSend (i : nat) (text : Str) (txt_type timestamp : Z)
| MRetry (id : Z)
| MAck (ack_hash : Bytes)
| MDisp (ev : Event (R := R))
| MContacts (contacts : ContactStore).

Definition m_enabled m (ev : MEvent) : Prop :=
  match ev with
  | MSend _ _ _ _ => rs_next_id (m_sender m) < 2 ^ 64 - 1
  | MRetry id => exists p, find_pending id (m_sender m) = Some p /\ is_Some (pd_timer p)
  | MDisp (EvSend _ _ _ (Some _)) => False
  | MDisp ev => enabled (m_disp m) ev
  | _ => True
  end.

Definition m_handle (now r : Z) (self : LocalIdentity) (ev : MEvent) m : Mesh R :=
  match ev with
  | MSend i text txt_type timestamp => (send_message now r self i text txt_type timestamp m).2
  | MRetry id => on_retry_timer now r self id m
  | MAck ack_hash => m <| m_sender ::= fun s => (complete ack_hash s).2 |>
  | MDisp ev =>
      let '(d, rs) := handle now r ev (m_disp m) in
      m <| m_disp := d |> <| m_sender ::= on_tx_results now rs |>
  | MContacts contacts => m <| m_contacts := contacts |>
  end.

Inductive m_reach (self : LocalIdentity) (m0 : Mesh R) : Mesh R -> Prop :=
| m_reach_start : m_reach self m0 m0
| m_reach_step m now r ev : m_reach self m0 m -> m_enabled m ev -> m_reach self m0 (m_handle now r self ev m).

Lemma mesh_ok_split self m :
  ok (m_disp m) -> NoDup (map pd_id (rs_pending (m_sender m))) ->
  Forall (fun p => 1 <= pd_id p < rs_next_id (m_sender m)) (rs_pending (m_sender m)) ->
  1 <= rs_next_id (m_sender m) ->
  Forall (fun x => pend_live (m_disp m) x /\ pend_sound self x) (rs_pending (m_sender m)) -> mesh_ok self m.
Proof.
  intros Hok Hnd Hr Hn Hall. constructor; try done; eapply Forall_impl; try exact Hall; by intros x [? ?].
Qed.

(** The ids and the id counter determine the range condition. *)
Lemma range_by_ids n (l k : list Pending) :
  map pd_id k = map pd_id l -> Forall (fun p => 1 <= pd_id p < n) l -> Forall (fun p => 1 <= pd_id p < n) k.
Proof.
  intros E Hl. apply (Forall_map pd_id (fun x => 1 <= x < n)). rewrite E.
  by apply (Forall_map pd_id (fun x => 1 <= x < n)).
Qed.

Lemma NoDup_map_filter {A B} (f : A -> B) (P : A -> bool) l :
  NoDup (map f l) -> NoDup (map f (List.filter P l)).
Proof.
  induction l as [|x l IH]; simpl; [done|]. intros [Hx Hl]%list.NoDup_cons.
  destruct (P x); [|auto]. simpl. apply list.NoDup_cons. split; [|auto]. intros Hin. apply Hx.
  apply list_elem_of_fmap in Hin as (y & -> & Hy). apply list_elem_of_fmap. exists y. split; [done|].
  apply list_elem_of_In. apply list_elem_of_In, filter_In in Hy. tauto.
Qed.

Lemma Forall_filter_keep {A} (Q : A -> Prop) (P : A -> bool) l : Forall Q l -> Forall Q (List.filter P l).
Proof. induction 1; simpl; [done|]. destruct (P x); [by constructor|done]. Qed.

(** Erasing the one send whose state is in doubt restores the invariant. *)
Lemma erase_restores self id m :
  ok (m_disp m) -> NoDup (map pd_id (rs_pending (m_sender m))) ->
  Forall (fun p => 1 <= pd_id p < rs_next_id (m_sender m)) (rs_pending (m_sender m)) ->
  1 <= rs_next_id (m_sender m) -> others_ok self id m ->
  mesh_ok self (m <| m_sender ::= erase_pending id |>).
Proof.
  intros Hok Hnd Hr Hn Ho. apply mesh_ok_split; simpl; [done|by apply NoDup_map_filter|by apply Forall_filter_keep|done|].
  unfold others_ok in Ho. induction (rs_pending (m_sender m)) as [|p l IH]; simpl; [done|].
  apply Forall_cons_iff in Ho as [Hp Ho]. inversion Hnd; subst. apply Forall_cons_iff in Hr as [_ Hr].
  destruct (Z.eqb_spec (pd_id p) id); simpl; [by apply IH|]. constructor; [by apply Hp|by apply IH].
Qed.

Lemma mesh_ok_others self id m : mesh_ok self m -> others_ok self id m.
Proof.
  intros [_ _ _ _ Hl Hs]. unfold others_ok. apply List.Forall_forall. intros p Hp _.
  rewrite List.Forall_forall in Hl, Hs. auto.
Qed.

(** Sending an attempt, then erasing the send if that failed. *)
Lemma attempt_restores now r self p i force m h e m' :
  ok (m_disp m) -> pend_ready self p -> pd_id p <> 0 ->
  NoDup (map pd_id (rs_pending (m_sender m))) ->
  Forall (fun p => 1 <= pd_id p < rs_next_id (m_sender m)) (rs_pending (m_sender m)) ->
  1 <= rs_next_id (m_sender m) ->
  (exists to, contact_at i (m_contacts m) = Some to /\ c_pubkey to = pd_dest_pubkey p) ->
  others_ok self (pd_id p) m -> send_attempt now r self p i force m = (h, e, m') ->
  mesh_ok self (match h with None => m' <| m_sender ::= erase_pending (pd_id p) |> | Some _ => m' end).
Proof.
  intros Hok Hready Hid Hnd Hrange Hn Hto Ho Hs.
  destruct (send_attempt_spec _ _ _ _ _ _ _ _ _ _ Hok Hready Hid Hto Ho Hs) as (Hok' & Eids & En & El & Ho' & Hall).
  rewrite <- Eids in Hnd. rewrite <- En in Hn, Hrange. apply (range_by_ids _ _ _ Eids) in Hrange.
  destruct h; [by apply mesh_ok_split; try apply Hall|by apply erase_restores].
Qed.

(** An unregistered send touches no entry of the table but through the results. *)
Lemma update_pending_zero f s :
  Forall (fun p => 1 <= pd_id p < rs_next_id s) (rs_pending s) -> update_pending 0 f s = s.
Proof.
  intros Hr. apply update_pending_miss. unfold find_pending.
  destruct (list_find _ _) as [[j p]|] eqn:E; [|done]. apply list_find_Some in E as (Hj & Hz & _).
  eapply Forall_lookup_1 in Hr; [|exact Hj]. lia.
Qed.

Lemma dispatch_ok self m d' rs acc now :
  mesh_ok self m -> ok d' -> acc ++ queue_ (m_disp m) ≡ₚ queue_ d' ++ map fst rs ->
  mesh_ok self (m <| m_disp := d' |> <| m_sender ::= on_tx_results now rs |>).
Proof.
  intros [Hok Hnd Hr Hn Hl Hs] Hok' Hq.
  destruct (on_tx_results_spec now rs (m_sender m)) as (El & En & Hre).
  apply mesh_ok_split; simpl; [done|by rewrite (rearmed_ids _ _ _ Hre)| |by rewrite En|].
  - rewrite En. eapply range_by_ids; [exact (rearmed_ids _ _ _ Hre)|done].
  - eapply (Forall2_Forall (fun p => pend_live (m_disp m) p /\ pend_sound self p)); [exact Hre| |].
    + apply List.Forall_forall. rewrite List.Forall_forall in Hl, Hs. auto.
    + intros x y Hxy [Hx Hsx]. split; [|by eapply rearmed_sound].
      eapply pend_live_step; [exact Hq| |exact Hxy]. destruct Hx; auto.
Qed.

Lemma find_pending_None id s : find_pending id s = None <-> Forall (fun p => pd_id p <> id) (rs_pending s).
Proof.
  unfold find_pending. destruct (list_find _ _) as [[j p]|] eqn:E; split; try done.
  - intros Hf. apply list_find_Some in E as (Hj & Hp & _). by apply (Forall_lookup_1 _ _ _ _ Hf Hj) in Hp.
  - intros _. by apply list_find_None in E.
Qed.

Lemma find_pending_updated id f s x :
  (forall p, pd_id p = id -> pd_id (f p) = id) -> find_pending id (update_pending id f s) = Some x ->
  exists p, p ∈ rs_pending s /\ pd_id p = id /\ x = f p.
Proof.
  intros Hf [Hin Hid]%find_pending_Some. simpl in Hin. apply list_elem_of_fmap in Hin as (p & -> & Hp).
  exists p. destruct (Z.eqb_spec (pd_id p) id); done.
Qed.

(** An unregistered send: only the dispatcher moves. *)
Lemma unregistered_ok now r self p i force m h e m' :
  mesh_ok self m -> pd_id p = 0 -> send_attempt now r self p i force m = (h, e, m') -> mesh_ok self m'.
Proof.
  intros Hm Hid. unfold send_attempt. destruct (contact_at _ _) as [to|]; [|by intros [= <- <- <-]].
  destruct (shared_secret self to) as [shared to'].
  destruct (seal_attempt self shared to' p) as [[[ack p2] payload]|]; [|intros [= <- <- <-]; by destruct Hm].
  rewrite Hid. change (0 =? 0) with true. cbv iota. unfold route_to.
  destruct (send now r _ _ _ _ _) as [[b d'] rs] eqn:Esend. cbn [m_disp setf] in Esend.
  destruct (send_spec _ _ _ _ _ _ _ _ _ _ (mo_disp _ _ Hm) Esend) as [_ Hpost].
  assert (ok d') as Hok'.
  { eapply (handle_ok now r (EvSend _ kPriorityDirect 0 None)); [apply Hm|exact I|].
    simpl. by rewrite Esend. }
  assert (mesh_ok self (m <| m_contacts ::= update_contact i (fun _ => to') |>
    <| m_sender ::= update_pending 0 (fun _ => p2) |> <| m_disp := d' |> <| m_sender ::= on_tx_results now rs |>))
    as Hok2.
  { eapply dispatch_ok; [|exact Hok'|exact (op_queue _ _ _ _ Hpost)].
    destruct Hm. constructor; cbn [m_disp m_sender setf]; rewrite ?update_pending_zero; done. }
  destruct b; by intros [= <- <- <-].
Qed.

Lemma send_message_ok now r self i text ty ts m :
  rs_next_id (m_sender m) < 2 ^ 64 - 1 -> mesh_ok self m ->
  mesh_ok self (send_message now r self i text ty ts m).2.
Proof.
  intros Hlt Hm. unfold send_message. destruct (contact_at i (m_contacts m)) as [to|] eqn:Eto; [|done].
  destruct (ty =? kTxtCliData); cbn [negb andb].
  - destruct (send_attempt _ _ _ _ _ _ _) as [[h e] m'] eqn:Es.
    assert (mesh_ok self m') by (eapply unregistered_ok; [exact Hm| |exact Es]; done). by destruct h.
  - destruct (List.find _ _); [done|]. destruct (_ <=? _)%nat; [done|].
    set (id := rs_next_id (m_sender m)). set (p := mkPending id [] [] (c_pubkey to) text ty ts 0 None).
    set (m1 := m <| m_sender ::= _ |>).
    destruct (send_attempt _ _ _ _ _ _ _) as [[h e] m'] eqn:Es.
    assert (mesh_ok self (match h with None => m' <| m_sender ::= erase_pending (pd_id p) |> | Some _ => m' end))
      as Hr; [|by destruct h].
    pose proof (mesh_ok_others self id m Hm) as Ho. destruct Hm as [Hok Hnd Hr Hn Hl Hs].
    assert (u64 (rs_next_id (m_sender m) + 1) = rs_next_id (m_sender m) + 1) as Eu
      by (unfold u64; apply Z.mod_small; lia).
    eapply attempt_restores; [..|exact Es]; cbn [m1 m_disp m_sender m_contacts rs_pending rs_next_id setf].
    + done.
    + split; [done|]. split; [done|]. done.
    + simpl. unfold id. lia.
    + rewrite map_app. apply list.NoDup_app. split_and!; [done| |apply NoDup_singleton].
      intros x Hx Hx'. apply list_elem_of_singleton in Hx'. subst x.
      apply list_elem_of_fmap in Hx as (q & Eq & Hq). apply list_elem_of_In in Hq.
      rewrite List.Forall_forall in Hr. specialize (Hr q Hq). simpl in Eq. unfold id in Eq. lia.
    + rewrite Eu. apply Forall_app. split; [|each; simpl; unfold id; lia].
      eapply Forall_impl; [|exact Hr]. intros q. simpl. lia.
    + rewrite Eu. lia.
    + exists to. done.
    + unfold others_ok. simpl. apply Forall_app. split; [exact Ho|]. each. done.
Qed.

Lemma on_retry_timer_ok now r self id m : mesh_ok self m -> mesh_ok self (on_retry_timer now r self id m).
Proof.
  intros Hm. unfold on_retry_timer.
  set (s1 := update_pending id (fun p => p <| pd_timer := None |>) (m_sender m)).
  set (m1 := m <| m_sender ::= _ |>). change (m_sender m1) with s1 in *.
  assert (map pd_id (rs_pending s1) = map pd_id (rs_pending (m_sender m))) as Eids by by apply update_pending_ids.
  unfold on_retry. change (m_sender m1) with s1.
  destruct (find_pending id s1) as [p1|] eqn:Ef.
  2:{ assert (s1 = m_sender m) as E1; [|change m1 with (mkMesh R (m_disp m) (m_contacts m) s1); rewrite E1; by destruct m].
      apply update_pending_miss, find_pending_None. apply find_pending_None in Ef.
      apply (Forall_map pd_id (fun x => x <> id)). rewrite <- Eids. by apply (Forall_map pd_id (fun x => x <> id)). }
  destruct (find_pending_updated id (fun p => p <| pd_timer := None |>) (m_sender m) p1) as (p & Hp & Hid & ->);
    [done|exact Ef|].
  pose proof (mesh_ok_others self id m Hm) as Ho. destruct Hm as [Hok Hnd Hr Hn Hl Hs].
  assert (pend_sound self p /\ 1 <= pd_id p) as [(Ha & Hacc & Hfst) Hpos].
  { apply list_elem_of_In in Hp. rewrite List.Forall_forall in Hs, Hr. specialize (Hr p Hp). split; [auto|lia]. }
  set (p2 := (p <| pd_timer := None |>) <| pd_attempt ::= fun a => u8 (a + 1) |>).
  assert (pd_attempt p2 = pd_attempt p + 1) as Ea by (apply u8_small; width).
  set (m2 := m1 <| m_sender ::= update_pending id (fun _ => p2) |>).
  assert (map pd_id (rs_pending (m_sender m2)) = map pd_id (rs_pending (m_sender m))) as Eids2.
  { rewrite <- Eids. apply update_pending_ids. by intros _ _. }
  assert (ok (m_disp m2)) as Hok2 by exact Hok.
  assert (NoDup (map pd_id (rs_pending (m_sender m2)))) as Hnd2 by by rewrite Eids2.
  assert (1 <= rs_next_id (m_sender m2)) as Hn2 by exact Hn.
  assert (Forall (fun p => 1 <= pd_id p < rs_next_id (m_sender m2)) (rs_pending (m_sender m2))) as Hr2
    by (eapply range_by_ids; [exact Eids2|exact Hr]).
  assert (others_ok self id m2) as Ho2.
  { unfold others_ok, m2, m1. simpl. apply Forall_map, Forall_map. eapply Forall_impl; [|exact Ho].
    intros x Hx. simpl. destruct (Z.eqb_spec (pd_id x) id) as [E|E]; simpl.
    - rewrite (proj2 (Z.eqb_eq _ _) E). simpl. by rewrite Hid.
    - rewrite (proj2 (Z.eqb_neq _ _) E). done. }
  destruct (Z.leb_spec kMaxAttempts (pd_attempt p2)) as [Hmax|Hmax]; [by apply erase_restores|].
  destruct (find_contact (pd_dest_pubkey p2) (m_contacts m2)) as [i|] eqn:Ec; [|by apply erase_restores].
  destruct (send_attempt _ _ _ _ _ _ _) as [[h e] m'] eqn:Es.
  replace id with (pd_id p2) in * by exact Hid.
  eapply attempt_restores; [exact Hok2| | |exact Hnd2|exact Hr2|exact Hn2| |exact Ho2|exact Es].
  - unfold kMaxAttempts in Hmax. split; [lia|]. split; [|intros _; exact Hfst].
    change (pd_accepted_ack_hashes p2) with (pd_accepted_ack_hashes p). rewrite Ea, Hacc.
    by replace (S (Z.to_nat (pd_attempt p))) with (Z.to_nat (pd_attempt p + 1)) by lia.
  - change (pd_id p2) with (pd_id p). lia.
  - by apply find_contact_Some.
Qed.

Lemma complete_cases h s :
  (complete h s = (None, s) /\ Forall (fun p => h ∉ pd_accepted_ack_hashes p) (rs_pending s)) \/
  (exists i p, rs_pending s !! i = Some p /\ h ∈ pd_accepted_ack_hashes p /\
     complete h s = (Some (mkCompletion (pd_ack_hash p) (pd_dest_pubkey p)), s <| rs_pending ::= delete i |>)).
Proof.
  assert (forall p, existsb (fun x => equal x h) (pd_accepted_ack_hashes p) = true <-> h ∈ pd_accepted_ack_hashes p)
    as Hex.
  { intros p. rewrite existsb_exists, list_elem_of_In. split; [intros (x & ? & <-%equal_eq); done|].
    intros Hin. exists h. split; [done|by apply equal_eq]. }
  unfold complete. destruct (list_find _ _) as [[i p]|] eqn:E; [right|left].
  - apply list_find_Some in E as (Hi & Hp & _). exists i, p. split_and!; [done|by apply Hex|done].
  - split; [done|]. apply list_find_None in E. eapply Forall_impl; [|exact E]. intros p Hp Hin.
    by apply Hp, Hex.
Qed.

Lemma complete_ok self h m : mesh_ok self m -> mesh_ok self (m <| m_sender ::= fun s => (complete h s).2 |>).
Proof.
  intros Hm. change (setf _ m) with (m <| m_sender := (complete h (m_sender m)).2 |>).
  destruct (complete_cases h (m_sender m)) as [[-> _]|(i & p & Hi & _ & ->)]; destruct Hm as [Hok Hnd Hr Hn Hl Hs];
    [by constructor|].
  pose proof (delete_Permutation _ _ _ Hi) as Hp. constructor; simpl; try done.
  - rewrite Hp in Hnd. by apply list.NoDup_cons in Hnd as [_ ?].
  - rewrite Hp in Hr. by apply Forall_cons_iff in Hr as [_ ?].
  - rewrite Hp in Hl. by apply Forall_cons_iff in Hl as [_ ?].
  - rewrite Hp in Hs. by apply Forall_cons_iff in Hs as [_ ?].
Qed.

Lemma m_handle_ok now r self ev m : mesh_ok self m -> m_enabled m ev -> mesh_ok self (m_handle now r self ev m).
Proof.
  intros Hm He. destruct ev; simpl in *.
  - by apply send_message_ok.
  - by apply on_retry_timer_ok.
  - by apply complete_ok.
  - destruct (handle now r ev (m_disp m)) as [d' rs] eqn:Eh.
    assert (enabled (m_disp m) ev) as Hev by (destruct ev as [? ? ? []| | | | | | |]; done).
    eapply dispatch_ok; [done|by eapply handle_ok; [apply Hm| |]|].
    exact (op_queue _ _ _ _ (handle_spec _ _ _ _ _ _ (mo_disp _ _ Hm) Hev Eh)).
  - by destruct Hm.
Qed.

Lemma m_reach_ok self m0 m : mesh_ok self m0 -> m_reach self m0 m -> mesh_ok self m.
Proof. intros Hm0. induction 1; [done|]. by apply m_handle_ok. Qed.

Lemma initial_mesh_ok self radio limit contacts pending_limit :
  mesh_ok self (mkMesh R (make_dispatcher radio limit) contacts (make_sender pending_limit)).
Proof. constructor; simpl; [apply make_dispatcher_ok|constructor|done|lia|done|done]. Qed.

(** C10. No message is ever stuck: in every state the node can reach, a send that is
    still waiting for its ack either has its retry timer armed or has its packet in
    the transmit queue, and then the queue itself is being served. *)
Theorem pending_never_stuck self radio limit contacts pending_limit m p :
  m_reach self (mkMesh R (make_dispatcher radio limit) contacts (make_sender pending_limit)) m ->
  p ∈ rs_pending (m_sender m) ->
  is_Some (pd_timer p) \/
  exists q, q ∈ queue_ (m_disp m) /\ q_on_result q = Some (pd_id p) /\
    (radio_tx_busy (radio_ (m_disp m)) = true \/ pump_timer_ (m_disp m) = true).
Proof.
  intros Hr Hp. destruct (m_reach_ok _ _ _ (initial_mesh_ok self radio limit contacts pending_limit) Hr)
    as [Hok _ _ _ Hl _].
  apply list_elem_of_In in Hp. rewrite List.Forall_forall in Hl. destruct (Hl p Hp) as [Ht|Ht]; [by left|right].
  unfold tokens in Ht. apply list_elem_of_omap in Ht as (q & Hq & Hres). exists q. split_and!; [done|done|].
  apply (ok_live _ Hok). intros E. rewrite E in Hq. by apply not_elem_of_nil in Hq.
Qed.

(** Every attempt counts and there are at most four: a pending send accepts
    exactly the acks of the attempts made so far, numbered 0 to at most 3, and
    reports the hash of the first. *)
Theorem attempts_all_accepted self radio limit contacts pending_limit m p :
  m_reach self (mkMesh R (make_dispatcher radio limit) contacts (make_sender pending_limit)) m ->
  p ∈ rs_pending (m_sender m) ->
  0 <= pd_attempt p <= 3 /\
  pd_accepted_ack_hashes p = hashes self p (S (Z.to_nat (pd_attempt p))) /\
  pd_ack_hash p = attempt_hash self p 0.
Proof.
  intros Hr Hp. destruct (m_reach_ok _ _ _ (initial_mesh_ok self radio limit contacts pending_limit) Hr)
    as [_ _ _ _ _ Hs].
  apply list_elem_of_In in Hp. rewrite List.Forall_forall in Hs. by apply Hs.
Qed.

End facts.

Section ack_facts.
Context `{CryptoLaws} {R : Type} `{RadioLaws R}.

(** The hash of any attempt made so far completes the send, unless another send waits for
    the same four bytes. *)
Lemma attempt_hash_completes self (m : Mesh R) p k :
  mesh_ok self m -> p ∈ rs_pending (m_sender m) -> 0 <= k <= pd_attempt p ->
  Forall (fun p' => p' = p \/ attempt_hash self p k ∉ pd_accepted_ack_hashes p') (rs_pending (m_sender m)) ->
  exists i, rs_pending (m_sender m) !! i = Some p /\
    complete (attempt_hash self p k) (m_sender m)
      = (Some (mkCompletion (pd_ack_hash p) (pd_dest_pubkey p)), (m_sender m) <| rs_pending ::= delete i |>).
Proof.
  intros [_ _ _ _ _ Hs] Hp Hk Huniq.
  assert (pend_sound self p) as (Ha & Hacc & _)
    by (apply list_elem_of_In in Hp; rewrite List.Forall_forall in Hs; by apply Hs).
  assert (attempt_hash self p k ∈ pd_accepted_ack_hashes p) as Hin.
  { rewrite Hacc. unfold hashes. apply list_elem_of_fmap. exists (Z.to_nat k). rewrite Z2Nat.id by lia.
    split; [done|]. apply elem_of_seq. lia. }
  destruct (complete_cases (attempt_hash self p k) (m_sender m)) as [[_ Hnone]|(i & q & Hi & Hq & ->)].
  - exfalso. apply list_elem_of_In in Hp. rewrite List.Forall_forall in Hnone. by apply (Hnone p Hp).
  - eapply Forall_lookup_1 in Huniq; [|exact Hi]. destruct Huniq as [->|?]; [|done]. by exists i.
Qed.

(** The recipient's ack completes the send: for any attempt made so far, the
    ack payload a recipient builds from the padded plaintext it decrypted starts
    with a hash that completes a pending send; unless another send waits for the
    same four bytes, it is this one, reported under the hash its caller was given
    and removed from the table. *)
Theorem recipient_ack_completes self radio limit contacts pending_limit (m : Mesh R) p k ext r :
  m_reach self (mkMesh R (make_dispatcher radio limit) contacts (make_sender pending_limit)) m ->
  p ∈ rs_pending (m_sender m) -> 0 <= k <= pd_attempt p ->
  text_ok (TextMessage.mk (pd_timestamp p) (pd_txt_type p) k 0 (pd_text p)) ->
  Forall (fun p' => p' = p \/ attempt_hash self p k ∉ pd_accepted_ack_hashes p') (rs_pending (m_sender m)) ->
  let received := zero_pad (attempt_plaintext (p <| pd_attempt := k |>)) in
  let ack := ack_payload (message_ack_hash received (ack_key self (pd_txt_type p) (pd_dest_pubkey p))) ext r in
  exists s', complete (firstn kAckHashSize ack) (m_sender m)
    = (Some (mkCompletion (pd_ack_hash p) (pd_dest_pubkey p)), s') /\
  p :: rs_pending s' ≡ₚ rs_pending (m_sender m).
Proof.
  intros Hr Hp Hk Htext Huniq received ack.
  pose proof (m_reach_ok _ _ _ (initial_mesh_ok self radio limit contacts pending_limit) Hr) as Hok.
  assert (firstn kAckHashSize ack = attempt_hash self p k) as ->.
  { exact (ack_prefix_agrees _ (ack_key self (pd_txt_type p) (pd_dest_pubkey p)) ext r Htext). }
  destruct (attempt_hash_completes self m p k Hok Hp Hk Huniq) as (i & Hi & ->).
  eexists. split; [done|]. simpl. symmetry. by apply delete_Permutation.
Qed.

End ack_facts.

(** The retry ladder: once an attempt is on the air, its send is retried 8, 16
    or 32 seconds later for the first, second and later attempts; an attempt that
    was dropped before it went out is retried after one millisecond. *)
Theorem retry_ladder now id s p :
  NoDup (map pd_id (rs_pending s)) -> find_pending id s = Some p -> 0 <= pd_attempt p ->
  let due delay := Some (p <| pd_timer := Some (u32 (now + delay)) |>) in
  find_pending id (on_tx_result now id true s)
    = due (if pd_attempt p =? 0 then 8000 else if pd_attempt p =? 1 then 16000 else 32000) /\
  find_pending id (on_tx_result now id false s) = due 1.
Proof.
  intros Hnd Hf Ha due.
  assert (forall f, pd_id (f p) = id -> find_pending id (update_pending id f s) = Some (f p)) as Hupd.
  { intros f Hid. unfold find_pending in *. destruct s as [lim ps n]. simpl in *. clear Hnd.
    induction ps as [|q ps IH]; simpl in *; [done|].
    destruct (decide (pd_id q = id)) as [E|E].
    - simpl in Hf. injection Hf as ->. rewrite (proj2 (Z.eqb_eq _ _) E).
      by rewrite decide_True.
    - rewrite (proj2 (Z.eqb_neq _ _) E), decide_False by done.
      destruct (list_find _ ps) as [[j x]|]; [|done]. simpl in *.
      destruct (list_find _ (map _ ps)) as [[j' x']|]; simpl in *; auto. }
  pose proof (find_pending_Some _ _ _ Hf) as [_ Hid].
  unfold on_tx_result, queue_retry. rewrite !Hf, !Hupd by done. split; [|done].
  unfold due. do 4 f_equal.
  destruct (Z.eqb_spec (pd_attempt p) 0) as [->|]; [done|].
  destruct (Z.eqb_spec (pd_attempt p) 1) as [->|]; [done|].
  rewrite Nat.min_r by (simpl; lia). done.
Qed.
