(* ===== verification/Node.v ===== *)
(** * The node ([src/src/mesh/node.h], [node.cpp])

    What the daemon does with every packet off the air, and what it originates:
    adverts, direct and channel messages, acknowledgements, returned paths, and the
    relaying of other nodes' traffic.

    A handler of the source reads and writes the node's own tables and, by
    reference, the dispatcher, the contacts, the channels, the sender and the
    message queue; it also notifies a delegate.  Here a handler is a computation in
    a small state monad [M] over the whole node, which also collects the delegate's
    notifications in order.  What a handler takes from outside ([now_ms], the wall
    clock, random bytes, the outcome of system calls) is the environment [Env]; one
    handler is run in one environment, as it draws each of them at most once. *)

From S2P Require Import Prelude ByteIO Floats Crypto Identity Packet Payloads Radio.
From S2P Require Import Dispatcher Record Persist Contacts Channels Inbox Sender.

Definition kDeliveredTtlMs : Z := 300000.
Definition kMaxDelivered : nat := 512.
Definition kReturnPathRetryMs : Z := 3000.

Definition companion_path_len (p : Packet) : Z := if is_flood p then packed_path_len p else 0xFF.

(** [Node::Config]; the queue limits and paths are in the components they
    configure. *)
Record Config := mkConfig {
  cfg_name : Str;
  cfg_adv_type : Z;
  cfg_lat_e6 : Z;
  cfg_lon_e6 : Z;
  cfg_advert_interval_s : Z;
  cfg_repeat : bool;
  cfg_max_hops : nat;
}.

#[export] Instance eta_Config : Eta Config := fun c =>
  mkConfig (cfg_name c) (cfg_adv_type c) (cfg_lat_e6 c) (cfg_lon_e6 c) (cfg_advert_interval_s c)
    (cfg_repeat c) (cfg_max_hops c).

Definition cfg_has_location (c : Config) : bool :=
  negb (cfg_lat_e6 c =? 0) || negb (cfg_lon_e6 c =? 0).

(** The calls on [Node::Delegate], contacts by key. *)
Inductive Note :=
| OnContactChanged (pubkey : Bytes) (is_new : bool)
| OnMessageStored
| OnAck (ack_hash : Bytes)
| OnAdvertSeen (pubkey : Bytes)
| OnPathUpdated (pubkey : Bytes).

Record Node {R : Type} := mkNode {
  n_self : LocalIdentity;
  n_mesh : Mesh R;
  n_channels : ChannelStore;
  n_inbox : MessageInbox;
  n_cfg : Config;
  n_delivered : gmap Z Z;
  n_fs : Fs;
}.
Arguments Node : clear implicits.

#[export] Instance eta_Node {R} : Eta (Node R) := fun n =>
  mkNode R (n_self n) (n_mesh n) (n_channels n) (n_inbox n) (n_cfg n) (n_delivered n) (n_fs n).

Record Env := mkEnv {
  e_now : Z;              (** [loop_.now_ms()] *)
  e_unix : Z;             (** [unix_now()] *)
  e_clock_valid : bool;   (** [clock_is_valid()] *)
  e_pump_r : Z;           (** the byte the pump draws *)
  e_ack_r : Z;            (** the byte that makes an ack unique *)
  e_extra : Bytes;        (** the four bytes of an empty path return *)
  e_delay_r : Z;          (** the byte that spreads a relayed packet *)
  e_begin : gmap Z Z -> Z;  (** the key [delivered_.begin()] happens to be at *)
  e_faults : Faults;
  e_umask_mode : Z;
}.

(** ** The monad *)

Definition M (R A : Type) : Type := Env -> Node R -> A * Node R * list Note.

#[export] Instance M_ret R : MRet (M R) := fun A a e n => (a, n, []).
#[export] Instance M_bind R : MBind (M R) := fun A B f m e n =>
  let '(a, n1, o1) := m e n in let '(b, n2, o2) := f a e n1 in (b, n2, o1 ++ o2).

Definition ask {R} : M R Env := fun e n => (e, n, []).
Definition gets {R A} (f : Node R -> A) : M R A := fun e n => (f n, n, []).
Definition modify {R} (f : Node R -> Node R) : M R unit := fun e n => (tt, f n, []).
Definition notify {R} (x : Note) : M R unit := fun e n => (tt, n, [x]).

(** The components, as the node reaches them. *)
Definition n_contacts {R} (n : Node R) : ContactStore := m_contacts (n_mesh n).
Definition on_contacts {R} (f : ContactStore -> ContactStore) : M R unit :=
  modify (fun n => n <| n_mesh ::= fun m => m <| m_contacts ::= f |> |>).

Section node.
Context `{CryptoLib} {R : Type} `{Radio R}.

(** [dispatcher_.send(...)], with the callbacks it runs. *)
Definition dispatcher_send (p : Packet) (priority delay_ms : Z) : M R bool := fun e n =>
  let '(b, d, rs) := send (e_now e) (e_pump_r e) p priority delay_ms None (m_disp (n_mesh n)) in
  (b, n <| n_mesh ::= fun m => m <| m_disp := d |> <| m_sender ::= on_tx_results (e_now e) rs |> |>, []).

(** [c->shared_secret(self_)] through the pointer [i]. *)
Definition contact_secret (i : nat) : M R Bytes := fun e n =>
  match contact_at i (n_contacts n) with
  | None => ([], n, [])
  | Some c =>
      let '(s, c) := shared_secret (n_self n) c in
      (s, n <| n_mesh ::= fun m => m <| m_contacts ::= update_contact i (fun _ => c) |> |>, [])
  end.

Definition contact_key (i : nat) (n : Node R) : Bytes :=
  match contact_at i (n_contacts n) with Some c => c_pubkey c | None => [] end.

Definition my_byte (n : Node R) : Z := byte_at (pub (n_self n)) 0.

(** ** Originating *)

Definition build_appdata (cfg : Config) : AdvertAppData.t :=
  let flags := u8 (Z.land (cfg_adv_type cfg) kAdvTypeMask) in
  let '(flags, lat, lon) :=
    if cfg_has_location cfg
    then (Z.lor flags kAdvHasLocation, cfg_lat_e6 cfg, cfg_lon_e6 cfg) else (flags, 0, 0) in
  let '(flags, name) :=
    match cfg_name cfg with [] => (flags, []) | name => (Z.lor flags kAdvHasName, name) end in
  AdvertAppData.mk flags lat lon 0 0 name.

Definition build_advert_packet (flood : bool) (e : Env) (n : Node R) : option Packet :=
  if negb (e_clock_valid e) then None
  else
    let adv := Advert.create (n_self n) (e_unix e) (build_appdata (n_cfg n)) in
    Some (make_packet PayloadType.Advert (if flood then Flood else Direct) 1 [] (Advert.encode adv)).

Definition send_advert (flood : bool) : M R unit := fun e n =>
  match build_advert_packet flood e n with
  | None => (tt, n, [])
  | Some p => ((_ ← dispatcher_send p kPriorityAdvert 0; mret tt) : M R unit) e n
  end.

Definition send_channel_text (index : nat) (text : Str) (timestamp : Z) : M R bool :=
  ch ← gets (fun n => channel_at index (n_channels n));
  name ← gets (fun n => cfg_name (n_cfg n));
  match ch with
  | None => mret false
  | Some ch =>
      if negb (channel_valid ch) then mret false
      else
        let msg := TextMessage.mk timestamp kTxtPlain 0 0 (to_bytes (name ++ lit ": " ++ text)) in
        let env := GroupEnvelope.seal (channel_hash ch) (ch_secret ch) (TextMessage.encode msg) in
        dispatcher_send (make_packet PayloadType.GrpTxt Flood 1 [] (GroupEnvelope.encode env)) kPriorityFlood 0
  end.

Definition send_path_discovery : M R bool := _ ← send_advert true; mret true.

Definition send_text (i : nat) (text : Str) (txt_type timestamp : Z) : M R (option Bytes * option SendError) :=
  fun e n =>
  let '(h, err, m) := send_message (e_now e) (e_pump_r e) (n_self n) i text txt_type timestamp (n_mesh n) in
  (h, err, n <| n_mesh := m |>, []).

Definition pop_message : M R (option StoredMessage) := fun e n =>
  let '(x, inbox) := pop (n_inbox n) in (x, n <| n_inbox := inbox |>, []).

Definition set_name (name : Str) : M R unit := modify (fun n => n <| n_cfg ::= fun c => c <| cfg_name := name |> |>).
Definition set_location (lat lon : Z) : M R unit :=
  modify (fun n => n <| n_cfg ::= fun c => c <| cfg_lat_e6 := lat |> <| cfg_lon_e6 := lon |> |>).
Definition set_repeat (repeat : bool) : M R unit :=
  modify (fun n => n <| n_cfg ::= fun c => c <| cfg_repeat := repeat |> |>).

(** ** Answering *)

Definition send_ack (i : nat) (ack : Bytes) : M R unit := fun e n =>
  match contact_at i (n_contacts n) with
  | None => (tt, n, [])
  | Some to =>
      let '(_, d, rs) := route_to (e_now e) (e_pump_r e) (make_packet PayloadType.Ack Flood 1 [] ack) to
                           kPriorityAck false None (m_disp (n_mesh n)) in
      (tt, n <| n_mesh ::= fun m => m <| m_disp := d |> <| m_sender ::= on_tx_results (e_now e) rs |> |>, [])
  end.

Record Via := mkVia { via_path : Bytes; via_hash_size : nat }.

Definition send_path_return (i : nat) (inbound : Packet) (extra_type : Z) (extra : Bytes) (via : option Via)
    (delay_ms : Z) : M R unit :=
  shared ← contact_secret i;
  match shared with
  | [] => mret tt
  | _ =>
      e ← ask;
      key ← gets (contact_key i);
      me ← gets my_byte;
      let '(ty, extra) := match extra with [] => (0x0F, e_extra e) | _ => (extra_type, extra) end in
      let ret := PathReturn.mk (p_path inbound) (p_path_hash_size inbound) ty extra true in
      let payload := DirectEnvelope.encode (DirectEnvelope.seal (byte_at key 0) me shared (PathReturn.encode ret)) in
      let p := match via with
               | Some v => make_packet PayloadType.Path Direct (via_hash_size v) (via_path v) payload
               | None => make_packet PayloadType.Path Flood 1 [] payload
               end in
      _ ← dispatcher_send p kPriorityAck delay_ms;
      mret tt
  end.

(** [complete_ack]: the contact, if it is still there, and whether anything
    matched. *)
Definition complete_ack (ack_hash : Bytes) (direct : bool) : M R (option nat * bool) := fun e n =>
  match complete ack_hash (m_sender (n_mesh n)) with
  | (None, _) => (None, false, n, [])
  | (Some completed, s) =>
      let n := n <| n_mesh ::= fun m => m <| m_sender := s |> |> in
      let c := find_contact (cm_dest_pubkey completed) (n_contacts n) in
      let n := match c with
               | Some i => if direct
                           then n <| n_mesh ::= fun m => m <| m_contacts ::= touch (e_unix e) i |> |> else n
               | None => n
               end in
      (c, true, n, [OnAck (cm_ack_hash completed)])
  end.

Definition store_message (msg : StoredMessage) : M R unit := fun e n =>
  let '(_, inbox, fs) := store (e_faults e) (e_umask_mode e) (n_fs n) msg (n_inbox n) in
  (tt, n <| n_inbox := inbox |> <| n_fs := fs |>, [OnMessageStored]).

Definition expire_delivered (now : Z) (m : gmap Z Z) : gmap Z Z := filter (fun kv => ~ tdiff kv.2 now <= 0) m.

(** The identity of a message: everything but its attempt number. *)
Definition delivery_key (pubkey : Bytes) (msg : TextMessage.t) : Z :=
  let id := put_bytes (put_u32 (put_bytes [] pubkey) (TextMessage.timestamp msg) ++ [TextMessage.txt_type msg])
              (TextMessage.text msg) in
  fold_left (fun key b => u64 (Z.lor (Z.shiftl key 8) b)) (firstn 8 (sha256 id)) 0.

Definition first_delivery (now : Z) (begin : gmap Z Z -> Z) (pubkey : Bytes) (msg : TextMessage.t)
    (delivered : gmap Z Z) : bool * gmap Z Z :=
  let key := delivery_key pubkey msg in
  let live := match delivered !! key with Some expiry => 0 <? tdiff expiry now | None => false end in
  if live then (false, <[key := u32 (now + kDeliveredTtlMs)]> delivered)
  else
    let d1 := if (kMaxDelivered <=? size delivered)%nat then expire_delivered now delivered else delivered in
    let d2 := if (kMaxDelivered <=? size delivered)%nat && (kMaxDelivered <=? size d1)%nat
              then delete (begin d1) d1 else d1 in
    (true, <[key := u32 (now + kDeliveredTtlMs)]> d2).

(** [first_delivery(...)] on the node's table. *)
Definition mark_delivered (pubkey : Bytes) (msg : TextMessage.t) : M R bool := fun e n =>
  let '(first, delivered) := first_delivery (e_now e) (e_begin e) pubkey msg (n_delivered n) in
  (first, n <| n_delivered := delivered |>, []).

(** ** Receiving *)

Fixpoint try_contacts (is_ : list nat) (mac ciphertext : Bytes) : M R (option (nat * Bytes)) :=
  match is_ with
  | [] => mret None
  | i :: is_ =>
      shared ← contact_secret i;
      match shared with
      | [] => try_contacts is_ mac ciphertext
      | _ => match mac_and_decrypt shared mac ciphertext with
             | Some plain => mret (Some (i, plain))
             | None => try_contacts is_ mac ciphertext
             end
      end
  end.

Definition decrypt_from (src_hash : Z) (mac ciphertext : Bytes) : M R (option (nat * Bytes)) :=
  is_ ← gets (fun n => by_id src_hash (n_contacts n));
  try_contacts is_ mac ciphertext.

(** [contacts_.apply_advert(...)]: the contact and [created]. *)
Definition contacts_apply_advert (adv : Advert.t) (app : AdvertAppData.t) : M R (option nat * bool) := fun e n =>
  let '(c, created, contacts) := apply_advert (e_unix e) adv app (n_contacts n) in
  (c, created, n <| n_mesh ::= fun m => m <| m_contacts := contacts |> |>, []).

Definition handle_advert (p : Packet) : M R bool :=
  self ← gets n_self;
  match Advert.decode (p_payload p) with
  | None => mret false
  | Some adv =>
      if negb (Advert.verify adv) then mret false
      else if equal (Advert.pubkey adv) (pub self) then mret false
      else match AdvertAppData.decode (Advert.appdata adv) with
           | None => mret true
           | Some app =>
               if negb (AdvertAppData.has_name app)
                  || (match AdvertAppData.name app with [] => true | c :: _ => c =? 0 end)
               then mret true
               else
                 e ← ask;
                 r ← contacts_apply_advert adv app;
                 let '(c, created) := r in
                 match c with
                 | None => mret true
                 | Some i =>
                     _ ← on_contacts (touch_signal (e_unix e) i (p_rssi p) (p_snr p));
                     _ ← notify (OnAdvertSeen (Advert.pubkey adv));
                     _ ← notify (OnContactChanged (Advert.pubkey adv) created);
                     mret true
                 end
           end
  end.

Definition handle_request (p : Packet) : M R bool :=
  me ← gets my_byte;
  self ← gets n_self;
  if p_type p =? PayloadType.AnonReq
  then match AnonReqEnvelope.decode (p_payload p) with
       | None => mret false
       | Some env =>
           if negb (AnonReqEnvelope.dest_hash env =? me) then mret true
           else
             let opened := match shared_secret_with self (AnonReqEnvelope.pubkey env) with
                           | Some shared =>
                               match mac_and_decrypt shared (AnonReqEnvelope.mac env) (AnonReqEnvelope.ciphertext env) with
                               | Some _ => true | None => false
                               end
                           | None => false
                           end in
             mret (negb opened)
       end
  else match DirectEnvelope.decode (p_payload p) with
       | None => mret false
       | Some env =>
           if negb (DirectEnvelope.dest_hash env =? me) then mret true
           else
             from ← decrypt_from (DirectEnvelope.src_hash env) (DirectEnvelope.mac env) (DirectEnvelope.ciphertext env);
             mret (match from with Some _ => false | None => true end)
       end.

(** The message as it is queued for the app. *)
Definition stored_direct (p : Packet) (key : Bytes) (msg : TextMessage.t) : StoredMessage :=
  mkStored false key 0 (TextMessage.timestamp msg) (TextMessage.txt_type msg) (TextMessage.body msg)
    (snr_q4 (p_snr p)) (companion_path_len p).

(** What [handle_text] does once a message has been opened and its type is known. *)
Definition accept_text (p : Packet) (i : nat) (plaintext : Bytes) (msg : TextMessage.t) : M R bool :=
  e ← ask;
  _ ← on_contacts (touch_signal (e_unix e) i (p_rssi p) (p_snr p));
  key ← gets (contact_key i);
  self ← gets n_self;
  first ← mark_delivered key msg;
  _ ← (if first : bool then store_message (stored_direct p key msg) else mret tt);
  let ack :=
    if TextMessage.txt_type msg =? kTxtCliData then []
    else
      let ack_key := if TextMessage.txt_type msg =? kTxtSignedPlain then pub self else key in
      ack_payload (message_ack_hash plaintext ack_key) (ack_extended_attempt plaintext) (e_ack_r e) in
  _ ← (if is_flood p
       then send_path_return i p (match ack with [] => 0 | _ => PayloadType.Ack end) ack None 0
       else match ack with [] => mret tt | _ => send_ack i ack end);
  mret false.

Definition handle_text (p : Packet) : M R bool :=
  me ← gets my_byte;
  match DirectEnvelope.decode (p_payload p) with
  | None => mret false
  | Some env =>
      if negb (DirectEnvelope.dest_hash env =? me) then mret true
      else
        from ← decrypt_from (DirectEnvelope.src_hash env) (DirectEnvelope.mac env) (DirectEnvelope.ciphertext env);
        match from with
        | None => mret true
        | Some (i, plaintext) =>
            match TextMessage.decode plaintext with
            | None => mret false
            | Some msg =>
                let ty := TextMessage.txt_type msg in
                if negb (ty =? kTxtPlain) && negb (ty =? kTxtCliData) && negb (ty =? kTxtSignedPlain)
                then mret false
                else accept_text p i plaintext msg
            end
        end
  end.

Definition handle_ack (p : Packet) : M R bool :=
  if (length (p_payload p) <? kAckHashSize)%nat then mret false
  else
    r ← complete_ack (subview (p_payload p) 0 kAckHashSize) (is_direct p);
    let '(c, matched) := r in
    if negb matched then mret true
    else
      route ← gets (fun n => match c with Some i => contact_at i (n_contacts n) | None => None end);
      _ ← (match c, route with
           | Some i, Some x =>
               if is_flood p && c_path_known x
               then send_path_return i p 0 [] (Some (mkVia (c_out_path x) 1)) kReturnPathRetryMs
               else mret tt
           | _, _ => mret tt
           end);
      mret false.

Definition handle_path (p : Packet) : M R bool :=
  me ← gets my_byte;
  match DirectEnvelope.decode (p_payload p) with
  | None => mret false
  | Some env =>
      if negb (DirectEnvelope.dest_hash env =? me) then mret true
      else
        from ← decrypt_from (DirectEnvelope.src_hash env) (DirectEnvelope.mac env) (DirectEnvelope.ciphertext env);
        match from with
        | None => mret true
        | Some (i, plaintext) =>
            match PathReturn.decode plaintext with
            | None => mret true
            | Some path =>
                e ← ask;
                key ← gets (contact_key i);
                _ ← (if (PathReturn.path_hash_size path =? 1)%nat
                     then
                       _ ← on_contacts (fun s => (cs_set_path i (PathReturn.path path) s).2);
                       _ ← on_contacts (touch (e_unix e) i);
                       notify (OnPathUpdated key)
                     else mret tt);
                _ ← (if PathReturn.has_extra path && (PathReturn.extra_type path =? PayloadType.Ack)
                        && (kAckHashSize <=? length (PathReturn.extra path))%nat
                     then _ ← complete_ack (subview (PathReturn.extra path) 0 kAckHashSize) (is_direct p); mret tt
                     else mret tt);
                _ ← (if is_flood p
                     then send_path_return i p 0 []
                            (Some (mkVia (PathReturn.path path) (PathReturn.path_hash_size path))) 0
                     else mret tt);
                mret false
            end
        end
  end.

(** The loop over the channels whose hash matches. *)
Fixpoint try_channels (p : Packet) (env : GroupEnvelope.t) (chs : list (nat * Channel)) : M R unit :=
  match chs with
  | [] => mret tt
  | (index, ch) :: chs =>
      match mac_and_decrypt (ch_secret ch) (GroupEnvelope.mac env) (GroupEnvelope.ciphertext env) with
      | None => try_channels p env chs
      | Some plain =>
          match TextMessage.decode plain with
          | None => try_channels p env chs
          | Some msg =>
              if negb (TextMessage.txt_type msg =? kTxtPlain) then mret tt
              else store_message
                     (mkStored true [] (u8 (Z.of_nat index)) (TextMessage.timestamp msg) (TextMessage.txt_type msg)
                        (TextMessage.body msg) (snr_q4 (p_snr p)) (companion_path_len p))
          end
      end
  end.

Definition handle_group_text (p : Packet) : M R unit :=
  match GroupEnvelope.decode (p_payload p) with
  | None => mret tt
  | Some env =>
      chs ← gets (fun n => by_hash (GroupEnvelope.channel_hash env) (n_channels n));
      try_channels p env chs
  end.

(** ** Relaying *)

Definition maybe_repeat (p : Packet) : M R unit :=
  cfg ← gets n_cfg;
  self ← gets n_self;
  e ← ask;
  if negb (cfg_repeat cfg) then mret tt
  else if negb (is_flood p) then mret tt
  else if (cfg_max_hops cfg <=? hop_count p)%nat then mret tt
  else match push_hop p (pub self) with
       | None => mret tt
       | Some out => _ ← dispatcher_send out kPriorityRepeat (100 + e_delay_r e * 4); mret tt
       end.

(** [(r * airtime) / 255] in [uint32_t] arithmetic. *)
Definition direct_retransmit_delay (out : Packet) (e : Env) (n : Node R) : Z :=
  let airtime := airtime_ms (radio_params (radio_ (m_disp (n_mesh n)))) (zlen (encode out)) in
  u32 (e_delay_r e * airtime) / 255.

Definition forward_direct (p : Packet) : M R unit :=
  cfg ← gets n_cfg;
  self ← gets n_self;
  e ← ask;
  if negb (cfg_repeat cfg) then mret tt
  else
    let next := first_hop p in
    let ours := subview (pub self) 0 (length next) in
    if (match next with [] => true | _ => false end) || negb (beq next ours) then mret tt
    else if p_type p =? PayloadType.Multipart then mret tt
    else
      let out := pop_hop p in
      delay_ms ← (if p_type p =? PayloadType.Ack then mret 0 else gets (direct_retransmit_delay out e));
      _ ← dispatcher_send out kPriorityAck delay_ms;
      mret tt.

Definition kTraceHeader : nat := 9.

Definition forward_trace (p : Packet) : M R unit :=
  cfg ← gets n_cfg;
  self ← gets n_self;
  e ← ask;
  if negb (cfg_repeat cfg) then mret tt
  else if (length (p_payload p) <=? kTraceHeader)%nat then mret tt
  else if negb (p_path_hash_size p =? 1)%nat || (kMaxPathSize <=? length (p_path p))%nat then mret tt
  else
    let width := Z.to_nat (Z.shiftl 1 (Z.land (byte_at (p_payload p) 8) 0x03)) in
    let at_ := (kTraceHeader + length (p_path p) * width)%nat in
    if (length (p_payload p) <? at_ + width)%nat then mret tt
    else
      let next := subview (p_payload p) at_ width in
      let ours := subview (pub self) 0 width in
      if negb (beq next ours) then mret tt
      else
        let out := set_path p (p_path p ++ [u8 (snr_q4 (p_snr p))]) in
        delay_ms ← gets (direct_retransmit_delay out e);
        _ ← dispatcher_send out kPriorityAdvert delay_ms;
        mret tt.

(** ** Every packet off the air *)

(** The switch on the type of a packet that is not in transit: whether MeshCore
    would flood it onward. *)
Definition dispatch_type (p : Packet) : M R bool :=
  let ty := p_type p in
  if ty =? PayloadType.Advert then handle_advert p
  else if ty =? PayloadType.TxtMsg then handle_text p
  else if ty =? PayloadType.Ack then handle_ack p
  else if ty =? PayloadType.Path then handle_path p
  else if ty =? PayloadType.GrpTxt then _ ← handle_group_text p; mret true
  else if (ty =? PayloadType.Req) || (ty =? PayloadType.Response) || (ty =? PayloadType.AnonReq) then handle_request p
  else if ty =? PayloadType.GrpData then mret true
  else mret false.

Definition on_packet (p : Packet) : M R unit :=
  if is_direct p && (p_type p =? PayloadType.Trace) then forward_trace p
  else if is_direct p && (p_type p =? PayloadType.Control)
          && (match p_payload p with b :: _ => negb (Z.land b 0x80 =? 0) | [] => false end)
  then mret tt
  else if is_direct p && (0 <? hop_count p)%nat
  then
    forward ← (if p_type p =? PayloadType.Ack then handle_ack p else mret true);
    if forward : bool then forward_direct p else mret tt
  else
    forward ← dispatch_type p;
    if forward : bool then maybe_repeat p else mret tt.

(** The sweep timer. *)
Definition on_delivered_sweep : M R unit := fun e n =>
  (tt, n <| n_delivered ::= expire_delivered (e_now e) |>, []).

(** A frame off the air: the dispatcher first, then the node's handler if it is
    handed over. *)
Definition on_frame (rx : RxPacket) : M R unit := fun e n =>
  let '(d, calls) := on_radio_rx (e_now e) rx (m_disp (n_mesh n)) in
  let n := n <| n_mesh ::= fun m => m <| m_disp := d |> |> in
  match delivered calls with
  | Some p => on_packet p e n
  | None => (tt, n, [])
  end.

(** Any other event of the dispatcher, with the callbacks it runs. *)
Definition on_dispatcher (ev : Event (R := R)) : M R unit := fun e n =>
  let '(d, rs) := handle (e_now e) (e_pump_r e) ev (m_disp (n_mesh n)) in
  (tt, n <| n_mesh ::= fun m => m <| m_disp := d |> <| m_sender ::= on_tx_results (e_now e) rs |> |>, []).

Definition on_retry_due (id : Z) : M R unit := fun e n =>
  (tt, n <| n_mesh ::= on_retry_timer (e_now e) (e_pump_r e) (n_self n) id |>, []).

End node.

(** ** Invariants of handlers *)

Create HintDb keeps discriminated.

Section facts.
Context `{CryptoLib} {R : Type} `{RadioLaws R}.

(** A computation keeps a property of the node, in every environment that
    satisfies [E]. *)
Definition keeps {A} (E : Env -> Prop) (P : Node R -> Prop) (m : M R A) : Prop :=
  forall e n, E e -> P n -> P (m e n).1.2.

Section walk.
Context (E : Env -> Prop) (P : Node R -> Prop).

Lemma keeps_ret {A} (a : A) : keeps E P (mret a).
Proof. by intros e n He Hn. Qed.

Lemma keeps_bind {A B} (m : M R A) (f : A -> M R B) :
  keeps E P m -> (forall a, keeps E P (f a)) -> keeps E P (m ≫= f).
Proof.
  intros Hm Hf e n He Hn. unfold mbind, M_bind. specialize (Hm e n He Hn).
  destruct (m e n) as [[a n1] o1]. specialize (Hf a e n1 He Hm). by destruct (f a e n1) as [[b n2] o2].
Qed.

Lemma keeps_ask : keeps E P ask.
Proof. by intros e n He Hn. Qed.

Lemma keeps_gets {A} (f : Node R -> A) : keeps E P (gets f).
Proof. by intros e n He Hn. Qed.

Lemma keeps_notify x : keeps E P (notify x).
Proof. by intros e n He Hn. Qed.

(** The steps handlers are made of.  A property that each of them keeps is kept by
    every handler, so an invariant is proved for the steps alone. *)
Class Steps : Prop := {
  step_send p priority delay : keeps E P (dispatcher_send p priority delay);
  step_send_ack i ack : keeps E P (send_ack i ack);
  step_secret i : keeps E P (contact_secret i);
  step_complete h direct : keeps E P (complete_ack h direct);
  step_store msg : keeps E P (store_message msg);
  step_mark pubkey msg : keeps E P (mark_delivered pubkey msg);
  step_touch unix i : keeps E P (on_contacts (touch unix i));
  step_touch_signal unix i rssi snr : keeps E P (on_contacts (touch_signal unix i rssi snr));
  step_set_path i path : keeps E P (on_contacts (fun s => (cs_set_path i path s).2));
  step_advert adv app : Advert.verify adv = true -> keeps E P (contacts_apply_advert adv app);
}.

Context `{Steps}.

#[local] Hint Resolve keeps_ret keeps_ask keeps_gets keeps_notify step_send step_send_ack step_secret
  step_complete step_store step_mark step_touch step_touch_signal step_set_path step_advert : keeps.

(** Walks a computation: one goal per step, closed by the step's own lemma. *)
Ltac keeping := repeat first [ solve [auto 3 with keeps] | apply keeps_bind; [|intros ?] | case_match ].

Lemma send_path_return_keeps i p ty extra via delay : keeps E P (send_path_return i p ty extra via delay).
Proof. unfold send_path_return. keeping. Qed.
#[local] Hint Resolve send_path_return_keeps : keeps.

Lemma decrypt_from_keeps src mac ct : keeps E P (decrypt_from src mac ct).
Proof.
  unfold decrypt_from. apply keeps_bind; [apply keeps_gets|]. intros l.
  induction l as [|i l IH]; cbn [try_contacts]; keeping; done.
Qed.
#[local] Hint Resolve decrypt_from_keeps : keeps.

Lemma handle_advert_keeps p : keeps E P (handle_advert p).
Proof.
  unfold handle_advert. apply keeps_bind; [apply keeps_gets|]. intros self.
  destruct (Advert.decode _) as [adv|]; [|keeping].
  destruct (Advert.verify adv) eqn:Hv; cbn [negb]; [|keeping].
  destruct (equal _ _); [keeping|]. destruct (AdvertAppData.decode _) as [app|]; [|keeping].
  destruct (_ || _); [keeping|]. apply keeps_bind; [apply keeps_ask|]. intros e.
  apply keeps_bind; [by apply step_advert|]. intros [c created]. keeping.
Qed.
#[local] Hint Resolve handle_advert_keeps : keeps.

Lemma handle_request_keeps p : keeps E P (handle_request p).
Proof. unfold handle_request. keeping. Qed.
#[local] Hint Resolve handle_request_keeps : keeps.

Lemma accept_text_keeps p i plain msg : keeps E P (accept_text p i plain msg).
Proof. unfold accept_text. keeping. Qed.
#[local] Hint Resolve accept_text_keeps : keeps.

Lemma handle_text_keeps p : keeps E P (handle_text p).
Proof. unfold handle_text. keeping. Qed.
#[local] Hint Resolve handle_text_keeps : keeps.

Lemma handle_ack_keeps p : keeps E P (handle_ack p).
Proof. unfold handle_ack. keeping. Qed.
#[local] Hint Resolve handle_ack_keeps : keeps.

Lemma handle_path_keeps p : keeps E P (handle_path p).
Proof. unfold handle_path. keeping. Qed.
#[local] Hint Resolve handle_path_keeps : keeps.

Lemma handle_group_text_keeps p : keeps E P (handle_group_text p).
Proof.
  unfold handle_group_text. destruct (GroupEnvelope.decode _) as [env|]; [|keeping].
  apply keeps_bind; [apply keeps_gets|]. intros chs. induction chs as [|[ix ch] chs IH]; cbn [try_channels]; keeping; done.
Qed.
#[local] Hint Resolve handle_group_text_keeps : keeps.

Lemma on_packet_keeps p : keeps E P (on_packet p).
Proof.
  unfold on_packet, dispatch_type, forward_trace, forward_direct, maybe_repeat. keeping.
Qed.


Lemma send_advert_keeps flood : keeps E P (send_advert flood).
Proof.
  intros e n He Hn. unfold send_advert. destruct (build_advert_packet _ _ _); [|done].
  revert e n He Hn. fold (keeps E P (_ ← dispatcher_send p kPriorityAdvert 0; mret tt)). keeping.
Qed.

Lemma send_channel_text_keeps index text ts : keeps E P (_ ← send_channel_text index text ts; mret tt).
Proof. unfold send_channel_text. keeping. Qed.

End walk.

(** What an environment has to promise: [begin()] of a table that is not empty is
    one of its entries. *)
Definition env_ok (e : Env) : Prop := forall m, (0 < size m)%nat -> e_begin e m ∈ dom m.

(** ** The node's invariant *)

Record node_ok (n : Node R) : Prop := {
  no_mesh : mesh_ok (n_self n) (n_mesh n);
  no_contacts : store_ok (n_contacts n);
  no_self : cs_self (n_contacts n) = n_self n;
  no_channels : length (chs_channels (n_channels n)) = kMaxChannels;
  no_delivered : (size (n_delivered n) <= kMaxDelivered)%nat;
  no_inbox : (length (mi_messages (n_inbox n)) <= mi_limit (n_inbox n))%nat;
}.

(** Changing the contact store alone. *)
Lemma on_contacts_keeps f :
  (forall s, store_ok s -> store_ok (f s) /\ cs_self (f s) = cs_self s) -> keeps env_ok node_ok (on_contacts f).
Proof.
  intros Hf e n _ [[? ? ? ? ? ?] Hc Hs ? ? ?]. destruct (Hf _ Hc) as [Hok Hself].
  constructor; simpl; try done; unfold n_contacts in *; simpl; congruence.
Qed.

Lemma contacts_swap (n : Node R) s :
  node_ok n -> store_ok s -> cs_self s = cs_self (n_contacts n) ->
  node_ok (n <| n_mesh ::= fun m => m <| m_contacts := s |> |>).
Proof.
  intros [[? ? ? ? ? ?] Hc Hs ? ? ?] Hok Hself.
  constructor; simpl; try done; unfold n_contacts in *; simpl; congruence.
Qed.

Lemma touch_ok unix i s : store_ok s -> store_ok (touch unix i s) /\ cs_self (touch unix i s) = cs_self s.
Proof. intros Hs. split; [|done]. by apply dirty_ok, update_contact_ok. Qed.

Lemma touch_signal_ok unix i rssi snr s :
  store_ok s -> store_ok (touch_signal unix i rssi snr s) /\ cs_self (touch_signal unix i rssi snr s) = cs_self s.
Proof. intros Hs. split; [|done]. by apply dirty_ok, update_contact_ok, update_contact_ok. Qed.

Lemma cs_set_path_ok i path s :
  store_ok s -> store_ok (cs_set_path i path s).2 /\ cs_self (cs_set_path i path s).2 = cs_self s.
Proof.
  intros Hs. unfold cs_set_path. repeat case_match; try done. split; [|done].
  by apply dirty_ok, update_contact_ok.
Qed.

(** Filling the cache of one contact through the copy that was read. *)
Lemma cache_secret_ok i c s :
  store_ok s -> contact_at i s = Some c ->
  store_ok (update_contact i (fun _ => (shared_secret (cs_self s) c).2) s).
Proof.
  intros Hs Hc.
  assert (update_contact i (fun _ => (shared_secret (cs_self s) c).2) s
    = update_contact i (fun x => (shared_secret (cs_self s) x).2) s) as ->.
  { unfold update_contact, contact_at in *. destruct s as [self p mx cs d]. simpl in *.
    change (mkContactStore self p mx (alter (fun _ => (shared_secret self c).2) i cs) d
      = mkContactStore self p mx (alter (fun x => (shared_secret self x).2) i cs) d).
    f_equal. apply list_alter_ext; [|done]. intros x Hx. by simplify_eq. }
  apply update_contact_ok; [|done]. intros x. split; [apply shared_secret_key|apply shared_secret_cache].
Qed.

Lemma contact_secret_keeps i : keeps env_ok node_ok (contact_secret i).
Proof.
  intros e n He Hn. unfold contact_secret. destruct (contact_at i (n_contacts n)) as [c|] eqn:Ec; [|done].
  destruct (shared_secret (n_self n) c) as [s c'] eqn:Es. simpl.
  apply (contacts_swap n (update_contact i (fun _ => c') (n_contacts n))); [done| |done].
  replace c' with (shared_secret (cs_self (n_contacts n)) c).2 by (rewrite (no_self _ Hn); by rewrite Es).
  apply cache_secret_ok; [apply Hn|done].
Qed.

(** Changing the dispatcher through one of its operations, and the sender through
    the callbacks that ran. *)
Lemma dispatched_ok n d' rs acc now :
  node_ok n -> ok d' -> acc ++ queue_ (m_disp (n_mesh n)) ≡ₚ queue_ d' ++ map fst rs ->
  node_ok (n <| n_mesh ::= fun m => m <| m_disp := d' |> <| m_sender ::= on_tx_results now rs |> |>).
Proof.
  intros [Hm ? ? ? ? ?] Hd Hq. constructor; try done. simpl. by eapply dispatch_ok.
Qed.

Lemma dispatcher_send_keeps p prio delay : keeps env_ok node_ok (dispatcher_send p prio delay).
Proof.
  intros e n He Hn. unfold dispatcher_send. destruct (send _ _ _ _ _ _ _) as [[b d'] rs] eqn:Es. simpl.
  pose proof (mo_disp _ _ (no_mesh _ Hn)) as Hok.
  destruct (send_spec _ _ _ _ _ _ _ _ _ _ Hok Es) as [_ Hp].
  eapply dispatched_ok; [done| |exact (op_queue _ _ _ _ Hp)].
  eapply (handle_ok (e_now e) (e_pump_r e) (EvSend p prio delay None)); [done|exact I|]. simpl. by rewrite Es.
Qed.

Lemma send_ack_keeps i ack : keeps env_ok node_ok (send_ack i ack).
Proof.
  intros e n He Hn. unfold send_ack. destruct (contact_at i (n_contacts n)) as [to|]; [|done]. unfold route_to.
  set (p := if c_path_known to && _ then _ else _).
  pose proof (dispatcher_send_keeps p kPriorityAck 0 e n He Hn) as Hk. unfold dispatcher_send in Hk.
  destruct (send _ _ _ _ _ _ _) as [[b d'] rs]. exact Hk.
Qed.

Lemma complete_ack_keeps h direct : keeps env_ok node_ok (complete_ack h direct).
Proof.
  intros e n He Hn. unfold complete_ack.
  destruct (complete h (m_sender (n_mesh n))) as [[c|] s] eqn:Ec; [|done].
  assert (node_ok (n <| n_mesh ::= fun m => m <| m_sender := s |> |>)) as Hn1.
  { destruct Hn as [Hm ? ? ? ? ?]. constructor; try done.
    pose proof (complete_ok _ h _ Hm) as Hc. unfold setf in Hc. simpl in Hc. by rewrite Ec in Hc. }
  cbn [fst snd]. destruct (find_contact _ _) as [i|]; [|done]. destruct direct; [|done].
  exact (on_contacts_keeps _ (touch_ok (e_unix e) i) e _ He Hn1).
Qed.

Lemma store_message_keeps msg : keeps env_ok node_ok (store_message msg).
Proof.
  intros e n _ [? ? ? ? ? Hi]. unfold store_message, store.
  destruct (evict_spec (length (mi_messages (n_inbox n) ++ [msg])) (mi_limit (n_inbox n))
    (mi_messages (n_inbox n) ++ [msg]) (mi_dropped (n_inbox n))) as [_ Hb]; [lia|].
  destruct (evict _ _ _ _) as [ms dropped]. simpl in Hb. unfold mi_save.
  repeat case_match; simplify_eq/=; by constructor.
Qed.

Lemma filter_size_le (P : Z * Z -> Prop) `{!forall x, Decision (P x)} (m : gmap Z Z) :
  (size (filter P m) <= size m)%nat.
Proof.
  rewrite <- !size_dom. apply subseteq_size. apply dom_filter_subseteq.
Qed.

Lemma first_delivery_bound now begin key msg m :
  (forall m', (0 < size m')%nat -> begin m' ∈ dom m') ->
  (size m <= kMaxDelivered)%nat -> (size (first_delivery now begin key msg m).2 <= kMaxDelivered)%nat.
Proof.
  intros Hb Hm. unfold first_delivery.
  assert (forall k v (m' : gmap Z Z), (size m' < kMaxDelivered)%nat -> (size (<[k := v]> m') <= kMaxDelivered)%nat) as Hins.
  { intros k v m' Hm'. rewrite map_size_insert. destruct (m' !! k); simpl; lia. }
  destruct (match m !! _ with Some _ => _ | None => _ end) eqn:El.
  - simpl. rewrite map_size_insert. by destruct (m !! delivery_key key msg).
  - cbn [fst snd]. destruct (Nat.leb_spec kMaxDelivered (size m)) as [Hfull|Hroom]; cbn [andb]; [|by apply Hins].
    pose proof (filter_size_le (fun kv => ~ tdiff kv.2 now <= 0) m) as Hf. fold (expire_delivered now m) in Hf.
    destruct (Nat.leb_spec kMaxDelivered (size (expire_delivered now m))) as [Hf2|Hf2]; apply Hins; [|done].
    assert (begin (expire_delivered now m) ∈ dom (expire_delivered now m)) as Hd
      by (apply Hb; unfold kMaxDelivered in *; lia).
    apply elem_of_dom in Hd as [v Hv]. rewrite map_size_delete, Hv. simpl. unfold kMaxDelivered in *. lia.
Qed.

Lemma mark_delivered_keeps pk msg : keeps env_ok node_ok (mark_delivered pk msg).
Proof.
  intros e n He [? ? ? ? Hd ?]. unfold mark_delivered.
  pose proof (first_delivery_bound (e_now e) (e_begin e) pk msg _ He Hd) as Hb.
  destruct (first_delivery _ _ _ _ _) as [b d]. by constructor.
Qed.

Lemma verified_key_length adv : Advert.verify adv = true -> length (Advert.pubkey adv) = kPubKeySize.
Proof.
  unfold Advert.verify. destruct (Nat.eqb_spec (length (Advert.pubkey adv)) kPubKeySize); [done|done].
Qed.

Lemma apply_advert_self unix adv app s i created s' :
  apply_advert unix adv app s = (i, created, s') -> cs_self s' = cs_self s.
Proof.
  unfold apply_advert, upsert. intros Ha. repeat case_match; simplify_eq; done.
Qed.

Lemma contacts_apply_advert_keeps adv app :
  Advert.verify adv = true -> keeps env_ok node_ok (contacts_apply_advert adv app).
Proof.
  intros Hv e n He Hn. unfold contacts_apply_advert.
  destruct (apply_advert _ _ _ _) as [[i created] s'] eqn:Ea. apply contacts_swap; [done| |].
  - eapply apply_advert_ok; [by apply verified_key_length| |exact Ea]. apply Hn.
  - by eapply apply_advert_self.
Qed.

#[export] Instance node_ok_steps : Steps env_ok node_ok.
Proof.
  constructor; intros.
  - apply dispatcher_send_keeps.
  - apply send_ack_keeps.
  - apply contact_secret_keeps.
  - apply complete_ack_keeps.
  - apply store_message_keeps.
  - apply mark_delivered_keeps.
  - apply on_contacts_keeps, touch_ok.
  - apply on_contacts_keeps, touch_signal_ok.
  - apply on_contacts_keeps, cs_set_path_ok.
  - by apply contacts_apply_advert_keeps.
Qed.

(** ** What the sender does to the contacts *)

Definition contacts_fine (self : LocalIdentity) (s : ContactStore) : Prop := store_ok s /\ cs_self s = self.

Lemma send_attempt_contacts now r self p i force (m : Mesh R) :
  contacts_fine self (m_contacts m) -> contacts_fine self (m_contacts (send_attempt now r self p i force m).2).
Proof.
  intros [Hs Hself]. unfold send_attempt. destruct (contact_at i (m_contacts m)) as [to|] eqn:Ec; [|done].
  assert (contacts_fine self (update_contact i (fun _ => (shared_secret self to).2) (m_contacts m))) as Hf.
  { split; [|done]. rewrite <- Hself. by apply cache_secret_ok. }
  destruct (shared_secret self to) as [shared to']. cbn [snd] in Hf. cbv zeta.
  destruct (seal_attempt _ _ _ _) as [[[h p2] payload]|]; [|exact Hf].
  destruct (route_to _ _ _ _ _ _ _ _) as [[queued d] rs]. by destruct queued.
Qed.

Lemma send_message_contacts now r self i text ty ts (m : Mesh R) :
  contacts_fine self (m_contacts m) -> contacts_fine self (m_contacts (send_message now r self i text ty ts m).2).
Proof.
  intros Hs. unfold send_message. destruct (contact_at _ _) as [to|]; [|done].
  destruct (if negb _ then _ else None) as [dup|]; [done|]. destruct (_ && _); [done|]. cbv zeta.
  destruct (negb (ty =? kTxtCliData)).
  all: match goal with |- context [send_attempt ?a ?b ?c ?d ?e ?f ?g] =>
         pose proof (send_attempt_contacts a b c d e f g Hs) as Ha;
         destruct (send_attempt a b c d e f g) as [[h err] m'] end; by destruct h.
Qed.

Lemma on_retry_timer_contacts now r self id (m : Mesh R) :
  contacts_fine self (m_contacts m) -> contacts_fine self (m_contacts (on_retry_timer now r self id m)).
Proof.
  intros Hs. unfold on_retry_timer, on_retry. destruct (find_pending _ _) as [p|]; [|done]. cbv zeta.
  destruct (_ <=? _); [done|]. destruct (find_contact _ _) as [i|]; [|done].
  match goal with |- context [send_attempt ?a ?b ?c ?d ?e ?f ?g] =>
    pose proof (send_attempt_contacts a b c d e f g Hs) as Ha;
    destruct (send_attempt a b c d e f g) as [[h err] m'] end. by destruct h.
Qed.

(** ** Runs of the node *)

Inductive NEvent :=
| NFrame (rx : RxPacket)                                  (** a frame off the air *)
| NDispatcher (ev : Event (R := R))                       (** radio and timers of the dispatcher *)
| NRetry (id : Z)                                         (** a retry timer *)
| NDeliveredSweep                                         (** the sweep timer *)
| NAdvert (flood : bool)                                  (** the advert timer, or the app *)
| NText (i : nat) (text : Str) (txt_type timestamp : Z)   (** the app sends a direct message *)
| NChannelText (index : nat) (text : Str) (timestamp : Z) (** the app sends a channel message *)
| NPop                                                    (** the app takes a message *)
| NUpsert (pubkey : Bytes) | NRemove (pubkey : Bytes) | NClearPath (i : nat)
| NChannelSet (index : nat) (ch : Channel)
| NSettings (name : Str) (lat lon : Z) (repeat : bool).

Definition n_enabled (n : Node R) (ev : NEvent) : Prop :=
  match ev with
  | NDispatcher (EvSend _ _ _ _) | NDispatcher (EvRx _) => False
  | NDispatcher ev => enabled (m_disp (n_mesh n)) ev
  | NRetry id => exists p, find_pending id (m_sender (n_mesh n)) = Some p /\ is_Some (pd_timer p)
  | NText _ _ _ _ => rs_next_id (m_sender (n_mesh n)) < 2 ^ 64 - 1
  | NUpsert pubkey => length pubkey = kPubKeySize
  | _ => True
  end.

Definition n_handle (ev : NEvent) : M R unit :=
  match ev with
  | NFrame rx => on_frame rx
  | NDispatcher ev => on_dispatcher ev
  | NRetry id => on_retry_due id
  | NDeliveredSweep => on_delivered_sweep
  | NAdvert flood => send_advert flood
  | NText i text ty ts => _ ← send_text i text ty ts; mret tt
  | NChannelText index text ts => _ ← send_channel_text index text ts; mret tt
  | NPop => _ ← pop_message; mret tt
  | NUpsert pubkey => on_contacts (fun s => (upsert pubkey s).2)
  | NRemove pubkey => on_contacts (fun s => (remove_contact pubkey s).2)
  | NClearPath i => on_contacts (fun s => (clear_path i s).2)
  | NChannelSet index ch => modify (fun n => n <| n_channels ::= channel_set index ch |>)
  | NSettings name lat lon repeat => _ ← set_name name; _ ← set_location lat lon; set_repeat repeat
  end.

Inductive n_reach (n0 : Node R) : Node R -> Prop :=
| n_reach_start : n_reach n0 n0
| n_reach_step n e ev : n_reach n0 n -> env_ok e -> n_enabled n ev -> n_reach n0 (n_handle ev e n).1.2.

(** A new dispatcher, contact store and sender that are fine together. *)
Lemma mesh_swap (n : Node R) m' :
  node_ok n -> mesh_ok (n_self n) m' -> contacts_fine (n_self n) (m_contacts m') ->
  node_ok (n <| n_mesh := m' |>).
Proof. intros [? ? ? ? ? ?] Hm [Hs Hself]. by constructor. Qed.

Lemma node_fine n : node_ok n -> contacts_fine (n_self n) (m_contacts (n_mesh n)).
Proof. intros Hn. split; [apply (no_contacts _ Hn)|apply (no_self _ Hn)]. Qed.

Lemma on_dispatcher_ok ev e n :
  node_ok n -> enabled (m_disp (n_mesh n)) ev -> node_ok (on_dispatcher ev e n).1.2.
Proof.
  intros Hn He. unfold on_dispatcher. destruct (handle _ _ _ _) as [d rs] eqn:Eh.
  pose proof (mo_disp _ _ (no_mesh _ Hn)) as Hok.
  eapply dispatched_ok; [done|by eapply handle_ok|].
  exact (op_queue _ _ _ _ (handle_spec _ _ _ _ _ _ Hok He Eh)).
Qed.

Lemma on_frame_keeps rx : keeps env_ok node_ok (on_frame rx).
Proof.
  intros e n He Hn. unfold on_frame.
  pose proof (on_dispatcher_ok (EvRx rx) e n Hn I) as Hd. unfold on_dispatcher, handle in Hd.
  destruct (on_radio_rx _ _ _) as [d calls]. cbn [fst snd] in Hd.
  assert (node_ok (n <| n_mesh ::= fun m => m <| m_disp := d |> |>)) as Hn1 by exact Hd.
  destruct (delivered calls) as [p|]; [|done]. by apply (on_packet_keeps env_ok node_ok).
Qed.

Lemma send_text_ok i text ty ts e n :
  node_ok n -> rs_next_id (m_sender (n_mesh n)) < 2 ^ 64 - 1 -> node_ok (send_text i text ty ts e n).1.2.
Proof.
  intros Hn Hid. unfold send_text.
  pose proof (send_message_ok (e_now e) (e_pump_r e) (n_self n) i text ty ts _ Hid (no_mesh _ Hn)) as Hm.
  pose proof (send_message_contacts (e_now e) (e_pump_r e) (n_self n) i text ty ts _ (node_fine _ Hn)) as Hc.
  destruct (send_message _ _ _ _ _ _ _ _) as [[h err] m']. by apply mesh_swap.
Qed.

Lemma pop_message_keeps : keeps env_ok node_ok pop_message.
Proof.
  intros e n _ [? ? ? ? ? Hi]. unfold pop_message, pop. destruct (mi_messages (n_inbox n)) as [|x l] eqn:E; [by constructor; simpl; rewrite ?E|].
  constructor; simpl; try done. simpl in Hi. lia.
Qed.

Lemma delivered_sweep_keeps : keeps env_ok node_ok on_delivered_sweep.
Proof.
  intros e n _ [? ? ? ? Hd ?]. constructor; try done. simpl. unfold expire_delivered.
  etrans; [apply filter_size_le|done].
Qed.

Lemma settings_keeps name lat lon rep : keeps env_ok node_ok (_ ← set_name name; _ ← set_location lat lon; set_repeat rep).
Proof. intros e n _ [? ? ? ? ? ?]. by constructor. Qed.

Lemma channel_set_keeps index ch : keeps env_ok node_ok (modify (fun n => n <| n_channels ::= channel_set index ch |>)).
Proof.
  intros e n _ [? ? ? Hc ? ?]. constructor; try done. simpl. unfold channel_set.
  case_match; [done|]. simpl. by rewrite length_insert.
Qed.

Lemma upsert_fine pk s :
  length pk = kPubKeySize -> store_ok s -> store_ok (upsert pk s).2 /\ cs_self (upsert pk s).2 = cs_self s.
Proof.
  intros Hl Hs. destruct (upsert pk s) as [j s'] eqn:E. exact (upsert_ok _ _ _ _ Hl Hs E).
Qed.

Lemma remove_fine pk s :
  store_ok s -> store_ok (remove_contact pk s).2 /\ cs_self (remove_contact pk s).2 = cs_self s.
Proof.
  intros Hs. destruct (remove_contact pk s) as [b s'] eqn:E. split; [by eapply remove_contact_ok|].
  unfold remove_contact in E. case_match; by simplify_eq.
Qed.

Lemma clear_path_fine i s : store_ok s -> store_ok (clear_path i s).2 /\ cs_self (clear_path i s).2 = cs_self s.
Proof.
  intros Hs. unfold clear_path. repeat case_match; try done. split; [|done]. by apply dirty_ok, update_contact_ok.
Qed.

Lemma n_handle_ok ev e n : node_ok n -> env_ok e -> n_enabled n ev -> node_ok (n_handle ev e n).1.2.
Proof.
  intros Hn He Hev. destruct ev; cbn [n_handle n_enabled] in *.
  - by apply on_frame_keeps.
  - apply on_dispatcher_ok; [done|]. by destruct ev.
  - apply mesh_swap; [done|by apply on_retry_timer_ok, Hn|by apply on_retry_timer_contacts, node_fine].
  - by apply delivered_sweep_keeps.
  - by apply (send_advert_keeps env_ok node_ok).
  - pose proof (send_text_ok i text txt_type timestamp e n Hn Hev) as Hs. unfold mbind, M_bind, mret, M_ret.
    by destruct (send_text _ _ _ _ _ _) as [[? ?] ?].
  - by apply (send_channel_text_keeps env_ok node_ok).
  - by apply (keeps_bind _ _ _ _ pop_message_keeps (fun _ => keeps_ret _ _ _)).
  - apply on_contacts_keeps; [|done|done]. intros s. by apply upsert_fine.
  - apply on_contacts_keeps; [|done|done]. intros s. by apply remove_fine.
  - apply on_contacts_keeps; [|done|done]. intros s. by apply clear_path_fine.
  - by apply channel_set_keeps.
  - by apply settings_keeps.
Qed.

Lemma n_reach_ok n0 n : node_ok n0 -> n_reach n0 n -> node_ok n.
Proof. intros Hn0. induction 1; [done|]. by apply n_handle_ok. Qed.

(** The node as [main] assembles it, with the stores it loaded. *)
Definition make_node (self : LocalIdentity) (radio : R) (queue_limit : nat) (contacts : ContactStore)
    (pending_limit : nat) (channels : ChannelStore) (inbox : MessageInbox) (cfg : Config) (fs : Fs) : Node R :=
  mkNode R self (mkMesh R (make_dispatcher radio queue_limit) contacts (make_sender pending_limit))
    channels inbox cfg ∅ fs.

(** Whatever arrives off the air, and whatever the app and the timers do in
    between, the node stays within its bounds: contacts are unique and within
    their limit, the table of delivered messages within 512 entries, the message
    queue within its limit, the transmit queue within its limit, eight channels;
    and no direct message it is sending is stuck. *)
Theorem node_invariant self radio queue_limit contacts pending_limit channels inbox cfg fs n :
  store_ok contacts -> cs_self contacts = self -> length (chs_channels channels) = kMaxChannels ->
  (length (mi_messages inbox) <= mi_limit inbox)%nat ->
  n_reach (make_node self radio queue_limit contacts pending_limit channels inbox cfg fs) n ->
  NoDup (map c_pubkey (cs_contacts (n_contacts n))) /\
  (length (cs_contacts (n_contacts n)) <= cs_max_contacts (n_contacts n))%nat /\
  (size (n_delivered n) <= kMaxDelivered)%nat /\
  (length (mi_messages (n_inbox n)) <= mi_limit (n_inbox n))%nat /\
  (length (queue_ (m_disp (n_mesh n))) <= queue_limit_ (m_disp (n_mesh n)))%nat /\
  length (chs_channels (n_channels n)) = kMaxChannels /\
  Forall (pend_live (m_disp (n_mesh n))) (rs_pending (m_sender (n_mesh n))).
Proof.
  intros Hs Hself Hch Hin Hr.
  assert (node_ok n) as [Hm [Hu Hl _ _] _ ? ? ?].
  { eapply n_reach_ok; [|exact Hr]. constructor; try done; [apply initial_mesh_ok|]. simpl. rewrite map_size_empty. lia. }
  split_and!; try done; apply Hm.
Qed.

(** ** A retried message is delivered once *)

(** The message with this key was last seen [x], within the window that starts
    at [T]. *)
Definition marked_delivered (key T : Z) (n : Node R) : Prop :=
  exists x, n_delivered n !! key = Some (u32 (x + kDeliveredTtlMs)) /\ T <= x < T + kDeliveredTtlMs.

(** Within the window, and not evicting this entry should the table be full. *)
Definition in_window (key T : Z) (e : Env) : Prop :=
  (exists T', e_now e = u32 T' /\ T <= T' < T + kDeliveredTtlMs) /\
  (forall m, (kMaxDelivered <= size m)%nat -> e_begin e m <> key).

Lemma window_tdiff T x T' :
  T <= x < T + kDeliveredTtlMs -> T <= T' < T + kDeliveredTtlMs -> 0 < tdiff (u32 (x + kDeliveredTtlMs)) (u32 T').
Proof.
  intros Hx HT. unfold kDeliveredTtlMs in *. pose proof (tdiff_elapsed 0 (x + 300000) T') as E.
  rewrite !Z.add_0_l in E. rewrite E by lia. lia.
Qed.

Lemma first_delivery_marks T key now begin pk msg d :
  now = u32 T -> delivery_key pk msg = key -> 
  (first_delivery now begin pk msg d).2 !! key = Some (u32 (T + kDeliveredTtlMs)).
Proof.
  intros -> <-. unfold first_delivery.
  assert (u32 (u32 T + kDeliveredTtlMs) = u32 (T + kDeliveredTtlMs)) as E by (unfold u32; apply Zplus_mod_idemp_l).
  destruct (match d !! _ with Some _ => _ | None => _ end); cbn [fst snd]; by rewrite lookup_insert_eq, E.
Qed.

Lemma mark_keeps_marked key T pk msg : keeps (in_window key T) (marked_delivered key T) (mark_delivered pk msg).
Proof.
  intros e n [(T' & HT & Hw) Hb] (x & Hx & Hxw). unfold mark_delivered.
  destruct (decide (delivery_key pk msg = key)) as [Hk|Hk].
  - pose proof (first_delivery_marks T' key (e_now e) (e_begin e) pk msg (n_delivered n) HT Hk) as Hm.
    destruct (first_delivery _ _ _ _ _) as [b d]. by exists T'.
  - assert ((first_delivery (e_now e) (e_begin e) pk msg (n_delivered n)).2 !! key
      = Some (u32 (x + kDeliveredTtlMs))) as Hl; [|destruct (first_delivery _ _ _ _ _); by exists x].
    unfold first_delivery. case_match; cbn [fst snd]; rewrite lookup_insert_ne by done; [done|].
    assert (expire_delivered (e_now e) (n_delivered n) !! key = Some (u32 (x + kDeliveredTtlMs))) as He.
    { apply map_lookup_filter_Some. split; [done|]. simpl. rewrite HT.
      pose proof (window_tdiff T x T' Hxw Hw). lia. }
    destruct (kMaxDelivered <=? size (n_delivered n))%nat; cbn [andb]; [|done].
    destruct (Nat.leb_spec kMaxDelivered (size (expire_delivered (e_now e) (n_delivered n)))); [|done].
    rewrite lookup_delete_ne by (by apply Hb). done.
Qed.

(** Only [mark_delivered] writes the table. *)
Definition untouched {A} (m : M R A) : Prop := forall e n, n_delivered (m e n).1.2 = n_delivered n.

Lemma untouched_keeps {A} key T (m : M R A) : untouched m -> keeps (in_window key T) (marked_delivered key T) m.
Proof. intros Hm e n _ (x & Hx & Hw). exists x. by rewrite Hm. Qed.

#[export] Instance marked_steps key T : Steps (in_window key T) (marked_delivered key T).
Proof.
  constructor; intros; try apply mark_keeps_marked; apply untouched_keeps; intros e n.
  - unfold dispatcher_send. by destruct (send _ _ _ _ _ _ _) as [[? ?] ?].
  - unfold send_ack. destruct (contact_at _ _); [|done]. by destruct (route_to _ _ _ _ _ _ _ _) as [[? ?] ?].
  - unfold contact_secret. destruct (contact_at _ _); [|done]. by destruct (shared_secret _ _).
  - unfold complete_ack. destruct (complete _ _) as [[?|] ?]; [|done]. by repeat case_match.
  - unfold store_message. by destruct (store _ _ _ _ _) as [[? ?] ?].
  - done.
  - done.
  - done.
  - unfold contacts_apply_advert. by destruct (apply_advert _ _ _ _) as [[? ?] ?].
Qed.

Lemma n_handle_marked key T ev : keeps (in_window key T) (marked_delivered key T) (n_handle ev).
Proof.
  destruct ev; cbn [n_handle].
  - intros e n He Hn. unfold on_frame. destruct (on_radio_rx _ _ _) as [d calls].
    destruct (delivered calls); [|done]. by apply (on_packet_keeps (in_window key T) (marked_delivered key T)).
  - apply untouched_keeps. intros e n. unfold on_dispatcher. by destruct (handle _ _ _ _).
  - by apply untouched_keeps.
  - intros e n [(T' & HT & Hw) _] (x & Hx & Hxw). exists x. split; [|done]. simpl.
    apply map_lookup_filter_Some. split; [done|]. simpl. rewrite HT. pose proof (window_tdiff T x T' Hxw Hw). lia.
  - apply send_advert_keeps, _.
  - apply untouched_keeps. intros e n. unfold mbind, M_bind, send_text.
    by destruct (send_message _ _ _ _ _ _ _ _) as [[? ?] ?].
  - apply send_channel_text_keeps, _.
  - apply untouched_keeps. intros e n. unfold mbind, M_bind, pop_message. by destruct (pop _).
  - by apply untouched_keeps.
  - by apply untouched_keeps.
  - by apply untouched_keeps.
  - by apply untouched_keeps.
  - by apply untouched_keeps.
Qed.

(** [n_run E n0 n]: some run of the node, every step in an environment that
    satisfies [E]. *)
Inductive n_run (E : Env -> Prop) (n0 : Node R) : Node R -> Prop :=
| n_run_start : n_run E n0 n0
| n_run_step n e ev : n_run E n0 n -> E e -> n_enabled n ev -> n_run E n0 (n_handle ev e n).1.2.

Lemma n_run_marked key T n0 n :
  marked_delivered key T n0 -> n_run (in_window key T) n0 n -> marked_delivered key T n.
Proof. intros Hm. induction 1; [done|]. by apply n_handle_marked. Qed.

(** The identity of a message does not depend on the attempt. *)
Definition same_message (a b : TextMessage.t) : Prop :=
  TextMessage.timestamp a = TextMessage.timestamp b /\ TextMessage.txt_type a = TextMessage.txt_type b /\
  TextMessage.text a = TextMessage.text b.

Lemma same_message_key pk a b : same_message a b -> delivery_key pk a = delivery_key pk b.
Proof. unfold delivery_key. by intros (-> & -> & ->). Qed.

(** What a node keeps of the messages it received: the queue for the app, the
    files, and the table of messages delivered. *)
Definition received (n : Node R) : MessageInbox * Fs * gmap Z Z := (n_inbox n, n_fs n, n_delivered n).

(** Answering a message leaves it alone. *)
Lemma send_received p prio delay x : keeps (fun _ => True) (fun n => received n = x) (dispatcher_send p prio delay).
Proof. intros e n _ <-. unfold dispatcher_send. by destruct (send _ _ _ _ _ _ _) as [[? ?] ?]. Qed.

Lemma secret_received i x : keeps (fun _ => True) (fun n => received n = x) (contact_secret i).
Proof. intros e n _ <-. unfold contact_secret. destruct (contact_at _ _); [|done]. by destruct (shared_secret _ _). Qed.

Lemma answer_received i p ty ack via delay x :
  keeps (fun _ => True) (fun n => received n = x)
    (if is_flood p then send_path_return i p ty ack via delay else match ack with [] => mret tt | _ => send_ack i ack end).
Proof.
  assert (keeps (fun _ => True) (fun n => received n = x) (send_path_return i p ty ack via delay)) as Hr.
  { unfold send_path_return.
    repeat first [apply secret_received|apply send_received|apply keeps_ret|apply keeps_ask|apply keeps_gets
      |apply keeps_bind; [|intros ?]|case_match]. }
  destruct (is_flood p); [done|]. destruct ack; [apply keeps_ret|].
  intros e n _ <-. unfold send_ack. destruct (contact_at _ _); [|done].
  by destruct (route_to _ _ _ _ _ _ _ _) as [[? ?] ?].
Qed.

Lemma touch_signal_key i j unix rssi snr (n : Node R) :
  contact_key i (n <| n_mesh ::= fun m => m <| m_contacts ::= touch_signal unix j rssi snr |> |>) = contact_key i n.
Proof.
  unfold contact_key, n_contacts, touch_signal, touch, update_contact, contact_at. cbn -[alter].
  unfold setf. cbn -[alter]. destruct (decide (i = j)) as [->|Hne].
  - rewrite !list_lookup_alter_eq. by destruct (_ !! j).
  - by rewrite !list_lookup_alter_ne by done.
Qed.

Lemma bind_node {A B} (m : M R A) (f : A -> M R B) e n :
  ((m ≫= f) e n).1.2 = (f (m e n).1.1 e (m e n).1.2).1.2.
Proof. unfold mbind, M_bind. destruct (m e n) as [[a n1] o1]. simpl. by destruct (f a e n1) as [[b n2] o2]. Qed.

(** What accepting a message does to them. *)
Lemma accept_text_received p i plain msg e n :
  received (accept_text p i plain msg e n).1.2 =
    let '(first, d) := first_delivery (e_now e) (e_begin e) (contact_key i n) msg (n_delivered n) in
    if first
    then let '(_, inbox, fs) := store (e_faults e) (e_umask_mode e) (n_fs n)
                                  (stored_direct p (contact_key i n) msg) (n_inbox n) in (inbox, fs, d)
    else (n_inbox n, n_fs n, d).
Proof.
  unfold accept_text. rewrite !bind_node. change ((mret false : M R bool) e ?x).1.2 with x.
  rewrite (answer_received i p _ _ _ _ _ e _ I eq_refl). cbn [ask gets fst snd].
  set (n1 := (on_contacts _ e n).1.2).
  assert (contact_key i n1 = contact_key i n) as Ek by apply touch_signal_key. rewrite !Ek.
  assert (received n1 = received n) as E1 by done. clearbody n1.
  injection E1 as Ei Ef Ed. unfold mark_delivered. rewrite !Ed.
  destruct (first_delivery _ _ _ _ _) as [first d]. cbn [fst snd]. destruct first.
  - unfold store_message. cbn -[store]. unfold setf. cbn -[store]. rewrite Ei, Ef.
    by destruct (store _ _ _ _ _) as [[? ?] ?].
  - unfold received. simpl. by rewrite Ei, Ef.
Qed.

(** C3. A retry is acknowledged but delivered only once: after a message was
    accepted, another attempt of it (the same sender, timestamp, type and text,
    whatever its attempt number) that is accepted within five minutes neither
    changes the message queue nor writes a file, whatever the node did in between,
    as long as this message was not evicted: [in_window] excludes a step that
    finds the table of 512 entries full of live ones and makes room by dropping
    this one (the code drops whichever is first in the hash table). *)
Theorem retry_delivered_once p1 p2 i j plain1 plain2 msg1 msg2 e1 e2 n1 n2 T :
  let key := delivery_key (contact_key i n1) msg1 in
  e_now e1 = u32 T ->
  n_run (in_window key T) (accept_text p1 i plain1 msg1 e1 n1).1.2 n2 ->
  in_window key T e2 -> contact_key j n2 = contact_key i n1 -> same_message msg2 msg1 ->
  let n3 := (accept_text p2 j plain2 msg2 e2 n2).1.2 in
  n_inbox n3 = n_inbox n2 /\ n_fs n3 = n_fs n2.
Proof.
  intros key HT Hrun [(T2 & HT2 & Hw) _] Hkey Hsame n3.
  assert (marked_delivered key T (accept_text p1 i plain1 msg1 e1 n1).1.2) as Hm.
  { exists T. split; [|unfold kDeliveredTtlMs; lia].
    pose proof (accept_text_received p1 i plain1 msg1 e1 n1) as Hr.
    pose proof (first_delivery_marks T key (e_now e1) (e_begin e1) (contact_key i n1) msg1 (n_delivered n1) HT eq_refl) as Hd.
    destruct (first_delivery _ _ _ _ _) as [[] d]; [destruct (store _ _ _ _ _) as [[? ?] ?]|];
      injection Hr as _ _ ->; exact Hd. }
  destruct (n_run_marked _ _ _ _ Hm Hrun) as (x & Hx & Hxw).
  pose proof (accept_text_received p2 j plain2 msg2 e2 n2) as Hr. fold n3 in Hr.
  unfold first_delivery in Hr. rewrite Hkey, (same_message_key _ _ _ Hsame) in Hr. fold key in Hr.
  rewrite Hx, HT2 in Hr. rewrite (proj2 (Z.ltb_lt _ _) (window_tdiff _ _ _ Hxw Hw)) in Hr.
  by injection Hr as -> -> _.
Qed.

(** ** Relaying *)

(** The copies of [p] a node may put back on the air: a flood with its hash
    appended, within the configured number of hops; a direct packet whose first
    hop names it, with that hop consumed; a trace whose route names it next, with
    the signal it was heard at appended.  The first two are valid packets. *)
Inductive relay_of (self : LocalIdentity) (max_hops : nat) (p : Packet) : Packet -> Prop :=
| relay_flood out : is_flood p = true ->
    out = set_path p (p_path p ++ firstn (p_path_hash_size p) (pub self)) ->
    valid out = true -> hop_count out = S (hop_count p) -> (hop_count out <= max_hops)%nat ->
    relay_of self max_hops p out
| relay_direct out : p_path p = firstn (p_path_hash_size p) (pub self) ++ p_path out ->
    out = set_path p (p_path out) -> valid out = true -> p_type p <> PayloadType.Multipart ->
    relay_of self max_hops p out
| relay_trace out width : (1 <= width)%nat -> p_path_hash_size p = 1%nat ->
    firstn width (skipn (kTraceHeader + length (p_path p) * width) (p_payload p)) = firstn width (pub self) ->
    out = set_path p (p_path p ++ [u8 (snr_q4 (p_snr p))]) -> (length (p_path out) <= kMaxPathSize)%nat ->
    relay_of self max_hops p out.

(** A relay leaves the node as it was, or sends one such copy, and only when
    relaying is switched on. *)
Definition relays (p : Packet) (e : Env) (n : Node R) (m : M R unit) : Prop :=
  m e n = (tt, n, []) \/
  (cfg_repeat (n_cfg n) = true /\
   exists out priority delay, relay_of (n_self n) (cfg_max_hops (n_cfg n)) p out /\
     (m e n).1.2 = (dispatcher_send out priority delay e n).1.2).

(** Reading the node and the environment first changes nothing. *)
Lemma bind_gets {A B} (g : Node R -> A) (f : A -> M R B) e n : (gets g ≫= f) e n = f (g n) e n.
Proof. unfold mbind, M_bind, gets. by destruct (f (g n) e n) as [[? ?] ?]. Qed.

Lemma bind_ask {B} (f : Env -> M R B) e n : (ask ≫= f) e n = f e e n.
Proof. unfold mbind, M_bind, ask. by destruct (f e e n) as [[? ?] ?]. Qed.

Lemma maybe_repeat_relays p e n : valid p = true -> relays p e n (maybe_repeat p).
Proof.
  intros Hv. unfold relays, maybe_repeat. rewrite !bind_gets, !bind_ask.
  destruct (cfg_repeat (n_cfg n)); cbn [negb]; [|by left].
  destruct (is_flood p) eqn:Ef; cbn [negb]; [|by left].
  destruct (Nat.leb_spec (cfg_max_hops (n_cfg n)) (hop_count p)) as [|Hh]; [by left|].
  destruct (push_hop p (pub (n_self n))) as [out|] eqn:Ep; [right|by left]. split; [done|].
  destruct (push_hop_spec _ _ _ Hv Ep) as (Hvo & Hho & Eo).
  exists out, kPriorityRepeat, (100 + e_delay_r e * 4). split; [|by rewrite bind_node].
  apply relay_flood; try done. lia.
Qed.

Lemma forward_direct_relays p e n : valid p = true -> relays p e n (forward_direct p).
Proof.
  intros Hv. unfold relays, forward_direct. rewrite !bind_gets, !bind_ask.
  destruct (cfg_repeat (n_cfg n)); cbn [negb]; [|by left].
  destruct (_ || _) eqn:Eo; [by left|]. apply orb_false_iff in Eo as [Hne Heq].
  apply negb_false_iff, beq_eq in Heq. rewrite subview_take in Heq.
  destruct (Z.eqb_spec (p_type p) PayloadType.Multipart) as [|Hm]; [by left|]. right. split; [done|].
  assert (hop_count p <> 0)%nat as Hh.
  { apply valid_spec in Hv as Hs. intros H0'. pose proof (hops_times_size p Hs) as Ht. rewrite H0' in Ht.
    destruct Hs as [Hh _ _ _ _]. unfold first_hop in Hne. by rewrite (proj2 (Nat.ltb_lt _ _)) in Hne by lia. }
  destruct (pop_hop_spec p Hv Hh) as (Hvo & _ & Hpath & Hlen). rewrite Hlen in Heq.
  assert (relay_of (n_self n) (cfg_max_hops (n_cfg n)) p (pop_hop p)) as Hr.
  { apply relay_direct; [by rewrite <- Heq| |done|done]. unfold pop_hop. by destruct (_ <? _)%nat. }
  destruct (p_type p =? PayloadType.Ack); eexists _, _, _; (split; [exact Hr|]); rewrite !bind_node; done.
Qed.

Lemma forward_trace_relays p e n : relays p e n (forward_trace p).
Proof.
  unfold relays, forward_trace. rewrite !bind_gets, !bind_ask.
  destruct (cfg_repeat (n_cfg n)); cbn [negb]; [|by left].
  destruct (Nat.leb_spec (length (p_payload p)) kTraceHeader) as [|Hl]; [by left|].
  destruct (_ || _) eqn:Eo; [by left|]. apply orb_false_iff in Eo as [Hs Hp].
  apply negb_false_iff, Nat.eqb_eq in Hs. apply Nat.leb_gt in Hp. cbv zeta.
  set (width := Z.to_nat (Z.shiftl 1 _)). set (at_ := (kTraceHeader + _)%nat).
  destruct (Nat.ltb_spec (length (p_payload p)) (at_ + width)) as [|Hfit]; [by left|].
  destruct (beq _ _) eqn:Eb; cbn [negb]; [|by left]. apply beq_eq in Eb. right. split; [done|].
  assert (1 <= width)%nat as Hw.
  { unfold width. rewrite Z.shiftl_mul_pow2 by (apply Z.land_nonneg; lia).
    assert (0 <= Z.land (byte_at (p_payload p) 8) 3) as Hpow by (apply Z.land_nonneg; lia).
    pose proof (Z.pow_pos_nonneg 2 _ ltac:(lia) Hpow). lia. }
  eexists _, _, _. rewrite !bind_node. split; [|done].
  apply (relay_trace _ _ _ _ width); try done.
  - rewrite subview_take in Eb. rewrite <- Eb. unfold subview. rewrite (proj2 (Nat.leb_gt _ _)) by lia.
    by rewrite Nat.min_l by lia.
  - simpl. rewrite length_app. simpl. lia.
Qed.

(** C23. The rules of relaying: with relaying off nothing is passed on and nothing
    changes; with it on, what goes out is the packet itself with its own hash
    appended, one hop more and within the configured limit (a flood), with the
    first hop consumed when that hop names this node (a direct packet), or with one
    signal reading appended when the route inside names this node next (a trace). *)
Theorem relay_rules p e n :
  valid p = true ->
  relays p e n (maybe_repeat p) /\ relays p e n (forward_direct p) /\ relays p e n (forward_trace p).
Proof.
  intros Hv. split_and!; [by apply maybe_repeat_relays|by apply forward_direct_relays|apply forward_trace_relays].
Qed.

(** ** Adverts *)

Lemma send_contacts p prio delay x :
  keeps (fun _ => True) (fun n => n_contacts n = x) (dispatcher_send p prio delay).
Proof. intros e n _ <-. unfold dispatcher_send. by destruct (send _ _ _ _ _ _ _) as [[? ?] ?]. Qed.

Lemma relay_contacts p x :
  keeps (fun _ => True) (fun n => n_contacts n = x) (maybe_repeat p) /\
  keeps (fun _ => True) (fun n => n_contacts n = x) (forward_direct p).
Proof.
  unfold maybe_repeat, forward_direct.
  split; repeat first [apply send_contacts|apply keeps_ret|apply keeps_ask|apply keeps_gets
      |apply keeps_bind; [|intros ?]|case_match].
Qed.

(** What an advert can do to the contacts: nothing, or what [apply_advert] and
    [touch] do once the signature has been checked. *)
Lemma handle_advert_contacts p e (n : Node R) :
  n_contacts (handle_advert p e n).1.2 = n_contacts n \/
  exists adv app j created s', Advert.decode (p_payload p) = Some adv /\ Advert.verify adv = true /\
    Advert.pubkey adv <> pub (n_self n) /\
    apply_advert (e_unix e) adv app (n_contacts n) = (Some j, created, s') /\
    n_contacts (handle_advert p e n).1.2 = touch_signal (e_unix e) j (p_rssi p) (p_snr p) s'.
Proof.
  unfold handle_advert. rewrite bind_gets. destruct (Advert.decode _) as [adv|] eqn:Ed; [|by left].
  destruct (Advert.verify adv) eqn:Ev; cbn [negb]; [|by left].
  destruct (equal _ _) eqn:Es; [by left|]. destruct (AdvertAppData.decode _) as [app|]; [|by left].
  destruct (_ || _); [by left|]. rewrite bind_ask, bind_node. unfold contacts_apply_advert.
  destruct (apply_advert _ _ _ _) as [[[j|] created] s'] eqn:Ea; cbn [fst snd].
  - right. exists adv, app, j, created, s'. split_and!; try done.
    intros E. rewrite E in Es. by rewrite (proj2 (equal_eq _ _) eq_refl) in Es.
  - left. apply apply_advert_refused in Ea as ->. by destruct n as [? [] ? ? ? ? ?].
Qed.

Lemma touch_signal_other unix j rssi snr s k :
  k <> j -> contact_at k (touch_signal unix j rssi snr s) = contact_at k s.
Proof.
  intros Hk. unfold contact_at, touch_signal, touch, update_contact, setf. cbn -[alter].
  by rewrite !list_lookup_alter_ne by done.
Qed.

Lemma touch_signal_at unix j rssi snr s c :
  contact_at j s = Some c ->
  exists c', contact_at j (touch_signal unix j rssi snr s) = Some c' /\ c_pubkey c' = c_pubkey c.
Proof.
  intros Hc. unfold contact_at, touch_signal, touch, update_contact, setf in *. cbn -[alter].
  rewrite !list_lookup_alter_eq, Hc. eexists. split; [done|]. done.
Qed.

(** C4. Adverts are authenticated: whatever advert arrives and however it was
    routed, each contact is afterwards the one it was, unless the advert carries a
    valid signature of that contact's own key (never of this node's) and, when the
    contact was known before, a newer timestamp.  Nobody can add, rename, move or
    roll back a contact without its private key. *)
Theorem adverts_authenticated p e (n : Node R) i :
  p_type p = PayloadType.Advert ->
  let n' := (on_packet p e n).1.2 in
  contact_at i (n_contacts n') = contact_at i (n_contacts n) \/
  exists adv c', Advert.decode (p_payload p) = Some adv /\ Advert.verify adv = true /\
    Advert.pubkey adv <> pub (n_self n) /\
    contact_at i (n_contacts n') = Some c' /\ c_pubkey c' = Advert.pubkey adv /\
    forall c, contact_at i (n_contacts n) = Some c ->
      c_pubkey c = Advert.pubkey adv /\ c_adv_timestamp c < Advert.timestamp adv.
Proof.
  intros Ht n'.
  assert (n_contacts n' = n_contacts n \/ n_contacts n' = n_contacts (handle_advert p e n).1.2) as [->| ->].
  { unfold n', on_packet, dispatch_type. rewrite Ht. cbn -[maybe_repeat forward_direct handle_advert].
    rewrite andb_false_r. cbn [andb]. destruct (is_direct p && _).
    - left. rewrite bind_node. by apply (relay_contacts p _).
    - right. rewrite bind_node. case_match; [by apply (relay_contacts p _)|done]. }
  { by left. }
  destruct (handle_advert_contacts p e n) as [->|(adv & app & j & created & s' & Hd & Hv & Hs & Ha & ->)]; [by left|].
  destruct (apply_advert_target _ _ _ _ _ _ _ Ha) as ((c' & Hc' & Hk) & Hold & Hother).
  destruct (decide (i = j)) as [->|Hne].
  - right. destruct (touch_signal_at (e_unix e) j (p_rssi p) (p_snr p) s' c' Hc') as (c2 & Hc2 & Hk2).
    exists adv, c2. rewrite Hk2. done.
  - left. rewrite touch_signal_other by done. by apply Hother.
Qed.

End facts.

(** ** A message delivered and acknowledged *)

Section delivery.
Context `{CryptoLaws} {R : Type} `{RadioLaws R}.

(** The contact [i] has this key, and this secret is shared with it. *)
Definition knows (i : nat) (key shared : Bytes) (n : Node R) : Prop :=
  exists c, contact_at i (n_contacts n) = Some c /\ c_pubkey c = key /\ (shared_secret (n_self n) c).1 = shared.

(** A node that knows the contact and has yet to use its dispatcher. *)
Definition poised (i : nat) (key shared : Bytes) (self : LocalIdentity) (d : Dispatcher R) (n : Node R) : Prop :=
  knows i key shared n /\ n_self n = self /\ m_disp (n_mesh n) = d.

Lemma shared_secret_same self c c' :
  c_pubkey c' = c_pubkey c -> c_shared c' = c_shared c -> (shared_secret self c').1 = (shared_secret self c).1.
Proof. unfold shared_secret. intros -> ->. by repeat case_match. Qed.

Lemma cached_secret self c :
  (shared_secret self c).1 <> [] -> (shared_secret self (shared_secret self c).2).1 = (shared_secret self c).1.
Proof.
  destruct (c_shared c) as [|b l] eqn:E.
  - assert (shared_secret self c = match shared_secret_with self (c_pubkey c) with
      | Some s => (s, c <| c_shared := s |>) | None => ([], c) end) as -> by (unfold shared_secret; by rewrite E).
    destruct (shared_secret_with self (c_pubkey c)) as [s|]; [|done]. intros Hs. destruct s; [done|]. done.
  - assert (shared_secret self c = (b :: l, c)) as Ec by (unfold shared_secret; by rewrite E).
    intros _. rewrite Ec. cbn [fst snd]. by rewrite Ec.
Qed.

(** Fetching the secret of a known contact returns it. *)
Lemma secret_poised i key shared self d e n :
  shared <> [] -> poised i key shared self d n ->
  exists n1, contact_secret i e n = (shared, n1, []) /\ poised i key shared self d n1 /\ received n1 = received n.
Proof.
  intros Hne ((c & Hc & Hk & Hs) & Hself & Hd). unfold contact_secret. rewrite Hc.
  pose proof (shared_secret_key (n_self n) c) as Hk'. pose proof (cached_secret (n_self n) c) as Hcs.
  destruct (shared_secret (n_self n) c) as [s c']. cbn [fst snd] in *. subst s. eexists. split; [done|].
  split; [|done]. split_and!; try done. exists c'. unfold n_contacts, contact_at, update_contact in *. simpl.
  rewrite list_lookup_alter_eq, Hc. simpl. split_and!; [done|congruence|]. by rewrite Hcs.
Qed.

Lemma touch_poised i key shared self d unix rssi snr :
  keeps (fun _ => True) (poised i key shared self d) (on_contacts (touch_signal unix i rssi snr)).
Proof.
  intros e n _ ((c & Hc & Hk & Hs) & Hself & Hd). split_and!; try done.
  unfold n_contacts, contact_at, touch_signal, touch, update_contact, setf in *. cbn -[alter].
  unfold knows, n_contacts, contact_at. cbn -[alter]. rewrite !list_lookup_alter_eq, Hc.
  eexists. split; [done|]. split; [exact Hk|].
  by rewrite (shared_secret_same _ c).
Qed.

Lemma mark_poised i key shared self d pk msg :
  keeps (fun _ => True) (poised i key shared self d) (mark_delivered pk msg).
Proof. intros e n _ Hn. unfold mark_delivered. destruct (first_delivery _ _ _ _ _). exact Hn. Qed.

Lemma store_poised i key shared self d msg :
  keeps (fun _ => True) (poised i key shared self d) (store_message msg).
Proof. intros e n _ Hn. unfold store_message. destruct (store _ _ _ _ _) as [[? ?] ?]. exact Hn. Qed.

(** The path return that answers a flooded message. *)
Definition reply_packet (self : LocalIdentity) (key shared : Bytes) (inbound : Packet) (ty : Z) (extra : Bytes) : Packet :=
  make_packet PayloadType.Path Flood 1 []
    (DirectEnvelope.encode (DirectEnvelope.seal (byte_at key 0) (byte_at (pub self) 0) shared
       (PathReturn.encode (PathReturn.mk (p_path inbound) (p_path_hash_size inbound) ty extra true)))).

Lemma path_return_sent i key shared self d p ty x extra e n :
  shared <> [] -> poised i key shared self d n ->
  m_disp (n_mesh (send_path_return i p ty (x :: extra) None 0 e n).1.2) =
    (send (e_now e) (e_pump_r e) (reply_packet self key shared p ty (x :: extra)) kPriorityAck 0 None d).1.2.
Proof.
  intros Hne Hp. unfold send_path_return. rewrite bind_node.
  destruct (secret_poised i key shared self d e n Hne Hp) as (n1 & -> & ((c & Hc & Hk & _) & Hself & Hd) & _).
  cbn [fst snd]. destruct shared as [|y shared]; [done|]. rewrite bind_ask, !bind_gets, bind_node. cbn [fst snd].
  unfold contact_key, my_byte. rewrite Hc, Hk, Hself. unfold dispatcher_send. rewrite Hd.
  unfold reply_packet. by destruct (send _ _ _ _ _ _ _) as [[? ?] ?].
Qed.

Lemma ack_payload_cons h ext r : exists x l, ack_payload h ext r = x :: l.
Proof.
  unfold ack_payload. destruct (put_bytes [] (subview h 0 kAckHashSize)) as [|x l]; [by eexists _, _|].
  by eexists _, _.
Qed.

(** The acknowledgement a recipient makes. *)
Definition ack_for (self : LocalIdentity) (key plain : Bytes) (txt_type r : Z) : Bytes :=
  ack_payload (message_ack_hash plain (if txt_type =? kTxtSignedPlain then pub self else key))
    (ack_extended_attempt plain) r.

(** Accepting a message ends with its answer, made by a node that has yet to use its
    dispatcher. *)
Lemma accept_text_answers i key shared self d p plain msg e n :
  TextMessage.txt_type msg <> kTxtCliData -> poised i key shared self d n ->
  exists n3 x ack, poised i key shared self d n3 /\ ack_for self key plain (TextMessage.txt_type msg) (e_ack_r e) = x :: ack /\
    (accept_text p i plain msg e n).1.2 =
      ((if is_flood p then send_path_return i p PayloadType.Ack (x :: ack) None 0 else send_ack i (x :: ack)) e n3).1.2.
Proof.
  intros Hcli Hp. unfold accept_text. rewrite !bind_node. change ((mret false : M R bool) e ?x).1.2 with x.
  cbn [ask gets fst snd].
  set (n1 := (on_contacts _ e n).1.2).
  assert (poised i key shared self d n1) as Hp1 by by apply (touch_poised i key shared self d).
  assert (contact_key i n1 = key) as -> by (destruct Hp1 as ((c & Hc & Hk & _) & _); unfold contact_key; by rewrite Hc).
  assert (n_self n1 = self) as -> by apply Hp1. clearbody n1.
  pose proof (mark_poised i key shared self d key msg e n1 I Hp1) as Hp2.
  set (n2 := (mark_delivered key msg e n1).1.2) in *. clearbody n2.
  set (first := (mark_delivered key msg e n1).1.1). clearbody first.
  set (n3 := ((if first then store_message (stored_direct p key msg) else mret tt : M R unit) e n2).1.2).
  assert (poised i key shared self d n3) as Hp3
    by (unfold n3; destruct first; [by apply (store_poised i key shared self d)|done]).
  clearbody n3. rewrite (proj2 (Z.eqb_neq _ _) Hcli).
  destruct (ack_payload_cons (message_ack_hash plain (if TextMessage.txt_type msg =? kTxtSignedPlain then pub self else key))
    (ack_extended_attempt plain) (e_ack_r e)) as (x & l & E). unfold ack_for. exists n3, x, l. by rewrite E.
Qed.

Lemma accept_text_replies i key shared self d p plain msg e n :
  is_flood p = true -> TextMessage.txt_type msg <> kTxtCliData -> shared <> [] -> poised i key shared self d n ->
  m_disp (n_mesh (accept_text p i plain msg e n).1.2) =
    (send (e_now e) (e_pump_r e)
       (reply_packet self key shared p PayloadType.Ack (ack_for self key plain (TextMessage.txt_type msg) (e_ack_r e)))
       kPriorityAck 0 None d).1.2.
Proof.
  intros Hf Hcli Hne Hp. destruct (accept_text_answers i key shared self d p plain msg e n Hcli Hp) as (n3 & x & l & Hp3 & -> & ->).
  rewrite Hf. by apply path_return_sent.
Qed.

(** A packet that holds this message from the owner of [key] for this node. *)
Definition sealed (p : Packet) (self : LocalIdentity) (key shared : Bytes) (msg : TextMessage.t) : Prop :=
  p_type p = PayloadType.TxtMsg /\
  p_payload p = DirectEnvelope.encode
                  (DirectEnvelope.seal (byte_at (pub self) 0) (byte_at key 0) shared (TextMessage.encode msg)).

(** Flooded, or at the end of its route. *)
Definition final_hop (p : Packet) : Prop := is_flood p = true \/ hop_count p = 0%nat.

(** A flooded one. *)
Definition carries (p : Packet) (self : LocalIdentity) (key shared : Bytes) (msg : TextMessage.t) : Prop :=
  sealed p self key shared msg /\ is_flood p = true.

Lemma bind_run {A B} (m : M R A) (f : A -> M R B) e n a n1 :
  m e n = (a, n1, []) -> (m ≫= f) e n = f a e n1.
Proof. unfold mbind, M_bind. intros ->. by destruct (f a e n1) as [[? ?] ?]. Qed.

Lemma bind_value {A B} (m : M R A) (f : A -> M R B) e n :
  ((m ≫= f) e n).1.1 = (f (m e n).1.1 e (m e n).1.2).1.1.
Proof. unfold mbind, M_bind. destruct (m e n) as [[a n1] o1]. simpl. by destruct (f a e n1) as [[b n2] o2]. Qed.

Lemma accept_text_final p i plain msg e (n : Node R) : (accept_text p i plain msg e n).1.1 = false.
Proof. unfold accept_text. by rewrite !bind_value. Qed.

(** Opening it reaches [accept_text] with the message that was sent, and changes
    nothing before but the cached secret. *)
Lemma handle_text_opens i key shared self d p e n msg :
  sealed p self key shared msg -> final_hop p -> text_ok msg -> TextMessage.extended_attempt msg = 0 ->
  (TextMessage.txt_type msg = kTxtPlain \/ TextMessage.txt_type msg = kTxtSignedPlain) ->
  (16 <= length shared)%nat -> poised i key shared self d n -> by_id (byte_at key 0) (n_contacts n) = [i] ->
  exists n1, poised i key shared self d n1 /\ received n1 = received n /\
    (on_packet p e n).1.2 = (accept_text p i (zero_pad (TextMessage.encode msg)) msg e n1).1.2.
Proof.
  intros (Ht & Hpay) Hf Hok Hx Hty Hlen Hp Hid.
  assert (shared <> []) as Hne by (destruct shared; [simpl in Hlen; lia|done]).
  destruct (text_encode_ok msg Hok) as [Hb Hn0].
  destruct (direct_seal_decode shared (TextMessage.encode msg) (byte_at (pub self) 0) (byte_at key 0) Hlen Hb Hn0)
    as (mac & ct & Hdec & Hopen). rewrite <- Hpay in Hdec.
  destruct (secret_poised i key shared self d e n Hne Hp) as (n1 & Hsec & Hp1 & Hr1).
  exists n1. split; [done|]. split; [done|].
  unfold on_packet. rewrite Ht.
  change (PayloadType.TxtMsg =? PayloadType.Trace) with false. change (PayloadType.TxtMsg =? PayloadType.Control) with false.
  rewrite !andb_false_r. cbn [andb].
  assert (is_direct p && (0 <? hop_count p)%nat = false) as ->.
  { destruct Hf as [Hf| ->]; [|by rewrite andb_false_r]. unfold is_direct, is_flood in *. by destruct (p_route p). }
  unfold dispatch_type. rewrite Ht. rewrite bind_node.
  change (if PayloadType.TxtMsg =? _ then _ else _) with (handle_text p).
  assert (handle_text p e n = accept_text p i (zero_pad (TextMessage.encode msg)) msg e n1) as ->.
  { unfold handle_text. rewrite bind_gets, Hdec. cbn [DirectEnvelope.dest_hash DirectEnvelope.src_hash].
    unfold my_byte. destruct Hp as (_ & -> & _). rewrite Z.eqb_refl. cbn [negb].
    rewrite (bind_run _ _ e n (Some (i, zero_pad (TextMessage.encode msg))) n1).
    - rewrite (text_padded_decodes msg Hok). rewrite <- Hx. destruct msg. cbn in Hty |- *.
      by destruct Hty as [-> | ->].
    - unfold decrypt_from. rewrite bind_gets. cbn [DirectEnvelope.src_hash]. rewrite Hid. cbn [try_contacts].
      rewrite (bind_run _ _ e n shared n1) by done. cbn [DirectEnvelope.mac DirectEnvelope.ciphertext].
      destruct shared; [done|]. by rewrite Hopen. }
  by rewrite accept_text_final.
Qed.

Lemma ack_for_bytes self key plain ty r : bytes_ok plain -> is_u8 r -> bytes_ok (ack_for self key plain ty r).
Proof.
  intros Hp Hr. unfold ack_for, ack_payload, put_bytes. rewrite subview_take. simpl.
  apply Forall_app. split; [apply Forall_take, ack_hash_bytes|]. each; [|done].
  unfold ack_extended_attempt. case_match; [by apply byte_at_ok|unfold is_u8; lia].
Qed.

(** The first four bytes, whatever padding follows, are the hash the sender has. *)
Lemma ack_for_prefix self key msg r l :
  text_ok msg ->
  subview (ack_for self key (zero_pad (TextMessage.encode msg)) (TextMessage.txt_type msg) r ++ l) 0 kAckHashSize =
  message_ack_hash (TextMessage.encode msg) (if TextMessage.txt_type msg =? kTxtSignedPlain then pub self else key).
Proof.
  intros Hok. rewrite subview_take, take_app_le; [by apply ack_prefix_agrees|].
  unfold ack_for, ack_payload, put_bytes, message_ack_hash.
  rewrite subview_take, !length_app, length_take, ack_hash_length. unfold kAckHashSize. simpl. lia.
Qed.

(** The owner of [key] opens the reply to the path its packet took and the hash it
    is waiting for. *)
Definition reply_opens (reply : Packet) (self : LocalIdentity) (key shared : Bytes) (inbound : Packet) (hash : Bytes) : Prop :=
  p_type reply = PayloadType.Path /\ is_flood reply = true /\
  exists env plain ret, DirectEnvelope.decode (p_payload reply) = Some env /\
    DirectEnvelope.dest_hash env = byte_at key 0 /\ DirectEnvelope.src_hash env = byte_at (pub self) 0 /\
    mac_and_decrypt shared (DirectEnvelope.mac env) (DirectEnvelope.ciphertext env) = Some plain /\
    PathReturn.decode plain = Some ret /\ PathReturn.path ret = p_path inbound /\
    PathReturn.path_hash_size ret = p_path_hash_size inbound /\
    PathReturn.has_extra ret = true /\ PathReturn.extra_type ret = PayloadType.Ack /\
    subview (PathReturn.extra ret) 0 kAckHashSize = hash.

Lemma reply_packet_opens self key shared p msg r :
  (16 <= length shared)%nat -> valid p = true -> bytes_ok (p_path p) -> is_u8 r -> text_ok msg ->
  reply_opens
    (reply_packet self key shared p PayloadType.Ack
       (ack_for self key (zero_pad (TextMessage.encode msg)) (TextMessage.txt_type msg) r))
    self key shared p
    (message_ack_hash (TextMessage.encode msg) (if TextMessage.txt_type msg =? kTxtSignedPlain then pub self else key)).
Proof.
  intros Hlen Hv Hpath Hr Hok. split; [done|]. split; [done|].
  set (extra := ack_for _ _ _ _ _). set (ret := PathReturn.mk (p_path p) (p_path_hash_size p) PayloadType.Ack extra true).
  assert (bytes_ok (zero_pad (TextMessage.encode msg))) as Hzp by by apply zero_pad_bytes, text_encode_ok.
  destruct (path_return_encode_ok ret Hpath (ack_for_bytes _ _ _ _ _ Hzp Hr)) as [Hb Hne].
  destruct (direct_seal_decode shared (PathReturn.encode ret) (byte_at key 0) (byte_at (pub self) 0) Hlen Hb Hne)
    as (mac & ct & Hdec & Hopen).
  apply valid_spec in Hv as Hs. pose proof (hop_count_eq p Hs). destruct Hs as [Hh Hl Hal Hc _].
  destruct (path_return_padded ret) as [k Hk].
  { unfold path_return_ok. cbn. split_and!; try done; lia. }
  eexists _, _, _. split; [exact Hdec|]. split; [done|]. split; [done|]. split; [exact Hopen|]. split; [exact Hk|].
  split_and!; try done. by apply ack_for_prefix.
Qed.

(** C1. A direct message flooded to this node is delivered and acknowledged: when
    a packet carries a message sealed with the secret shared with a contact (the
    only one with its first key byte) and the message is not a repeat, exactly that
    message goes into the queue for the app, and what goes to the transmit queue is
    a path return that its sender opens to the route its packet took and to an ack
    with the hash it is waiting for. *)
Theorem text_delivered i key shared p e (n : Node R) msg :
  carries p (n_self n) key shared msg -> text_ok msg -> TextMessage.extended_attempt msg = 0 ->
  (TextMessage.txt_type msg = kTxtPlain \/ TextMessage.txt_type msg = kTxtSignedPlain) ->
  (16 <= length shared)%nat -> valid p = true -> bytes_ok (p_path p) -> is_u8 (e_ack_r e) ->
  knows i key shared n -> by_id (byte_at key 0) (n_contacts n) = [i] ->
  (first_delivery (e_now e) (e_begin e) key msg (n_delivered n)).1 = true ->
  let n' := (on_packet p e n).1.2 in
  (n_inbox n', n_fs n') =
    (let '(_, inbox, fs) := store (e_faults e) (e_umask_mode e) (n_fs n) (stored_direct p key msg) (n_inbox n)
     in (inbox, fs)) /\
  exists reply,
    m_disp (n_mesh n') = (send (e_now e) (e_pump_r e) reply kPriorityAck 0 None (m_disp (n_mesh n))).1.2 /\
    reply_opens reply (n_self n) key shared p
      (message_ack_hash (TextMessage.encode msg)
         (if TextMessage.txt_type msg =? kTxtSignedPlain then pub (n_self n) else key)).
Proof.
  intros Hcar Hok Hx Hty Hlen Hv Hpath Hr Hkn Hid Hfirst n'.
  destruct (handle_text_opens i key shared (n_self n) (m_disp (n_mesh n)) p e n msg) as (n1 & Hp1 & Hr1 & Hn');
    try done; [apply Hcar|left; apply Hcar|].
  fold n' in Hn'. rewrite Hn'. injection Hr1 as Ei Ef Ed. split.
  - assert (contact_key i n1 = key) as Ek
      by (destruct Hp1 as ((c & Hc & Hk & _) & _); unfold contact_key; by rewrite Hc).
    pose proof (accept_text_received p i (zero_pad (TextMessage.encode msg)) msg e n1) as Hrec.
    rewrite Ek, Ei, Ef, Ed in Hrec. destruct (first_delivery _ _ _ _ _) as [first d]. cbn [fst] in Hfirst. subst first.
    destruct (store _ _ _ _ _) as [[? ?] ?]. by injection Hrec as -> -> _.
  - eexists. split; [|by apply (reply_packet_opens (n_self n) key shared p msg (e_ack_r e))].
    apply accept_text_replies; try done; [apply Hcar|by destruct Hty as [-> | ->]|by destruct shared; [simpl in Hlen; lia|]].
Qed.

End delivery.
