(* ===== verification/NodeExamples.v ===== *)
(** * Concrete runs of the stores, the sender and the node

    The theorems about the state files, the reliable sender and the node applied to
    concrete states, under the crypto instance of [Toy] and the radio of
    [SimRadio]; and a run in which one received advert makes the contacts file
    unreadable. *)

From S2P Require Import Prelude ByteIO Floats Crypto Identity Toy Packet Payloads Radio.
From S2P Require Import Dispatcher SimRadio Record Persist Contacts ContactBook Channels Inbox Sender Node.

(** Decides a closed proposition by evaluation. *)
Ltac evaluated := apply (bool_decide_unpack _); vm_compute; exact I.

(** ** Stores *)

Definition ex_alice : Contact :=
  Contact_default <| c_pubkey := pub toy_alice |> <| c_name := lit "alice" |> <| c_adv_timestamp := 1000 |>.

Definition ex_contacts : ContactStore := mkContactStore toy_bob (lit "contacts") 100 [ex_alice] true.

Definition ex_advert (ts : Z) : Advert.t :=
  Advert.create toy_alice ts (AdvertAppData.mk 0x81 0 0 0 0 (lit "alice")).

Definition ex_app : AdvertAppData.t := AdvertAppData.mk 0x81 0 0 0 0 (lit "alice").

Lemma ex_contacts_ok : store_ok ex_contacts.
Proof.
  constructor; [apply NoDup_singleton|vm_compute; lia| |].
  - constructor; [vm_compute; reflexivity|constructor].
  - constructor; [left; reflexivity|constructor].
Qed.

Lemma contacts_invariant_witness :
  store_ok (upsert (pub toy_bob) ex_contacts).2 /\ store_ok (remove_contact (pub toy_bob) ex_contacts).2 /\
  store_ok (touch 5 0 ex_contacts) /\ store_ok (touch_signal 5 0 (-80) (S754_zero false) ex_contacts) /\
  store_ok (cs_set_path 0 [7] ex_contacts).2 /\ store_ok (clear_path 0 ex_contacts).2 /\
  store_ok (apply_advert 5 (ex_advert 2000) ex_app ex_contacts).2 /\
  (forall c, contact_at 0 ex_contacts = Some c ->
    store_ok (update_contact 0 (fun c => (shared_secret (cs_self ex_contacts) c).2) ex_contacts)).
Proof.
  apply contacts_invariant; [exact ex_contacts_ok|vm_compute; reflexivity|vm_compute; reflexivity].
Defined.

(** A store of two places: an advert renews the contact held, its route is learnt once, a second
    contact is entered, and there is no room for the third until one is removed. *)
Definition ex_small : ContactStore := ex_contacts <| cs_max_contacts := 2%nat |>.

Lemma ex_small_ok : store_ok ex_small.
Proof. destruct ex_contacts_ok as [? _ ? ?]. constructor; [done|vm_compute; lia|done|done]. Qed.

Definition ex_book_ops : list BookOp :=
  [BAdvert 5 (ex_advert 2000) ex_app; BAdvert 6 (ex_advert 2000) ex_app; BSetPath (pub toy_alice) [7]; BSetPath (pub toy_alice) [7];
   BUpsert (pub toy_bob); BUpsert (replicate 32 9); BRemove (pub toy_alice); BUpsert (replicate 32 9);
   BTouch 9 (pub toy_alice); BHeard 9 (pub toy_bob) (-80) (S754_zero false); BClearPath (pub toy_bob); BFind (pub toy_bob)].

#[local] Abbreviation ex_book_run := (perform exec ex_book_ops ex_small).

Lemma contacts_implement_book_witness :
  map snd ex_book_run.1 = [false; false; true; false; false; false; true; false; false; true; false; false] /\
  perform (promise (cs_max_contacts ex_small) (cs_self ex_small)) ex_book_ops (book ex_small) =
    (ex_book_run.1, book ex_book_run.2) /\
  size (book ex_book_run.2) = length (cs_contacts ex_book_run.2).
Proof.
  assert (Forall op_ok ex_book_ops) as Hops by (repeat constructor; vm_compute; reflexivity).
  pose proof (contacts_implement_book ex_book_ops ex_small ex_book_run.1 ex_book_run.2 ex_small_ok Hops
    (surjective_pairing ex_book_run)) as H.
  split; [vm_compute; reflexivity|]. split; [exact (proj1 H)|exact (proj1 (proj2 H))].
Defined.

Definition ex_empty_fs : Fs := mkFs ∅ ∅.

Lemma ex_empty_wf : fs_wf ex_empty_fs.
Proof. intros p i H. vm_compute in H. discriminate. Qed.

Lemma ex_empty_private path : tmp_private ex_empty_fs path.
Proof. intros i p H. vm_compute in H. discriminate. Qed.

Definition ex_saved : bool * ContactStore * Fs := cs_save no_faults 420 ex_empty_fs ex_contacts.

Lemma ex_alice_ok : contact_ok ex_alice.
Proof. constructor; evaluated. Qed.

Lemma contacts_save_load_witness :
  cs_dirty ex_saved.1.2 = false /\
  cs_load (open_file ex_saved.2 (lit "contacts")) (ex_contacts <| cs_contacts := [] |>) =
    (Loaded, ex_contacts <| cs_contacts := [] |> <| cs_contacts := map persisted [ex_alice] |> <| cs_dirty := false |>).
Proof.
  apply (contacts_save_load no_faults 420 ex_empty_fs ex_contacts).
  - exact ex_empty_wf.
  - apply ex_empty_private.
  - constructor; [exact ex_alice_ok|constructor].
  - apply NoDup_singleton.
  - vm_compute. lia.
  - vm_compute. reflexivity.
  - reflexivity.
  - reflexivity.
Defined.

Definition ex_channels : ChannelStore := channel_set 2 (mkChannel (lit "team") (replicate 16 9)) (make_channels (lit "channels")).
Definition ex_saved_channels : bool * ChannelStore * Fs := chs_save no_faults 420 ex_empty_fs ex_channels.

Lemma channels_save_load_witness :
  chs_dirty ex_saved_channels.1.2 = false /\
  chs_load (open_file ex_saved_channels.2 (lit "channels")) (make_channels (lit "channels")) =
    (Loaded, (make_channels (lit "channels")) <| chs_channels := map persisted_channel (chs_channels ex_channels) |>
               <| chs_dirty := false |>).
Proof.
  apply (channels_save_load no_faults 420 ex_empty_fs ex_channels).
  - exact ex_empty_wf.
  - apply ex_empty_private.
  - apply (bool_decide_unpack _). vm_compute. exact I.
  - vm_compute. reflexivity.
  - vm_compute. reflexivity.
  - vm_compute. reflexivity.
Defined.

Definition ex_inbox : MessageInbox := mkInbox (lit "messages") [] 2 0 false.
Definition ex_message (text : Str) : StoredMessage := mkStored false (pub toy_alice) 0 1700000000 0 text 12 0xFF.
Definition ex_stored : bool * MessageInbox * Fs := store no_faults 420 ex_empty_fs (ex_message (lit "hello")) ex_inbox.

Lemma stored_message_survives_witness :
  mi_messages ex_stored.1.2 = drop (1 - 2) ([] ++ [ex_message (lit "hello")]) /\
  (exists older, mi_messages ex_stored.1.2 = older ++ [ex_message (lit "hello")]) /\
  mi_load (open_file ex_stored.2 (lit "messages")) ex_inbox =
    (Loaded, ex_inbox <| mi_messages := mi_messages ex_stored.1.2 |> <| mi_dirty := false |>).
Proof.
  apply (stored_message_survives no_faults 420 ex_empty_fs (ex_message (lit "hello")) ex_inbox).
  - exact ex_empty_wf.
  - apply ex_empty_private.
  - discriminate.
  - vm_compute. lia.
  - constructor.
  - constructor; evaluated.
  - vm_compute. reflexivity.
  - reflexivity.
  - reflexivity.
Defined.

Definition rename_fails : Faults :=
  mkFaults false false false false false false false false true false false false.

(** A flush whose second file cannot be renamed. *)
Definition ex_stores : Stores := mkStores ex_contacts (ex_channels <| chs_dirty := true |>) ex_inbox.
Definition ex_flush : bool * Stores * StateWriter * Fs :=
  flush no_faults rename_fails no_faults 420 ex_empty_fs ex_stores (make_writer kCoalesceMs).

Lemma flush_reports_truthfully_witness :
  ex_flush.1.1.1 = false /\
  (sw_healthy ex_flush.1.2 = ex_flush.1.1.1 /\
   (ex_flush.1.1.1 = true <-> cs_dirty (contacts_ ex_flush.1.1.2) = false /\
      chs_dirty (channels_ ex_flush.1.1.2) = false /\ mi_dirty (inbox_ ex_flush.1.1.2) = false) /\
   cs_contacts (contacts_ ex_flush.1.1.2) = cs_contacts (contacts_ ex_stores) /\
   chs_channels (channels_ ex_flush.1.1.2) = chs_channels (channels_ ex_stores) /\
   mi_messages (inbox_ ex_flush.1.1.2) = mi_messages (inbox_ ex_stores)).
Proof.
  split; [vm_compute; reflexivity|].
  apply (flush_reports_truthfully no_faults rename_fails no_faults 420 ex_empty_fs ex_stores
    (make_writer kCoalesceMs) ex_flush.1.1.1 ex_flush.1.1.2 ex_flush.1.2 ex_flush.2).
  vm_compute. reflexivity.
Defined.

(** ** A message on its way *)

Definition ex_mesh0 : Mesh SimRadio := mkMesh SimRadio (make_dispatcher sim_idle 8) ex_contacts (make_sender 64).
Definition ex_mesh1 : Mesh SimRadio := m_handle 1000 0 toy_bob (MSend 0 (lit "hi") kTxtPlain 1700000000) ex_mesh0.
Definition ex_pending : Pending :=
  List.hd (mkPending 0 [] [] [] [] 0 0 0 None) (rs_pending (m_sender ex_mesh1)).

Lemma ex_mesh_reach : m_reach toy_bob ex_mesh0 ex_mesh1.
Proof. apply (m_reach_step _ _ ex_mesh0 1000 0 (MSend 0 (lit "hi") kTxtPlain 1700000000)); [constructor|]. vm_compute. reflexivity. Qed.

Lemma ex_pending_only : rs_pending (m_sender ex_mesh1) = [ex_pending].
Proof. vm_compute. reflexivity. Qed.

Lemma ex_pending_in : ex_pending ∈ rs_pending (m_sender ex_mesh1).
Proof. rewrite ex_pending_only. apply list_elem_of_singleton. reflexivity. Qed.

Lemma pending_never_stuck_witness :
  is_Some (pd_timer ex_pending) \/
  exists q, q ∈ queue_ (m_disp ex_mesh1) /\ q_on_result q = Some (pd_id ex_pending) /\
    (radio_tx_busy (radio_ (m_disp ex_mesh1)) = true \/ pump_timer_ (m_disp ex_mesh1) = true).
Proof.
  apply (pending_never_stuck toy_bob sim_idle 8 ex_contacts 64); [exact ex_mesh_reach|exact ex_pending_in].
Defined.

Lemma attempts_all_accepted_witness :
  0 <= pd_attempt ex_pending <= 3 /\
  pd_accepted_ack_hashes ex_pending = hashes toy_bob ex_pending (S (Z.to_nat (pd_attempt ex_pending))) /\
  pd_ack_hash ex_pending = attempt_hash toy_bob ex_pending 0.
Proof.
  apply (attempts_all_accepted toy_bob sim_idle 8 ex_contacts 64 ex_mesh1); [exact ex_mesh_reach|exact ex_pending_in].
Defined.

Lemma ex_pending_text_ok :
  text_ok (TextMessage.mk (pd_timestamp ex_pending) (pd_txt_type ex_pending) 0 0 (pd_text ex_pending)).
Proof.
  replace (TextMessage.mk _ _ _ _ _) with (TextMessage.mk 1700000000 0 0 0 (lit "hi")) by (vm_compute; reflexivity).
  split_and!; evaluated.
Qed.

Lemma recipient_ack_completes_witness :
  let received := zero_pad (attempt_plaintext (ex_pending <| pd_attempt := 0 |>)) in
  let ack := ack_payload
    (message_ack_hash received (ack_key toy_bob (pd_txt_type ex_pending) (pd_dest_pubkey ex_pending))) 0 77 in
  exists s', complete (firstn kAckHashSize ack) (m_sender ex_mesh1)
    = (Some (mkCompletion (pd_ack_hash ex_pending) (pd_dest_pubkey ex_pending)), s') /\
  ex_pending :: rs_pending s' ≡ₚ rs_pending (m_sender ex_mesh1).
Proof.
  apply (recipient_ack_completes toy_bob sim_idle 8 ex_contacts 64 ex_mesh1 ex_pending 0 0 77).
  - exact ex_mesh_reach.
  - exact ex_pending_in.
  - vm_compute. split; discriminate.
  - exact ex_pending_text_ok.
  - rewrite ex_pending_only. constructor; [left; reflexivity|constructor].
Defined.

Lemma retry_ladder_witness :
  let due delay := Some (ex_pending <| pd_timer := Some (u32 (5000 + delay)) |>) in
  find_pending 1 (on_tx_result 5000 1 true (m_sender ex_mesh1)) = due 8000 /\
  find_pending 1 (on_tx_result 5000 1 false (m_sender ex_mesh1)) = due 1.
Proof.
  apply (retry_ladder 5000 1 (m_sender ex_mesh1) ex_pending).
  - rewrite ex_pending_only. apply NoDup_singleton.
  - vm_compute. reflexivity.
  - vm_compute. discriminate.
Defined.

(** ** A node *)

Definition ex_cfg : Config := mkConfig (lit "bob") 1 0 0 0 true 8.
Definition ex_node : Node SimRadio :=
  make_node toy_bob sim_idle 8 ex_contacts 64 (make_channels (lit "channels")) ex_inbox ex_cfg ex_empty_fs.

Definition first_key (m : gmap Z Z) : Z := match map_to_list m with (k, _) :: _ => k | [] => 0 end.

(** The first key of the table other than [key], if there is one. *)
Definition other_key (key : Z) (m : gmap Z Z) : Z :=
  match map_to_list (delete key m) with (k, _) :: _ => k | [] => key end.

Definition ex_env (now : Z) (begin : gmap Z Z -> Z) : Env :=
  mkEnv now 1700000000 true 0 7 [1; 2; 3; 4] 5 begin no_faults 420.

Lemma ex_env_ok now : env_ok (ex_env now first_key).
Proof.
  intros m Hm. simpl. unfold first_key. destruct (map_to_list m) as [|[k v] l] eqn:E.
  - apply map_to_list_empty_iff in E as ->. rewrite map_size_empty in Hm. lia.
  - apply elem_of_dom. exists v. apply elem_of_map_to_list. rewrite E. apply elem_of_cons. by left.
Qed.

Lemma ex_env_in_window key T : in_window key T (ex_env (u32 T) (other_key key)).
Proof.
  split; [exists T; split; [done|unfold kDeliveredTtlMs; lia]|]. intros m Hm. simpl. unfold other_key.
  destruct (map_to_list (delete key m)) as [|[k v] l] eqn:E.
  - apply map_to_list_empty_iff in E. assert (size (delete key m) = 0)%nat as Hs by (rewrite E; apply map_size_empty).
    rewrite map_size_delete in Hs. unfold kMaxDelivered in Hm. destruct (m !! key); simpl in Hs; lia.
  - assert ((k, v) ∈ map_to_list (delete key m)) as Hin by (rewrite E; apply elem_of_cons; by left).
    apply elem_of_map_to_list in Hin. intros ->. by rewrite lookup_delete_eq in Hin.
Qed.

(** Alice's message to Bob, flooded through one repeater. *)
Definition ex_shared : Bytes := (shared_secret toy_bob ex_alice).1.
Definition ex_msg (attempt : Z) : TextMessage.t := TextMessage.mk 1700000000 kTxtPlain attempt 0 (lit "hello").
Definition ex_text_packet (attempt : Z) : Packet :=
  make_packet PayloadType.TxtMsg Flood 1 [33]
    (DirectEnvelope.encode (DirectEnvelope.seal (byte_at (pub toy_bob) 0) (byte_at (pub toy_alice) 0) ex_shared
       (TextMessage.encode (ex_msg attempt)))).

Definition ex_frame : NEvent := NFrame (R := SimRadio) (mkRx (encode (ex_text_packet 0)) (-80) (S754_zero false) 1000).
Definition ex_node1 : Node SimRadio := (n_handle ex_frame (ex_env 1000 first_key) ex_node).1.2.

Lemma ex_node1_reach : n_reach ex_node ex_node1.
Proof. exact (n_reach_step ex_node ex_node _ ex_frame (n_reach_start _) (ex_env_ok 1000) I). Qed.

Lemma node_invariant_witness :
  length (mi_messages (n_inbox ex_node1)) = 1%nat /\
  (NoDup (map c_pubkey (cs_contacts (n_contacts ex_node1))) /\
   (length (cs_contacts (n_contacts ex_node1)) <= cs_max_contacts (n_contacts ex_node1))%nat /\
   (size (n_delivered ex_node1) <= kMaxDelivered)%nat /\
   (length (mi_messages (n_inbox ex_node1)) <= mi_limit (n_inbox ex_node1))%nat /\
   (length (queue_ (m_disp (n_mesh ex_node1))) <= queue_limit_ (m_disp (n_mesh ex_node1)))%nat /\
   length (chs_channels (n_channels ex_node1)) = kMaxChannels /\
   Forall (pend_live (m_disp (n_mesh ex_node1))) (rs_pending (m_sender (n_mesh ex_node1)))).
Proof.
  split; [vm_compute; reflexivity|].
  apply (node_invariant toy_bob sim_idle 8 ex_contacts 64 (make_channels (lit "channels")) ex_inbox ex_cfg ex_empty_fs).
  - exact ex_contacts_ok.
  - reflexivity.
  - reflexivity.
  - vm_compute. lia.
  - exact ex_node1_reach.
Defined.

(** Attempt 1 of the same message, after a sweep of the table. *)
Definition ex_key : Z := delivery_key (contact_key 0 ex_node) (ex_msg 0).
Definition ex_plain (attempt : Z) : Bytes := zero_pad (TextMessage.encode (ex_msg attempt)).
Definition ex_env_w : Env := ex_env (u32 1000) (other_key ex_key).
Definition ex_node2 : Node SimRadio := (accept_text (ex_text_packet 0) 0 (ex_plain 0) (ex_msg 0) ex_env_w ex_node).1.2.
Definition ex_node3 : Node SimRadio := (n_handle NDeliveredSweep ex_env_w ex_node2).1.2.
Definition ex_node4 : Node SimRadio := (accept_text (ex_text_packet 1) 0 (ex_plain 1) (ex_msg 1) ex_env_w ex_node3).1.2.

Lemma ex_node3_run : n_run (in_window ex_key 1000) ex_node2 ex_node3.
Proof. exact (n_run_step _ ex_node2 ex_node2 ex_env_w NDeliveredSweep (n_run_start _ _) (ex_env_in_window ex_key 1000) I). Qed.

Lemma retry_delivered_once_witness : n_inbox ex_node4 = n_inbox ex_node3 /\ n_fs ex_node4 = n_fs ex_node3.
Proof.
  unfold ex_node4. apply (retry_delivered_once (ex_text_packet 0) (ex_text_packet 1) 0 0 (ex_plain 0) (ex_plain 1) (ex_msg 0) (ex_msg 1)
    ex_env_w ex_env_w ex_node ex_node3 1000).
  - reflexivity.
  - exact ex_node3_run.
  - apply ex_env_in_window.
  - vm_compute. reflexivity.
  - split_and!; reflexivity.
Defined.

Lemma relay_rules_witness :
  relays (ex_text_packet 0) ex_env_w ex_node (maybe_repeat (ex_text_packet 0)) /\
  relays (ex_text_packet 0) ex_env_w ex_node (forward_direct (ex_text_packet 0)) /\
  relays (ex_text_packet 0) ex_env_w ex_node (forward_trace (ex_text_packet 0)).
Proof. apply relay_rules. vm_compute. reflexivity. Defined.

Definition ex_advert_packet (ts : Z) : Packet :=
  make_packet PayloadType.Advert Flood 1 [33] (Advert.encode (ex_advert ts)).

Lemma adverts_authenticated_witness :
  let n' := (on_packet (ex_advert_packet 2000) ex_env_w ex_node).1.2 in
  contact_at 0 (n_contacts n') = contact_at 0 (n_contacts ex_node) \/
  exists adv c', Advert.decode (p_payload (ex_advert_packet 2000)) = Some adv /\ Advert.verify adv = true /\
    Advert.pubkey adv <> pub (n_self ex_node) /\
    contact_at 0 (n_contacts n') = Some c' /\ c_pubkey c' = Advert.pubkey adv /\
    forall c, contact_at 0 (n_contacts ex_node) = Some c ->
      c_pubkey c = Advert.pubkey adv /\ c_adv_timestamp c < Advert.timestamp adv.
Proof. apply adverts_authenticated. reflexivity. Defined.

Lemma ex_msg_ok : text_ok (ex_msg 0).
Proof. split_and!; evaluated. Qed.

Lemma text_delivered_witness :
  let n' := (on_packet (ex_text_packet 0) ex_env_w ex_node).1.2 in
  (n_inbox n', n_fs n') =
    (let '(_, inbox, fs) := store no_faults 420 ex_empty_fs (stored_direct (ex_text_packet 0) (pub toy_alice) (ex_msg 0)) ex_inbox
     in (inbox, fs)) /\
  exists reply,
    m_disp (n_mesh n') = (send 1000 0 reply kPriorityAck 0 None (m_disp (n_mesh ex_node))).1.2 /\
    reply_opens reply toy_bob (pub toy_alice) ex_shared (ex_text_packet 0)
      (message_ack_hash (TextMessage.encode (ex_msg 0)) (pub toy_alice)).
Proof.
  apply (text_delivered 0 (pub toy_alice) ex_shared (ex_text_packet 0) ex_env_w ex_node (ex_msg 0)).
  - split; [split|]; vm_compute; reflexivity.
  - exact ex_msg_ok.
  - reflexivity.
  - left. reflexivity.
  - vm_compute. lia.
  - vm_compute. reflexivity.
  - evaluated.
  - evaluated.
  - exists ex_alice. split_and!; vm_compute; reflexivity.
  - vm_compute. reflexivity.
  - vm_compute. reflexivity.
Defined.

(** ** One advert, and the contacts file is lost

    [apply_advert] stores whatever coordinates a signed advert carries; [save]
    writes them, and [load] refuses the whole file because of them. *)
Definition ex_far : AdvertAppData.t := AdvertAppData.mk 0x91 90000001 0 0 0 (lit "alice").
Definition ex_far_packet : Packet :=
  make_packet PayloadType.Advert Flood 1 [] (Advert.encode (Advert.create toy_alice 2000 ex_far)).
Definition ex_poisoned : ContactStore := n_contacts (on_packet ex_far_packet ex_env_w ex_node).1.2.
Definition ex_poisoned_save : bool * ContactStore * Fs := cs_save no_faults 420 ex_empty_fs ex_poisoned.

(** A node that hears one signed advert with a latitude past 90 degrees saves its
    contacts successfully and cannot load the file again: every contact is lost on
    the next start. *)
Theorem advert_poisons_contacts_file :
  ex_poisoned_save.1.1 = true /\
  (cs_load (open_file ex_poisoned_save.2 (lit "contacts")) (ex_contacts <| cs_contacts := [] |>)).1 = Corrupt.
Proof. split; vm_compute; reflexivity. Qed.

(** ** An acknowledgement for a message that is not on disk

    The rename that would install the message file fails; the message is only in
    memory, and its acknowledgement is on the air all the same. *)
Definition ex_env_f : Env := mkEnv 1000 1700000000 true 0 7 [1; 2; 3; 4] 5 first_key rename_fails 420.
Definition ex_node_f : Node SimRadio := (on_packet (ex_text_packet 0) ex_env_f ex_node).1.2.

Theorem unsaved_message_acknowledged :
  length (mi_messages (n_inbox ex_node_f)) = 1%nat /\ lookup_file (n_fs ex_node_f) (lit "messages") = None /\
  radio_tx_busy (radio_ (m_disp (n_mesh ex_node_f))) = true.
Proof. split_and!; vm_compute; reflexivity. Qed.
