(* ===== verification/Conversation.v ===== *)
(** * A message and its acknowledgement, end to end

    Two nodes: the sender's table of pending sends ([mesh/reliable_sender]) and both nodes'
    handling of packets ([mesh/node]).  The packet of an attempt reaches the recipient, flooded
    or along a route; what the recipient transmits in answer reaches the sender; the send is
    complete, and the sender has learnt the route its packet took.  Between the two nodes a
    packet may be relayed and repeated: what is used of it on arrival is its type, its payload
    and whether it is flooded. *)

From S2P Require Import Prelude ByteIO Floats Crypto Identity Toy Packet Payloads Radio Dispatcher SimRadio.
From S2P Require Import Record Persist Contacts Channels Inbox Sender Node NodeExamples.

Section conversation.
Context `{CryptoLaws} {R : Type} `{RadioLaws R}.
Implicit Types (n : Node R).

(** ** The recipient *)

(** An acknowledgement as a packet of its own. *)
Definition acks (reply : Packet) (hash : Bytes) : Prop :=
  p_type reply = PayloadType.Ack /\ firstn kAckHashSize (p_payload reply) = hash /\
  (kAckHashSize <= length (p_payload reply))%nat.

Lemma route_to_sends now r p to prio on_result (d : Dispatcher R) :
  exists q, p_type q = p_type p /\ p_payload q = p_payload p /\
    route_to now r p to prio false on_result d = send now r q prio 0 on_result d.
Proof. unfold route_to. destruct (_ && _); eexists; by refine (conj _ (conj _ eq_refl)). Qed.

Lemma send_ack_sends i key shared self d ack e n :
  poised i key shared self d n ->
  exists q, p_type q = PayloadType.Ack /\ p_payload q = ack /\
    m_disp (n_mesh (send_ack i ack e n).1.2) = (send (e_now e) (e_pump_r e) q kPriorityAck 0 None d).1.2.
Proof.
  intros ((c & Hc & _) & _ & Hd). unfold send_ack. rewrite Hc.
  destruct (route_to_sends (e_now e) (e_pump_r e) (make_packet PayloadType.Ack Flood 1 [] ack) c kPriorityAck None (m_disp (n_mesh n)))
    as (q & Ht & Hq & ->). exists q. rewrite Hd. split_and!; try done. by destruct (send _ _ _ _ _ _ _) as [[? ?] ?].
Qed.

(** What a message answered along a route leads to. *)
Lemma accept_text_acks i key shared self d p plain msg e n :
  is_flood p = false -> TextMessage.txt_type msg <> kTxtCliData -> poised i key shared self d n ->
  exists q, p_type q = PayloadType.Ack /\ p_payload q = ack_for self key plain (TextMessage.txt_type msg) (e_ack_r e) /\
    m_disp (n_mesh (accept_text p i plain msg e n).1.2) = (send (e_now e) (e_pump_r e) q kPriorityAck 0 None d).1.2.
Proof.
  intros Hf Hcli Hp. destruct (accept_text_answers i key shared self d p plain msg e n Hcli Hp) as (n3 & x & l & Hp3 & -> & ->).
  rewrite Hf. by apply (send_ack_sends i key shared self d (x :: l) e n3).
Qed.

(** What the recipient transmits in answer, flooded or not. *)
Definition answers (reply : Packet) (self : LocalIdentity) (key shared : Bytes) (inbound : Packet) (hash : Bytes) : Prop :=
  if is_flood inbound then reply_opens reply self key shared inbound hash else acks reply hash.

Lemma recipient_answers i key shared p e n msg :
  sealed p (n_self n) key shared msg -> final_hop p -> text_ok msg -> TextMessage.extended_attempt msg = 0 ->
  (TextMessage.txt_type msg = kTxtPlain \/ TextMessage.txt_type msg = kTxtSignedPlain) ->
  (16 <= length shared)%nat -> valid p = true -> bytes_ok (p_path p) -> is_u8 (e_ack_r e) ->
  knows i key shared n -> by_id (byte_at key 0) (n_contacts n) = [i] ->
  let n' := (on_packet p e n).1.2 in
  (received n').1 =
    (if (first_delivery (e_now e) (e_begin e) key msg (n_delivered n)).1
     then (let '(_, inbox, fs) := store (e_faults e) (e_umask_mode e) (n_fs n) (stored_direct p key msg) (n_inbox n) in (inbox, fs))
     else (received n).1) /\
  exists reply,
    m_disp (n_mesh n') = (send (e_now e) (e_pump_r e) reply kPriorityAck 0 None (m_disp (n_mesh n))).1.2 /\
    answers reply (n_self n) key shared p
      (message_ack_hash (TextMessage.encode msg)
         (if TextMessage.txt_type msg =? kTxtSignedPlain then pub (n_self n) else key)).
Proof.
  intros Hcar Hfin Hok Hx Hty Hlen Hv Hpath Hr Hkn Hid n'.
  assert (TextMessage.txt_type msg <> kTxtCliData) as Hcli by (by destruct Hty as [-> | ->]).
  assert (shared <> []) as Hne by (by destruct shared; [simpl in Hlen; lia|]).
  destruct (handle_text_opens i key shared (n_self n) (m_disp (n_mesh n)) p e n msg) as (n1 & Hp1 & Hr1 & Hn'); try done.
  fold n' in Hn'. rewrite Hn'. injection Hr1 as Ei Ef Ed. split.
  - assert (contact_key i n1 = key) as Ek
      by (destruct Hp1 as ((c & Hc & Hk & _) & _); unfold contact_key; by rewrite Hc).
    pose proof (accept_text_received p i (zero_pad (TextMessage.encode msg)) msg e n1) as Hrec.
    rewrite Ek, Ei, Ef, Ed in Hrec. unfold received in *. rewrite Hrec. by destruct (first_delivery _ _ _ _ _) as [[] d];
      [destruct (store _ _ _ _ _) as [[? ?] ?]|].
  - unfold answers. destruct (is_flood p) eqn:Hf.
    + eexists. split; [|by apply (reply_packet_opens (n_self n) key shared p msg (e_ack_r e))].
      by apply accept_text_replies.
    + destruct (accept_text_acks i key shared (n_self n) (m_disp (n_mesh n)) p (zero_pad (TextMessage.encode msg)) msg e n1)
        as (q & Ht & Hq & Hs); try done.
      exists q. split; [exact Hs|]. split; [done|]. rewrite Hq.
      pose proof (ack_for_prefix (n_self n) key msg (e_ack_r e) [] Hok) as Hpre. rewrite app_nil_r, subview_take in Hpre.
      split; [exact Hpre|]. apply (f_equal length) in Hpre.
      unfold message_ack_hash in Hpre. rewrite ack_hash_length, length_take in Hpre. unfold kAckHashSize in *. lia.
Qed.

(** ** The sender *)

Definition pending_ids n : list Z := map pd_id (rs_pending (m_sender (n_mesh n))).

(** The contact [i] is the owner of [key], and [path] leads to it. *)
Definition routed (i : nat) (key path : Bytes) n : Prop :=
  exists c, contact_at i (n_contacts n) = Some c /\ c_pubkey c = key /\ c_path_known c = true /\ c_out_path c = path.

(** The send [id] is over, and the route to its recipient is known if [route] is. *)
Definition concluded (i : nat) (key : Bytes) (route : option Bytes) (id : Z) n : Prop :=
  (id ∉ pending_ids n) /\ match route with Some path => routed i key path n | None => True end.

Lemma shared_secret_route self c :
  c_pubkey (shared_secret self c).2 = c_pubkey c /\ c_path_known (shared_secret self c).2 = c_path_known c /\
  c_out_path (shared_secret self c).2 = c_out_path c.
Proof. unfold shared_secret. by repeat case_match. Qed.

(** Changing one contact in ways that keep key and route. *)
Lemma routed_update i j key path f n :
  (forall c, contact_at j (n_contacts n) = Some c ->
     c_pubkey (f c) = c_pubkey c /\ c_path_known (f c) = c_path_known c /\ c_out_path (f c) = c_out_path c) ->
  routed i key path n -> routed i key path (n <| n_mesh ::= fun m => m <| m_contacts ::= update_contact j f |> |>).
Proof.
  intros Hf (c & Hc & Hk & Hp & Ho). unfold routed, n_contacts, contact_at, update_contact in *. simpl.
  destruct (decide (i = j)) as [->|Hne].
  - rewrite list_lookup_alter_eq, Hc. destruct (Hf c Hc) as (E1 & E2 & E3). exists (f c). split_and!; [done|congruence..].
  - rewrite list_lookup_alter_ne by done. by exists c.
Qed.

Lemma contact_secret_concluded i key route id j : keeps (fun _ => True) (concluded i key route id) (contact_secret j).
Proof.
  intros e n _ [Hid Hr]. unfold contact_secret. destruct (contact_at j (n_contacts n)) as [c|] eqn:Hc; [|done].
  pose proof (shared_secret_route (n_self n) c) as Hs. destruct (shared_secret (n_self n) c) as [s c'].
  split; [exact Hid|]. destruct route as [path|]; [|done].
  apply (routed_update i j key path (fun _ => c') n); [|done]. intros x Hx. rewrite Hc in Hx. by injection Hx as <-.
Qed.

Lemma on_tx_results_ids now rs s : map pd_id (rs_pending (on_tx_results now rs s)) = map pd_id (rs_pending s).
Proof. destruct (on_tx_results_spec now rs s) as (_ & _ & Hr). by eapply rearmed_ids. Qed.

Lemma dispatcher_send_concluded i key route id p prio delay :
  keeps (fun _ => True) (concluded i key route id) (dispatcher_send p prio delay).
Proof.
  intros e n _ [Hid Hr]. unfold dispatcher_send. destruct (send _ _ _ _ _ _ _) as [[? ?] rs]. split; [|done].
  unfold pending_ids. cbn. by rewrite on_tx_results_ids.
Qed.

Lemma path_return_concluded i key route id j p ty extra via delay :
  keeps (fun _ => True) (concluded i key route id) (send_path_return j p ty extra via delay).
Proof.
  unfold send_path_return.
  repeat first [apply contact_secret_concluded|apply dispatcher_send_concluded|apply keeps_ret|apply keeps_ask|apply keeps_gets
    |apply keeps_bind; [|intros ?]|case_match].
Qed.

(** [complete_ack] with the hash of an attempt of [pd]. *)
Lemma complete_ack_concludes i key route pd k direct e n :
  mesh_ok (n_self n) (n_mesh n) -> pd ∈ rs_pending (m_sender (n_mesh n)) -> 0 <= k <= pd_attempt pd ->
  Forall (fun p => p = pd \/ attempt_hash (n_self n) pd k ∉ pd_accepted_ack_hashes p) (rs_pending (m_sender (n_mesh n))) ->
  match route with Some path => routed i key path n | None => True end ->
  exists c n1, complete_ack (attempt_hash (n_self n) pd k) direct e n = (c, true, n1, [OnAck (pd_ack_hash pd)]) /\
    concluded i key route (pd_id pd) n1.
Proof.
  intros Hok Hpd Hk Hu Hroute. destruct (attempt_hash_completes _ _ _ _ Hok Hpd Hk Hu) as (j & Hj & E).
  unfold complete_ack. rewrite E. eexists _, _. split; [done|].
  set (n1 := n <| n_mesh ::= _ |>). assert (concluded i key route (pd_id pd) n1) as Hc.
  { split; [|exact Hroute]. unfold pending_ids. cbn. intros Hin.
    pose proof (mo_ids _ _ Hok) as Hnd. apply (delete_Permutation _ j) in Hj.
    apply (Permutation_map pd_id) in Hj. rewrite Hj in Hnd. cbn in Hnd. by inversion Hnd. }
  destruct (find_contact _ _) as [x|]; [|done]. destruct direct; [|done]. destruct Hc as [Hg1 Hg2]. split; [done|].
  destruct route as [path|]; [|done].
  by apply (routed_update i x key path (fun c => c <| c_last_seen := e_unix e |>) n1).
Qed.

Lemma bind_noted {A B} (m : M R A) (f : A -> M R B) e n a n1 o1 :
  m e n = (a, n1, o1) -> (m ≫= f) e n = ((f a e n1).1, o1 ++ (f a e n1).2).
Proof. unfold mbind, M_bind. intros ->. by destruct (f a e n1) as [[b n2] o2]. Qed.

Lemma surjective_pairing_as {A B} (x : A * B) a : x.1 = a -> x = (a, x.2).
Proof. destruct x. cbn. by intros ->. Qed.

(** What the application is told and what is left when the answer arrives. *)
Definition completes (i : nat) (key : Bytes) (route : option Bytes) (pd : Pending) (q : Packet) e n : Prop :=
  OnAck (pd_ack_hash pd) ∈ (on_packet q e n).2 /\ concluded i key route (pd_id pd) (on_packet q e n).1.2.

Lemma handle_ack_concludes i key pd k q e n :
  acks q (attempt_hash (n_self n) pd k) ->
  mesh_ok (n_self n) (n_mesh n) -> pd ∈ rs_pending (m_sender (n_mesh n)) -> 0 <= k <= pd_attempt pd ->
  Forall (fun p => p = pd \/ attempt_hash (n_self n) pd k ∉ pd_accepted_ack_hashes p) (rs_pending (m_sender (n_mesh n))) ->
  exists n' notes, handle_ack q e n = (false, n', notes) /\ OnAck (pd_ack_hash pd) ∈ notes /\ concluded i key None (pd_id pd) n'.
Proof.
  intros (Ht & Hh & Hl) Hok Hpd Hk Hu. unfold handle_ack. rewrite (proj2 (Nat.ltb_ge _ _) Hl), subview_take, Hh.
  destruct (complete_ack_concludes i key None pd k (is_direct q) e n Hok Hpd Hk Hu I) as (c & n1 & E & Hc).
  rewrite (bind_noted _ _ e n _ _ _ E). cbn [negb].
  eexists _, _. split; [|split].
  - apply pair_equal_spec. split; [|done]. apply surjective_pairing_as. by rewrite !bind_value.
  - set_solver.
  - rewrite !bind_node. change ((mret false : M R bool) e ?x).1.2 with x. cbn [gets fst snd].
    repeat (case_match; try done). by apply path_return_concluded.
Qed.

(** The answer as a packet of its own: wherever on its route it is heard. *)
Lemma ack_completes i key pd k q e n :
  acks q (attempt_hash (n_self n) pd k) ->
  mesh_ok (n_self n) (n_mesh n) -> pd ∈ rs_pending (m_sender (n_mesh n)) -> 0 <= k <= pd_attempt pd ->
  Forall (fun p => p = pd \/ attempt_hash (n_self n) pd k ∉ pd_accepted_ack_hashes p) (rs_pending (m_sender (n_mesh n))) ->
  completes i key None pd q e n.
Proof.
  intros Ha Hok Hpd Hk Hu. destruct (handle_ack_concludes i key pd k q e n Ha Hok Hpd Hk Hu) as (n' & notes & E & Ho & Hc).
  assert (on_packet q e n = (tt, n', notes ++ [])) as Eq.
  { unfold on_packet, dispatch_type. destruct Ha as (Ht & _). rewrite Ht.
    change (PayloadType.Ack =? PayloadType.Trace) with false. change (PayloadType.Ack =? PayloadType.Control) with false.
    rewrite !andb_false_r. cbn [andb]. destruct (_ && _).
    - change (PayloadType.Ack =? PayloadType.Ack) with true. cbv iota. by rewrite (bind_noted _ _ e n _ _ _ E).
    - cbv zeta. change (if PayloadType.Ack =? PayloadType.Advert then _ else _) with (handle_ack (R := R) q).
      by rewrite (bind_noted _ _ e n _ _ _ E). }
  unfold completes. rewrite Eq, app_nil_r. by split.
Qed.

(** The same node but for its contacts. *)
Definition same_sends n n' : Prop :=
  n_self n' = n_self n /\ m_disp (n_mesh n') = m_disp (n_mesh n) /\ m_sender (n_mesh n') = m_sender (n_mesh n).

Lemma same_sends_ok n n' : same_sends n n' -> mesh_ok (n_self n) (n_mesh n) -> mesh_ok (n_self n') (n_mesh n').
Proof. intros (E1 & E2 & E3) [H1' H2' H3' H4' H5' H6']. constructor; rewrite ?E1, ?E2, ?E3; done. Qed.

Lemma secret_found i key shared e n :
  shared <> [] -> knows i key shared n ->
  exists n1, contact_secret i e n = (shared, n1, []) /\ knows i key shared n1 /\ same_sends n n1.
Proof.
  intros Hne Hk. destruct (secret_poised i key shared (n_self n) (m_disp (n_mesh n)) e n Hne) as (n1 & E & (Hk1 & Hs & Hd) & _); [done|].
  exists n1. split; [done|]. split; [done|]. split_and!; [done..|].
  revert E. unfold contact_secret. destruct (contact_at i (n_contacts n)); [|by intros [= _ <-]].
  destruct (shared_secret _ _). by intros [= _ <-].
Qed.

(** A path return whose path has one-byte hashes sets the route. *)
Definition learn_route (i : nat) (key : Bytes) (ret : PathReturn.t) (e : Env) : M R unit :=
  if (PathReturn.path_hash_size ret =? 1)%nat
  then
    _ ← on_contacts (fun s => (cs_set_path i (PathReturn.path ret) s).2);
    _ ← on_contacts (touch (e_unix e) i);
    notify (OnPathUpdated key)
  else mret tt.

Lemma learn_route_spec i key shared ret e n :
  knows i key shared n ->
  exists n1 notes, learn_route i key ret e e n = (tt, n1, notes) /\ same_sends n n1 /\
    ((PathReturn.path_hash_size ret = 1)%nat -> routed i key (PathReturn.path ret) n1).
Proof.
  intros (c & Hc & Hk & _). unfold learn_route. destruct (Nat.eqb_spec (PathReturn.path_hash_size ret) 1) as [E|E].
  2:{ eexists _, _. split; [done|]. split; [done|]. intros ?. lia. }
  set (n0 := n <| n_mesh ::= fun m => m <| m_contacts ::= fun s => (cs_set_path i (PathReturn.path ret) s).2 |> |>).
  eexists _, _. split; [done|]. split; [done|]. intros _.
  apply (routed_update i i key (PathReturn.path ret) (fun c => c <| c_last_seen := e_unix e |>) n0); [done|].
  unfold routed, n0, n_contacts, cs_set_path in *. cbn -[contact_at update_contact]. rewrite Hc.
  destruct (c_path_known c && beq (c_out_path c) (PathReturn.path ret)) eqn:Eb.
  - apply andb_true_iff in Eb as [Ep Eo]. apply beq_eq in Eo. exists c. by split_and!.
  - eexists. unfold contact_at, update_contact in *. cbn -[alter]. rewrite list_lookup_alter_eq, Hc. by split_and!.
Qed.

Lemma handle_path_concludes i bob shared inbound pd k q e n :
  let route := if (p_path_hash_size inbound =? 1)%nat then Some (p_path inbound) else None in
  reply_opens q bob (pub (n_self n)) shared inbound (attempt_hash (n_self n) pd k) -> shared <> [] ->
  knows i (pub bob) shared n -> by_id (byte_at (pub bob) 0) (n_contacts n) = [i] ->
  mesh_ok (n_self n) (n_mesh n) -> pd ∈ rs_pending (m_sender (n_mesh n)) -> 0 <= k <= pd_attempt pd ->
  Forall (fun p => p = pd \/ attempt_hash (n_self n) pd k ∉ pd_accepted_ack_hashes p) (rs_pending (m_sender (n_mesh n))) ->
  exists n' notes, handle_path q e n = (false, n', notes) /\ OnAck (pd_ack_hash pd) ∈ notes /\
    concluded i (pub bob) route (pd_id pd) n'.
Proof.
  intros route (Ht & Hf & env & plain & ret & Hd & Hdst & Hsrc & Hopen & Hret & Hpath & Hhs & Hx & Hxt & Hh) Hne Hkn Hid Hok Hpd Hk Hu.
  unfold handle_path. rewrite bind_gets, Hd, Hdst. unfold my_byte. rewrite Z.eqb_refl. cbn [negb].
  destruct (secret_found i (pub bob) shared e n Hne Hkn) as (n1 & Hsec & Hkn1 & Hs1).
  rewrite (bind_run _ _ e n (Some (i, plain)) n1).
  2:{ unfold decrypt_from. rewrite bind_gets, Hsrc, Hid. cbn [try_contacts]. rewrite (bind_run _ _ e n shared n1) by done.
      destruct shared; [done|]. by rewrite Hopen. }
  rewrite Hret, bind_ask, bind_gets.
  assert (contact_key i n1 = pub bob) as -> by (destruct Hkn1 as (c & Hc & Hkey & _); unfold contact_key; by rewrite Hc).
  destruct (learn_route_spec i (pub bob) shared ret e n1 Hkn1) as (n2 & o2 & E2 & Hs2 & Hr2).
  rewrite (bind_noted (learn_route i (pub bob) ret e) _ e n1 _ _ _ E2).
  rewrite Hx, Hxt. change (PayloadType.Ack =? PayloadType.Ack) with true.
  assert (kAckHashSize <= length (PathReturn.extra ret))%nat as Hlen.
  { apply (f_equal length) in Hh. unfold attempt_hash, message_ack_hash in Hh.
    rewrite subview_take, ack_hash_length, length_take in Hh. unfold kAckHashSize in *. lia. }
  rewrite (proj2 (Nat.leb_le _ _) Hlen), Hh. cbn [andb].
  assert (same_sends n n2) as Hs by (destruct Hs1 as (? & ? & ?), Hs2 as (? & ? & ?); repeat split; congruence).
  assert (n_self n = n_self n2) as Eself by (symmetry; apply Hs). rewrite Eself in Hu |- *.
  assert (m_sender (n_mesh n) = m_sender (n_mesh n2)) as Esend by (symmetry; apply Hs). rewrite Esend in Hu, Hpd.
  destruct (complete_ack_concludes i (pub bob) route pd k (is_direct q) e n2) as (c & n3 & E3 & Hc3); try done.
  { by apply (same_sends_ok n). }
  { subst route. destruct (Nat.eqb_spec (p_path_hash_size inbound) 1) as [E|]; [|done]. rewrite <- Hpath. apply Hr2. congruence. }
  assert ((complete_ack (attempt_hash (n_self n2) pd k) (is_direct q) ≫= fun _ => mret tt : M R unit) e n2
    = (tt, n3, [OnAck (pd_ack_hash pd)])) as E4 by (by rewrite (bind_noted _ _ e n2 _ _ _ E3)).
  rewrite (bind_noted _ _ e n2 _ _ _ E4). eexists _, _. split; [|split].
  - cbn [fst snd]. apply pair_equal_spec. split; [|done]. apply surjective_pairing_as. by rewrite bind_value.
  - set_solver.
  - rewrite bind_node. change ((mret false : M R bool) e ?x).1.2 with x.
    destruct (is_flood q); [by apply path_return_concluded|done].
Qed.

(** The answer as a path return. *)
Lemma path_completes i bob shared inbound pd k q e n :
  reply_opens q bob (pub (n_self n)) shared inbound (attempt_hash (n_self n) pd k) -> shared <> [] ->
  knows i (pub bob) shared n -> by_id (byte_at (pub bob) 0) (n_contacts n) = [i] ->
  mesh_ok (n_self n) (n_mesh n) -> pd ∈ rs_pending (m_sender (n_mesh n)) -> 0 <= k <= pd_attempt pd ->
  Forall (fun p => p = pd \/ attempt_hash (n_self n) pd k ∉ pd_accepted_ack_hashes p) (rs_pending (m_sender (n_mesh n))) ->
  completes i (pub bob) (if (p_path_hash_size inbound =? 1)%nat then Some (p_path inbound) else None) pd q e n.
Proof.
  intros Hr Hne Hkn Hid Hok Hpd Hk Hu.
  destruct (handle_path_concludes i bob shared inbound pd k q e n Hr Hne Hkn Hid Hok Hpd Hk Hu) as (n' & notes & E & Ho & Hc).
  destruct Hr as (Ht & Hf & _). unfold completes, on_packet, dispatch_type. rewrite Ht.
  assert (is_direct q = false) as -> by (unfold is_direct, is_flood in *; by destruct (p_route q)). cbn [andb]. cbv zeta.
  change (if PayloadType.Path =? PayloadType.Advert then _ else _) with (handle_path (R := R) q).
  rewrite (bind_noted _ _ e n _ _ _ E). cbn [mret M_ret fst snd]. rewrite app_nil_r. by split.
Qed.

(** What the air makes of a packet: where it has been is not fixed, what it holds is. *)
Definition copy_of (p q : Packet) : Prop :=
  p_type q = p_type p /\ p_payload q = p_payload p /\ is_flood q = is_flood p.

Lemma answers_copy reply q self key shared inbound hash :
  copy_of reply q -> answers reply self key shared inbound hash -> answers q self key shared inbound hash.
Proof.
  intros (Et & Ep & Ef). unfold answers, reply_opens, acks. rewrite Et, Ep, Ef. by destruct (is_flood inbound).
Qed.

Lemma contact_id_byte c : contact_id c = byte_at (c_pubkey c) 0.
Proof. unfold contact_id. by destruct (c_pubkey c). Qed.

(** C2. A message and its acknowledgement, end to end.  Two nodes know each other, each as its
    only contact with that first key byte, and no other send of the sender awaits the same
    hash.  When the packet the sender sealed for any attempt of a pending send reaches the recipient, flooded or at the end of its route,
    the message goes into the recipient's queue unless it did before, and the recipient hands
    one answer to its dispatcher; whenever a copy of that answer reaches the sender while the
    send is pending, the application is told of the send under the hash it was given, the send
    is pending no more, and if the packet was flooded with one-byte hashes the contact's route
    is the path it took. *)
Theorem conversation_completes i j shared (A B : Node R) p pd k to h pd' eB :
  let alice := n_self A in let bob := n_self B in
  let msg := TextMessage.mk (pd_timestamp pd) (pd_txt_type pd) k 0 (to_bytes (pd_text pd)) in
  node_ok A -> pd ∈ rs_pending (m_sender (n_mesh A)) -> 0 <= k <= pd_attempt pd ->
  pd_dest_pubkey pd = pub bob -> (pd_txt_type pd = kTxtPlain \/ pd_txt_type pd = kTxtSignedPlain) -> text_ok msg ->
  Forall (fun p' => p' = pd \/ attempt_hash alice pd k ∉ pd_accepted_ack_hashes p') (rs_pending (m_sender (n_mesh A))) ->
  knows i (pub bob) shared A -> by_id (byte_at (pub bob) 0) (n_contacts A) = [i] ->
  knows j (pub alice) shared B -> by_id (byte_at (pub alice) 0) (n_contacts B) = [j] -> (16 <= length shared)%nat ->
  c_pubkey to = pub bob -> seal_attempt alice shared to (pd <| pd_attempt := k |>) = Some (h, pd', p_payload p) ->
  p_type p = PayloadType.TxtMsg -> final_hop p -> valid p = true -> bytes_ok (p_path p) -> is_u8 (e_ack_r eB) ->
  let B' := (on_packet p eB B).1.2 in
  (received B').1 =
    (if (first_delivery (e_now eB) (e_begin eB) (pub alice) msg (n_delivered B)).1
     then (let '(_, inbox, fs) := store (e_faults eB) (e_umask_mode eB) (n_fs B) (stored_direct p (pub alice) msg) (n_inbox B)
           in (inbox, fs))
     else (received B).1) /\
  exists reply,
    m_disp (n_mesh B') = (send (e_now eB) (e_pump_r eB) reply kPriorityAck 0 None (m_disp (n_mesh B))).1.2 /\
    forall q eA, copy_of reply q ->
      completes i (pub bob) (if is_flood p && (p_path_hash_size p =? 1)%nat then Some (p_path p) else None) pd q eA A.
Proof.
  intros alice bob msg HA Hpd Hk Hdst Hty Hok Hu HkA HidA HkB HidB Hlen Hto Hseal Ht Hfin Hv Hpath Hr B'.
  assert (shared <> []) as Hne by (by destruct shared; [simpl in Hlen; lia|]).
  assert (sealed p bob (pub alice) shared msg) as Hcar.
  { split; [done|]. unfold seal_attempt in Hseal. destruct shared as [|b l]; [done|]. injection Hseal as _ _ <-.
    by rewrite contact_id_byte, Hto. }
  destruct (recipient_answers j (pub alice) shared p eB B msg Hcar Hfin Hok eq_refl Hty Hlen Hv Hpath Hr HkB HidB)
    as (Hrec & reply & Hsend & Hans). split; [exact Hrec|]. exists reply. split; [exact Hsend|].
  intros q eA Hq. apply (answers_copy reply q) in Hans; [|done].
  assert (message_ack_hash (TextMessage.encode msg) (if TextMessage.txt_type msg =? kTxtSignedPlain then pub bob else pub alice)
    = attempt_hash alice pd k) as Eh by (unfold attempt_hash, ack_key; by rewrite Hdst).
  fold bob in Hans. rewrite Eh in Hans. unfold answers in Hans. destruct (is_flood p).
  - by apply (path_completes i bob shared p pd k q eA A); try done; apply HA.
  - by apply (ack_completes i (pub bob) pd k q eA A); try done; apply HA.
Qed.
End conversation.

(** ** Alice and Bob *)

Definition cv_bob : Contact := Contact_default <| c_pubkey := pub toy_bob |> <| c_name := lit "bob" |> <| c_adv_timestamp := 1000 |>.
Definition cv_contacts : ContactStore := mkContactStore toy_alice (lit "contacts") 100 [cv_bob] true.
Definition cv_alice0 : Node SimRadio :=
  make_node toy_alice sim_idle 8 cv_contacts 64 (make_channels (lit "channels")) ex_inbox ex_cfg ex_empty_fs.

(** Alice has sent Bob a message. *)
Definition cv_send : NEvent := NText (R := SimRadio) 0 (lit "hello") kTxtPlain 1700000000.
Definition cv_alice : Node SimRadio := (n_handle cv_send (ex_env 1000 first_key) cv_alice0).1.2.
Definition cv_pending : Pending := List.hd ex_pending (rs_pending (m_sender (n_mesh cv_alice))).
Definition cv_sealed : Bytes * Pending * Bytes :=
  default ([], ex_pending, []) (seal_attempt toy_alice ex_shared cv_bob (cv_pending <| pd_attempt := 0 |>)).
Definition cv_packet : Packet := make_packet PayloadType.TxtMsg Flood 1 [33] cv_sealed.2.

Lemma cv_alice_ok : node_ok cv_alice.
Proof.
  apply n_handle_ok; [|apply ex_env_ok|vm_compute; reflexivity].
  constructor.
  - apply initial_mesh_ok.
  - constructor; [apply NoDup_singleton|vm_compute; lia| |].
    + constructor; [vm_compute; reflexivity|constructor].
    + constructor; [left; reflexivity|constructor].
  - reflexivity.
  - vm_compute. reflexivity.
  - vm_compute. lia.
  - vm_compute. lia.
Qed.

Lemma cv_pending_only : rs_pending (m_sender (n_mesh cv_alice)) = [cv_pending].
Proof. vm_compute. reflexivity. Qed.

Lemma cv_text_ok : text_ok (TextMessage.mk (pd_timestamp cv_pending) (pd_txt_type cv_pending) 0 0 (to_bytes (pd_text cv_pending))).
Proof.
  replace (TextMessage.mk _ _ _ _ _) with (TextMessage.mk 1700000000 0 0 0 (lit "hello")) by (vm_compute; reflexivity).
  split_and!; evaluated.
Qed.

Lemma cv_knows_bob : knows 0 (pub toy_bob) ex_shared cv_alice.
Proof. exists (shared_secret toy_alice cv_bob).2. split_and!; vm_compute; reflexivity. Qed.

Lemma cv_knows_alice : knows 0 (pub toy_alice) ex_shared ex_node.
Proof. exists ex_alice. split_and!; vm_compute; reflexivity. Qed.

Lemma cv_ids :
  by_id (byte_at (pub toy_bob) 0) (n_contacts cv_alice) = [0%nat] /\
  by_id (byte_at (pub toy_alice) 0) (n_contacts ex_node) = [0%nat] /\ (16 <= length ex_shared)%nat.
Proof. split_and!; [vm_compute; reflexivity|vm_compute; reflexivity|vm_compute; lia]. Qed.

Lemma cv_sealed_now :
  seal_attempt toy_alice ex_shared cv_bob (cv_pending <| pd_attempt := 0 |>) = Some (cv_sealed.1.1, cv_sealed.1.2, p_payload cv_packet).
Proof. vm_compute. reflexivity. Qed.

Lemma cv_selves : n_self cv_alice = toy_alice /\ n_self ex_node = toy_bob.
Proof. split; vm_compute; reflexivity. Qed.

Lemma conversation_completes_witness :
  let bob' := (on_packet cv_packet (ex_env 2000 first_key) ex_node).1.2 in
  length (mi_messages (n_inbox bob')) = 1%nat /\
  exists reply,
    m_disp (n_mesh bob') = (send 2000 0 reply kPriorityAck 0 None (m_disp (n_mesh ex_node))).1.2 /\
    forall q eA, copy_of reply q -> completes 0 (pub toy_bob) (Some [33]) cv_pending q eA cv_alice.
Proof.
  split; [vm_compute; reflexivity|].
  assert (cv_pending ∈ rs_pending (m_sender (n_mesh cv_alice))) as Hin
    by (rewrite cv_pending_only; apply list_elem_of_singleton; reflexivity).
  pose proof (conversation_completes 0 0 ex_shared cv_alice ex_node cv_packet cv_pending 0 cv_bob cv_sealed.1.1 cv_sealed.1.2
    (ex_env 2000 first_key)) as Hc. cbv zeta in Hc. rewrite (proj1 cv_selves), (proj2 cv_selves) in Hc.
  pose proof (Hc cv_alice_ok Hin ltac:(vm_compute; split; discriminate) ltac:(vm_compute; reflexivity)) as Hc2.
  pose proof (Hc2 ltac:(left; vm_compute; reflexivity) cv_text_ok) as Hc3.
  pose proof (Hc3 ltac:(rewrite cv_pending_only; constructor; [left; reflexivity|constructor])) as Hc4.
  pose proof (Hc4 cv_knows_bob (proj1 cv_ids) cv_knows_alice (proj1 (proj2 cv_ids)) (proj2 (proj2 cv_ids))) as Hc6.
  pose proof (Hc6 eq_refl cv_sealed_now eq_refl) as Hc7.
  pose proof (Hc7 ltac:(left; reflexivity) ltac:(vm_compute; reflexivity) ltac:(evaluated) ltac:(evaluated)) as Hc8.
  exact (proj2 Hc8).
Defined.
