(* ===== verification/EventLoop.v ===== *)
(** The poll loop ([daemon/eventloop]) and the clocks it runs on ([util/clock]).

    A callback is a closure over the program's own state, so the loop is modelled
    together with that state as a [World]; what a closure does is the parameter
    [run_cb] (or [run_fd]), and the class [Client] says that it does it through the
    loop's public operations.  Dispatching returns, besides the new world, the
    timers it fired.  [std::map] is a list of pairs in key order. *)

From S2P Require Import Prelude.

(** ** [util/clock] *)

(** [ck_virtual]: [ManualClock] as against [MillisClock], whose time passes on its own. *)
Record Clock := mkClock { ck_virtual : bool; ck_now : Z }.

#[export] Instance eta_Clock : Eta Clock := fun c => mkClock (ck_virtual c) (ck_now c).

Definition now_ms (c : Clock) : Z := ck_now c.
Definition is_virtual (c : Clock) : bool := ck_virtual c.
Definition set_now_ms (ms : Z) (c : Clock) : Clock := if ck_virtual c then c <| ck_now := ms |> else c.

(** [ManualClock::advance] *)
Definition clock_advance (ms : Z) (c : Clock) : Clock := c <| ck_now := u32 (ck_now c + ms) |>.

(** The wall clock keeps an offset from the system's; the globals [g_offset] and [g_valid]. *)
Record WallClock := mkWall { g_offset : Z; g_valid : bool }.

Definition kPlausibleEpoch : Z := 1704067200.

Definition unix_now (system_seconds : Z) (w : WallClock) : Z :=
  let t := system_seconds + g_offset w in
  let t := if t <? 0 then 0 else t in
  u32 t.

Definition set_clock_offset (seconds : Z) (w : WallClock) : WallClock := mkWall seconds true.
Definition clock_offset (w : WallClock) : Z := g_offset w.

Definition clock_is_valid (system_seconds : Z) (w : WallClock) : bool :=
  g_valid w || (kPlausibleEpoch <=? unix_now system_seconds w).

(** ** [std::map] with integer keys *)

Section ordered_map.
Context {V : Type}.
Implicit Types m : list (Z * V).

Fixpoint om_find (k : Z) m : option V :=
  match m with
  | [] => None
  | (k', v) :: m => if k =? k' then Some v else om_find k m
  end.

(** [m[k] = v] *)
Fixpoint om_set (k : Z) (v : V) m : list (Z * V) :=
  match m with
  | [] => [(k, v)]
  | (k', v') :: m' =>
      if k <? k' then (k, v) :: m else if k =? k' then (k, v) :: m' else (k', v') :: om_set k v m'
  end.

(** [it->second = f(it->second)] for the [it] that [find(k)] returned. *)
Fixpoint om_update (k : Z) (f : V -> V) m : list (Z * V) :=
  match m with
  | [] => []
  | (k', v) :: m => if k =? k' then (k', f v) :: m else (k', v) :: om_update k f m
  end.

Definition om_ordered m : Prop := StronglySorted Z.lt (map fst m).

Lemma om_find_elem k v m : om_find k m = Some v -> (k, v) ∈ m.
Proof.
  induction m as [|[k' v'] m IH]; simpl; [done|].
  destruct (Z.eqb_spec k k') as [->|]; intros; simplify_eq; set_solver.
Qed.

Lemma om_elem_find k v m : om_ordered m -> (k, v) ∈ m -> om_find k m = Some v.
Proof.
  unfold om_ordered. induction m as [|[k' v'] m IH]; simpl; [set_solver|].
  intros Hs [Heq|Hin]%elem_of_cons; [simplify_eq; by rewrite Z.eqb_refl|].
  apply StronglySorted_inv in Hs as [Hs Hlt]. destruct (Z.eqb_spec k k') as [->|]; [|auto].
  rewrite List.Forall_forall in Hlt. specialize (Hlt k'). exfalso.
  enough (k' < k') by lia. apply Hlt, in_map_iff. exists (k', v). split; [done|]. by apply list_elem_of_In.
Qed.

Lemma om_set_elem k v m k' v' : (k', v') ∈ om_set k v m -> (k', v') = (k, v) \/ (k', v') ∈ m.
Proof.
  induction m as [|[k1 v1] m IH]; simpl; [set_solver|].
  destruct (k <? k1), (k =? k1); rewrite !elem_of_cons; tauto.
Qed.

Lemma om_set_find k v m : om_find k (om_set k v m) = Some v.
Proof.
  induction m as [|[k1 v1] m IH]; simpl; [by rewrite Z.eqb_refl|].
  repeat case_match; simpl; rewrite ?Z.eqb_refl; [done..|]. by case_match.
Qed.

Lemma om_set_find_ne k v m k' : k <> k' -> om_find k' (om_set k v m) = om_find k' m.
Proof.
  intros Hne. induction m as [|[k1 v1] m IH]; simpl.
  - by destruct (Z.eqb_spec k' k).
  - destruct (Z.ltb_spec k k1); simpl; [by destruct (Z.eqb_spec k' k)|].
    destruct (Z.eqb_spec k k1) as [->|]; simpl; [by destruct (Z.eqb_spec k' k1)|]. by rewrite IH.
Qed.

Lemma om_set_keys k v m : forall x, x ∈ map fst (om_set k v m) -> x = k \/ x ∈ map fst m.
Proof.
  intros x [[k' v'] [-> Hin]]%list_elem_of_fmap. apply om_set_elem in Hin as [Heq|Hin].
  - simplify_eq. by left.
  - right. apply list_elem_of_fmap. eauto.
Qed.

Lemma om_set_ordered k v m : om_ordered m -> om_ordered (om_set k v m).
Proof.
  unfold om_ordered. induction m as [|[k1 v1] m IH]; simpl; intros Hs; [by repeat constructor|].
  destruct (Z.ltb_spec k k1); simpl.
  - constructor; [done|]. apply StronglySorted_inv in Hs as [_ Hf].
    constructor; [done|]. eapply Forall_impl; [|exact Hf]. simpl. lia.
  - apply StronglySorted_inv in Hs as [Hs Hf]. destruct (Z.eqb_spec k k1) as [->|]; simpl; constructor; auto.
    apply Forall_forall. intros x Hx. rewrite <- list_elem_of_In in Hx.
    apply om_set_keys in Hx as [->|Hx]; [lia|]. rewrite list_elem_of_In in Hx. rewrite Forall_forall in Hf. auto.
Qed.

Lemma om_update_keys k f m : map fst (om_update k f m) = map fst m.
Proof. induction m as [|[k1 v1] m IH]; simpl; [done|]. case_match; simpl; by rewrite ?IH. Qed.

Lemma om_update_elem k f m k' v' :
  om_ordered m -> (k', v') ∈ om_update k f m ->
  (k' = k /\ exists v, (k, v) ∈ m /\ v' = f v) \/ (k' <> k /\ (k', v') ∈ m).
Proof.
  unfold om_ordered. induction m as [|[k1 v1] m IH]; simpl; [set_solver|].
  intros [Hs Hf]%StronglySorted_inv. destruct (Z.eqb_spec k k1) as [->|Hne].
  - intros [Heq|Hin]%elem_of_cons; [simplify_eq; left; set_solver|]. right. split; [|set_solver].
    rewrite List.Forall_forall in Hf. specialize (Hf k'). intros ->. enough (k1 < k1) by lia.
    apply Hf, in_map_iff. exists (k1, v'). split; [done|]. by apply list_elem_of_In.
  - intros [Heq|Hin]%elem_of_cons; [simplify_eq; right; set_solver|]. rewrite elem_of_cons. destruct (IH Hs Hin) as [(-> & v & ? & ->)|[]]; [left|right]; [|tauto].
    split; [done|]. exists v. rewrite elem_of_cons. tauto.
Qed.

Lemma om_update_find k f m : om_find k (om_update k f m) = f <$> om_find k m.
Proof.
  induction m as [|[k1 v1] m IH]; simpl; [done|].
  destruct (Z.eqb_spec k k1) as [->|]; simpl; [by rewrite Z.eqb_refl|]. by destruct (Z.eqb_spec k k1).
Qed.

Lemma om_update_find_ne k f m k' : k <> k' -> om_find k' (om_update k f m) = om_find k' m.
Proof.
  intros Hne. induction m as [|[k1 v1] m IH]; simpl; [done|].
  destruct (Z.eqb_spec k k1) as [->|]; simpl; [by destruct (Z.eqb_spec k' k1)|]. by rewrite IH.
Qed.
End ordered_map.

(** ** [EventLoop] *)

Record TimerEntry {CB : Type} := mkTimer {
  t_due_ms : Z;
  t_interval_ms : Z;  (* 0 == one-shot *)
  t_cb : CB;
  t_dead : bool }.
Arguments TimerEntry CB : clear implicits.
Arguments mkTimer {CB} _ _ _ _.

#[export] Instance eta_TimerEntry {CB} : Eta (TimerEntry CB) := fun t =>
  mkTimer (t_due_ms t) (t_interval_ms t) (t_cb t) (t_dead t).

Record WatchEntry {FB : Type} := mkWatch { w_fd : Z; w_events : Z; w_cb : FB; w_dead : bool }.
Arguments WatchEntry FB : clear implicits.
Arguments mkWatch {FB} _ _ _ _.

#[export] Instance eta_WatchEntry {FB} : Eta (WatchEntry FB) := fun w =>
  mkWatch (w_fd w) (w_events w) (w_cb w) (w_dead w).

Record EventLoop {CB FB : Type} := mkLoop {
  el_clock : Clock;
  el_watches : list (Z * WatchEntry FB);
  el_timers : list (Z * TimerEntry CB);
  el_next_watch : Z;
  el_next_timer : Z;
  el_stop : bool;
  el_dirty : bool }.
Arguments EventLoop CB FB : clear implicits.
Arguments mkLoop {CB FB} _ _ _ _ _ _ _.

#[export] Instance eta_EventLoop {CB FB} : Eta (EventLoop CB FB) := fun l =>
  mkLoop (el_clock l) (el_watches l) (el_timers l) (el_next_watch l) (el_next_timer l) (el_stop l) (el_dirty l).

Section operations.
Context {CB FB : Type}.
Implicit Types l : EventLoop CB FB.

Definition make_loop (c : Clock) : EventLoop CB FB := mkLoop c [] [] 1 1 false false.

Definition loop_now l : Z := now_ms (el_clock l).

Definition add_fd (fd events : Z) (cb : FB) l : Z * EventLoop CB FB :=
  let id := el_next_watch l in
  (id, l <| el_next_watch := u64 (id + 1) |> <| el_watches ::= om_set id (mkWatch fd events cb false) |>).

Definition update_fd (id events : Z) l : EventLoop CB FB :=
  l <| el_watches ::= om_update id (fun w => w <| w_events := events |>) |>.

Definition remove_fd (id : Z) l : EventLoop CB FB :=
  match om_find id (el_watches l) with
  | None => l
  | Some _ => l <| el_watches ::= om_update id (fun w => w <| w_dead := true |>) |> <| el_dirty := true |>
  end.

Definition add_timer (delay_ms : Z) (cb : CB) l : Z * EventLoop CB FB :=
  let id := el_next_timer l in
  (id, l <| el_next_timer := u64 (id + 1) |>
         <| el_timers ::= om_set id (mkTimer (u32 (loop_now l + delay_ms)) 0 cb false) |>).

Definition add_repeating (interval_ms : Z) (cb : CB) l : Z * EventLoop CB FB :=
  let interval_ms := if interval_ms =? 0 then 1 else interval_ms in
  let id := el_next_timer l in
  (id, l <| el_next_timer := u64 (id + 1) |>
         <| el_timers ::= om_set id (mkTimer (u32 (loop_now l + interval_ms)) interval_ms cb false) |>).

Definition cancel_timer (id : Z) l : EventLoop CB FB :=
  match om_find id (el_timers l) with
  | None => l
  | Some _ => l <| el_timers ::= om_update id (fun t => t <| t_dead := true |>) |> <| el_dirty := true |>
  end.

Definition soonest_of (now : Z) (acc : option Z) (e : Z * TimerEntry CB) : option Z :=
  if t_dead e.2 then acc
  else
    let remaining := tdiff (t_due_ms e.2) now in
    match acc with
    | Some s => if remaining <? s then Some remaining else acc
    | None => Some remaining
    end.

Definition next_due_ms l : option Z := fold_left (soonest_of (loop_now l)) (el_timers l) None.

Definition next_timeout_ms l : Z :=
  match next_due_ms l with
  | None => -1
  | Some s => if s <? 0 then 0 else Z.min s 60000
  end.

Definition reap l : EventLoop CB FB :=
  if negb (el_dirty l) then l
  else
    l <| el_watches ::= List.filter (fun e => negb (w_dead e.2)) |>
      <| el_timers ::= List.filter (fun e => negb (t_dead e.2)) |>
      <| el_dirty := false |>.

Definition stop l : EventLoop CB FB := l <| el_stop := true |>.

Definition set_clock (ms : Z) l : EventLoop CB FB := l <| el_clock ::= set_now_ms ms |>.
End operations.

(** [EventLoop::Registration]: the loop is implicit, a null [loop_] is an inert handle. *)
Inductive Kind := Fd | Timer.
Definition Registration := option Z.

Definition registration_reset {CB FB} (k : Kind) (r : Registration) (l : EventLoop CB FB) :
    Registration * EventLoop CB FB :=
  match r with
  | None => (None, l)
  | Some id => (None, match k with Fd => remove_fd id l | Timer => cancel_timer id l end)
  end.

(** Move assignment: what the target held is deregistered first. *)
Definition registration_move {CB FB} (k : Kind) (this other : Registration) (l : EventLoop CB FB) :
    Registration * Registration * EventLoop CB FB :=
  let '(_, l) := registration_reset k this l in (other, None, l).

(** ** Dispatch *)

Record World {CB FB U : Type} := mkWorld { w_loop : EventLoop CB FB; w_user : U }.
Arguments World CB FB U : clear implicits.
Arguments mkWorld {CB FB U} _ _.

#[export] Instance eta_World {CB FB U} : Eta (World CB FB U) := fun w => mkWorld (w_loop w) (w_user w).

(** One timer run: when, which, when it was due, its callback, and whether it was a one-shot. *)
Record Fire {CB : Type} := mkFire { f_at : Z; f_id : Z; f_due : Z; f_cb : CB; f_one_shot : bool }.
Arguments Fire CB : clear implicits.
Arguments mkFire {CB} _ _ _ _ _.

(** What [poll] reported: the [revents] of each descriptor it was given, or an error. *)
Inductive PollResult := PollReady (revents : list Z) | PollInterrupted | PollFailed.

(** What one pass of [run] meets outside the loop.  [pe_now] is the instant [poll] returns at. *)
Record PassEnv := mkPassEnv {
  pe_interrupted : bool;
  pe_poll : list (Z * Z) -> Z -> PollResult;
  pe_now : Z;
  pe_interrupted_again : bool }.

Section dispatch.
Context {CB FB U : Type} (run_cb : CB -> World CB FB U -> World CB FB U).
Context (run_fd : FB -> Z -> World CB FB U -> World CB FB U).
Implicit Types w : World CB FB U.

(** [reap()] as the dispatch loops call it. *)
Definition reaped w : World CB FB U := mkWorld (reap (w_loop w)) (w_user w).

Definition due_ids (now : Z) (ts : list (Z * TimerEntry CB)) : list Z :=
  map fst (List.filter (fun e => negb (t_dead e.2) && (tdiff (t_due_ms e.2) now <=? 0)) ts).

(** The body of [run_due_timers]' second loop. *)
Definition fire (now id : Z) w : World CB FB U * list (Fire CB) :=
  match om_find id (el_timers (w_loop w)) with
  | None => (w, [])
  | Some t =>
      if t_dead t then (w, [])
      else
        let fired := [mkFire now id (t_due_ms t) (t_cb t) (t_interval_ms t =? 0)] in
        if 0 <? t_interval_ms t then
          let rescheduled := fun t : TimerEntry CB => t <| t_due_ms := u32 (now + t_interval_ms t) |> in
          (run_cb (t_cb t) (w <| w_loop ::= fun l => l <| el_timers ::= om_update id rescheduled |> |>), fired)
        else
          (run_cb (t_cb t)
             (w <| w_loop ::= fun l =>
                  l <| el_timers ::= om_update id (fun t => t <| t_dead := true |>) |> <| el_dirty := true |> |>),
           fired)
  end.

Fixpoint fire_all (now : Z) (ids : list Z) w : World CB FB U * list (Fire CB) :=
  match ids with
  | [] => (w, [])
  | id :: ids =>
      let '(w, f1) := fire now id w in
      let '(w, f2) := fire_all now ids w in (w, f1 ++ f2)
  end.

Definition run_due_timers w : World CB FB U * list (Fire CB) :=
  let now := loop_now (w_loop w) in
  fire_all now (due_ids now (el_timers (w_loop w))) w.

(** The loop of [advance]; [None] when the fuel ran out. *)
Fixpoint advance_loop (fuel : nat) (target : Z) w : option (World CB FB U * list (Fire CB)) :=
  match fuel with
  | O => None
  | S fuel =>
      if el_stop (w_loop w) then Some (w, [])
      else
        let w := reaped w in
        let remaining := tdiff target (loop_now (w_loop w)) in
        if remaining <=? 0 then Some (w, [])
        else
          match next_due_ms (w_loop w) with
          | None => Some (w, [])
          | Some due =>
              if remaining <? due then Some (w, [])
              else
                let w := if 0 <? due then w <| w_loop ::= set_clock (u32 (loop_now (w_loop w) + due)) |> else w in
                let '(w, fired) := run_due_timers w in
                match advance_loop fuel target w with
                | Some (w, more) => Some (w, fired ++ more)
                | None => None
                end
          end
  end.

Definition advance (fuel : nat) (ms : Z) w : option (World CB FB U * list (Fire CB)) :=
  if negb (is_virtual (el_clock (w_loop w))) then Some (w, [])
  else
    let target := u32 (loop_now (w_loop w) + ms) in
    match advance_loop fuel target (w <| w_loop ::= fun l => l <| el_stop := false |> |>) with
    | None => None
    | Some (w, fired) =>
        Some (if negb (el_stop (w_loop w)) && (0 <? tdiff target (loop_now (w_loop w)))
              then w <| w_loop ::= set_clock target |> else w, fired)
    end.

(** The descriptors handed to [poll], with the watch each belongs to. *)
Definition poll_set (ws : list (Z * WatchEntry FB)) : list (Z * (Z * Z)) :=
  map (fun e => (e.1, (w_fd e.2, w_events e.2)))
      (List.filter (fun e => negb (w_dead e.2 || (w_fd e.2 <? 0))) ws).

(** The descriptor loop of [run]: [n] ready descriptors are left to be found.  The watches
    whose callback ran are returned. *)
Fixpoint dispatch_fds (ids : list Z) (revents : list Z) (n : Z) w : World CB FB U * Z * list Z :=
  match ids, revents with
  | id :: ids, ev :: revents =>
      if negb (0 <? n) then (w, n, [])
      else if ev =? 0 then dispatch_fds ids revents n w
      else
        let n := n - 1 in
        match om_find id (el_watches (w_loop w)) with
        | None => dispatch_fds ids revents n w
        | Some e =>
            if w_dead e then dispatch_fds ids revents n w
            else
              let w := run_fd (w_cb e) ev w in
              if el_stop (w_loop w) then (w, n, [id])
              else let '(w, n, ran) := dispatch_fds ids revents n w in (w, n, id :: ran)
        end
  | _, _ => (w, n, [])
  end.

(** [poll] returns the number of descriptors with a non-zero [revents]. *)
Definition ready_count (revents : list Z) : Z := zlen (List.filter (fun ev => negb (ev =? 0)) revents).

(** The rest of a pass once [poll] reported [revents]. *)
Definition after_poll (virtual_time : bool) (ids : list Z) (revents : list Z) w : World CB FB U * bool * list (Fire CB) :=
  let '(w, n, _) := dispatch_fds ids revents (ready_count revents) w in
  let w :=
    if negb (el_stop (w_loop w)) && virtual_time && (n =? 0) then
      match next_due_ms (w_loop w) with
      | Some due => if 0 <? due then w <| w_loop ::= set_clock (u32 (loop_now (w_loop w) + due)) |> else w
      | None => w
      end
    else w in
  if el_stop (w_loop w) then (w, true, [])
  else let '(w, fired) := run_due_timers w in (w, true, fired).

(** One pass of [run]'s loop; [true] when the loop goes on. *)
Definition run_pass (e : PassEnv) w : World CB FB U * bool * list (Fire CB) :=
  if pe_interrupted e then (w, false, [])
  else
    let w := reaped w in
    let ps := poll_set (el_watches (w_loop w)) in
    let timeout := next_timeout_ms (w_loop w) in
    match ps, timeout <? 0 with
    | [], true => (w, false, [])
    | _, _ =>
        let virtual_time := is_virtual (el_clock (w_loop w)) in
        let wait_ms := if virtual_time && (0 <=? timeout) then 0 else timeout in
        let result := pe_poll e (map snd ps) wait_ms in
        let w := if virtual_time then w else w <| w_loop ::= fun l => l <| el_clock ::= fun c => c <| ck_now := pe_now e |> |> |> in
        match result with
        | PollInterrupted => (w, negb (pe_interrupted_again e), [])
        | PollFailed => (w, false, [])
        | PollReady revents => after_poll virtual_time (map fst ps) revents w
        end
    end.

(** [run] over the passes an environment offers; [true] when it returned by itself. *)
Fixpoint run_loop (es : list PassEnv) w : World CB FB U * bool * list (Fire CB) :=
  if el_stop (w_loop w) then (w, true, [])
  else
    match es with
    | [] => (w, false, [])
    | e :: es =>
        let '(w, again, f1) := run_pass e w in
        if again then let '(w, returned, f2) := run_loop es w in (w, returned, f1 ++ f2)
        else (w, true, f1)
    end.

Definition run (es : list PassEnv) w : World CB FB U * bool * list (Fire CB) :=
  run_loop es (w <| w_loop ::= fun l => l <| el_stop := false |> |>).
End dispatch.

(** ** What a callback may do

    Through a reference to the loop it arms and cancels timers, changes watches, stops the
    loop; it also changes the program's own state, and while it runs a real clock moves.
    [lo] is the shortest delay it arms a one-shot timer with. *)

Section client.
Context {CB FB U : Type}.

Inductive call (lo : Z) : World CB FB U -> World CB FB U -> Prop :=
| call_add_timer d cb l u :
    lo <= d < 2 ^ 31 -> el_next_timer l < 2 ^ 64 - 1 ->
    call lo (mkWorld l u) (mkWorld (add_timer d cb l).2 u)
| call_add_repeating i cb l u :
    0 <= i < 2 ^ 31 -> el_next_timer l < 2 ^ 64 - 1 ->
    call lo (mkWorld l u) (mkWorld (add_repeating i cb l).2 u)
| call_cancel_timer id l u : call lo (mkWorld l u) (mkWorld (cancel_timer id l) u)
| call_add_fd fd events cb l u : call lo (mkWorld l u) (mkWorld (add_fd fd events cb l).2 u)
| call_update_fd id events l u : call lo (mkWorld l u) (mkWorld (update_fd id events l) u)
| call_remove_fd id l u : call lo (mkWorld l u) (mkWorld (remove_fd id l) u)
| call_stop l u : call lo (mkWorld l u) (mkWorld (stop l) u)
| call_user l u u' : call lo (mkWorld l u) (mkWorld l u')
| call_tick t l u :
    is_virtual (el_clock l) = false -> is_u32 t ->
    call lo (mkWorld l u) (mkWorld (l <| el_clock ::= fun c => c <| ck_now := t |> |>) u).

Class Client (lo : Z) (run_cb : CB -> World CB FB U -> World CB FB U)
    (run_fd : FB -> Z -> World CB FB U -> World CB FB U) : Prop := {
  cb_calls cb w : rtc (call lo) w (run_cb cb w);
  fd_calls cb ev w : rtc (call lo) w (run_fd cb ev w) }.

(** What holds of every call holds of a callback. *)
Lemma calls_keep lo (P : World CB FB U -> Prop) :
  (forall w w', call lo w w' -> P w -> P w') -> forall w w', rtc (call lo) w w' -> P w -> P w'.
Proof. intros H w w'. induction 1; eauto. Qed.

(** ** The loop's invariant *)

Record loop_ok (l : EventLoop CB FB) : Prop := {
  ok_ordered : om_ordered (el_timers l);
  ok_fresh : Forall (fun e => e.1 < el_next_timer l) (el_timers l);
  ok_times : Forall (fun e => is_u32 (t_due_ms e.2) /\ 0 <= t_interval_ms e.2 < 2 ^ 31) (el_timers l);
  ok_now : is_u32 (loop_now l);
  ok_next : 0 <= el_next_timer l }.

Lemma make_loop_ok c : is_u32 (ck_now c) -> loop_ok (make_loop (CB := CB) (FB := FB) c).
Proof. intros Hc. split; [constructor|constructor|constructor|exact Hc|done]. Qed.

Lemma Forall_om_set {V} (P : Z * V -> Prop) k v m : P (k, v) -> Forall P m -> Forall P (om_set k v m).
Proof.
  rewrite !Forall_forall. intros Hk Hm [k' v'] Hin. rewrite <- list_elem_of_In in Hin.
  apply om_set_elem in Hin as [->|Hin]; [done|]. apply Hm. by apply list_elem_of_In.
Qed.

Lemma Forall_om_update {V} (P : Z * V -> Prop) k f m :
  (forall v, P (k, v) -> P (k, f v)) -> Forall P m -> Forall P (om_update k f m).
Proof.
  intros Hf. induction 1 as [|[k' v] m Hk Hm IH]; simpl; [constructor|].
  destruct (Z.eqb_spec k k') as [<-|]; constructor; auto.
Qed.

Lemma om_filter_ordered {V} (p : Z * V -> bool) m : om_ordered m -> om_ordered (List.filter p m).
Proof.
  unfold om_ordered. induction m as [|e m IH]; simpl; [done|]. intros [Hs Hf]%StronglySorted_inv.
  destruct (p e); simpl; [|auto]. constructor; [auto|].
  rewrite Forall_forall in *. intros x (y & <- & [Hy _]%filter_In)%in_map_iff. apply Hf, in_map_iff. eauto.
Qed.

Lemma Forall_List_filter {A} (P : A -> Prop) (p : A -> bool) m : Forall P m -> Forall P (List.filter p m).
Proof. rewrite !Forall_forall. intros H x [Hx _]%filter_In. auto. Qed.

(** Replacing one timer, keeping its identifier. *)
Lemma update_timer_ok id f l :
  (forall t, is_u32 (t_due_ms t) -> 0 <= t_interval_ms t < 2 ^ 31 ->
     is_u32 (t_due_ms (f t)) /\ t_interval_ms (f t) = t_interval_ms t) ->
  loop_ok l -> loop_ok (l <| el_timers ::= om_update id f |>).
Proof.
  intros Hf [Ho Hr Ht Hn Hx]. split; cbn in *; [unfold om_ordered in *; by rewrite om_update_keys| | |done..].
  - apply Forall_om_update; auto.
  - apply Forall_om_update; [|done]. cbn. intros v [H1 H2]. destruct (Hf v H1 H2) as [? ->]. done.
Qed.

Lemma kill_ok id l : loop_ok l -> loop_ok (l <| el_timers ::= om_update id (fun t => t <| t_dead := true |>) |>).
Proof. apply update_timer_ok. done. Qed.

Lemma rescheduled_ok id now l :
  loop_ok l -> loop_ok (l <| el_timers ::= om_update id (fun t => t <| t_due_ms := u32 (now + t_interval_ms t) |>) |>).
Proof. apply update_timer_ok. split; [apply u32_range|done]. Qed.

(** Members the invariant does not read. *)
Lemma same_timers_ok (l l' : EventLoop CB FB) :
  el_timers l' = el_timers l -> el_next_timer l' = el_next_timer l -> loop_now l' = loop_now l ->
  loop_ok l -> loop_ok l'.
Proof. intros H1 H2 H3 [Ho Hr Ht Hn Hx]. split; rewrite ?H1, ?H2, ?H3; done. Qed.

Lemma arm_ok (t : TimerEntry CB) l :
  is_u32 (t_due_ms t) -> 0 <= t_interval_ms t < 2 ^ 31 -> el_next_timer l < 2 ^ 64 - 1 -> loop_ok l ->
  loop_ok (l <| el_next_timer := u64 (el_next_timer l + 1) |> <| el_timers ::= om_set (el_next_timer l) t |>).
Proof.
  intros Hd Hi Hmax [Ho Hr Ht Hn Hpos].
  assert (u64 (el_next_timer l + 1) = el_next_timer l + 1) as Hnext by (apply Z.mod_small; lia).
  split; cbn in *; [by apply om_set_ordered| | |done|lia].
  - apply Forall_om_set; cbn; [lia|]. eapply Forall_impl; [|exact Hr]. cbn. lia.
  - by apply Forall_om_set.
Qed.

Lemma call_ok lo (w w' : World CB FB U) : 0 <= lo -> call lo w w' -> loop_ok (w_loop w) -> loop_ok (w_loop w').
Proof.
  intros Hlo Hc Hok. destruct Hc; cbn [w_loop] in *.
  - apply arm_ok; cbn; [apply u32_range|lia|done..].
  - apply arm_ok; cbn; [apply u32_range|destruct (i =? 0); lia|done..].
  - unfold cancel_timer. case_match; [|done]. eapply same_timers_ok; [..|apply (kill_ok id), Hok]; done.
  - by apply (same_timers_ok l).
  - by apply (same_timers_ok l).
  - unfold remove_fd. case_match; [|done]. by apply (same_timers_ok l).
  - by apply (same_timers_ok l).
  - done.
  - destruct Hok. by split.
Qed.

Lemma call_virtual lo (w w' : World CB FB U) :
  call lo w w' -> is_virtual (el_clock (w_loop w)) = true ->
  is_virtual (el_clock (w_loop w')) = true /\ loop_now (w_loop w') = loop_now (w_loop w).
Proof.
  intros Hc Hv. destruct Hc; cbn [w_loop] in *; try by split.
  - unfold cancel_timer. by case_match.
  - unfold remove_fd. by case_match.
  - congruence.
Qed.

(** Where the timers after a call come from. *)
Lemma call_timers lo (w w' : World CB FB U) id t :
  call lo w w' -> loop_ok (w_loop w) -> (id, t) ∈ el_timers (w_loop w') -> t_dead t = false ->
  (id, t) ∈ el_timers (w_loop w) \/
  id = el_next_timer (w_loop w) /\ exists d, Z.min lo 1 <= d < 2 ^ 31 /\ t_due_ms t = u32 (loop_now (w_loop w) + d).
Proof.
  intros Hc Hok Hin Hlive. destruct Hc; cbn [w_loop] in *; try by left.
  - apply om_set_elem in Hin as [Heq|]; [right|by left]. simplify_eq. split; [done|]. exists d. split; [lia|done].
  - apply om_set_elem in Hin as [Heq|]; [right|by left]. simplify_eq. split; [done|]. cbn.
    exists (if i =? 0 then 1 else i). split; [destruct (Z.eqb_spec i 0); lia|done].
  - unfold cancel_timer in Hin. case_match; [|by left]. cbn in Hin.
    apply om_update_elem in Hin as [(-> & v & _ & ->)|[_ ?]]; [done|by left|apply Hok].
  - left. unfold remove_fd in Hin. by case_match.
Qed.

Lemma call_next lo (w w' : World CB FB U) :
  0 <= el_next_timer (w_loop w) ->
  call lo w w' -> el_next_timer (w_loop w) <= el_next_timer (w_loop w').
Proof.
  intros Hpos Hc. destruct Hc; cbn [w_loop] in *; try done.
  - cbn. unfold u64. rewrite Z.mod_small; lia.
  - cbn. unfold u64. rewrite Z.mod_small; lia.
  - unfold cancel_timer. by case_match.
  - unfold remove_fd. by case_match.
Qed.
End client.

(** A wrapped difference follows the clock as long as it stays within range. *)
Lemma tdiff_move a n k :
  - 2 ^ 31 <= tdiff a n - k < 2 ^ 31 -> tdiff a (u32 (n + k)) = tdiff a n - k.
Proof. unfold tdiff. width. Qed.

Lemma tdiff_zero a b : is_u32 a -> is_u32 b -> tdiff a b = 0 -> a = b.
Proof. unfold tdiff. width. Qed.

Section armed.
Context {CB FB U : Type}.
Implicit Types w : World CB FB U.

Definition live_timer w (id : Z) (t : TimerEntry CB) : Prop :=
  (id, t) ∈ el_timers (w_loop w) /\ t_dead t = false.

(** Every timer that could run lies in the future. *)
Definition quiet w : Prop := forall id t, live_timer w id t -> 0 < tdiff (t_due_ms t) (loop_now (w_loop w)).

Lemma fold_soonest now (ts : list (Z * TimerEntry CB)) : forall acc,
  match fold_left (soonest_of now) ts acc with
  | None => acc = None /\ forall id t, (id, t) ∈ ts -> t_dead t = true
  | Some d =>
      (acc = Some d \/ exists id t, (id, t) ∈ ts /\ t_dead t = false /\ tdiff (t_due_ms t) now = d) /\
      (forall a, acc = Some a -> d <= a) /\
      (forall id t, (id, t) ∈ ts -> t_dead t = false -> d <= tdiff (t_due_ms t) now)
  end.
Proof.
  induction ts as [|[id t] ts IH]; intros acc; simpl.
  - destruct acc; [|set_solver]. split; [by left|]. split; [intros; simplify_eq; lia|set_solver].
  - specialize (IH (soonest_of now acc (id, t))).
    remember (soonest_of now acc (id, t)) as acc' eqn:Ha. unfold soonest_of in Ha. cbn in Ha.
    destruct (fold_left _ ts acc') as [d|]; destruct (t_dead t) eqn:Hd; subst acc'.
    + destruct IH as (H1 & H2 & H3). split; [|split; [done|]].
      * destruct H1 as [?|(i' & t' & ? & ?)]; [by left|right]. exists i', t'. split; [by right|done].
      * intros id' t' [?|?]%elem_of_cons ?; [simplify_eq; congruence|by eapply H3].
    + destruct IH as (H1 & H2 & H3).
      assert (d <= tdiff (t_due_ms t) now).
      { destruct acc as [a|]; [destruct (Z.ltb_spec (tdiff (t_due_ms t) now) a)|]; specialize (H2 _ eq_refl); lia. }
      split; [|split].
      * destruct H1 as [H1|(i' & t' & ? & ?)]; [|right; exists i', t'; split; [by right|done]].
        destruct acc as [a|]; [destruct (Z.ltb_spec (tdiff (t_due_ms t) now) a)|]; simplify_eq; [right|by left|right];
          exists id, t; (split; [by left|done]).
      * intros a ->. destruct (Z.ltb_spec (tdiff (t_due_ms t) now) a); specialize (H2 _ eq_refl); lia.
      * intros id' t' [?|?]%elem_of_cons ?; simplify_eq; eauto.
    + destruct IH as [-> IH]. split; [done|]. intros id' t' [?|?]%elem_of_cons; simplify_eq; eauto.
    + destruct IH as [IH _]. destruct acc; [|done]. by destruct (_ <? _).
Qed.

Lemma next_due_some w d :
  next_due_ms (w_loop w) = Some d ->
  (exists id t, live_timer w id t /\ tdiff (t_due_ms t) (loop_now (w_loop w)) = d) /\
  (forall id t, live_timer w id t -> d <= tdiff (t_due_ms t) (loop_now (w_loop w))).
Proof.
  unfold next_due_ms. intros Hd. pose proof (fold_soonest (loop_now (w_loop w)) (el_timers (w_loop w)) None) as Hs.
  rewrite Hd in Hs. destruct Hs as ([?|(id & t & ? & ? & ?)] & _ & H3); [done|]. split.
  - exists id, t. done.
  - intros id' t' []. eauto.
Qed.

Lemma next_due_none w : next_due_ms (w_loop w) = None -> forall id t, ~ live_timer w id t.
Proof.
  unfold next_due_ms. intros Hd id t [Hin Hl].
  pose proof (fold_soonest (loop_now (w_loop w)) (el_timers (w_loop w)) None) as Hs.
  rewrite Hd in Hs. destruct Hs as [_ Hs]. rewrite (Hs _ _ Hin) in Hl. done.
Qed.

(** [poll] never sleeps past a timer that is armed, nor longer than a minute. *)
Lemma next_timeout_bounds w :
  -1 <= next_timeout_ms (w_loop w) <= 60000 /\
  (next_timeout_ms (w_loop w) = -1 -> forall id t, ~ live_timer w id t) /\
  (forall id t, live_timer w id t ->
     next_timeout_ms (w_loop w) <= Z.max 0 (tdiff (t_due_ms t) (loop_now (w_loop w)))).
Proof.
  unfold next_timeout_ms. destruct (next_due_ms (w_loop w)) as [d|] eqn:Hd.
  - apply next_due_some in Hd as [_ Hmin]. destruct (Z.ltb_spec d 0); repeat split; try lia.
    + intros id t Hl%Hmin. lia.
  - pose proof (next_due_none w Hd) as Hn. split; [lia|]. split; [done|]. intros id t []%Hn.
Qed.

Lemma reap_ok l : loop_ok l -> loop_ok (reap (CB := CB) (FB := FB) l).
Proof.
  intros [Ho Hf Ht Hn Hx]. unfold reap. destruct (el_dirty l); cbn; [|done].
  split; cbn; [by apply om_filter_ordered|by apply Forall_List_filter..|done|done].
Qed.

Lemma reap_clock (l : EventLoop CB FB) : el_clock (reap l) = el_clock l /\ el_stop (reap l) = el_stop l
  /\ el_next_timer (reap l) = el_next_timer l.
Proof. unfold reap. by destruct (el_dirty l). Qed.

Lemma reap_live w id t : live_timer (reaped w) id t <-> live_timer w id t.
Proof.
  unfold live_timer. cbn. unfold reap. destruct (el_dirty (w_loop w)); cbn; [|done].
  rewrite !list_elem_of_In, filter_In. cbn. split; [naive_solver|]. intros [Hin ->]. done.
Qed.

Lemma set_clock_virtual ms (l : EventLoop CB FB) :
  is_virtual (el_clock l) = true -> loop_now (set_clock ms l) = ms /\ is_virtual (el_clock (set_clock ms l)) = true.
Proof.
  unfold set_clock, loop_now, now_ms, is_virtual, set_now_ms. destruct l as [[v n] ws ts nw nt st di]. cbn.
  intros ->. done.
Qed.

Lemma set_clock_ok ms (l : EventLoop CB FB) : is_u32 ms -> loop_ok l -> loop_ok (set_clock ms l).
Proof.
  intros Hms [Ho Hf Ht Hn Hx]. split; try done.
  revert Hn. unfold set_clock, loop_now, now_ms, set_now_ms. destruct l as [[v n] ws ts nw nt st di]. cbn.
  by destruct v.
Qed.

End armed.

Section dispatch_facts.
Context {CB FB U : Type} {lo : Z} (run_cb : CB -> World CB FB U -> World CB FB U).
Context (run_fd : FB -> Z -> World CB FB U -> World CB FB U).
Context `{!Client lo run_cb run_fd}.
Hypothesis Hlo : 0 <= lo.
Implicit Types w : World CB FB U.

(** In the middle of [run_due_timers]: the timers [ids] are still to be run and their due
    times satisfy [Q]; every other one lies in the future. *)
Record firing (now : Z) (Q : Z -> Prop) (ids : list Z) w : Prop := {
  fi_virtual : is_virtual (el_clock (w_loop w)) = true;
  fi_now : loop_now (w_loop w) = now;
  fi_ok : loop_ok (w_loop w);
  fi_known : Forall (fun id => id < el_next_timer (w_loop w)) ids;
  fi_due id t : id ∈ ids -> live_timer w id t -> Q (t_due_ms t);
  fi_rest id t : live_timer w id t -> id ∈ ids \/ 0 < tdiff (t_due_ms t) now }.

Lemma call_firing now Q ids w w' : 1 <= lo -> call lo w w' -> firing now Q ids w -> firing now Q ids w'.
Proof.
  intros H1 Hc [Hv Hn Hok Hk Hd Hr]. destruct (call_virtual lo w w' Hc Hv) as [Hv' Hn'].
  pose proof (call_next lo w w' (ok_next _ Hok) Hc) as Hnext.
  split; [done|congruence|by eapply call_ok|eapply Forall_impl; [|exact Hk]; cbn; lia| |].
  - intros id t Hid [Hin Hlive]. destruct (call_timers lo w w' id t Hc Hok Hin Hlive) as [Hold|[-> _]].
    + by apply (Hd id).
    + rewrite Forall_forall in Hk. rewrite list_elem_of_In in Hid. specialize (Hk _ Hid). cbn in Hk. lia.
  - intros id t [Hin Hlive]. destruct (call_timers lo w w' id t Hc Hok Hin Hlive) as [Hold|(_ & d & Hd' & ->)].
    + by apply Hr.
    + right. rewrite Hn. rewrite tdiff_future; lia.
Qed.

Lemma cb_firing now Q ids cb w : 1 <= lo -> firing now Q ids w -> firing now Q ids (run_cb cb w).
Proof. intros H1. apply (calls_keep lo); [intros ???; by apply call_firing|apply cb_calls]. Qed.

(** A timer that is gone or dead has nothing left to run. *)
Lemma firing_skip now Q id ids w :
  (forall t, om_find id (el_timers (w_loop w)) = Some t -> t_dead t = true) ->
  firing now Q (id :: ids) w -> firing now Q ids w.
Proof.
  intros Hgone [Hv Hn Hok Hk Hd Hr]. split; try done; [by apply Forall_cons_iff in Hk as [_ ?]|set_solver|].
  intros id' t' Hl. destruct (Hr id' t' Hl) as [[->|?]%elem_of_cons|?]; [|by left|by right].
  destruct Hl as [Hin Hlive]. apply om_elem_find, Hgone in Hin; [congruence|apply Hok].
Qed.

(** The timer being run is rescheduled or marked dead before its callback runs. *)
Lemma firing_update now Q id ids w t (f : TimerEntry CB -> TimerEntry CB) dirty :
  om_find id (el_timers (w_loop w)) = Some t -> (id ∉ ids) ->
  (forall t, is_u32 (t_due_ms t) -> 0 <= t_interval_ms t < 2 ^ 31 ->
     is_u32 (t_due_ms (f t)) /\ t_interval_ms (f t) = t_interval_ms t) ->
  t_dead (f t) = true \/ 0 < tdiff (t_due_ms (f t)) now ->
  firing now Q (id :: ids) w ->
  firing now Q ids (mkWorld ((w_loop w) <| el_timers ::= om_update id f |> <| el_dirty := dirty |>) (w_user w)).
Proof.
  intros Hfind Hni Hfok Hout [Hv Hn Hok Hk Hd Hr]. pose proof (ok_ordered _ Hok) as Hord.
  pose proof (update_timer_ok id f _ Hfok Hok) as Hok'.
  split; cbn; [done|done|refine (same_timers_ok _ _ _ _ _ Hok'); done|by apply Forall_cons_iff in Hk as [_ ?]| |].
  - intros id' t' Hid [Hin Hlive]. cbn in Hin. apply om_update_elem in Hin as [(-> & _)|[Hne Hin]]; [done| |done].
    apply (Hd id'); [by apply elem_of_cons; right|done].
  - intros id' t' [Hin Hlive]. cbn in Hin. apply om_update_elem in Hin as [(-> & v & Hv' & ->)|[Hne Hin]]; [| |done].
    + right. rewrite (om_elem_find _ _ _ Hord Hv') in Hfind. simplify_eq. destruct Hout; [congruence|done].
    + destruct (Hr id' t') as [?|?]; [done| |by right]. left. by apply elem_of_cons in H as [?|?].
Qed.

Lemma fire_firing now Q id ids w w' fs :
  1 <= lo -> (id ∉ ids) -> firing now Q (id :: ids) w -> fire run_cb now id w = (w', fs) ->
  firing now Q ids w' /\ Forall (fun f => f_at f = now /\ Q (f_due f) /\ is_u32 (f_due f)) fs.
Proof.
  intros H1 Hni Hfi Hf. unfold fire in Hf.
  destruct (om_find id (el_timers (w_loop w))) as [t|] eqn:Hfind; [destruct (t_dead t) eqn:Hdead|].
  - simplify_eq. split; [|constructor]. apply (firing_skip _ _ id); [|done]. congruence.
  - apply om_find_elem in Hfind as Hin.
    assert (Q (t_due_ms t)) as HQ by (eapply (fi_due _ _ _ _ Hfi id); [set_solver|done]).
    assert (is_u32 (t_due_ms t) /\ 0 <= t_interval_ms t < 2 ^ 31) as [Hu Hi].
    { pose proof (ok_times _ (fi_ok _ _ _ _ Hfi)) as Ht. rewrite Forall_forall in Ht.
      rewrite list_elem_of_In in Hin. by apply Ht in Hin. }
    destruct (Z.ltb_spec 0 (t_interval_ms t)); simplify_eq; (split; [|by each]);
      apply cb_firing; try done.
    + eapply (firing_update now Q id ids w t (fun t => t <| t_due_ms := u32 (now + t_interval_ms t) |>)
        (el_dirty (w_loop w))); try done; cbn; [split; [apply u32_range|done]|].
      right. rewrite tdiff_future; lia.
    + eapply (firing_update now Q id ids w t (fun t => t <| t_dead := true |>) true); try done. by left.
  - simplify_eq. split; [|constructor]. apply (firing_skip _ _ id); [|done]. congruence.
Qed.

Lemma fire_all_firing now Q ids : forall w w' fs,
  1 <= lo -> NoDup ids -> firing now Q ids w -> fire_all run_cb now ids w = (w', fs) ->
  firing now Q [] w' /\ Forall (fun f => f_at f = now /\ Q (f_due f) /\ is_u32 (f_due f)) fs.
Proof.
  induction ids as [|id ids IH]; intros w w' fs H1 Hnd Hfi Hf; cbn in Hf; [simplify_eq; by split; [|constructor]|].
  apply list.NoDup_cons in Hnd as [Hni Hnd].
  destruct (fire run_cb now id w) as [w1 f1] eqn:Hf1. destruct (fire_all run_cb now ids w1) as [w2 f2] eqn:Hf2.
  destruct (fire_firing now Q id ids w w1 f1 H1 Hni Hfi Hf1) as [Hfi1 HF1].
  destruct (IH w1 w2 f2 H1 Hnd Hfi1 Hf2) as [Hfi2 HF2]. simplify_eq. split; [done|]. by apply Forall_app.
Qed.

Lemma due_ids_elem now (ts : list (Z * TimerEntry CB)) id :
  id ∈ due_ids now ts <-> exists t, (id, t) ∈ ts /\ t_dead t = false /\ tdiff (t_due_ms t) now <= 0.
Proof.
  unfold due_ids. rewrite list_elem_of_In, in_map_iff. split.
  - intros ([id' t] & <- & [Hin Hp]%filter_In). cbn in *. exists t. rewrite list_elem_of_In.
    apply andb_true_iff in Hp as [Hd%negb_true_iff Ht%Z.leb_le]. done.
  - intros (t & Hin & Hd & Ht). exists (id, t). split; [done|]. rewrite list_elem_of_In in Hin.
    apply filter_In. split; [done|]. cbn. rewrite Hd. by apply Z.leb_le.
Qed.

Lemma due_ids_NoDup now ts : om_ordered ts -> NoDup (due_ids (CB := CB) now ts).
Proof.
  intros Ho. unfold due_ids. apply NoDup_ListNoDup.
  apply (om_filter_ordered (fun e => negb (t_dead e.2) && (tdiff (t_due_ms e.2) now <=? 0))) in Ho.
  unfold om_ordered in Ho. induction Ho as [|x l _ IH Hf]; constructor; [|done].
  rewrite Forall_forall in Hf. intros Hx%Hf. lia.
Qed.

(** Running what is due leaves only timers that lie in the future, and what ran was due. *)
Lemma run_due_firing w w' fs (exact := forall id t, live_timer w id t -> 0 <= tdiff (t_due_ms t) (loop_now (w_loop w))) :
  1 <= lo -> is_virtual (el_clock (w_loop w)) = true -> loop_ok (w_loop w) -> run_due_timers run_cb w = (w', fs) ->
  firing (loop_now (w_loop w)) (fun _ => True) [] w' /\
  Forall (fun f => f_at f = loop_now (w_loop w) /\ tdiff (f_due f) (loop_now (w_loop w)) <= 0 /\ is_u32 (f_due f)
                   /\ (exact -> f_due f = f_at f)) fs.
Proof.
  intros H1 Hv Hok Hr. unfold run_due_timers in Hr. set (now := loop_now (w_loop w)) in *.
  pose (Q := fun d => tdiff d now <= 0 /\ (exact -> 0 <= tdiff d now)).
  assert (firing now Q (due_ids now (el_timers (w_loop w))) w) as Hfi.
  { split; try done.
    - apply Forall_forall. intros id Hid. rewrite <- list_elem_of_In in Hid.
      apply due_ids_elem in Hid as (t & Hin & _). pose proof (ok_fresh _ Hok) as Hfr. rewrite Forall_forall in Hfr.
      rewrite list_elem_of_In in Hin. by apply Hfr in Hin.
    - intros id t Hid [Hin Hlive]. apply due_ids_elem in Hid as (t' & Hin' & _ & Ht').
      apply om_elem_find in Hin, Hin'; [|apply Hok..]. simplify_eq. split; [done|].
      intros He. apply (He id). split; [by apply om_find_elem|done].
    - intros id t [Hin Hlive]. destruct (Z.le_gt_cases (tdiff (t_due_ms t) now) 0); [left|by right].
      apply due_ids_elem. eauto. }
  destruct (fire_all_firing now Q _ w w' fs H1 (due_ids_NoDup _ _ (ok_ordered _ Hok)) Hfi Hr) as [Hfi' HF].
  split.
  - destruct Hfi'. by split.
  - eapply Forall_impl; [|exact HF]. cbn. intros f (Hat & [Hle Hge] & Hu). do 3 (split; [done|]).
    intros He. rewrite Hat. apply tdiff_zero; [done|apply Hok|]. specialize (Hge He). lia.
Qed.

(** A run of [advance]'s loop that began at instant [n] with [r] milliseconds to go: every
    timer ran when it was due, unless it was overdue from the start, in order of time. *)
Definition on_time (n : Z) (overdue : Prop) (f : Fire CB) : Prop :=
  f_due f = f_at f \/ overdue /\ f_at f = n /\ tdiff (f_due f) n <= 0.

Definition in_time_order (a b : Fire CB) : Prop := 0 <= tdiff (f_at b) (f_at a).

Record fires_ok (n r : Z) (overdue : Prop) (fs : list (Fire CB)) : Prop := {
  fo_on_time : Forall (on_time n overdue) fs;
  fo_within : Forall (fun f => 0 <= tdiff (f_at f) n <= r) fs;
  fo_order : StronglySorted in_time_order fs }.

Lemma fires_ok_nil n r o : fires_ok n r o [].
Proof. split; constructor. Qed.

(** The fires of one pass at instant [u32 (n + k)], followed by those of a quiet run from there. *)
Lemma fires_ok_app n k r (o : Prop) fs1 fs2 :
  0 <= k <= r -> r < 2 ^ 31 -> is_u32 n ->
  Forall (fun f => f_at f = u32 (n + k) /\ on_time n o f) fs1 ->
  fires_ok (u32 (n + k)) (r - k) False fs2 -> fires_ok n r o (fs1 ++ fs2).
Proof.
  intros Hk Hr Hn H1 [Ht Hw Ho]. rewrite Forall_forall in H1, Ht, Hw. split.
  - apply Forall_app. split; apply Forall_forall; intros f Hf.
    + by apply H1.
    + destruct (Ht f Hf) as [|[[] _]]. by left.
  - apply Forall_app. split; apply Forall_forall; intros f Hf.
    + destruct (H1 f Hf) as [-> _]. rewrite tdiff_future; lia.
    + specialize (Hw f Hf). cbn in Hw. revert Hw. unfold tdiff. width.
  - assert (StronglySorted in_time_order fs1 /\ forall a b, In a fs1 -> In b fs2 -> in_time_order a b) as [Hs Hab].
    { split.
      - clear -H1. induction fs1 as [|f fs1 IH]; constructor; [apply IH; intros g Hg; apply H1; by right|].
        apply Forall_forall. intros g Hg. unfold in_time_order.
        destruct (H1 f (or_introl eq_refl)) as [-> _]. destruct (H1 g (or_intror Hg)) as [-> _].
        by rewrite tdiff_refl.
      - intros a b Ha Hb. unfold in_time_order. destruct (H1 a Ha) as [-> _]. apply (Hw b Hb). }
    clear -Hs Hab Ho. induction Hs as [|f fs1 Hs IH Hf]; [done|]. cbn. constructor.
    + apply IH. intros. apply Hab; [by right|done].
    + apply Forall_app. split; [done|]. apply Forall_forall. intros g Hg. apply Hab; [by left|done].
Qed.

Lemma quiet_reap w : quiet (reaped w) <-> quiet w.
Proof.
  unfold quiet. setoid_rewrite reap_live. cbn. destruct (reap_clock (w_loop w)) as (Hc & _).
  unfold loop_now. by rewrite Hc.
Qed.

Lemma firing_quiet now Q w : firing now Q [] w -> quiet w.
Proof. intros Hf id t Hl. rewrite (fi_now _ _ _ _ Hf). destruct (fi_rest _ _ _ _ Hf id t Hl) as [H|]; [set_solver|done]. Qed.

(** The clock moves to the soonest timer and what is due there runs. *)
Lemma advance_pass w w1 fs due :
  1 <= lo -> is_virtual (el_clock (w_loop w)) = true -> loop_ok (w_loop w) ->
  next_due_ms (w_loop w) = Some due -> due < 2 ^ 31 ->
  run_due_timers run_cb
    (if 0 <? due then w <| w_loop ::= set_clock (u32 (loop_now (w_loop w) + due)) |> else w) = (w1, fs) ->
  is_virtual (el_clock (w_loop w1)) = true /\ loop_ok (w_loop w1) /\ quiet w1 /\
  loop_now (w_loop w1) = u32 (loop_now (w_loop w) + Z.max 0 due) /\
  Forall (fun f => f_at f = u32 (loop_now (w_loop w) + Z.max 0 due) /\
                   on_time (loop_now (w_loop w)) (~ quiet w) f) fs.
Proof.
  intros H1 Hv Hok Hdue Hmax Hrun. destruct (next_due_some w due Hdue) as [(id & t & Hl & Ht) Hmin].
  set (n := loop_now (w_loop w)) in *.
  set (w0 := if 0 <? due then _ else _) in *.
  assert (is_virtual (el_clock (w_loop w0)) = true /\ loop_ok (w_loop w0) /\
          loop_now (w_loop w0) = u32 (n + Z.max 0 due) /\ (forall id t, live_timer w0 id t -> live_timer w id t))
    as (Hv0 & Hok0 & Hn0 & Hl0).
  { unfold w0. destruct (Z.ltb_spec 0 due); cbn.
    - destruct (set_clock_virtual (u32 (n + due)) _ Hv) as [Hc Hcv].
      split; [exact Hcv|]. rewrite Hc. split; [apply set_clock_ok; [apply u32_range|done]|]. split; [f_equal; lia|done].
    - split; [done|]. split; [done|]. split; [|done]. rewrite Z.max_l, Z.add_0_r by lia.
      symmetry. apply u32_small, Hok. }
  destruct (run_due_firing w0 w1 fs H1 Hv0 Hok0 Hrun) as [Hfi HF]. rewrite Hn0 in *.
  pose proof (firing_quiet _ _ _ Hfi) as Hq.
  destruct Hfi as [Hv1 Hn1 Hok1 _ _ _]. do 4 (split; [done|]).
  eapply Forall_impl; [|exact HF]. cbn. intros f (Hat & Hle & _ & Hex). split; [done|]. unfold on_time.
  destruct (Z.ltb_spec 0 due).
  - left. apply Hex. intros id' t' Hl'%Hl0. rewrite tdiff_move; specialize (Hmin id' t' Hl').
    + fold n. lia.
    + fold n. unfold tdiff in *. pose proof (i32_range (u32 (t_due_ms t' - n))) as Hr. unfold is_i32 in Hr. lia.
  - right. replace (u32 (n + Z.max 0 due)) with n in * by (symmetry; rewrite Z.max_l, Z.add_0_r by lia; apply u32_small, Hok).
    split; [|done]. intros Hquiet. specialize (Hquiet id t Hl). fold n in Hquiet. lia.
Qed.

(** Nothing that could still run lies before [target]. *)
Definition nothing_before (target : Z) w : Prop :=
  0 <= tdiff target (loop_now (w_loop w)) /\
  forall id t, live_timer w id t ->
    tdiff target (loop_now (w_loop w)) < tdiff (t_due_ms t) (loop_now (w_loop w)).

Lemma advance_loop_spec target fuel : forall w (n := loop_now (w_loop w)) (r := tdiff target n),
  1 <= lo -> is_virtual (el_clock (w_loop w)) = true -> loop_ok (w_loop w) -> 0 <= r ->
  quiet w /\ (Z.to_nat r < fuel)%nat \/ 0 < r /\ (S (Z.to_nat r) < fuel)%nat ->
  exists w' fs, advance_loop run_cb fuel target w = Some (w', fs) /\
    is_virtual (el_clock (w_loop w')) = true /\ loop_ok (w_loop w') /\
    (el_stop (w_loop w') = true \/ nothing_before target w') /\ fires_ok n r (~ quiet w) fs.
Proof.
  induction fuel as [|fuel IH]; intros w n r H1 Hv Hok Hr Hfuel; [lia|]. cbn [advance_loop].
  destruct (el_stop (w_loop w)) eqn:Hstop.
  { exists w, []. do 3 (split; [done|]). split; [by left|apply fires_ok_nil]. }
  pose proof (quiet_reap w) as Hqr.
  assert (loop_now (w_loop (reaped w)) = n) as Hnr.
  { cbn. unfold n, loop_now. by rewrite (proj1 (reap_clock (w_loop w))). }
  assert (is_virtual (el_clock (w_loop (reaped w))) = true) as Hvr.
  { cbn. by rewrite (proj1 (reap_clock (w_loop w))). }
  pose proof (reap_ok _ Hok : loop_ok (w_loop (reaped w))) as Hokr.
  generalize dependent (reaped w). intros w0 Hqr Hnr Hvr Hokr. rewrite Hnr. fold r.
  assert (quiet w0 \/ 0 < r) as Hwhy by tauto.
  destruct (Z.leb_spec r 0).
  { exists w0, []. do 3 (split; [done|]). split; [right|apply fires_ok_nil]. unfold nothing_before. rewrite Hnr. fold r. split; [lia|].
    intros id t Hl. destruct Hwhy as [Hq|]; [|lia]. specialize (Hq id t Hl). rewrite Hnr in Hq. lia. }
  destruct (next_due_ms (w_loop w0)) as [due|] eqn:Hdue.
  2: { exists w0, []. do 3 (split; [done|]). split; [right|apply fires_ok_nil]. unfold nothing_before. rewrite Hnr. fold r. split; [lia|].
       intros id t []%(next_due_none w0 Hdue). }
  destruct (next_due_some w0 due Hdue) as [(id & t & Hl & Ht) Hmin].
  destruct (Z.ltb_spec r due).
  { exists w0, []. do 3 (split; [done|]). split; [right|apply fires_ok_nil]. unfold nothing_before. rewrite Hnr. fold r. split; [lia|].
    intros id' t' Hl'%Hmin. rewrite Hnr in Hl'. lia. }
  assert (r < 2 ^ 31) as Hr31.
  { unfold r, tdiff. pose proof (i32_range (u32 (target - n))) as Hi. unfold is_i32 in Hi. lia. }
  destruct (run_due_timers run_cb _) as [w1 fs1] eqn:Hrun. rewrite <- Hnr in Hrun.
  apply (advance_pass w0 w1 fs1 due) in Hrun as (Hv1 & Hok1 & Hq1 & Hn1 & HF1); try done; [|lia].
  rewrite Hnr in Hn1, HF1.
  assert (tdiff target (u32 (n + Z.max 0 due)) = r - Z.max 0 due) as Hr1.
  { apply tdiff_move. fold r. lia. }
  destruct (IH w1) as (w' & fs2 & -> & Hv' & Hok' & Hend & Hfs2); try done; try (rewrite Hn1, Hr1; lia).
  { left. split; [done|]. rewrite Hn1, Hr1. destruct (Z.ltb_spec 0 due); [lia|].
    destruct Hfuel as [[Hq%Hqr _]|]; [|lia]. specialize (Hq id t Hl). lia. }
  exists w', (fs1 ++ fs2). do 3 (split; [done|]). split; [done|].
  rewrite Hn1, Hr1 in Hfs2. eapply fires_ok_app with (k := Z.max 0 due); [lia|done|unfold n; apply Hok| |].
  - eapply Forall_impl; [|exact HF1]. cbn. intros f [? Ho]. split; [done|]. unfold on_time in *. tauto.
  - destruct Hfs2 as [Ha Hb Hc]. split; [|done..]. eapply Forall_impl; [|exact Ha].
    unfold on_time. intros f. tauto.
Qed.

(** ** What any stretch of dispatching does to timers that are over

    A timer is spent once it has run as a one-shot or was cancelled. *)
Definition spent (id : Z) w : Prop :=
  id < el_next_timer (w_loop w) /\ forall t, (id, t) ∈ el_timers (w_loop w) -> t_dead t = true.

Definition one_shots (fs : list (Fire CB)) : list Z := map f_id (List.filter f_one_shot fs).

Record dispatched w (fs : list (Fire CB)) w' : Prop := {
  di_ok : loop_ok (w_loop w');
  di_spent id : spent id w -> spent id w' /\ ~ In id (map f_id fs);
  di_once : NoDup (one_shots fs);
  di_done id : In id (one_shots fs) -> spent id w' }.

Lemma dispatched_app w fs1 w1 fs2 w2 :
  dispatched w fs1 w1 -> (loop_ok (w_loop w1) -> dispatched w1 fs2 w2) -> dispatched w (fs1 ++ fs2) w2.
Proof.
  intros [Hok1 Hs1 Ho1 Hd1] [Hok2 Hs2 Ho2 Hd2]%(fun H => H Hok1).
  assert (one_shots (fs1 ++ fs2) = one_shots fs1 ++ one_shots fs2) as Happ.
  { unfold one_shots. by rewrite List.filter_app, map_app. }
  split; [done| | |].
  - intros id [Hsp Hni]%Hs1. apply Hs2 in Hsp as [Hsp Hni']. split; [done|]. rewrite map_app, in_app_iff. tauto.
  - rewrite Happ. apply list.NoDup_app. split; [done|]. split; [|done]. intros id Hin Hin2.
    rewrite list_elem_of_In in Hin, Hin2. apply Hd1, Hs2 in Hin as [_ Hni]. apply Hni.
    unfold one_shots in Hin2. apply in_map_iff in Hin2 as (f & <- & [Hf _]%filter_In). by apply in_map.
  - intros id. rewrite Happ, in_app_iff. intros [Hin|Hin]; [|auto]. apply Hd1, Hs2 in Hin. tauto.
Qed.

(** A change that arms no old timer again. *)
Lemma dispatched_quietly w w' :
  loop_ok (w_loop w') -> (forall id, spent id w -> spent id w') -> dispatched w [] w'.
Proof. intros Hok Hs. split; [done|intros id H%Hs; auto|constructor|done]. Qed.

Lemma call_dispatched w w' : call lo w w' -> loop_ok (w_loop w) -> dispatched w [] w'.
Proof.
  intros Hc Hok. apply dispatched_quietly; [by eapply call_ok|]. intros id [Hid Hdead].
  pose proof (call_next lo w w' (ok_next _ Hok) Hc). split; [lia|]. intros t Hin.
  destruct (t_dead t) eqn:Hd; [done|].
  destruct (call_timers lo w w' id t Hc Hok Hin Hd) as [Hold%Hdead|[-> _]]; [congruence|lia].
Qed.

Lemma calls_dispatched w w' : rtc (call lo) w w' -> loop_ok (w_loop w) -> dispatched w [] w'.
Proof.
  induction 1 as [w|w w1 w2 Hc _ IH]; intros Hok; [by apply dispatched_quietly|].
  apply (dispatched_app w [] w1 []); [by apply call_dispatched|done].
Qed.

Lemma reap_dispatched w : loop_ok (w_loop w) -> dispatched w [] (reaped w).
Proof.
  intros Hok. apply dispatched_quietly; [by apply reap_ok|]. intros id [Hid Hdead]. split; cbn.
  - by rewrite (proj2 (proj2 (reap_clock (w_loop w)))).
  - intros t Hin. apply Hdead. unfold reap in Hin. destruct (el_dirty (w_loop w)); [|done]. cbn in Hin.
    rewrite list_elem_of_In in *. by apply filter_In in Hin as [? _].
Qed.

Lemma clock_dispatched ms w : is_u32 ms -> loop_ok (w_loop w) -> dispatched w [] (w <| w_loop ::= set_clock ms |>).
Proof. intros. apply dispatched_quietly; [by apply set_clock_ok|done]. Qed.

Lemma update_spent id f (dirty : bool) w x :
  loop_ok (w_loop w) -> (forall t, t_dead t = true -> t_dead (f t) = true) ->
  spent x w -> spent x (mkWorld ((w_loop w) <| el_timers ::= om_update id f |> <| el_dirty := dirty |>) (w_user w)).
Proof.
  intros Hok Hf [Hx Hdead]. split; [done|]. cbn. intros t Hin.
  apply om_update_elem in Hin as [(-> & v & Hv & ->)|[_ Hin]]; [|by apply Hdead|apply Hok]. by apply Hf, Hdead.
Qed.

Lemma fire_dispatched now id w w' fs :
  loop_ok (w_loop w) -> fire run_cb now id w = (w', fs) -> dispatched w fs w'.
Proof.
  intros Hok Hf. unfold fire in Hf.
  destruct (om_find id (el_timers (w_loop w))) as [t|] eqn:Hfind; [|simplify_eq; by apply dispatched_quietly].
  destruct (t_dead t) eqn:Hdead; [simplify_eq; by apply dispatched_quietly|].
  apply om_find_elem in Hfind as Hin.
  assert (forall x, spent x w -> x <> id) as Hne by (intros x [_ Hx] ->; apply Hx in Hin; congruence).
  assert (id < el_next_timer (w_loop w)) as Hid.
  { pose proof (ok_fresh _ Hok) as Hfr. rewrite Forall_forall in Hfr. rewrite list_elem_of_In in Hin.
    by apply Hfr in Hin. }
  enough (forall (f : TimerEntry CB -> TimerEntry CB) dirty,
    loop_ok ((w_loop w) <| el_timers ::= om_update id f |>) -> (forall t, t_dead t = true -> t_dead (f t) = true) ->
    (t_interval_ms t = 0 -> forall t, t_dead (f t) = true) ->
    dispatched w [mkFire now id (t_due_ms t) (t_cb t) (t_interval_ms t =? 0)] (run_cb (t_cb t)
      (mkWorld ((w_loop w) <| el_timers ::= om_update id f |> <| el_dirty := dirty |>) (w_user w)))) as Hgo.
  { destruct (Z.ltb_spec 0 (t_interval_ms t)); simplify_eq.
    - apply (Hgo (fun t => t <| t_due_ms := u32 (now + t_interval_ms t) |>) (el_dirty (w_loop w))); [|done|lia].
      apply update_timer_ok; [split; [apply u32_range|done]|done].
    - apply (Hgo (fun t => t <| t_dead := true |>) true); [by apply kill_ok|done..]. }
  intros f dirty Hok' Hkeep Hover. set (w1 := mkWorld _ _).
  apply (dispatched_app w [mkFire now id (t_due_ms t) (t_cb t) (t_interval_ms t =? 0)] w1 []).
  2: { intros. apply calls_dispatched; [apply cb_calls|done]. }
  split.
  - refine (same_timers_ok _ _ _ _ _ Hok'); done.
  - intros x Hx. split; [by apply update_spent|]. specialize (Hne x Hx). cbn. naive_solver.
  - unfold one_shots. cbn. destruct (t_interval_ms t =? 0); [apply NoDup_singleton|constructor].
  - intros x Hx. unfold one_shots in Hx. cbn in Hx. destruct (Z.eqb_spec (t_interval_ms t) 0); [|done].
    destruct Hx as [<-|[]]. split; [done|]. cbn. intros t' Ht'.
    apply om_update_elem in Ht' as [(_ & v & _ & ->)|[? _]]; [auto|done|apply Hok].
Qed.

Lemma fire_all_dispatched now ids : forall w w' fs,
  loop_ok (w_loop w) -> fire_all run_cb now ids w = (w', fs) -> dispatched w fs w'.
Proof.
  induction ids as [|id ids IH]; intros w w' fs Hok Hf; cbn in Hf; [simplify_eq; by apply dispatched_quietly|].
  destruct (fire run_cb now id w) as [w1 f1] eqn:H1. destruct (fire_all run_cb now ids w1) as [w2 f2] eqn:H2.
  simplify_eq. eapply dispatched_app; [by eapply fire_dispatched|]. intros. by eapply IH.
Qed.

Lemma run_due_dispatched w w' fs :
  loop_ok (w_loop w) -> run_due_timers run_cb w = (w', fs) -> dispatched w fs w'.
Proof. apply fire_all_dispatched. Qed.

Lemma advance_loop_dispatched target fuel : forall w w' fs,
  loop_ok (w_loop w) -> advance_loop run_cb fuel target w = Some (w', fs) -> dispatched w fs w'.
Proof.
  induction fuel as [|fuel IH]; intros w w' fs Hok Ha; cbn [advance_loop] in Ha; [done|].
  destruct (el_stop (w_loop w)); [simplify_eq; by apply dispatched_quietly|].
  pose proof (reap_dispatched w Hok) as Hr. apply (dispatched_app w [] (reaped w)); [done|]. clear Hr Hok. intros Hok.
  generalize dependent (reaped w). clear w. intros w Ha Hok.
  repeat case_match; simplify_eq; try by apply dispatched_quietly.
  - apply (dispatched_app w [] (w <| w_loop ::= set_clock (u32 (loop_now (w_loop w) + z)) |>)).
    + apply clock_dispatched; [apply u32_range|done].
    + intros Hok0. eapply dispatched_app; [by eapply run_due_dispatched|]. intros. by eapply IH.
  - eapply dispatched_app; [by eapply run_due_dispatched|]. intros. by eapply IH.
Qed.

Lemma dispatch_fds_dispatched ids : forall revents n w w' n' ran,
  loop_ok (w_loop w) -> dispatch_fds run_fd ids revents n w = (w', n', ran) -> dispatched w [] w'.
Proof.
  induction ids as [|id ids IH]; intros revents n w w' n' ran Hok Hd; cbn in Hd; [simplify_eq; by apply dispatched_quietly|].
  destruct revents as [|ev revents]; [simplify_eq; by apply dispatched_quietly|].
  destruct (negb (0 <? n)); [simplify_eq; by apply dispatched_quietly|]. destruct (ev =? 0); [eauto|].
  destruct (om_find id (el_watches (w_loop w))) as [e|]; [|eauto]. destruct (w_dead e); [eauto|].
  assert (dispatched w [] (run_fd (w_cb e) ev w)) as Hcall by (apply calls_dispatched; [apply fd_calls|done]).
  destruct (el_stop _); [by simplify_eq|].
  destruct (dispatch_fds run_fd ids revents (n - 1) _) as [[w2 n2] ran2] eqn:H2. simplify_eq.
  eapply (dispatched_app w []); [exact Hcall|]. intros. by eapply IH.
Qed.

Lemma after_poll_dispatched virt ids revents w w' again fs :
  loop_ok (w_loop w) -> after_poll run_cb run_fd virt ids revents w = (w', again, fs) -> dispatched w fs w'.
Proof.
  intros Hok Hd. unfold after_poll in Hd.
  destruct (dispatch_fds run_fd ids revents _ w) as [[w1 n1] ran] eqn:H1.
  apply (dispatched_app w [] w1); [by eapply dispatch_fds_dispatched|]. clear H1 Hok. intros Hok.
  assert (forall w2, dispatched w1 [] w2 ->
    (if el_stop (w_loop w2) then (w2, true, [])
     else let '(w, fired) := run_due_timers run_cb w2 in (w, true, fired)) = (w', again, fs) -> dispatched w1 fs w') as Hgo.
  { intros w2 Hd2 Heq. apply (dispatched_app w1 [] w2); [done|]. intros Hok2.
    destruct (el_stop (w_loop w2)); [simplify_eq; by apply dispatched_quietly|].
    destruct (run_due_timers run_cb w2) as [w3 fs3] eqn:H3. simplify_eq. by eapply run_due_dispatched. }
  refine (Hgo _ _ Hd). clear Hd Hgo. repeat case_match; try by apply dispatched_quietly.
  apply clock_dispatched; [apply u32_range|done].
Qed.

Lemma run_pass_dispatched e w w' again fs :
  is_u32 (pe_now e) -> loop_ok (w_loop w) -> run_pass run_cb run_fd e w = (w', again, fs) -> dispatched w fs w'.
Proof.
  intros He Hok Hrun. unfold run_pass in Hrun.
  destruct (pe_interrupted e); [simplify_eq; by apply dispatched_quietly|].
  apply (dispatched_app w [] (reaped w)); [by apply reap_dispatched|]. clear Hok. intros Hok.
  generalize dependent (reaped w). clear w. intros w Hrun Hok.
  set (wp := if is_virtual (el_clock (w_loop w)) then w else _) in Hrun.
  assert (dispatched w [] wp) as Hwp.
  { unfold wp. destruct (is_virtual _); apply dispatched_quietly; try done. destruct Hok. by split. }
  assert (dispatched w fs w' \/ dispatched wp fs w') as [|].
  { pose proof (di_ok _ _ _ Hwp) as Hokp. clearbody wp.
    repeat case_match; simplify_eq; (left; by apply dispatched_quietly) || (right; by apply dispatched_quietly)
      || (right; by eapply after_poll_dispatched). }
  - done.
  - by apply (dispatched_app w [] wp).
Qed.

Lemma run_loop_dispatched es : forall w w' returned fs,
  Forall (fun e => is_u32 (pe_now e)) es -> loop_ok (w_loop w) ->
  run_loop run_cb run_fd es w = (w', returned, fs) -> dispatched w fs w'.
Proof.
  induction es as [|e es IH]; intros w w' returned fs Hes Hok Hrun; cbn in Hrun;
    (destruct (el_stop (w_loop w)); [simplify_eq; by apply dispatched_quietly|]);
    [simplify_eq; by apply dispatched_quietly|].
  apply Forall_cons_iff in Hes as [He Hes].
  destruct (run_pass run_cb run_fd e w) as [[w1 again] fs1] eqn:H1.
  apply run_pass_dispatched in H1; [|done..]. destruct again; [|by simplify_eq].
  destruct (run_loop run_cb run_fd es w1) as [[w2 r2] fs2] eqn:H2. simplify_eq.
  eapply dispatched_app; [exact H1|]. intros. by eapply IH.
Qed.

Lemma advance_spec fuel ms w (n := loop_now (w_loop w)) :
  1 <= lo -> is_virtual (el_clock (w_loop w)) = true -> loop_ok (w_loop w) -> 0 < ms < 2 ^ 31 ->
  (Z.to_nat ms + 2 <= fuel)%nat ->
  exists w' fs, advance run_cb fuel ms w = Some (w', fs) /\ loop_ok (w_loop w') /\
    (el_stop (w_loop w') = true \/ loop_now (w_loop w') = u32 (n + ms) /\ quiet w') /\
    fires_ok n ms (~ quiet w) fs.
Proof.
  intros H1 Hv Hok Hms Hfuel. unfold advance. rewrite Hv. cbn [negb]. fold n.
  set (w0 := w <| w_loop ::= _ |>).
  assert (tdiff (u32 (n + ms)) n = ms) as Hr by (apply tdiff_future; lia).
  destruct (advance_loop_spec (u32 (n + ms)) fuel w0) as (w' & fs & -> & Hv' & Hok' & Hend & Hfs);
    [done|done|by refine (same_timers_ok _ _ _ _ _ Hok)|..];
    try (change (loop_now (w_loop w0)) with n in *; rewrite Hr in * ).
  - lia.
  - right. lia.
  - change (quiet w0) with (quiet w) in Hfs.
    eexists _, fs. split; [reflexivity|].
    assert (loop_ok (w_loop (w' <| w_loop ::= set_clock (u32 (n + ms)) |>))) as Hok''
      by (apply set_clock_ok; [apply u32_range|done]).
    assert (forall k, tdiff (u32 (n + ms)) (loop_now (w_loop w')) = k -> 0 <= k ->
              u32 (loop_now (w_loop w') + k) = u32 (n + ms)) as Hk.
    { intros k Hk Hk0. pose proof (ok_now _ Hok') as Hu. revert Hk Hu. unfold tdiff. width. }
    destruct (el_stop (w_loop w')) eqn:Hstop; cbn [negb andb]; [by split; [|split; [left|]]|].
    destruct Hend as [|[Hge Hbefore]]; [done|]. specialize (Hk _ eq_refl Hge).
    destruct (Z.ltb_spec 0 (tdiff (u32 (n + ms)) (loop_now (w_loop w')))); (split; [done|]; split; [right|done]).
    + cbn. destruct (set_clock_virtual (u32 (n + ms)) _ Hv') as [Hset _]. split; [done|].
      intros id t Hl. cbn. rewrite Hset, <- Hk. specialize (Hbefore id t Hl).
      rewrite tdiff_move; [lia|]. unfold tdiff in *.
      pose proof (i32_range (u32 (t_due_ms t - loop_now (w_loop w')))) as Hi. unfold is_i32 in Hi. lia.
    + split.
      * rewrite <- Hk. replace (tdiff _ _) with 0 by lia. rewrite Z.add_0_r. symmetry. apply u32_small, Hok'.
      * intros id t Hl. specialize (Hbefore id t Hl). lia.
Qed.

Lemma advance_dispatched fuel ms w w' fs :
  loop_ok (w_loop w) -> advance run_cb fuel ms w = Some (w', fs) -> dispatched w fs w'.
Proof.
  intros Hok Ha. unfold advance in Ha.
  destruct (negb (is_virtual (el_clock (w_loop w)))); [simplify_eq; by apply dispatched_quietly|].
  set (w0 := w <| w_loop ::= _ |>) in Ha.
  destruct (advance_loop run_cb fuel _ w0) as [[w1 fs1]|] eqn:H1; [|done]. simplify_eq.
  apply (dispatched_app w [] w0); [apply dispatched_quietly; [by refine (same_timers_ok _ _ _ _ _ Hok)|done]|].
  intros Hok0. rewrite <- (app_nil_r fs).
  eapply dispatched_app; [by eapply advance_loop_dispatched|]. intros Hok1.
  destruct (_ && _); [|by apply dispatched_quietly]. apply clock_dispatched; [apply u32_range|done].
Qed.

Lemma run_dispatched es w w' returned fs :
  Forall (fun e => is_u32 (pe_now e)) es -> loop_ok (w_loop w) ->
  run run_cb run_fd es w = (w', returned, fs) -> dispatched w fs w'.
Proof.
  intros Hes Hok Hr. unfold run in Hr. set (w0 := w <| w_loop ::= _ |>) in Hr.
  apply (dispatched_app w [] w0); [apply dispatched_quietly; [by refine (same_timers_ok _ _ _ _ _ Hok)|done]|].
  intros. by eapply run_loop_dispatched.
Qed.

Lemma cancel_spent id w :
  loop_ok (w_loop w) -> id < el_next_timer (w_loop w) ->
  spent id (mkWorld (cancel_timer id (w_loop w)) (w_user w)) /\ loop_ok (cancel_timer id (w_loop w)).
Proof.
  intros Hok Hid. split.
  - unfold cancel_timer. destruct (om_find id (el_timers (w_loop w))) eqn:Hfind; (split; [done|]); cbn; intros t' Hin.
    + apply om_update_elem in Hin as [(_ & v & _ & ->)|[? _]]; [done..|apply Hok].
    + apply om_elem_find in Hin; [congruence|apply Hok].
  - apply (call_ok 0 (mkWorld (w_loop w) (w_user w)) (mkWorld (cancel_timer id (w_loop w)) (w_user w)));
      [done|constructor|done].
Qed.

(** ** Every armed timer runs

    The callbacks the log names are the callbacks that ran: [ran] is what the program's own
    state records of them. *)
Section ran.
Context (ran : U -> list CB) (Hran : forall cb w, ran (w_user (run_cb cb w)) = ran (w_user w) ++ [cb]).

Lemma fire_ran now id w w' fs :
  fire run_cb now id w = (w', fs) -> ran (w_user w') = ran (w_user w) ++ map f_cb fs.
Proof.
  unfold fire. intros Hf. repeat case_match; simplify_eq; cbn [map f_cb]; rewrite ?app_nil_r, ?Hran; done.
Qed.

Lemma fire_all_ran now ids : forall w w' fs,
  fire_all run_cb now ids w = (w', fs) -> ran (w_user w') = ran (w_user w) ++ map f_cb fs.
Proof.
  induction ids as [|id ids IH]; intros w w' fs Hf; cbn in Hf; [simplify_eq; by rewrite app_nil_r|].
  destruct (fire run_cb now id w) as [w1 f1] eqn:H1. destruct (fire_all run_cb now ids w1) as [w2 f2] eqn:H2.
  simplify_eq. by rewrite (IH _ _ _ H2), (fire_ran _ _ _ _ _ H1), map_app, app_assoc.
Qed.

Lemma advance_loop_ran target fuel : forall w w' fs,
  advance_loop run_cb fuel target w = Some (w', fs) -> ran (w_user w') = ran (w_user w) ++ map f_cb fs.
Proof.
  induction fuel as [|fuel IH]; intros w w' fs Ha; cbn [advance_loop] in Ha; [done|].
  destruct (el_stop (w_loop w)); [simplify_eq; by rewrite app_nil_r|].
  destruct (_ <=? 0); [simplify_eq; by rewrite app_nil_r|].
  destruct (next_due_ms _) as [due|]; [|simplify_eq; by rewrite app_nil_r].
  destruct (_ <? due); [simplify_eq; by rewrite app_nil_r|].
  set (w0 := if 0 <? due then _ else _) in Ha.
  assert (w_user w0 = w_user w) as Hu by (unfold w0; by destruct (0 <? due)).
  unfold run_due_timers in Ha. destruct (fire_all run_cb _ _ w0) as [w1 f1] eqn:H1.
  destruct (advance_loop run_cb fuel target w1) as [[w2 f2]|] eqn:H2; [|done]. simplify_eq.
  by rewrite (IH _ _ _ H2), (fire_all_ran _ _ _ _ _ H1), Hu, map_app, app_assoc.
Qed.

Lemma advance_ran fuel ms w w' fs :
  advance run_cb fuel ms w = Some (w', fs) -> ran (w_user w') = ran (w_user w) ++ map f_cb fs.
Proof.
  unfold advance. intros Ha. destruct (negb _); [simplify_eq; by rewrite app_nil_r|].
  destruct (advance_loop _ _ _ _) as [[w1 f1]|] eqn:H1; [|done]. apply advance_loop_ran in H1. simplify_eq.
  destruct (_ && _); exact H1.
Qed.
End ran.

(** The instants, within [r] milliseconds of [n], at which a timer runs that is due in [d]
    and has interval [i]. *)
Definition instants (n d i r : Z) : list Z :=
  if r <? d then [] else if i =? 0 then [u32 (n + d)] else map (fun j => u32 (n + d + i * j)) (seqZ 0 ((r - d) / i + 1)).

Lemma instants_later n d i r k : instants (u32 (n + k)) (d - k) i (r - k) = instants n d i r.
Proof.
  unfold instants. replace (r - k <? d - k) with (r <? d) by (destruct (Z.ltb_spec r d), (Z.ltb_spec (r - k) (d - k)); lia).
  destruct (r <? d); [done|]. destruct (i =? 0); [f_equal; width|].
  replace (r - k - (d - k)) with (r - d) by lia. apply map_ext. intros j. width.
Qed.

Lemma instants_again n d i r : d <= r -> 0 < i -> instants n d i r = u32 (n + d) :: instants (u32 (n + d)) i i (r - d).
Proof.
  intros Hd Hi. unfold instants at 1. rewrite (proj2 (Z.ltb_ge r d)), (proj2 (Z.eqb_neq i 0)) by lia.
  assert (0 <= (r - d) / i) as Hq by (apply Z.div_pos; lia).
  rewrite seqZ_cons by lia. cbn [map]. f_equal; [f_equal; lia|]. unfold instants. rewrite (proj2 (Z.eqb_neq i 0)) by lia.
  replace (Z.pred ((r - d) / i + 1)) with ((r - d) / i) by lia.
  destruct (Z.ltb_spec (r - d) i).
  - by rewrite (Z.div_small (r - d) i) by lia.
  - replace ((r - d - i) / i + 1) with ((r - d) / i).
    2: { replace (r - d) with (r - d - i + 1 * i) at 1 by lia. by rewrite Z.div_add by lia. }
    change (Z.succ 0) with (1 + 0). rewrite <- fmap_add_seqZ.
    etransitivity; [apply map_map|]. apply map_ext. intros j. width.
Qed.

(** What the log says of one timer. *)
Definition runs_of (id : Z) (fs : list (Fire CB)) : list (Z * CB) :=
  map (fun f => (f_at f, f_cb f)) (List.filter (fun f => f_id f =? id) fs).

Lemma runs_of_app id fs1 fs2 : runs_of id (fs1 ++ fs2) = runs_of id fs1 ++ runs_of id fs2.
Proof. unfold runs_of. by rewrite List.filter_app, map_app. Qed.

Lemma runs_of_none id fs : ~ In id (map f_id fs) -> runs_of id fs = [].
Proof.
  unfold runs_of. induction fs as [|f fs IH]; cbn; [done|]. intros Hn.
  destruct (Z.eqb_spec (f_id f) id); [tauto|]. apply IH. tauto.
Qed.

Section kept.
Context (x : Z) (Hkeep : forall cb w t, loop_ok (w_loop w) -> live_timer w x t -> live_timer (run_cb cb w) x t).

Lemma live_find w t : loop_ok (w_loop w) -> live_timer w x t -> om_find x (el_timers (w_loop w)) = Some t /\ t_dead t = false.
Proof. intros Hok [Hin Hl]. split; [|done]. apply om_elem_find; [apply Hok|done]. Qed.

Lemma find_live w t : om_find x (el_timers (w_loop w)) = Some t -> t_dead t = false -> live_timer w x t.
Proof. intros Hf%om_find_elem Hl. done. Qed.

(** Running another timer leaves it as it is. *)
Lemma fire_other now id w w' fs t :
  loop_ok (w_loop w) -> id <> x -> live_timer w x t -> fire run_cb now id w = (w', fs) -> live_timer w' x t /\ runs_of x fs = [].
Proof.
  intros Hok Hne Hl Hf. destruct (live_find w t Hok Hl) as [Hfind Hd]. unfold fire in Hf.
  destruct (om_find id (el_timers (w_loop w))) as [t'|]; [|by simplify_eq]. destruct (t_dead t'); [by simplify_eq|].
  unfold runs_of. destruct (0 <? t_interval_ms t'); simplify_eq; cbn [List.filter f_id];
    (rewrite (proj2 (Z.eqb_neq id x)) by done; split; [|done]); (apply Hkeep; [|apply find_live; [|done]]).
  2, 4: cbn; by rewrite om_update_find_ne.
  - by apply rescheduled_ok.
  - refine (same_timers_ok _ _ _ _ _ (kill_ok id _ Hok)); done.
Qed.

(** Running it calls its callback; a repeating one is armed again, a one-shot is over. *)
Lemma fire_self now w w' fs t :
  loop_ok (w_loop w) -> live_timer w x t -> fire run_cb now x w = (w', fs) ->
  runs_of x fs = [(now, t_cb t)] /\
  if 0 <? t_interval_ms t then live_timer w' x (t <| t_due_ms := u32 (now + t_interval_ms t) |>) else spent x w'.
Proof.
  intros Hok Hl Hf. destruct (live_find w t Hok Hl) as [Hfind Hd].
  pose proof (fire_dispatched now x w w' fs Hok Hf) as Hdi. unfold fire in Hf. rewrite Hfind, Hd in Hf.
  assert (0 <= t_interval_ms t) as Hi.
  { pose proof (ok_times _ Hok) as Ht. rewrite Forall_forall in Ht. apply om_find_elem in Hfind.
    rewrite list_elem_of_In in Hfind. apply Ht in Hfind. cbn in Hfind. lia. }
  destruct (Z.ltb_spec 0 (t_interval_ms t)); simplify_eq; unfold runs_of; cbn [List.filter f_id]; rewrite Z.eqb_refl; (split; [done|]).
  - apply Hkeep; [by apply rescheduled_ok|]. apply find_live; [|done]. cbn. by rewrite om_update_find, Hfind.
  - apply (di_done _ _ _ Hdi). unfold one_shots. cbn. rewrite (proj2 (Z.eqb_eq (t_interval_ms t) 0)) by lia. by left.
Qed.

Lemma fire_all_others now ids : forall w w' fs t,
  loop_ok (w_loop w) -> x ∉ ids -> live_timer w x t -> fire_all run_cb now ids w = (w', fs) ->
  live_timer w' x t /\ runs_of x fs = [].
Proof.
  induction ids as [|id ids IH]; intros w w' fs t Hok Hni Hl Hf; cbn in Hf; [by simplify_eq|].
  apply not_elem_of_cons in Hni as [Hne Hni].
  destruct (fire run_cb now id w) as [w1 f1] eqn:H1. destruct (fire_all run_cb now ids w1) as [w2 f2] eqn:H2. simplify_eq.
  destruct (fire_other _ _ _ _ _ _ Hok ltac:(done) Hl H1) as [Hl1 E1].
  pose proof (di_ok _ _ _ (fire_dispatched _ _ _ _ _ Hok H1)) as Hok1.
  destruct (IH _ _ _ _ Hok1 Hni Hl1 H2) as [Hl2 E2]. by rewrite runs_of_app, E1, E2.
Qed.

Lemma fire_all_self now ids : forall w w' fs t,
  loop_ok (w_loop w) -> NoDup ids -> x ∈ ids -> live_timer w x t -> fire_all run_cb now ids w = (w', fs) ->
  runs_of x fs = [(now, t_cb t)] /\
  if 0 <? t_interval_ms t then live_timer w' x (t <| t_due_ms := u32 (now + t_interval_ms t) |>) else spent x w'.
Proof.
  induction ids as [|id ids IH]; intros w w' fs t Hok Hnd Hin Hl Hf; cbn in Hf; [set_solver|].
  apply list.NoDup_cons in Hnd as [Hni Hnd].
  destruct (fire run_cb now id w) as [w1 f1] eqn:H1. destruct (fire_all run_cb now ids w1) as [w2 f2] eqn:H2. simplify_eq.
  pose proof (di_ok _ _ _ (fire_dispatched _ _ _ _ _ Hok H1)) as Hok1. rewrite runs_of_app.
  destruct (decide (id = x)) as [->|Hne].
  - destruct (fire_self _ _ _ _ _ Hok Hl H1) as [-> Hafter]. destruct (0 <? t_interval_ms t).
    + destruct (fire_all_others _ _ _ _ _ _ Hok1 Hni Hafter H2) as [Hl2 ->]. done.
    + destruct (di_spent _ _ _ (fire_all_dispatched _ _ _ _ _ Hok1 H2) x Hafter) as [Hsp Hno].
      by rewrite (runs_of_none _ _ Hno).
  - destruct (fire_other _ _ _ _ _ _ Hok Hne Hl H1) as [Hl1 ->].
    apply elem_of_cons in Hin as [?|Hin]; [done|]. by eapply IH.
Qed.

(** One pass of [advance]: the timer runs when the pass is at its instant and is left alone before. *)
Lemma pass_runs w w1 fs due t (n := loop_now (w_loop w)) (k := Z.max 0 due) (d := Z.max 0 (tdiff (t_due_ms t) n)) :
  is_virtual (el_clock (w_loop w)) = true -> loop_ok (w_loop w) -> live_timer w x t ->
  next_due_ms (w_loop w) = Some due -> due < 2 ^ 31 ->
  run_due_timers run_cb (if 0 <? due then w <| w_loop ::= set_clock (u32 (n + due)) |> else w) = (w1, fs) ->
  k <= d /\
  if d =? k then
    runs_of x fs = [(u32 (n + k), t_cb t)] /\
    if 0 <? t_interval_ms t then live_timer w1 x (t <| t_due_ms := u32 (n + k + t_interval_ms t) |>) else spent x w1
  else runs_of x fs = [] /\ live_timer w1 x t /\ tdiff (t_due_ms t) (u32 (n + k)) = d - k.
Proof.
  intros Hv Hok Hl Hdue Hmax Hrun. destruct (next_due_some w due Hdue) as [_ Hmin]. specialize (Hmin x t Hl). fold n in Hmin.
  split; [lia|]. pose proof (ok_now _ Hok) as Hn32. fold n in Hn32.
  set (w0 := if 0 <? due then _ else _) in Hrun.
  assert (loop_now (w_loop w0) = u32 (n + k) /\ loop_ok (w_loop w0) /\ el_timers (w_loop w0) = el_timers (w_loop w)) as (Hn0 & Hok0 & Ht0).
  { unfold w0, k. destruct (Z.ltb_spec 0 due); cbn.
    - destruct (set_clock_virtual (u32 (n + due)) _ Hv) as [Hc _]. rewrite Hc.
      split; [f_equal; lia|]. split; [apply set_clock_ok; [apply u32_range|done]|done].
    - split; [|done]. rewrite Z.max_l, Z.add_0_r by lia. symmetry. by apply u32_small. }
  assert (live_timer w0 x t) as Hl0 by (unfold live_timer; by rewrite Ht0).
  assert (tdiff (t_due_ms t) (u32 (n + k)) = tdiff (t_due_ms t) n - k) as Hmove.
  { apply tdiff_move. pose proof (i32_range (u32 (t_due_ms t - n))) as Hr. unfold is_i32 in Hr. unfold tdiff in *. lia. }
  unfold run_due_timers in Hrun. rewrite Hn0 in Hrun.
  assert (x ∈ due_ids (u32 (n + k)) (el_timers (w_loop w0)) <-> d = k) as Hdi.
  { rewrite due_ids_elem. split.
    - intros (t' & Hin & Hd' & Hle). destruct (live_find w0 t Hok0 Hl0) as [Hf _].
      apply om_elem_find in Hin; [|apply Hok0]. simplify_eq. lia.
    - intros E. exists t. destruct Hl0. split; [done|]. split; [done|]. lia. }
  destruct (Z.eqb_spec d k) as [E|E].
  - pose proof (fire_all_self _ _ _ _ _ _ Hok0 (due_ids_NoDup _ _ (ok_ordered _ Hok0)) (proj2 Hdi E) Hl0 Hrun) as [-> Ha].
    split; [done|]. destruct (0 <? t_interval_ms t); [|done].
    replace (u32 (n + k + t_interval_ms t)) with (u32 (u32 (n + k) + t_interval_ms t)) by width. done.
  - destruct (fire_all_others _ _ _ _ _ _ Hok0 ltac:(by rewrite Hdi) Hl0 Hrun) as [Hl1 ->]. split; [done|]. split; [done|]. lia.
Qed.

Definition due_runs (n r : Z) (t : TimerEntry CB) : list (Z * CB) :=
  map (fun at_ => (at_, t_cb t)) (instants n (Z.max 0 (tdiff (t_due_ms t) n)) (t_interval_ms t) r).

Lemma due_runs_end n r t : r < Z.max 0 (tdiff (t_due_ms t) n) -> due_runs n r t = [].
Proof. intros Hr. unfold due_runs, instants. by rewrite (proj2 (Z.ltb_lt _ _) Hr). Qed.

(** What a pass leaves to be run. *)
Lemma due_runs_pass n r k t :
  0 <= k <= r -> is_u32 n -> 0 <= t_interval_ms t < 2 ^ 31 -> k <= Z.max 0 (tdiff (t_due_ms t) n) ->
  due_runs n r t =
  if Z.max 0 (tdiff (t_due_ms t) n) =? k then
    (u32 (n + k), t_cb t) ::
    (if 0 <? t_interval_ms t then due_runs (u32 (n + k)) (r - k) (t <| t_due_ms := u32 (n + k + t_interval_ms t) |>) else [])
  else map (fun at_ => (at_, t_cb t)) (instants (u32 (n + k)) (Z.max 0 (tdiff (t_due_ms t) n) - k) (t_interval_ms t) (r - k)).
Proof.
  intros Hk Hn Hi Hd. unfold due_runs. set (d := Z.max 0 (tdiff (t_due_ms t) n)) in *. destruct (Z.eqb_spec d k) as [->|E].
  - cbn [t_due_ms t_interval_ms t_cb]. destruct (Z.ltb_spec 0 (t_interval_ms t)).
    + rewrite instants_again by lia. cbn [map]. f_equal. do 2 f_equal. cbn.
      replace (u32 (n + k + t_interval_ms t)) with (u32 (u32 (n + k) + t_interval_ms t)) by width.
      rewrite tdiff_future; lia.
    + unfold instants. rewrite (proj2 (Z.ltb_ge r k)), (proj2 (Z.eqb_eq (t_interval_ms t) 0)) by lia. done.
  - by rewrite instants_later.
Qed.

(** The whole loop: the timer runs at every one of its instants, up to the one at which a
    callback stopped the loop. *)
Lemma advance_loop_runs target fuel : forall w w' fs t (n := loop_now (w_loop w)) (r := tdiff target n),
  1 <= lo -> is_virtual (el_clock (w_loop w)) = true -> loop_ok (w_loop w) -> 0 <= r -> quiet w \/ 0 < r ->
  live_timer w x t -> advance_loop run_cb fuel target w = Some (w', fs) ->
  exists rest, due_runs n r t = runs_of x fs ++ rest /\ (el_stop (w_loop w') = true \/ rest = []).
Proof.
  induction fuel as [|fuel IH]; intros w w' fs t n r H1 Hv Hok Hr Hwhy Hl Ha; [done|]. cbn [advance_loop] in Ha.
  destruct (el_stop (w_loop w)) eqn:Hstop; [injection Ha as <- <-; eexists; split; [reflexivity|by left]|].
  assert (loop_now (w_loop (reaped w)) = n) as Hnr by (unfold n, loop_now; cbn; by rewrite (proj1 (reap_clock (w_loop w)))).
  assert (is_virtual (el_clock (w_loop (reaped w))) = true) as Hvr by (cbn; by rewrite (proj1 (reap_clock (w_loop w)))).
  pose proof (reap_ok _ Hok : loop_ok (w_loop (reaped w))) as Hokr. apply reap_live in Hl. rewrite <- quiet_reap in Hwhy.
  generalize dependent (reaped w). intros w0 Hwhy Hl Ha Hnr Hvr Hokr. rewrite Hnr in Ha. fold r in Ha.
  assert (forall f, (forall id' t', live_timer w0 id' t' -> r < Z.max 0 (tdiff (t_due_ms t') n)) -> f = [] ->
    exists rest, due_runs n r t = runs_of x f ++ rest /\ (el_stop (w_loop w0) = true \/ rest = [])) as Hend.
  { intros f Hlate ->. exists []. split; [|by right]. by apply due_runs_end, (Hlate x). }
  destruct (Z.leb_spec r 0).
  { injection Ha as <- <-. apply Hend; [|done]. intros id' t' Hl'. destruct Hwhy as [Hq|]; [|lia]. specialize (Hq id' t' Hl').
    rewrite Hnr in Hq. lia. }
  destruct (next_due_ms (w_loop w0)) as [due|] eqn:Hdue; [|by destruct (next_due_none w0 Hdue x t)].
  destruct (Z.ltb_spec r due).
  { injection Ha as <- <-. apply Hend; [|done]. intros id' t' Hl'%(proj2 (next_due_some w0 due Hdue)). rewrite Hnr in Hl'. lia. }
  assert (r < 2 ^ 31) as Hr31.
  { unfold r, tdiff. pose proof (i32_range (u32 (target - n))) as Hi. unfold is_i32 in Hi. lia. }
  rewrite <- Hnr in Ha. destruct (run_due_timers run_cb _) as [w1 fs1] eqn:Hrun.
  destruct (advance_loop run_cb fuel target w1) as [[w2 fs2]|] eqn:H2; [|done]. injection Ha as <- <-.
  destruct (pass_runs w0 w1 fs1 due t Hvr Hokr Hl Hdue ltac:(lia) Hrun) as [Hk Hpass].
  apply (advance_pass w0 w1 fs1 due) in Hrun as (Hv1 & Hok1 & Hq1 & Hn1 & _); try done; [|lia].
  rewrite Hnr in Hk, Hpass, Hn1. set (k := Z.max 0 due) in *.
  assert (0 <= t_interval_ms t < 2 ^ 31) as Hi.
  { pose proof (ok_times _ Hokr) as Ht. rewrite Forall_forall in Ht. destruct Hl as [Hin _]. rewrite list_elem_of_In in Hin.
    by apply Ht in Hin as [_ ?]. }
  rewrite (due_runs_pass n r k t); [|lia|unfold n; apply Hok|done|done]. rewrite runs_of_app.
  assert (tdiff target (u32 (n + k)) = r - k) as Hr1 by (apply tdiff_move; fold r; lia).
  assert (forall t', live_timer w1 x t' -> exists rest, due_runs (u32 (n + k)) (r - k) t' = runs_of x fs2 ++ rest /\
    (el_stop (w_loop w2) = true \/ rest = [])) as Hgo.
  { intros t' Hl'. destruct (IH w1 w2 fs2 t' H1 Hv1 Hok1) as (rest & Hrest); rewrite ?Hn1, ?Hr1 in *; [lia|by left|done|done|eauto]. }
  destruct (Z.max 0 (tdiff (t_due_ms t) n) =? k).
  - destruct Hpass as [-> Hafter]. destruct (0 <? t_interval_ms t).
    + destruct (Hgo _ Hafter) as (rest & -> & Hs). exists rest. split; [done|exact Hs].
    + destruct (di_spent _ _ _ (advance_loop_dispatched _ _ _ _ _ Hok1 H2) x Hafter) as [_ Hno].
      rewrite (runs_of_none _ _ Hno). exists []. split; [done|by right].
  - destruct Hpass as (-> & Hl1 & Hd1). destruct (Hgo _ Hl1) as (rest & Hrest & Hs). exists rest. split; [|exact Hs].
    unfold due_runs in Hrest. rewrite Hd1, Z.max_r in Hrest by lia. exact Hrest.
Qed.

Lemma advance_runs fuel ms w w' fs t (n := loop_now (w_loop w)) :
  1 <= lo -> is_virtual (el_clock (w_loop w)) = true -> loop_ok (w_loop w) -> 0 < ms < 2 ^ 31 ->
  live_timer w x t -> advance run_cb fuel ms w = Some (w', fs) ->
  exists rest, due_runs n ms t = runs_of x fs ++ rest /\ (el_stop (w_loop w') = true \/ rest = []).
Proof.
  intros H1 Hv Hok Hms Hl Ha. unfold advance in Ha. rewrite Hv in Ha. cbn [negb] in Ha. fold n in Ha.
  set (w0 := w <| w_loop ::= _ |>) in Ha.
  assert (tdiff (u32 (n + ms)) n = ms) as Hr by (apply tdiff_future; lia).
  destruct (advance_loop run_cb fuel _ w0) as [[w1 fs1]|] eqn:H2; [|done].
  destruct (advance_loop_runs (u32 (n + ms)) fuel w0 w1 fs1 t H1 Hv) as (rest & Hrest & Hs);
    [by refine (same_timers_ok _ _ _ _ _ Hok)|change (loop_now (w_loop w0)) with n; lia
    |right; change (loop_now (w_loop w0)) with n; lia|exact Hl|done|].
  change (loop_now (w_loop w0)) with n in Hrest. rewrite Hr in Hrest. injection Ha as <- <-. exists rest. split; [done|].
  destruct Hs as [E|]; [left; rewrite E; exact E|by right].
Qed.
End kept.
End dispatch_facts.

(** ** Theorems *)

Section theorems.
Context {CB FB U : Type} {lo : Z} (run_cb : CB -> World CB FB U -> World CB FB U).
Context (run_fd : FB -> Z -> World CB FB U -> World CB FB U).
Context `{!Client lo run_cb run_fd}.

(** C19. [advance] always returns when callbacks arm no timer at delay zero and every delay and
    interval is below 2^31 ms: one pass per millisecond is enough, whatever the callbacks arm,
    cancel or reschedule.  Unless one of them stopped the loop, the virtual clock then stands
    exactly [ms] later (modulo its wrap), so advances add up, and nothing that is still armed is
    due.  (A repeating timer of 2^31 ms or more is overdue again as soon as it has run, and
    [advance] does not come to an end; the configuration accepts such an advert interval.) *)
Theorem advance_terminates fuel ms (w : World CB FB U) :
  1 <= lo -> is_virtual (el_clock (w_loop w)) = true -> loop_ok (w_loop w) -> 0 < ms < 2 ^ 31 ->
  (Z.to_nat ms + 2 <= fuel)%nat ->
  exists w' fs, advance run_cb fuel ms w = Some (w', fs) /\ loop_ok (w_loop w') /\
    (el_stop (w_loop w') = true \/
     loop_now (w_loop w') = u32 (loop_now (w_loop w) + ms) /\ next_timeout_ms (w_loop w') <> 0 /\ quiet w').
Proof.
  intros H1 Hv Hok Hms Hf.
  destruct (advance_spec run_cb run_fd (lo := lo) ltac:(lia) fuel ms w H1 Hv Hok Hms Hf) as (w' & fs & -> & Hok' & Hend & _).
  exists w', fs. do 2 (split; [done|]). destruct Hend as [|[Hn Hq]]; [by left|right]. split; [done|]. split; [|done].
  unfold next_timeout_ms. destruct (next_due_ms (w_loop w')) as [d|] eqn:Hd; [|done].
  apply next_due_some in Hd as [(id & t & Hl & <-) _]. specialize (Hq id t Hl). destruct (Z.ltb_spec (tdiff (t_due_ms t) (loop_now (w_loop w'))) 0); lia.
Qed.

(** C18. While virtual time passes every timer that is armed runs, at the very instants it is due for and at no other: a
    one-shot once, a repeating one every interval after that, up to the end of the time asked for, each run being a call of
    its callback and the calls coming in order of time.  One that was already overdue runs at once; a callback that stops
    the loop cuts the runs off, and one that cancels the timer is excluded, as are delays of zero and delays and intervals
    from 2^31 ms on. *)
Theorem timers_fire_on_time (ran : U -> list CB) fuel ms (w w' : World CB FB U) fs :
  (forall cb w, ran (w_user (run_cb cb w)) = ran (w_user w) ++ [cb]) ->
  1 <= lo -> is_virtual (el_clock (w_loop w)) = true -> loop_ok (w_loop w) -> 0 < ms < 2 ^ 31 ->
  (Z.to_nat ms + 2 <= fuel)%nat ->
  advance run_cb fuel ms w = Some (w', fs) ->
  ran (w_user w') = ran (w_user w) ++ map f_cb fs /\
  fires_ok (loop_now (w_loop w)) ms (~ quiet w) fs /\ NoDup (one_shots fs) /\
  forall id t, live_timer w id t -> (forall cb w t, loop_ok (w_loop w) -> live_timer w id t -> live_timer (run_cb cb w) id t) ->
    exists rest, due_runs (loop_now (w_loop w)) ms t = runs_of id fs ++ rest /\ (el_stop (w_loop w') = true \/ rest = []).
Proof.
  intros Hran H1 Hv Hok Hms Hf Ha.
  destruct (advance_spec run_cb run_fd (lo := lo) ltac:(lia) fuel ms w H1 Hv Hok Hms Hf) as (w1 & fs1 & Ha1 & _ & _ & Hfs).
  split; [by eapply advance_ran|]. split; [congruence|].
  split; [eapply (di_once w); by eapply (advance_dispatched run_cb run_fd (lo := lo) ltac:(lia))|].
  intros id t Hl Hkeep. by eapply (advance_runs run_cb run_fd (lo := lo) ltac:(lia)).
Qed.

(** A cancelled timer never runs again: neither in later passes of [run], whatever
    [poll] reports, nor while virtual time is advanced; nor does a one-shot that already ran.
    Its identifier is not given out again. *)
Theorem cancelled_never_fires id es fuel ms (w w1 w2 : World CB FB U) returned fs1 fs2 :
  0 <= lo -> loop_ok (w_loop w) -> id < el_next_timer (w_loop w) -> Forall (fun e => is_u32 (pe_now e)) es ->
  run run_cb run_fd es (mkWorld (cancel_timer id (w_loop w)) (w_user w)) = (w1, returned, fs1) ->
  advance run_cb fuel ms w1 = Some (w2, fs2) ->
  ~ In id (map f_id (fs1 ++ fs2)) /\ NoDup (one_shots (fs1 ++ fs2)) /\ spent id w2 /\ loop_ok (w_loop w2).
Proof.
  intros Hlo Hok Hid Hes Hrun Ha. destruct (cancel_spent id w Hok Hid) as [Hsp Hok0].
  apply (run_dispatched run_cb run_fd Hlo) in Hrun as Hd; [|done..].
  pose proof (dispatched_app _ _ _ fs2 w2 Hd (fun Hok1 => advance_dispatched run_cb run_fd Hlo fuel ms w1 w2 fs2 Hok1 Ha))
    as [Hok2 Hs2 Ho2 _].
  destruct (Hs2 id Hsp) as [? Hni]. done.
Qed.
End theorems.

(** ** A client *)

Module Demo.

(** A repeating timer that counts, a one-shot that arms another 50 ms later, and one
    that stops the loop.  The program's state is the count and the callbacks that ran. *)
Inductive Cb := Count | Rearm | Quit.

Definition run_cb (cb : Cb) (w : World Cb unit (Z * list Cb)) : World Cb unit (Z * list Cb) :=
  let '(count, log) := w_user w in
  match cb with
  | Count => mkWorld (w_loop w) (count + 1, log ++ [cb])
  | Rearm =>
      mkWorld (if el_next_timer (w_loop w) <? 2 ^ 64 - 1 then (add_timer 50 Count (w_loop w)).2 else w_loop w) (count, log ++ [cb])
  | Quit => mkWorld (stop (w_loop w)) (count, log ++ [cb])
  end.

Definition run_fd (cb : unit) (ev : Z) (w : World Cb unit (Z * list Cb)) : World Cb unit (Z * list Cb) :=
  mkWorld (w_loop w) ((w_user w).1 + ev, (w_user w).2).

#[export] Instance client : Client 1 run_cb run_fd.
Proof.
  split.
  - intros cb [l [c log]]. destruct cb; cbn.
    + apply rtc_once. constructor.
    + eapply rtc_l; [apply call_user|]. destruct (Z.ltb_spec (el_next_timer l) (2 ^ 64 - 1)); [|apply rtc_refl].
      apply rtc_once. constructor; [lia|done].
    + eapply rtc_l; [apply call_user|]. apply rtc_once. constructor.
  - intros cb ev [l u]. apply rtc_once. constructor.
Qed.

(** Its callbacks cancel nothing. *)
Lemma keeps_timers id cb w t : loop_ok (w_loop w) -> live_timer w id t -> live_timer (run_cb cb w) id t.
Proof.
  destruct w as [l [c log]]. intros Hok [Hin Hl]. destruct cb; (split; [|done]); cbn in *; [done| |done].
  destruct (_ <? _); [|done]. cbn. apply om_find_elem. rewrite om_set_find_ne; [by apply om_elem_find; [apply Hok|]|].
  pose proof (ok_fresh _ Hok) as Hf. rewrite Forall_forall in Hf. rewrite list_elem_of_In in Hin. apply Hf in Hin. cbn in Hin. lia.
Qed.

(** Thirty milliseconds before the clock wraps. *)
Definition start : World Cb unit (Z * list Cb) :=
  let l := make_loop (mkClock true (2 ^ 32 - 30)) in
  let '(_, l) := add_repeating 40 Count l in
  let '(_, l) := add_timer 10 Rearm l in
  let '(_, l) := add_fd 3 1 tt l in
  mkWorld l (0, []).

Lemma start_ok : loop_ok (w_loop start).
Proof.
  apply (calls_keep 0 (fun w => loop_ok (w_loop w)) ltac:(intros w w'; by apply call_ok)
    (mkWorld (make_loop (mkClock true (2 ^ 32 - 30))) (0, []))).
  - unfold start. eapply rtc_l; [apply (call_add_repeating 0 40 Count); cbn; lia|].
    eapply rtc_l; [apply (call_add_timer 0 10 Rearm); [lia|reflexivity]|].
    eapply rtc_l; [apply (call_add_fd 0 3 1 tt)|]. apply rtc_refl.
  - apply make_loop_ok. cbn. width.
Qed.

Definition run_100 : World Cb unit (Z * list Cb) * list (Fire Cb) := default (start, []) (advance run_cb 102 100 start).

(** Across the wrap: the one-shot after 10 ms, the repeating timer after 40 and 80, and the
    one the first armed after 60. *)
Example run_100_fires :
  map (fun f => (f_id f, u32 (f_at f + 30))) run_100.2 = [(2, 10); (1, 40); (3, 60); (1, 80)] /\
  w_user run_100.1 = (3, [Rearm; Count; Count; Count]) /\ loop_now (w_loop run_100.1) = 70.
Proof. vm_compute. done. Qed.

(** With a descriptor ready, the pass of [run] on a virtual clock moves time all the same:
    the loop over descriptors has counted [n] down to zero. *)
Example ready_fd_moves_virtual_time :
  let '(w, _, _) := run_pass run_cb run_fd (mkPassEnv false (fun _ _ => PollReady [1]) 0 false) start in
  loop_now (w_loop w) = u32 (loop_now (w_loop start) + 10).
Proof. vm_compute. done. Qed.

Lemma advance_terminates_witness :
  exists w' fs, advance run_cb 102 100 start = Some (w', fs) /\ loop_ok (w_loop w') /\
    (el_stop (w_loop w') = true \/
     loop_now (w_loop w') = u32 (loop_now (w_loop start) + 100) /\ next_timeout_ms (w_loop w') <> 0 /\ quiet w').
Proof. apply (advance_terminates run_cb run_fd (lo := 1)); [lia|reflexivity|apply start_ok|lia|lia]. Defined.

Lemma timers_fire_on_time_witness :
  [Rearm; Count; Count; Count] = [] ++ map f_cb run_100.2 /\
  fires_ok (loop_now (w_loop start)) 100 (~ quiet start) run_100.2 /\ NoDup (one_shots run_100.2) /\
  exists rest, [(10, Count); (50, Count)] = runs_of 1 run_100.2 ++ rest /\ (el_stop (w_loop run_100.1) = true \/ rest = []).
Proof.
  destruct (timers_fire_on_time run_cb run_fd (lo := 1) snd 102 100 start run_100.1 run_100.2) as (E1 & E2 & E3 & E4);
    [|lia|reflexivity|apply start_ok|lia|lia|vm_compute; reflexivity|].
  - intros cb [l [c log]]. by destruct cb.
  - split; [exact E1|]. split; [exact E2|]. split; [exact E3|].
    refine (E4 1 (mkTimer 10 40 Count false) _ (keeps_timers 1)). split; [|done]. vm_compute. by left.
Defined.

Definition pass_env : PassEnv := mkPassEnv false (fun _ _ => PollReady [1]) 0 false.
Definition cancelled : World Cb unit (Z * list Cb) := mkWorld (cancel_timer 1 (w_loop start)) (w_user start).
Definition after_run : World Cb unit (Z * list Cb) * bool * list (Fire Cb) := run run_cb run_fd [pass_env; pass_env] cancelled.
Definition after_advance : World Cb unit (Z * list Cb) * list (Fire Cb) :=
  default (start, []) (advance run_cb 102 100 after_run.1.1).

Lemma cancelled_never_fires_witness :
  ~ In 1 (map f_id (after_run.2 ++ after_advance.2)) /\ NoDup (one_shots (after_run.2 ++ after_advance.2)) /\
  spent 1 after_advance.1 /\ loop_ok (w_loop after_advance.1).
Proof.
  apply (cancelled_never_fires run_cb run_fd (lo := 1) 1 [pass_env; pass_env] 102 100 start
           after_run.1.1 after_advance.1 after_run.1.2);
    [lia|apply start_ok|vm_compute; reflexivity|each; cbn; split; lia|vm_compute; reflexivity|vm_compute; reflexivity].
Defined.
End Demo.
