(* ===== verification/CText.v ===== *)
(** The C library's text conversions that the configuration uses: [strtoll] with base 0,
    [strtod], and [snprintf] with [%.*f] and [%.17g], in the C locale.  Doubles are the
    binary64 of [Floats]; both directions round correctly, to nearest even. *)

From S2P Require Import Prelude Floats Record.

(** What a conversion did: nothing (the end pointer stays at the start), or a value, whether
    [errno] was set to [ERANGE], and the text from the end pointer on. *)
Inductive Conversion (A : Type) := NoConversion | Converted (v : A) (range_error : bool) (rest : Str).
Arguments NoConversion {A}.
Arguments Converted {A} _ _ _.

Definition c_isspace (c : Z) : bool := (c =? 32) || ((9 <=? c) && (c <=? 13)).

Fixpoint skip_space (s : Str) : Str :=
  match s with c :: s' => if c_isspace c then skip_space s' else s | [] => [] end.

Definition take_sign (s : Str) : bool * Str :=
  match s with
  | c :: s' => if c =? 45 then (true, s') else if c =? 43 then (false, s') else (false, s)
  | [] => (false, [])
  end.

(** [std::tolower] on a byte, C locale. *)
Definition c_tolower (c : Z) : Z := if (65 <=? c) && (c <=? 90) then c + 32 else c.

Definition digit_of (base c : Z) : option Z :=
  let c := c_tolower c in
  let v := if is_digit c then c - 48 else if (97 <=? c) && (c <=? 122) then c - 87 else 36 in
  if v <? base then Some v else None.

(** The longest run of digits in [base], their value on top of [acc], their number. *)
Fixpoint span_base (base acc : Z) (s : Str) : Z * Z * Str :=
  match s with
  | [] => (acc, 0, [])
  | c :: s' =>
      match digit_of base c with
      | Some d => let '(v, n, r) := span_base base (acc * base + d) s' in (v, n + 1, r)
      | None => (acc, 0, s)
      end
  end.

Definition is_x (c : Z) : bool := c_tolower c =? 120.

(** Base 0: hexadecimal after [0x] when a digit follows, octal after [0], else decimal. *)
Definition choose_base (s : Str) : Z * Str :=
  match s with
  | z :: x :: d :: r =>
      if (z =? 48) && is_x x && bool_decide (is_Some (digit_of 16 d)) then (16, d :: r)
      else if z =? 48 then (8, s) else (10, s)
  | z :: _ => if z =? 48 then (8, s) else (10, s)
  | [] => (10, [])
  end.

Definition strtoll (text : Str) : Conversion Z :=
  let '(neg, s) := take_sign (skip_space text) in
  let '(base, s) := choose_base s in
  let '(m, n, rest) := span_base base 0 s in
  if n =? 0 then NoConversion
  else
    let v := if neg then - m else m in
    if v <? - 2 ^ 63 then Converted (- 2 ^ 63) true rest
    else if 2 ^ 63 <=? v then Converted (2 ^ 63 - 1) true rest
    else Converted v false rest.

(** ** [strtod] *)

(** The double nearest to [n / d]. *)
Definition d_of_ratio (neg : bool) (n d : positive) : double :=
  let '(mz, ez, lz) := SFdiv_core_binary 53 1024 (Z.pos n) 0 (Z.pos d) 0 in
  binary_round_aux 53 1024 neg mz ez lz.

(** [n / d] lies below the normal range and is not representable. *)
Definition underflows (n d : positive) (v : double) : bool :=
  (Z.pos n * 2 ^ 1022 <? Z.pos d) &&
  negb match v with S754_finite _ m e => Z.pos m * Z.pos d =? Z.pos n * 2 ^ (- e) | _ => false end.

Definition scaled (neg : bool) (m base e : Z) (rest : Str) : Conversion double :=
  match m * base ^ Z.max e 0, base ^ Z.max (- e) 0 with
  | Z.pos n, Z.pos d =>
      let v := d_of_ratio neg n d in
      Converted v (match v with S754_infinity _ => true | _ => underflows n d v end) rest
  | _, _ => Converted (S754_zero neg) false rest
  end.

(** An exponent is part of the number only if a digit follows the letter. *)
Definition take_exponent (letter : Z) (s : Str) : Z * Str :=
  match s with
  | c :: s' =>
      if c_tolower c =? letter then
        let '(neg, r) := take_sign s' in
        let '(v, n, rest) := span_base 10 0 r in
        if n =? 0 then (0, s) else (if neg then - v else v, rest)
      else (0, s)
  | [] => (0, [])
  end.

(** Digits around an optional point: their value, how many follow the point, how many there
    are in all. *)
Definition take_digits (base : Z) (s : Str) : Z * Z * Z * Str :=
  let '(v, n, r) := span_base base 0 s in
  match r with
  | p :: r' =>
      if p =? 46 then
        let '(v', k, r'') := span_base base v r' in
        if n + k =? 0 then (0, 0, 0, s) else (v', k, n + k, r'')
      else (v, 0, n, r)
  | [] => (v, 0, n, [])
  end.

Definition take_word (w : Str) (s : Str) : option Str :=
  if beq (map c_tolower (take (length w) s)) w then Some (drop (length w) s) else None.

(** The optional [(n-char-sequence)] after [nan]. *)
Fixpoint nan_payload (s : Str) : option Str :=
  match s with
  | c :: s => if c =? 41 then Some s
              else if bool_decide (is_Some (digit_of 36 c)) || (c =? 95) then nan_payload s else None
  | [] => None
  end.

Definition take_nan (s : Str) : Str :=
  match s with
  | c :: s' => if c =? 40 then default s (nan_payload s') else s
  | [] => []
  end.

Definition strtod (text : Str) : Conversion double :=
  let '(neg, s) := take_sign (skip_space text) in
  match take_word (lit "infinity") s, take_word (lit "inf") s, take_word (lit "nan") s with
  | Some r, _, _ => Converted (S754_infinity neg) false r
  | None, Some r, _ => Converted (S754_infinity neg) false r
  | None, None, Some r => Converted S754_nan false (take_nan r)
  | None, None, None =>
      let hex :=
        match s with
        | z :: x :: s' => if (z =? 48) && is_x x then
                            let '(v, k, n, r) := take_digits 16 s' in
                            if n =? 0 then None else Some (v, k, r)
                          else None
        | _ => None
        end in
      match hex with
      | Some (v, k, r) => let '(e, r) := take_exponent 112 r in scaled neg v 2 (e - 4 * k) r
      | None =>
          let '(v, k, n, r) := take_digits 10 s in
          if n =? 0 then NoConversion
          else let '(e, r) := take_exponent 101 r in scaled neg v 10 (e - k) r
      end
  end.

(** ** [snprintf] *)

(** [n / d] to the nearest integer, ties to even. *)
Definition round_half_even (n d : Z) : Z :=
  let q := n / d in
  let r := n mod d in
  if (2 * r <? d) || ((2 * r =? d) && Z.even q) then q else q + 1.

(** [m * 2^e * 10^k] to the nearest integer. *)
Definition scale_round (m e k : Z) : Z :=
  round_half_even (m * 10 ^ Z.max k 0 * 2 ^ Z.max e 0) (2 ^ Z.max (- e) 0 * 10 ^ Z.max (- k) 0).

Definition dec_text (n : Z) : Str := dec_digits (S (Z.to_nat (Z.log2 n))) n.

(** At least [w] digits. *)
Definition pad_zeros (w : nat) (ds : Str) : Str := replicate (w - length ds) 48 ++ ds.

Definition insert_point (decimals : nat) (ds : Str) : Str :=
  match decimals with
  | O => ds
  | _ => take (length ds - decimals) ds ++ 46 :: drop (length ds - decimals) ds
  end.

Definition sign_text (neg : bool) : Str := if neg then [45] else [].

(** [%.*f] *)
Definition print_fixed (decimals : nat) (v : double) : Str :=
  match v with
  | S754_finite neg m e =>
      sign_text neg ++
      insert_point decimals (pad_zeros (S decimals) (dec_text (scale_round (Z.pos m) e (Z.of_nat decimals))))
  | S754_zero neg => sign_text neg ++ insert_point decimals (replicate (S decimals) 48)
  | S754_infinity neg => sign_text neg ++ lit "inf"
  | S754_nan => lit "nan"
  end.

Fixpoint drop_zeros (rev_ds : Str) : Str :=
  match rev_ds with c :: r => if c =? 48 then drop_zeros r else rev_ds | [] => [] end.

(** The exponent [x] with [10^x <= m * 2^e < 10^(x+1)], searched upwards from [x]. *)
Fixpoint find_exponent (fuel : nat) (m e x : Z) : Z :=
  match fuel with
  | O => x
  | S fuel =>
      if m * 2 ^ Z.max e 0 * 10 ^ Z.max (- (x + 1)) 0 <? 2 ^ Z.max (- e) 0 * 10 ^ Z.max (x + 1) 0 then x
      else find_exponent fuel m e (x + 1)
  end.

Definition join_fraction (i f : Str) : Str := match f with [] => i | _ => i ++ 46 :: f end.

(** [%.17g] *)
Definition print_g17 (v : double) : Str :=
  match v with
  | S754_finite neg m e =>
      let x := find_exponent 640 (Z.pos m) e (-325) in
      let d := scale_round (Z.pos m) e (16 - x) in
      let '(d, x) := if d =? 10 ^ 17 then (10 ^ 16, x + 1) else (d, x) in
      let ds := dec_text d in
      sign_text neg ++
      if (-4 <=? x) && (x <? 17) then
        let ds := pad_zeros (Z.to_nat (17 - x)) ds in
        let int_digits := Z.to_nat (Z.of_nat (length ds) - (16 - x)) in
        join_fraction (take int_digits ds) (rev (drop_zeros (rev (drop int_digits ds))))
      else
        join_fraction (take 1 ds) (rev (drop_zeros (rev (drop 1 ds)))) ++
        101 :: (if x <? 0 then 45 else 43) :: pad_zeros 2 (dec_text (Z.abs x))
  | S754_zero neg => sign_text neg ++ [48]
  | S754_infinity neg => sign_text neg ++ lit "inf"
  | S754_nan => lit "nan"
  end.

(** [snprintf(buf, size, ...)] keeps what fits beside the terminating nul. *)
Definition snprintf (size : nat) (text : Str) : Str := take (size - 1) text.

Example strtoll_bases :
  map strtoll [lit "42"; lit " -0x2A"; lit "052"; lit "0x"; lit "9223372036854775808"; lit "x"] =
  [Converted 42 false []; Converted (-42) false []; Converted 42 false []; Converted 0 false (lit "x");
   Converted (2 ^ 63 - 1) true []; NoConversion].
Proof. vm_compute. done. Qed.

Example strtod_forms :
  map strtod [lit "869.618"; lit "-1e3x"; lit "0x1.8p1"; lit ".5"; lit "1e999"; lit "1e-320"; lit "inf"; lit "."] =
  [Converted (d_lit 869618 3) false []; Converted (d_of_Z (-1000)) false (lit "x"); Converted (d_of_Z 3) false [];
   Converted (d_lit 5 1) false []; Converted (S754_infinity false) true [];
   Converted (S754_finite false 2024 (-1074)) true []; Converted (S754_infinity false) false []; NoConversion].
Proof. vm_compute. done. Qed.

Example print_forms :
  [print_fixed 3 (d_lit 869618 3); print_fixed 0 (d_of_Z 100); print_fixed 1 (d_lit (-5) 2); print_g17 (d_lit 1 1);
   print_g17 (d_of_Z (10 ^ 17)); print_g17 (d_lit 1 20)] =
  [lit "869.618"; lit "100"; lit "-0.1"; lit "0.10000000000000001"; lit "1e+17"; lit "9.9999999999999995e-21"].
Proof. vm_compute. done. Qed.

(** ** Reading decimal numbers back *)

Abbreviation digits := (Forall (fun c => is_digit c = true)).

Lemma is_digit_range c : is_digit c = true <-> 48 <= c <= 57.
Proof. unfold is_digit. rewrite andb_true_iff, !Z.leb_le. done. Qed.

Lemma digit_of_digit c : is_digit c = true -> digit_of 10 c = Some (c - 48).
Proof.
  intros Hd. pose proof Hd as [H1 H2]%is_digit_range. unfold digit_of.
  assert (c_tolower c = c) as ->. { unfold c_tolower. destruct (Z.leb_spec 65 c); [lia|done]. }
  rewrite Hd. by rewrite (proj2 (Z.ltb_lt _ _)) by lia.
Qed.

(** A run of digits that ends the text or meets a byte that is none. *)
Lemma span_base_digits ds : forall acc r,
  digits ds -> span_base 10 0 r = (0, 0, r) -> (forall a, span_base 10 a r = (a, 0, r)) ->
  span_base 10 acc (ds ++ r) = (fold_left (fun a c => a * 10 + (c - 48)) ds acc, zlen ds, r).
Proof.
  induction ds as [|c ds IH]; intros acc r Hd H0 Hr; simpl; [by rewrite Hr|].
  apply Forall_cons_iff in Hd as [Hc Hd]. rewrite digit_of_digit by done. rewrite IH by done.
  by rewrite zlen_cons.
Qed.

Lemma span_base_end a : span_base 10 a [] = (a, 0, []).
Proof. done. Qed.

Lemma span_base_point a f : span_base 10 a (46 :: f) = (a, 0, 46 :: f).
Proof. done. Qed.

Lemma digit_not_special c : is_digit c = true -> c_isspace c = false /\ c <> 45 /\ c <> 43 /\ is_x c = false.
Proof.
  intros [H1 H2]%is_digit_range. unfold c_isspace, is_x, c_tolower.
  destruct (Z.leb_spec 65 c); [lia|]. cbn [andb]. repeat split; lia.
Qed.

Lemma take_sign_digit neg c s :
  is_digit c = true -> take_sign (skip_space (sign_text neg ++ c :: s)) = (neg, c :: s).
Proof.
  intros Hc. destruct (digit_not_special c Hc) as (Hsp & H1 & H2 & _). destruct neg; cbn [sign_text app skip_space].
  - cbn. done.
  - rewrite Hsp. unfold take_sign. by rewrite (proj2 (Z.eqb_neq _ _) H1), (proj2 (Z.eqb_neq _ _) H2).
Qed.

Lemma take_word_digit w0 w c s :
  is_digit c = true -> 97 <= w0 -> take_word (w0 :: w) (c :: s) = None.
Proof.
  intros [H1 H2]%is_digit_range Hw. unfold take_word. cbn [length take map].
  assert (c_tolower c = c) as ->. { unfold c_tolower. destruct (Z.leb_spec 65 c); [lia|done]. }
  by rewrite (proj2 (beq_neq _ _)) by (intros [= ]; lia).
Qed.

(** Digits with an optional fraction: what [%.*f] writes, or a prefix of it. *)
Definition decimal_text (neg : bool) (i : Str) (f : option Str) : Str :=
  sign_text neg ++ i ++ match f with Some f => 46 :: f | None => [] end.

Definition fraction (f : option Str) : Str := default [] f.

Lemma take_digits_decimal i f :
  i <> [] -> digits i -> digits (fraction f) ->
  take_digits 10 (i ++ match f with Some f => 46 :: f | None => [] end) =
  (digits_value (i ++ fraction f), zlen (fraction f), zlen i + zlen (fraction f), []).
Proof.
  intros Hne Hi Hf. unfold take_digits. destruct f as [f|]; cbn [fraction default from_option id] in *.
  - rewrite span_base_digits by done. rewrite Z.eqb_refl.
    pose proof (span_base_digits f (fold_left (fun a c => a * 10 + (c - 48)) i 0) [] Hf eq_refl (fun _ => eq_refl)) as Hsp.
    rewrite app_nil_r in Hsp. rewrite Hsp. rewrite (proj2 (Z.eqb_neq _ _)).
    + unfold digits_value. by rewrite fold_left_app.
    + destruct i; [done|]. rewrite zlen_cons. pose proof (zlen_nonneg i). pose proof (zlen_nonneg f). lia.
  - rewrite span_base_digits by done. rewrite app_nil_r. unfold digits_value, zlen. f_equal. f_equal. simpl. lia.
Qed.

Lemma strtod_decimal neg i f :
  i <> [] -> digits i -> digits (fraction f) ->
  strtod (decimal_text neg i f) = scaled neg (digits_value (i ++ fraction f)) 10 (- zlen (fraction f)) [].
Proof.
  intros Hne Hi Hf. pose proof (take_digits_decimal i f Hne Hi Hf) as Htd.
  destruct i as [|c i]; [done|]. apply Forall_cons_iff in Hi as [Hc Hi].
  unfold decimal_text, strtod. cbn [app] in *. rewrite take_sign_digit by done.
  change (lit "infinity") with (105 :: lit "nfinity"). change (lit "inf") with (105 :: lit "nf").
  change (lit "nan") with (110 :: lit "an"). rewrite !take_word_digit by (done || lia).
  rewrite Htd.
  match goal with |- context [match ?hex with Some _ => _ | None => _ end] => replace hex with (@None (Z * Z * Str)) end.
  - rewrite (proj2 (Z.eqb_neq _ _)).
    + cbn [take_exponent]. f_equal.
    + rewrite zlen_cons. pose proof (zlen_nonneg i). pose proof (zlen_nonneg (fraction f)). lia.
  - destruct i as [|x i]; cbn [app].
    + destruct f; [|done]. cbn. by rewrite andb_false_r.
    + apply Forall_cons_iff in Hi as [Hx' _]. destruct (digit_not_special x Hx') as (_ & _ & _ & ->). by rewrite andb_false_r.
Qed.

(** No fixed-point text of moderate length over- or underflows unless it reads as infinity. *)
Lemma scaled_in_range neg m k r :
  0 <= m -> 0 <= k <= 300 ->
  match scaled neg m 10 (- k) r with
  | Converted v range_error rest =>
      rest = r /\ (is_Some (match v with S754_infinity _ => None | _ => Some tt end) -> range_error = false)
  | NoConversion => False
  end.
Proof.
  intros Hm Hk. unfold scaled. rewrite Z.max_r by lia. rewrite Z.pow_0_r, Z.mul_1_r, Z.opp_involutive, Z.max_l by lia.
  destruct m as [|n|n]; [done| |lia]. destruct (10 ^ k) as [|d|d] eqn:Hd; [done| |done].
  split; [done|]. destruct (d_of_ratio neg n d); try done; intros _; unfold underflows;
    (replace (Z.pos n * 2 ^ 1022 <? Z.pos d) with false; [done|]; symmetry; apply Z.ltb_ge; rewrite <- Hd;
     transitivity (10 ^ 300); [apply Z.pow_le_mono_r; lia|];
     transitivity (2 ^ 1022); [by vm_compute|]; lia).
Qed.

(** ** Integers *)

Lemma dec_digits_head fuel n :
  0 < n < 10 ^ Z.of_nat fuel -> exists c ds, dec_digits fuel n = c :: ds /\ 49 <= c <= 57.
Proof.
  revert n. induction fuel as [|fuel IH]; intros n Hn; [simpl in Hn; lia|]. simpl. destruct (Z.ltb_spec n 10).
  - eexists _, []. split; [reflexivity|]. rewrite Z.mod_small; lia.
  - destruct (IH (n / 10)) as (c & ds & -> & Hc).
    { rewrite Nat2Z.inj_succ, Z.pow_succ_r in Hn by lia. split; [apply Z.div_str_pos; lia|].
      apply Z.div_lt_upper_bound; lia. }
    exists c, (ds ++ [48 + n mod 10]). done.
Qed.

Lemma choose_base_decimal c ds : 49 <= c <= 57 -> choose_base (c :: ds) = (10, c :: ds).
Proof.
  intros Hc. unfold choose_base. rewrite (proj2 (Z.eqb_neq c 48)) by lia. cbn [andb].
  by destruct ds as [|x [|d r]].
Qed.

Lemma strtoll_digits neg m :
  0 < m <= 2 ^ 63 -> (neg = false -> m < 2 ^ 63) ->
  strtoll (sign_text neg ++ dec_digits 20 m) = Converted (if neg then - m else m) false [].
Proof.
  intros Hm Hpos. assert (m < 10 ^ Z.of_nat 20) by (change (10 ^ Z.of_nat 20) with 100000000000000000000; lia).
  destruct (dec_digits_spec 20 m) as [Hv Hf]; [lia|]. destruct (dec_digits_head 20 m) as (c & ds & E & Hc); [lia|].
  rewrite E in *. unfold strtoll. rewrite take_sign_digit by (apply is_digit_range; lia).
  rewrite choose_base_decimal by done. rewrite <- (app_nil_r (c :: ds)), span_base_digits by done.
  unfold digits_value in Hv. rewrite Hv.
  rewrite (proj2 (Z.eqb_neq _ _)) by (rewrite zlen_cons; pose proof (zlen_nonneg ds); lia).
  destruct neg.
  - rewrite (proj2 (Z.ltb_ge _ _)), (proj2 (Z.leb_gt _ _)) by lia. done.
  - specialize (Hpos eq_refl). rewrite (proj2 (Z.ltb_ge _ _)), (proj2 (Z.leb_gt _ _)) by lia. done.
Qed.

(** [std::to_string] and [strtoll] with base 0 agree on every [int64_t]. *)
Lemma strtoll_show n : - 2 ^ 63 <= n < 2 ^ 63 -> strtoll (show_int n) = Converted n false [].
Proof.
  intros Hn. unfold show_int. destruct (Z.ltb_spec n 0).
  - change (45 :: dec_digits 20 (- n)) with (sign_text true ++ dec_digits 20 (- n)).
    rewrite strtoll_digits by lia. by rewrite Z.opp_involutive.
  - destruct (decide (n = 0)) as [->|]; [done|].
    change (dec_digits 20 n) with (sign_text false ++ dec_digits 20 n). rewrite strtoll_digits by lia. done.
Qed.

(** ** What [%.*f] writes *)

Definition d_sign (v : double) : bool :=
  match v with S754_zero s | S754_infinity s | S754_finite s _ _ => s | S754_nan => false end.

Lemma dec_text_digits n : 0 <= n -> digits (dec_text n).
Proof.
  intros Hn. apply dec_digits_spec. split; [done|].
  rewrite Nat2Z.inj_succ, Z2Nat.id by apply Z.log2_nonneg.
  destruct (decide (n = 0)) as [->|]; [done|]. apply Z.lt_le_trans with (2 ^ Z.succ (Z.log2 n)).
  - apply Z.log2_spec. lia.
  - apply Z.pow_le_mono_l. lia.
Qed.

Lemma round_half_even_nonneg n d : 0 <= n -> 0 < d -> 0 <= round_half_even n d.
Proof.
  intros Hn Hd. unfold round_half_even. pose proof (Z.div_pos n d Hn Hd). destruct (_ || _); lia.
Qed.

Lemma pad_zeros_spec w ds : digits ds -> digits (pad_zeros w ds) /\ (w <= length (pad_zeros w ds))%nat.
Proof.
  intros Hd. unfold pad_zeros. rewrite length_app, length_replicate. split; [|lia].
  apply Forall_app. split; [|done]. apply Forall_replicate. done.
Qed.

Lemma insert_point_shape k ds :
  digits ds -> (k < length ds)%nat ->
  exists i f, insert_point k ds = i ++ match f with Some f => 46 :: f | None => [] end /\
    i <> [] /\ digits i /\ digits (fraction f) /\ (length (fraction f) <= k)%nat.
Proof.
  intros Hd Hk. destruct k as [|k].
  - exists ds, None. cbn. rewrite app_nil_r. destruct ds; [cbn in Hk; lia|]. repeat split; [done..|constructor|lia].
  - exists (take (length ds - S k) ds), (Some (drop (length ds - S k) ds)). cbn [insert_point fraction default from_option id].
    split; [done|]. split; [|split; [by apply Forall_take|split; [by apply Forall_drop|rewrite length_drop; lia]]].
    intros Hnil. apply (f_equal length) in Hnil. rewrite length_take in Hnil. cbn in *. lia.
Qed.

(** [std::isfinite] *)
Definition is_finite (v : double) : bool := match v with S754_zero _ | S754_finite _ _ _ => true | _ => false end.

Lemma print_fixed_shape k v :
  is_finite v = true -> exists i f, print_fixed k v = decimal_text (d_sign v) i f /\
    i <> [] /\ digits i /\ digits (fraction f) /\ (length (fraction f) <= k)%nat.
Proof.
  intros Hf. destruct v as [s| | |s m e]; try done; cbn [print_fixed d_sign]; unfold decimal_text.
  - destruct (insert_point_shape k (replicate (S k) 48)) as (i & f & -> & H); [by apply Forall_replicate|rewrite length_replicate; lia|].
    exists i, f. done.
  - set (ds := pad_zeros _ _).
    destruct (pad_zeros_spec (S k) (dec_text (scale_round (Z.pos m) e (Z.of_nat k)))) as [Hd Hl].
    { apply dec_text_digits, round_half_even_nonneg; [apply Z.mul_nonneg_nonneg; [|lia]; lia|].
      apply Z.mul_pos_pos; apply Z.pow_pos_nonneg; lia. }
    destruct (insert_point_shape k ds) as (i & f & -> & H); [done|unfold ds; lia|]. exists i, f. done.
Qed.

(** Cutting such a text short leaves a decimal number. *)
Lemma take_decimal_shape n neg i f :
  (2 <= n)%nat -> i <> [] -> digits i -> digits (fraction f) ->
  exists i' f', take n (decimal_text neg i f) = decimal_text neg i' f' /\
    i' <> [] /\ digits i' /\ digits (fraction f') /\ (length (fraction f') <= length (fraction f))%nat.
Proof.
  intros Hn Hne Hi Hf. unfold decimal_text. rewrite take_app.
  rewrite take_ge by (destruct neg; cbn; lia). set (n' := (n - length (sign_text neg))%nat).
  assert (1 <= n')%nat by (subst n'; destruct neg; cbn; lia). rewrite take_app.
  destruct (decide (n' <= length i)%nat).
  - exists (take n' i), None. replace (n' - length i)%nat with 0%nat by lia. cbn [fraction default from_option id].
    split; [done|]. split; [destruct i, n'; done || lia|]. split; [by apply Forall_take|]. split; [constructor|cbn; lia].
  - rewrite take_ge by lia. exists i, (take (n' - length i - 1) <$> f). split.
    + destruct f; cbn [fmap option_fmap option_map]; [|by rewrite take_nil].
      replace (n' - length i)%nat with (S (n' - length i - 1)) by lia. cbn. by rewrite Nat.sub_0_r.
    + destruct f; cbn [fraction default from_option id fmap option_fmap option_map] in *; split_and!; try done; [by apply Forall_take|].
      rewrite length_take. lia.
Qed.

Lemma snprintf_fixed_shape k v :
  is_finite v = true -> exists i f, snprintf 64 (print_fixed k v) = decimal_text (d_sign v) i f /\
    i <> [] /\ digits i /\ digits (fraction f) /\ (length (fraction f) <= k)%nat.
Proof.
  intros Hf. destruct (print_fixed_shape k v Hf) as (i & f & -> & Hne & Hi & Hf' & Hl). unfold snprintf.
  destruct (take_decimal_shape (64 - 1) (d_sign v) i f) as (i' & f' & -> & H1 & H2 & H3 & H4); [lia|done..|].
  exists i', f'. split_and!; try done. lia.
Qed.
