(* ===== verification/FloatFacts.v ===== *)
(** Error bounds for binary64, from the definition of rounding in [SpecFloat].

    The value of a double is a rational; a normal product or quotient lies within one unit in
    the last place of the exact one.  That is enough to see that a position kept in
    millionths of a degree survives the trip through degrees. *)

From S2P Require Import Prelude Floats CText.
From Stdlib Require Import QArith Qpower Qabs Lqa.

Local Open Scope Z_scope.

(** ** Powers of two as rationals *)

Definition p2 (e : Z) : Q := Qpower 2 e.

Lemma p2_pos e : (0 < p2 e)%Q.
Proof. apply Qpower_0_lt. reflexivity. Qed.

Lemma p2_plus a b : (p2 (a + b) == p2 a * p2 b)%Q.
Proof. apply Qpower_plus. discriminate. Qed.

Lemma p2_Z n : 0 <= n -> (p2 n == inject_Z (2 ^ n))%Q.
Proof. intros Hn. symmetry. by apply (Zpower_Qpower 2 n). Qed.

(** ** Shifting right *)

Lemma shr_1_spec mrs : 0 <= shr_m mrs -> shr_m (shr_1 mrs) = shr_m mrs / 2.
Proof.
  destruct mrs as [m r s]. intros Hm. rewrite <- Z.div2_div. cbn [shr_m] in *.
  by destruct m as [|[p|p|]|p].
Qed.

Lemma pow2_double x : 0 <= x -> 2 ^ (2 * x) = 2 ^ x * 2 ^ x.
Proof. intros Hx. rewrite <- Z.pow_add_r by lia. f_equal. lia. Qed.

Lemma iter_shr_spec p : forall mrs,
  0 <= shr_m mrs -> shr_m (SpecFloat.iter_pos shr_1 p mrs) = shr_m mrs / 2 ^ Z.pos p.
Proof.
  assert (forall p, 0 < 2 ^ Z.pos p) as Hpos by (intros; apply Z.pow_pos_nonneg; lia).
  assert (forall a p, 0 <= a -> 0 <= a / 2 ^ Z.pos p) as Hnn.
  { intros a q Ha. apply Z.div_pos; [done|apply Hpos]. }
  induction p as [p IH|p IH|]; intros mrs Hm; cbn [SpecFloat.iter_pos]; try pose proof (Hpos p) as Hpp.
  - assert (0 <= shr_m (shr_1 mrs)) as H1. { rewrite shr_1_spec by done. apply Z.div_pos; lia. }
    rewrite IH, IH, shr_1_spec by (done || (rewrite IH by done; by apply Hnn)).
    rewrite !Z.div_div by lia. f_equal.
    rewrite (Pos2Z.inj_xI p), Z.pow_add_r, pow2_double by lia. ring.
  - rewrite IH, IH by (done || (rewrite IH by done; by apply Hnn)).
    rewrite Z.div_div by lia. f_equal. by rewrite (Pos2Z.inj_xO p), pow2_double by lia.
  - by rewrite shr_1_spec.
Qed.

Lemma digits_bounds p : 2 ^ (Z.pos (digits2_pos p) - 1) <= Z.pos p < 2 ^ Z.pos (digits2_pos p).
Proof.
  induction p as [p IH|p IH|]; cbn [digits2_pos]; [| |done]; rewrite Pos2Z.inj_succ;
    replace (Z.succ (Z.pos (digits2_pos p)) - 1) with (Z.succ (Z.pos (digits2_pos p) - 1)) by lia;
    rewrite !Z.pow_succ_r by lia; lia.
Qed.

Lemma digits_unique p d : 1 <= d -> 2 ^ (d - 1) <= Z.pos p < 2 ^ d -> Z.pos (digits2_pos p) = d.
Proof.
  intros Hd [H1 H2]. pose proof (digits_bounds p) as [H3 H4].
  assert (d - 1 < Z.pos (digits2_pos p)) by (apply (Z.pow_lt_mono_r_iff 2); lia).
  assert (Z.pos (digits2_pos p) - 1 < d) by (apply (Z.pow_lt_mono_r_iff 2); lia). lia.
Qed.

Lemma shr_record_of_loc_m m l : shr_m (shr_record_of_loc m l) = m.
Proof. by destruct l as [|[]]. Qed.

(** With [n] bits to spare, the mantissa loses exactly those. *)
Lemma shr_fexp_spec p e l n :
  Z.pos (digits2_pos p) = 53 + n -> 0 <= n -> -1074 <= e + n ->
  let '(mrs, e') := shr_fexp 53 1024 (Z.pos p) e l in shr_m mrs = Z.pos p / 2 ^ n /\ e' = e + n.
Proof.
  intros Hd Hn He. unfold shr_fexp. cbn [Zdigits2]. rewrite Hd. unfold fexp.
  change (SpecFloat.emin 53 1024) with (-1074). replace (Z.max (53 + n + e - 53) (-1074) - e) with n by lia.
  unfold shr. destruct n as [|q|q]; [| |lia].
  - rewrite shr_record_of_loc_m, Z.pow_0_r, Z.div_1_r. split; [done|lia].
  - rewrite iter_shr_spec; rewrite shr_record_of_loc_m; [done|lia].
Qed.

(** ** Rounding *)

Lemma round_nearest_even_near m l : 0 <= m -> m <= round_nearest_even m l <= m + 1.
Proof. intros Hm. destruct l as [|[]]; cbn; try lia. destruct (Z.even m); lia. Qed.

(** A positive mantissa of at least 53 digits, in the exponent range of normal numbers,
    rounds to a normal number within one unit in the last place. *)
Lemma round_aux_spec s p e l n :
  Z.pos (digits2_pos p) = 53 + n -> 0 <= n -> -1074 <= e + n < 971 ->
  exists m e', binary_round_aux 53 1024 s (Z.pos p) e l = S754_finite s m e' /\
    2 ^ 52 <= Z.pos m < 2 ^ 53 /\ e + n <= e' <= e + n + 1 /\
    let k := 2 ^ (e' - (e + n)) in
    Z.pos p / 2 ^ n <= Z.pos m * k <= Z.pos p / 2 ^ n + 1.
Proof.
  intros Hd Hn He. unfold binary_round_aux.
  pose proof (shr_fexp_spec p e l n Hd Hn ltac:(lia)) as H1.
  destruct (shr_fexp 53 1024 (Z.pos p) e l) as [mrs e1]. destruct H1 as [Hm ->].
  assert (0 < 2 ^ n) as Hp by (apply Z.pow_pos_nonneg; lia).
  pose proof (digits_bounds p) as [Hlo Hhi]. rewrite Hd in Hlo, Hhi.
  assert (2 ^ 52 <= shr_m mrs < 2 ^ 53) as Hq.
  { rewrite Hm. replace (53 + n - 1) with (52 + n) in Hlo by lia. rewrite Z.pow_add_r in Hlo, Hhi by lia. split.
    - apply Z.div_le_lower_bound; lia.
    - apply Z.div_lt_upper_bound; lia. }
  pose proof (round_nearest_even_near (shr_m mrs) (loc_of_shr_record mrs) ltac:(lia)) as Hr.
  rewrite <- Hm. clear Hm. generalize dependent (round_nearest_even (shr_m mrs) (loc_of_shr_record mrs)). intros r0 Hr.
  destruct r0 as [|r|r]; [lia| |lia].
  destruct (decide (Z.pos r < 2 ^ 53)) as [Hsmall|Hcarry].
  - pose proof (shr_fexp_spec r (e + n) loc_Exact 0) as H2.
    rewrite (digits_unique r 53) in H2 by (try change (2 ^ (53 - 1)) with (2 ^ 52); lia).
    specialize (H2 eq_refl ltac:(lia) ltac:(lia)).
    destruct (shr_fexp 53 1024 (Z.pos r) (e + n) loc_Exact) as [mrs2 e2]. destruct H2 as [-> ->].
    rewrite Z.pow_0_r, Z.div_1_r, Z.add_0_r, (proj2 (Z.leb_le _ _)) by lia.
    exists r, (e + n). rewrite Z.sub_diag, Z.pow_0_r. split; [done|]. lia.
  - assert (Z.pos r = 2 ^ 53) as Heq by lia.
    pose proof (shr_fexp_spec r (e + n) loc_Exact 1) as H2.
    rewrite (digits_unique r 54) in H2 by (rewrite ?Heq; try change (2 ^ (54 - 1)) with (2 ^ 53); lia).
    specialize (H2 eq_refl ltac:(lia) ltac:(lia)).
    destruct (shr_fexp 53 1024 (Z.pos r) (e + n) loc_Exact) as [mrs2 e2]. destruct H2 as [-> ->].
    rewrite Heq. change (2 ^ 53 / 2 ^ 1) with (Z.pos (2 ^ 52)). rewrite (proj2 (Z.leb_le _ _)) by lia.
    exists (2 ^ 52)%positive, (e + n + 1). replace (e + n + 1 - (e + n)) with 1 by lia. split; [done|].
    change (Z.pos (2 ^ 52)) with (2 ^ 52) in *. lia.
Qed.

(** The rational a double denotes. *)
Definition dval (d : double) : Q :=
  match d with
  | S754_finite s m e => (inject_Z (if s then Z.neg m else Z.pos m) * p2 e)%Q
  | _ => 0
  end.

(** One part in [2^52]. *)
Definition eps : Q := 1 # (2 ^ 52).

Lemma round_aux_close s p e l n (x : Q) :
  Z.pos (digits2_pos p) = 53 + n -> 0 <= n -> -1074 <= e + n < 971 ->
  (inject_Z (Z.pos p) * p2 e <= x <= inject_Z (Z.pos p + 1) * p2 e)%Q ->
  exists m e', binary_round_aux 53 1024 s (Z.pos p) e l = S754_finite s m e' /\
    2 ^ 52 <= Z.pos m < 2 ^ 53 /\ e + n <= e' <= e + n + 1 /\
    (Qabs (inject_Z (Z.pos m) * p2 e' - x) <= eps * (inject_Z (Z.pos m) * p2 e'))%Q.
Proof.
  intros Hd Hn He [Hx1 Hx2]. destruct (round_aux_spec s p e l n Hd Hn He) as (m & e' & -> & Hm & He' & Hk).
  exists m, e'. split; [done|]. split; [done|]. split; [done|]. cbn zeta in Hk.
  assert (0 < 2 ^ n) as Hp by (apply Z.pow_pos_nonneg; lia).
  set (k := 2 ^ (e' - (e + n))) in *. set (q := Z.pos p / 2 ^ n) in *.
  assert (1 <= k) as Hk1. { unfold k. apply (Z.pow_le_mono_r 2 0). all: lia. }
  assert (q * 2 ^ n <= Z.pos p /\ Z.pos p + 1 <= (q + 1) * 2 ^ n) as [Hq1 Hq2].
  { unfold q. pose proof (Z.div_mod (Z.pos p) (2 ^ n) ltac:(lia)). pose proof (Z.mod_pos_bound (Z.pos p) (2 ^ n) Hp). lia. }
  set (u := p2 (e + n)). pose proof (p2_pos (e + n)) as Hu. fold u in Hu.
  assert (p2 e' == inject_Z k * u)%Q as Ee'.
  { unfold u, k. rewrite <- p2_Z by lia. rewrite <- p2_plus. replace (e' - (e + n) + (e + n)) with e' by lia. reflexivity. }
  assert (u == inject_Z (2 ^ n) * p2 e)%Q as Eu.
  { unfold u. rewrite <- p2_Z by lia. rewrite <- p2_plus. replace (n + e) with (e + n) by lia. reflexivity. }
  assert (inject_Z q * u <= x)%Q as Hxq.
  { rewrite Eu. rewrite Qmult_assoc, <- inject_Z_mult. eapply Qle_trans; [|exact Hx1].
    apply Qmult_le_compat_r; [by rewrite <- Zle_Qle|]. apply Qlt_le_weak, p2_pos. }
  assert (x <= inject_Z (q + 1) * u)%Q as Hxq'.
  { rewrite Eu. rewrite Qmult_assoc, <- inject_Z_mult. eapply Qle_trans; [exact Hx2|].
    apply Qmult_le_compat_r; [by rewrite <- Zle_Qle|]. apply Qlt_le_weak, p2_pos. }
  assert (inject_Z (Z.pos m) * (inject_Z k * u) == inject_Z (Z.pos m * k) * u)%Q as Em by (rewrite inject_Z_mult; ring).
  rewrite Ee', Em.
  assert (inject_Z q * u <= inject_Z (Z.pos m * k) * u <= inject_Z (q + 1) * u)%Q as [Hv1 Hv2].
  { split; (apply Qmult_le_compat_r; [rewrite <- Zle_Qle; lia|by apply Qlt_le_weak]). }
  assert (inject_Z (q + 1) * u == inject_Z q * u + u)%Q as Eq1 by (rewrite inject_Z_plus; ring).
  assert (u <= eps * (inject_Z (Z.pos m * k) * u))%Q as Hulp.
  { apply Qle_trans with (1 * u)%Q; [lra|]. rewrite Qmult_assoc. apply Qmult_le_compat_r; [|by apply Qlt_le_weak].
    assert (inject_Z (2 ^ 52) <= inject_Z (Z.pos m * k))%Q as Hbig.
    { rewrite <- Zle_Qle. transitivity (Z.pos m * 1); [lia|]. apply Z.mul_le_mono_nonneg_l; lia. }
    apply Qle_trans with (eps * inject_Z (2 ^ 52))%Q; [by vm_compute|].
    rewrite !(Qmult_comm eps). apply Qmult_le_compat_r; [done|by vm_compute]. }
  apply Qabs_Qle_condition. lra.
Qed.

(** ** Conversions, products and quotients *)

(** The magnitude of a finite double. *)
Definition mag (m : positive) (e : Z) : Q := (inject_Z (Z.pos m) * p2 e)%Q.

(** A full mantissa. *)
Definition full (m : positive) : Prop := 2 ^ 52 <= Z.pos m < 2 ^ 53.

Definition close (a b : Q) : Prop := (Qabs (a - b) <= eps * a)%Q.

Lemma full_digits m : full m -> Z.pos (digits2_pos m) = 53.
Proof. intros Hm. apply digits_unique; [lia|]. change (2 ^ (53 - 1)) with (2 ^ 52). apply Hm. Qed.

Lemma mag_pos m e : (0 < mag m e)%Q.
Proof. apply Qmult_lt_0_compat; [change 0%Q with (inject_Z 0); rewrite <- Zlt_Qlt; lia|apply p2_pos]. Qed.

Lemma mag_self m e : (mag m e <= mag m e <= inject_Z (Z.pos m + 1) * p2 e)%Q.
Proof.
  split; [apply Qle_refl|]. apply Qmult_le_compat_r; [rewrite <- Zle_Qle; lia|apply Qlt_le_weak, p2_pos].
Qed.

Lemma iter_xO p k : Z.pos (Pos.iter xO p k) = Z.pos p * 2 ^ Z.pos k.
Proof.
  induction k as [|k IH] using Pos.peano_ind; [cbn; lia|].
  rewrite Pos.iter_succ, Pos2Z.inj_succ, Z.pow_succ_r by lia. rewrite (Pos2Z.inj_xO (Pos.iter xO p k)), IH. lia.
Qed.

Lemma of_Z_close s p :
  Z.pos p < 2 ^ 53 ->
  exists m e, binary_round 53 1024 s p 0 = S754_finite s m e /\ full m /\ -53 <= e <= 1 /\
    close (mag m e) (inject_Z (Z.pos p)).
Proof.
  intros Hp. unfold binary_round. pose proof (digits_bounds p) as Hb. set (d := Z.pos (digits2_pos p)) in *.
  assert (1 <= d <= 53) as Hd.
  { split; [lia|]. assert (d - 1 < 53); [|lia]. apply (Z.pow_lt_mono_r_iff 2); lia. }
  unfold fexp. change (SpecFloat.emin 53 1024) with (-1074). replace (Z.max (d + 0 - 53) (-1074)) with (d - 53) by lia.
  assert (exists q, shl_align p 0 (d - 53) = (q, d - 53) /\ Z.pos q = Z.pos p * 2 ^ (53 - d)) as (q & -> & Hq).
  { unfold shl_align. destruct (d - 53 - 0) as [|k|k] eqn:Hk; [|lia|].
    - exists p. replace (d - 53) with 0 by lia. replace (53 - d) with 0 by lia. split; [done|lia].
    - exists (Pos.iter xO p k). split; [done|]. rewrite iter_xO. f_equal. f_equal. lia. }
  assert (Z.pos (digits2_pos q) = 53) as Hdq.
  { apply digits_unique; [lia|]. rewrite Hq. change (2 ^ (53 - 1)) with (2 ^ (52)).
    assert (0 < 2 ^ (53 - d)) by (apply Z.pow_pos_nonneg; lia).
    replace 52 with ((d - 1) + (53 - d)) at 1 by lia. replace (2 ^ 53) with (2 ^ (d + (53 - d))) by (f_equal; lia).
    rewrite !Z.pow_add_r by lia. split; [apply Z.mul_le_mono_nonneg_r|apply Z.mul_lt_mono_pos_r]; lia. }
  destruct (round_aux_close s q (d - 53) loc_Exact 0 (mag q (d - 53))) as (m & e & -> & Hm & He & Hc);
    [lia|lia|lia|apply mag_self|].
  exists m, e. split; [done|]. split; [done|]. split; [lia|]. unfold close, mag in *.
  assert (inject_Z (Z.pos q) * p2 (d - 53) == inject_Z (Z.pos p))%Q as Eq.
  { rewrite Hq, inject_Z_mult, <- p2_Z, <- Qmult_assoc, <- p2_plus by lia.
    replace (53 - d + (d - 53)) with 0 by lia. unfold p2. cbn. ring. }
  rewrite Eq in Hc. exact Hc.
Qed.

Lemma mul_close s1 m1 e1 s2 m2 e2 :
  full m1 -> full m2 -> -400 <= e1 <= 400 -> -400 <= e2 <= 400 ->
  exists m e, d_mul (S754_finite s1 m1 e1) (S754_finite s2 m2 e2) = S754_finite (xorb s1 s2) m e /\ full m /\
    close (mag m e) (mag m1 e1 * mag m2 e2).
Proof.
  intros H1 H2 He1 He2. unfold d_mul, SFmul.
  assert (2 ^ 104 <= Z.pos (m1 * m2) < 2 ^ 106) as Hp.
  { unfold full in *. rewrite Pos2Z.inj_mul. change (2 ^ 104) with (2 ^ 52 * 2 ^ 52). change (2 ^ 106) with (2 ^ 53 * 2 ^ 53).
    split; [apply Z.mul_le_mono_nonneg|apply Z.mul_lt_mono_nonneg]; lia. }
  assert (exists n, Z.pos (digits2_pos (m1 * m2)) = 53 + n /\ 52 <= n <= 53) as (n & Hd & Hn).
  { destruct (decide (Z.pos (m1 * m2) < 2 ^ 105)).
    - exists 52. split; [|lia]. apply digits_unique; [lia|]. change (2 ^ (53 + 52 - 1)) with (2 ^ 104).
      change (53 + 52) with 105. lia.
    - exists 53. split; [|lia]. apply digits_unique; [lia|]. change (2 ^ (53 + 53 - 1)) with (2 ^ 105).
      change (53 + 53) with 106. lia. }
  destruct (round_aux_close (xorb s1 s2) (m1 * m2) (e1 + e2) loc_Exact n (mag (m1 * m2) (e1 + e2)))
    as (m & e & -> & Hm & He & Hc); [done|lia|lia|apply mag_self|].
  exists m, e. split; [done|]. split; [done|]. unfold close, mag in *.
  assert (inject_Z (Z.pos (m1 * m2)) * p2 (e1 + e2) == inject_Z (Z.pos m1) * p2 e1 * (inject_Z (Z.pos m2) * p2 e2))%Q as E.
  { rewrite Pos2Z.inj_mul, inject_Z_mult, p2_plus. ring. }
  rewrite E in Hc. exact Hc.
Qed.

Lemma div_close s1 m1 e1 s2 m2 e2 :
  full m1 -> full m2 -> -400 <= e1 <= 400 -> -400 <= e2 <= 400 ->
  exists m e, d_div (S754_finite s1 m1 e1) (S754_finite s2 m2 e2) = S754_finite (xorb s1 s2) m e /\ full m /\
    -53 <= e - (e1 - e2) <= -51 /\ close (mag m e) (mag m1 e1 / mag m2 e2).
Proof.
  intros H1 H2 He1 He2. unfold d_div, SFdiv, SFdiv_core_binary. cbn [Zdigits2].
  rewrite !full_digits by done. unfold fexp. change (SpecFloat.emin 53 1024) with (-1074).
  replace (Z.min (Z.max (53 + e1 - (53 + e2) - 53) (-1074)) (e1 - e2)) with (e1 - e2 - 53) by lia.
  replace (e1 - e2 - (e1 - e2 - 53)) with 53 by lia. rewrite Z.shiftl_mul_pow2 by lia.
  pose proof (Z_div_mod (Z.pos m1 * 2 ^ 53) (Z.pos m2) ltac:(lia)) as Hdm.
  destruct (Z.div_eucl (Z.pos m1 * 2 ^ 53) (Z.pos m2)) as [q r]. destruct Hdm as [Hq Hr].
  unfold full in H1, H2.
  assert (2 ^ 52 <= q < 2 ^ 54) as Hqb by nia.
  destruct q as [|q|q]; [lia| |lia].
  assert (exists n, Z.pos (digits2_pos q) = 53 + n /\ 0 <= n <= 1) as (n & Hd & Hn).
  { destruct (decide (Z.pos q < 2 ^ 53)).
    - exists 0. split; [|lia]. apply digits_unique; [lia|]. change (2 ^ (53 + 0 - 1)) with (2 ^ 52). change (53 + 0) with 53. lia.
    - exists 1. split; [|lia]. apply digits_unique; [lia|]. change (2 ^ (53 + 1 - 1)) with (2 ^ 53). change (53 + 1) with 54. lia. }
  set (x := (mag m1 e1 / mag m2 e2)%Q).
  assert (x * mag m2 e2 == mag m1 e1)%Q as Hx.
  { unfold x. field. intros Hz. pose proof (mag_pos m2 e2). lra. }
  destruct (round_aux_close (xorb s1 s2) q (e1 - e2 - 53) (new_location (Z.pos m2) r) n x)
    as (m & e & -> & Hm & He & Hc); [done|lia|lia| |].
  2: { exists m, e. split; [done|]. split; [done|]. split; [lia|exact Hc]. }
  pose proof (p2_pos e2) as Hp2. pose proof (mag_pos m2 e2) as Hm2.
  assert (mag m1 e1 == inject_Z (Z.pos m1 * 2 ^ 53) * p2 (e1 - e2 - 53) * p2 e2)%Q as E1.
  { unfold mag. rewrite inject_Z_mult, <- (p2_Z 53) by lia.
    rewrite <- !Qmult_assoc, <- !p2_plus. replace (53 + (e1 - e2 - 53 + e2)) with e1 by lia. reflexivity. }
  pose proof (p2_pos (e1 - e2 - 53)) as Hp3.
  split; apply (Qmult_lt_0_le_reg_r _ _ (mag m2 e2) Hm2); rewrite Hx, E1; unfold mag.
  - apply Qle_trans with (inject_Z (Z.pos q * Z.pos m2) * p2 (e1 - e2 - 53) * p2 e2)%Q; [rewrite inject_Z_mult; lra|].
    repeat (apply Qmult_le_compat_r; [|by apply Qlt_le_weak]). rewrite <- Zle_Qle. lia.
  - apply Qle_trans with (inject_Z ((Z.pos q + 1) * Z.pos m2) * p2 (e1 - e2 - 53) * p2 e2)%Q; [|rewrite inject_Z_mult; lra].
    repeat (apply Qmult_le_compat_r; [|by apply Qlt_le_weak]). rewrite <- Zle_Qle. lia.
Qed.

(** ** Rounding to an integer *)

(** An integer less than half away is the one [llround] picks. *)
Lemma llround_near s m e p :
  full m -> e < 0 -> (Qabs (mag m e - inject_Z (Z.pos p)) < 1 # 2)%Q ->
  llround (S754_finite s m e) = if s then Z.neg p else Z.pos p.
Proof.
  intros Hm He Hclose. unfold llround. rewrite (proj2 (Z.leb_gt _ _)) by lia.
  enough ((2 * Z.pos m + 2 ^ (- e)) / (2 * 2 ^ (- e)) = Z.pos p) as -> by (by destruct s).
  assert (0 < 2 ^ (- e)) as Hk by (apply Z.pow_pos_nonneg; lia).
  assert (mag m e * inject_Z (2 ^ (- e)) == inject_Z (Z.pos m))%Q as Emag.
  { unfold mag. rewrite <- p2_Z, <- Qmult_assoc, <- p2_plus by lia. replace (e + - e) with 0 by lia. unfold p2. cbn. ring. }
  apply Qabs_Qlt_condition in Hclose as [Hlo Hhi].
  assert (0 < inject_Z (2 ^ (- e)))%Q as HkQ by (change 0%Q with (inject_Z 0); by rewrite <- Zlt_Qlt).
  set (k := 2 ^ (- e)) in *.
  assert (inject_Z ((2 * Z.pos p - 1) * k) < inject_Z (2 * Z.pos m) < inject_Z ((2 * Z.pos p + 1) * k))%Q as [H1 H2].
  { rewrite !inject_Z_mult, <- Emag. unfold Z.sub. rewrite !inject_Z_plus, !inject_Z_mult.
    change (inject_Z (-1)) with (-(1))%Q. change (inject_Z 1) with 1%Q. change (inject_Z 2) with 2%Q.
    split; apply Qlt_minus_iff.
    - assert (2 * (mag m e * inject_Z k) + - ((2 * inject_Z (Z.pos p) + - (1)) * inject_Z k)
              == (2 * (mag m e - inject_Z (Z.pos p)) + 1) * inject_Z k)%Q as -> by ring.
      apply Qmult_lt_0_compat; [lra|done].
    - assert ((2 * inject_Z (Z.pos p) + 1) * inject_Z k + - (2 * (mag m e * inject_Z k))
              == (1 - 2 * (mag m e - inject_Z (Z.pos p))) * inject_Z k)%Q as -> by ring.
      apply Qmult_lt_0_compat; [lra|done]. }
  rewrite <- Zlt_Qlt in H1, H2. symmetry. apply Z.div_unique with (2 * Z.pos m + k - 2 * k * Z.pos p); lia.
Qed.

(** Dividing by a million and multiplying again moves an integer by far less than a half. *)
Lemma llround_scaled v :
  - 2 ^ 31 < v < 2 ^ 31 ->
  llround (d_mul (d_div (d_of_Z v) (d_of_Z 1000000)) (d_of_Z 1000000)) = v.
Proof.
  intros Hv. pose (M := 8589934592000000%positive).
  assert (d_of_Z 1000000 = S754_finite false M (-33)) as HM by (by vm_compute).
  assert (full M) as HfM by (unfold full; cbn; lia).
  assert (mag M (-33) == 1000000)%Q as HmM by (by vm_compute).
  assert (forall s p, Z.pos p < 2 ^ 31 ->
    llround (d_mul (d_div (binary_round 53 1024 s p 0) (d_of_Z 1000000)) (d_of_Z 1000000)) = if s then Z.neg p else Z.pos p)
    as Hgo.
  { intros s p Hp. rewrite HM.
    destruct (of_Z_close s p ltac:(lia)) as (m1 & e1 & -> & Hf1 & He1 & Hc1).
    destruct (div_close s m1 e1 false M (-33)) as (m2 & e2 & -> & Hf2 & He2 & Hc2); [done|done|lia|lia|].
    destruct (mul_close (xorb s false) m2 e2 false M (-33)) as (m3 & e3 & -> & Hf3 & Hc3); [done|done| |lia|].
    { lia. }
    unfold close in *. rewrite HmM in Hc2, Hc3.
    pose proof (mag_pos m1 e1) as Hp1. pose proof (mag_pos m2 e2) as Hp2. pose proof (mag_pos m3 e3) as Hp3.
    apply Qabs_Qle_condition in Hc1, Hc2, Hc3.
    assert (mag m1 e1 / 1000000 == (1 # 1000000) * mag m1 e1)%Q as Hdiv by field. rewrite Hdiv in Hc2.
    assert (inject_Z (Z.pos p) < inject_Z (2 ^ 31))%Q as HpQ by (by rewrite <- Zlt_Qlt).
    change (inject_Z (2 ^ 31)) with 2147483648%Q in HpQ. unfold eps in *. change (2 ^ 52)%positive with 4503599627370496%positive in *.
    assert (Qabs (mag m3 e3 - inject_Z (Z.pos p)) < 1 # 2)%Q as Hnear by (apply Qabs_Qlt_condition; lra).
    rewrite (llround_near _ m3 e3 p); [by destruct s|done| |done].
    destruct (Z.lt_ge_cases e3 0) as [|Hge]; [done|exfalso].
    assert (inject_Z (2 ^ 52) <= mag m3 e3)%Q as Hbig.
    { unfold mag. rewrite p2_Z, <- inject_Z_mult, <- Zle_Qle by done. unfold full in Hf3.
      assert (1 <= 2 ^ e3) by (apply (Z.pow_le_mono_r 2 0); lia). nia. }
    change (inject_Z (2 ^ 52)) with 4503599627370496%Q in Hbig. apply Qabs_Qlt_condition in Hnear. lra. }
  destruct v as [|p|p]; [by rewrite HM|apply (Hgo false); lia|apply (Hgo true); lia].
Qed.

(** ** Decimal fractions *)

(** The double nearest to a ratio of moderate integers. *)
Lemma ratio_close neg n d :
  Z.pos n < 2 ^ 53 -> Z.pos d < 2 ^ 53 ->
  exists m e, d_of_ratio neg n d = S754_finite neg m e /\ full m /\ -106 <= e <= 1 /\
    close (mag m e) (inject_Z (Z.pos n) / inject_Z (Z.pos d)).
Proof.
  intros Hn Hd. unfold d_of_ratio, SFdiv_core_binary. cbn [Zdigits2].
  pose proof (digits_bounds n) as Bn. pose proof (digits_bounds d) as Bd.
  set (dn := Z.pos (digits2_pos n)) in *. set (dd := Z.pos (digits2_pos d)) in *.
  assert (1 <= dn <= 53) as Hdn.
  { split; [lia|]. destruct (Z.le_gt_cases dn 53) as [|Hgt]; [done|].
    pose proof (Z.pow_le_mono_r 2 53 (dn - 1) ltac:(lia) ltac:(lia)). lia. }
  assert (1 <= dd <= 53) as Hdd.
  { split; [lia|]. destruct (Z.le_gt_cases dd 53) as [|Hgt]; [done|].
    pose proof (Z.pow_le_mono_r 2 53 (dd - 1) ltac:(lia) ltac:(lia)). lia. }
  unfold fexp. change (SpecFloat.emin 53 1024) with (-1074).
  replace (Z.min (Z.max (dn + 0 - (dd + 0) - 53) (-1074)) (0 - 0)) with (dn - dd - 53) by lia.
  set (s := 53 - dn + dd). replace (0 - 0 - (dn - dd - 53)) with s by lia. replace (dn - dd - 53) with (- s) by lia.
  destruct s as [|sp|] eqn:Hs; [lia| |lia]. rewrite <- Hs in *. clear Hs sp.
  rewrite Z.shiftl_mul_pow2 by lia.
  pose proof (Z_div_mod (Z.pos n * 2 ^ s) (Z.pos d) ltac:(lia)) as Hdm.
  destruct (Z.div_eucl (Z.pos n * 2 ^ s) (Z.pos d)) as [q r]. destruct Hdm as [Hq Hr].
  assert (2 ^ 52 <= q < 2 ^ 54) as Hqb.
  { assert (2 ^ (dn - 1) * 2 ^ s = 2 ^ 52 * 2 ^ dd) as P1 by (rewrite <- !Z.pow_add_r by lia; f_equal; lia).
    assert (2 ^ dn * 2 ^ s = 2 ^ 54 * 2 ^ (dd - 1)) as P2 by (rewrite <- !Z.pow_add_r by lia; f_equal; lia).
    assert (0 < 2 ^ s) by (apply Z.pow_pos_nonneg; lia). split; nia. }
  destruct q as [|q|q]; [lia| |lia].
  assert (exists k, Z.pos (digits2_pos q) = 53 + k /\ 0 <= k <= 1) as (k & Hk & Hk1).
  { destruct (decide (Z.pos q < 2 ^ 53)).
    - exists 0. split; [|lia]. apply digits_unique; [lia|]. change (2 ^ (53 + 0 - 1)) with (2 ^ 52). change (53 + 0) with 53. lia.
    - exists 1. split; [|lia]. apply digits_unique; [lia|]. change (2 ^ (53 + 1 - 1)) with (2 ^ 53). change (53 + 1) with 54. lia. }
  set (x := (inject_Z (Z.pos n) / inject_Z (Z.pos d))%Q).
  assert (0 < inject_Z (Z.pos d))%Q as Hdq by (change 0%Q with (inject_Z 0); by rewrite <- Zlt_Qlt).
  assert (x * inject_Z (Z.pos d) == inject_Z (Z.pos n))%Q as Hx by (unfold x; field; lra).
  destruct (round_aux_close neg q (- s) (new_location (Z.pos d) r) k x) as (m & e & -> & Hm & He & Hc); [done|lia|lia| |].
  2: { exists m, e. split; [done|]. split; [done|]. split; [lia|exact Hc]. }
  pose proof (p2_pos (- s)) as Hps.
  assert (inject_Z (Z.pos n) == inject_Z (Z.pos n * 2 ^ s) * p2 (- s))%Q as E1.
  { rewrite inject_Z_mult, <- p2_Z, <- Qmult_assoc, <- p2_plus by lia. replace (s + - s) with 0 by lia. unfold p2. cbn. ring. }
  split; apply (Qmult_lt_0_le_reg_r _ _ (inject_Z (Z.pos d)) Hdq); rewrite Hx, E1.
  - apply Qle_trans with (inject_Z (Z.pos q * Z.pos d) * p2 (- s))%Q; [rewrite inject_Z_mult; lra|].
    apply Qmult_le_compat_r; [|by apply Qlt_le_weak]. rewrite <- Zle_Qle. lia.
  - apply Qle_trans with (inject_Z ((Z.pos q + 1) * Z.pos d) * p2 (- s))%Q; [|rewrite inject_Z_mult; lra].
    apply Qmult_le_compat_r; [|by apply Qlt_le_weak]. rewrite <- Zle_Qle. lia.
Qed.

(** A decimal fraction, read as a double and scaled back, rounds to the integer it was made of. *)
Lemma llround_ratio neg n d M eM :
  Z.pos n < 2 ^ 33 -> Z.pos d < 2 ^ 33 -> d_of_Z (Z.pos d) = S754_finite false M eM -> full M -> -52 <= eM <= 0 ->
  (mag M eM == inject_Z (Z.pos d))%Q ->
  llround (d_mul (d_of_ratio neg n d) (d_of_Z (Z.pos d))) = if neg then Z.neg n else Z.pos n.
Proof.
  intros Hn Hd -> HfM HeM HmM.
  destruct (ratio_close neg n d ltac:(lia) ltac:(lia)) as (m2 & e2 & -> & Hf2 & He2 & Hc2).
  destruct (mul_close neg m2 e2 false M eM) as (m3 & e3 & -> & Hf3 & Hc3); [done|done|lia|lia|].
  unfold close in *. rewrite HmM in Hc3.
  assert (0 < inject_Z (Z.pos d))%Q as Hdq by (change 0%Q with (inject_Z 0); by rewrite <- Zlt_Qlt).
  pose proof (mag_pos m2 e2) as Hp2. pose proof (mag_pos m3 e3) as Hp3.
  set (D := inject_Z (Z.pos d)) in *. set (N := inject_Z (Z.pos n)) in *.
  assert (0 < N)%Q as Hnq by (change 0%Q with (inject_Z 0); unfold N; by rewrite <- Zlt_Qlt).
  assert (N < 8589934592)%Q as HN by (unfold N; change 8589934592%Q with (inject_Z 8589934592); rewrite <- Zlt_Qlt; exact Hn).
  apply Qabs_Qle_condition in Hc2, Hc3.
  set (P := (mag m2 e2 * D)%Q) in *.
  assert (- (eps * P) <= P - N <= eps * P)%Q as HP.
  { assert (P - N == (mag m2 e2 - N / D) * D)%Q as -> by (unfold P; field; lra).
    assert (eps * P == eps * mag m2 e2 * D)%Q as -> by (unfold P; ring).
    assert (- (eps * mag m2 e2 * D) == - (eps * mag m2 e2) * D)%Q as -> by ring.
    split; apply Qmult_le_compat_r; lra. }
  unfold eps in *. change (2 ^ 52)%positive with 4503599627370496%positive in *.
  assert (Qabs (mag m3 e3 - N) < 1 # 2)%Q as Hnear by (apply Qabs_Qlt_condition; lra).
  rewrite (llround_near _ m3 e3 n); [by destruct neg|done| |done].
  destruct (Z.lt_ge_cases e3 0) as [|Hge]; [done|exfalso].
  assert (inject_Z (2 ^ 52) <= mag m3 e3)%Q as Hbig.
  { unfold mag. rewrite p2_Z, <- inject_Z_mult, <- Zle_Qle by done. unfold full in Hf3.
    assert (1 <= 2 ^ e3) by (apply (Z.pow_le_mono_r 2 0); lia). nia. }
  change (inject_Z (2 ^ 52)) with 4503599627370496%Q in Hbig. apply Qabs_Qlt_condition in Hnear. lra.
Qed.

Lemma llround_thousandths neg n :
  Z.pos n < 2 ^ 33 -> llround (d_mul (d_of_ratio neg n 1000) (d_of_Z 1000)) = if neg then Z.neg n else Z.pos n.
Proof.
  intros Hn. apply (llround_ratio neg n 1000 8796093022208000 (-43)); [done|done|by vm_compute| |lia|by vm_compute].
  unfold full. lia.
Qed.

Lemma llround_millionths neg n :
  Z.pos n < 2 ^ 33 -> llround (d_mul (d_of_ratio neg n 1000000) (d_of_Z 1000000)) = if neg then Z.neg n else Z.pos n.
Proof.
  intros Hn. apply (llround_ratio neg n 1000000 8589934592000000 (-33)); [done|done|by vm_compute| |lia|by vm_compute].
  unfold full. lia.
Qed.
