(* ===== verification/Rounding.v ===== *)
(** Rounding to nearest, exactly.

    [FloatFacts] bounds the error of an operation; here the result itself is characterised: the
    double an operation gives is a function of the exact rational ([rounds], [rounds_unique]), and
    a rational close enough to a double rounds to it ([rounds_near]).  From this follow the texts
    of the settings: a number written with seventeen decimals, or a position written with six,
    reads back as the same double.  What [strtod] gives is a canonical double, and on canonical
    doubles the comparisons of the configuration are comparisons of values. *)

From S2P Require Import Prelude Floats Record CText FloatFacts.
From Stdlib Require Import QArith Qpower Qabs Lqa Qfield.

Local Open Scope Z_scope.

(** ** Where a shifted mantissa lies *)

(** The record [(m, r, s)] keeps of [A / B] its integer part and where in the unit it lies. *)
Definition located (A B : Z) (mrs : shr_record) : Prop :=
  let t := A - shr_m mrs * B in
  match shr_r mrs, shr_s mrs with
  | false, false => t = 0
  | false, true => 0 < t /\ 2 * t < B
  | true, false => 2 * t = B
  | true, true => B < 2 * t /\ t < B
  end.

Lemma located_bounds A B mrs : 0 < B -> located A B mrs -> shr_m mrs * B <= A < (shr_m mrs + 1) * B.
Proof. unfold located. intros HB. destruct (shr_r mrs), (shr_s mrs); lia. Qed.

Lemma shr_1_located A B mrs : 0 < B -> 0 <= shr_m mrs -> located A B mrs -> located A (2 * B) (shr_1 mrs).
Proof.
  intros HB. destruct mrs as [m r s]. unfold located. cbn [shr_m shr_r shr_s].
  destruct m as [|[p|p|]|p]; [| | | |lia]; intros _; cbn [shr_1 shr_m shr_r shr_s];
    rewrite ?(Pos2Z.inj_xI p), ?(Pos2Z.inj_xO p);
    destruct r, s; cbn [orb]; lia.
Qed.

Lemma iter_shr_located p : forall A B mrs,
  0 < B -> 0 <= shr_m mrs -> located A B mrs -> located A (2 ^ Z.pos p * B) (SpecFloat.iter_pos shr_1 p mrs).
Proof.
  assert (forall q mrs, 0 <= shr_m mrs -> 0 <= shr_m (SpecFloat.iter_pos shr_1 q mrs)) as Hnn.
  { intros q mrs Hm. rewrite iter_shr_spec by done. apply Z.div_pos; [done|]. apply Z.pow_pos_nonneg; lia. }
  assert (forall q B, 0 < B -> 0 < 2 ^ Z.pos q * B) as Hpos.
  { intros q B HB. apply Z.mul_pos_pos; [|done]. apply Z.pow_pos_nonneg; lia. }
  induction p as [p IH|p IH|]; intros A B mrs HB Hm Hl; cbn [SpecFloat.iter_pos].
  - assert (0 <= shr_m (shr_1 mrs)) as H1. { rewrite shr_1_spec by done. apply Z.div_pos; lia. }
    replace (2 ^ Z.pos p~1 * B) with (2 ^ Z.pos p * (2 ^ Z.pos p * (2 * B))).
    2: { rewrite (Pos2Z.inj_xI p), Z.pow_add_r, pow2_double by lia. ring. }
    apply IH; [apply Hpos; lia|by apply Hnn|]. apply IH; [lia|done|]. by apply shr_1_located.
  - replace (2 ^ Z.pos p~0 * B) with (2 ^ Z.pos p * (2 ^ Z.pos p * B)).
    2: { rewrite (Pos2Z.inj_xO p), pow2_double by lia. ring. }
    apply IH; [by apply Hpos|by apply Hnn|]. by apply IH.
  - by apply shr_1_located.
Qed.

(** The location a division leaves. *)
Lemma new_location_located q r d : 0 < d -> 0 <= r < d -> located (q * d + r) d (shr_record_of_loc q (new_location d r)).
Proof.
  intros Hd Hr. assert (q * d + r - q * d = r) as Ht by lia. unfold new_location, new_location_even, new_location_odd.
  destruct (Z.even d) eqn:Ev; destruct (Z.eqb_spec r 0) as [->|Hne].
  - unfold located. cbn. lia.
  - destruct (Z.compare_spec (2 * r) d); unfold located; cbn [shr_record_of_loc shr_m shr_r shr_s]; lia.
  - unfold located. cbn. lia.
  - assert (2 * r <> d) as Hodd. { intros <-. by rewrite Z.even_mul in Ev. }
    destruct (Z.compare_spec (2 * r + 1) d); unfold located; cbn [shr_record_of_loc shr_m shr_r shr_s]; lia.
Qed.

Lemma exact_located m : located m 1 (shr_record_of_loc m loc_Exact).
Proof. unfold located. cbn. lia. Qed.

(** ** The nearest integer *)

Definition nearest (x : Q) (R : Z) : Prop :=
  (Qabs (x - inject_Z R) <= 1 # 2)%Q /\ ((Qabs (x - inject_Z R) == 1 # 2)%Q -> Z.even R = true).

#[export] Instance nearest_proper : Proper (Qeq ==> eq ==> iff) nearest.
Proof. intros x y E R S <-. unfold nearest. by rewrite E. Qed.

(** An integer within a half is the only nearest one. *)
Lemma nearest_within x R S : nearest x R -> (Qabs (x - inject_Z S) < 1 # 2)%Q -> R = S.
Proof.
  intros [H1 _] H2. apply Qabs_Qle_condition in H1. apply Qabs_Qlt_condition in H2.
  assert (inject_Z (R - S) < 1)%Q as H3 by (unfold Z.sub; rewrite inject_Z_plus, inject_Z_opp; lra).
  assert (-(1) < inject_Z (R - S))%Q as H4 by (unfold Z.sub; rewrite inject_Z_plus, inject_Z_opp; lra).
  change 1%Q with (inject_Z 1) in H3. change (-(1))%Q with (inject_Z (-1)) in H4. rewrite <- Zlt_Qlt in H3, H4. lia.
Qed.

Lemma nearest_unique x R S : nearest x R -> nearest x S -> R = S.
Proof.
  intros HR HS. pose proof HS as [H1 T1]. apply Qle_lteq in H1 as [H1|H1]; [by eapply nearest_within|].
  pose proof HR as [H2 T2]. apply Qle_lteq in H2 as [H2|H2]; [symmetry; by eapply nearest_within|].
  specialize (T1 H1). specialize (T2 H2). destruct (Z.eq_dec R S) as [|Hne]; [done|exfalso].
  assert (inject_Z R - inject_Z S == 1 \/ inject_Z S - inject_Z R == 1)%Q as Hd.
  { assert (~ inject_Z R == inject_Z S)%Q as Hneq by (intros E; apply Hne; by apply inject_Z_injective).
    revert H1 H2. apply Qabs_case; intros _; apply Qabs_case; intros _ E1 E2;
      first [left; lra|right; lra|destruct Hneq; lra]. }
  assert (R = S + 1 \/ S = R + 1) as [->| ->].
  { destruct Hd as [Hd|Hd]; [left|right]; apply inject_Z_injective; rewrite inject_Z_plus; change (inject_Z 1) with 1%Q; lra. }
  - rewrite Z.even_add, T1 in T2. done.
  - rewrite Z.even_add, T2 in T1. done.
Qed.

Lemma nearest_below x m t :
  (x == inject_Z m + t)%Q -> (0 <= t <= 1 # 2)%Q -> ((t == 1 # 2)%Q -> Z.even m = true) -> nearest x m.
Proof.
  intros -> Ht Hev. assert (inject_Z m + t - inject_Z m == t)%Q as Hd by ring. unfold nearest.
  rewrite Hd, (Qabs_pos t) by apply Ht. split; [apply Ht|done].
Qed.

Lemma nearest_above x m t :
  (x == inject_Z m + t)%Q -> (1 # 2 <= t <= 1)%Q -> ((t == 1 # 2)%Q -> Z.even (m + 1) = true) -> nearest x (m + 1).
Proof.
  intros -> Ht Hev. assert (inject_Z m + t - inject_Z (m + 1) == - (1 - t))%Q as Hd.
  { rewrite inject_Z_plus. change (inject_Z 1) with 1%Q. ring. }
  unfold nearest. rewrite Hd, Qabs_opp, Qabs_pos by lra. split; [lra|]. intros E. apply Hev. lra.
Qed.

(** What [round_nearest_even] makes of a location is the nearest integer. *)
Lemma located_nearest A (B : positive) mrs :
  located A (Z.pos B) mrs -> nearest (A # B) (round_nearest_even (shr_m mrs) (loc_of_shr_record mrs)).
Proof.
  intros Hl. set (m := shr_m mrs) in *. unfold located in Hl. fold m in Hl. set (t := A - m * Z.pos B) in *.
  assert ((A # B) == inject_Z m + (t # B))%Q as Ex by (unfold Qeq, t; cbn; lia).
  destruct mrs as [m' r s]. cbn [shr_m shr_r shr_s loc_of_shr_record] in *. subst m.
  assert (forall a : Z, (1 # 2 <= a # B)%Q <-> Z.pos B <= 2 * a) as Hge by (intros; unfold Qle; cbn; lia).
  assert (forall a : Z, (a # B <= 1 # 2)%Q <-> 2 * a <= Z.pos B) as Hle by (intros; unfold Qle; cbn; lia).
  assert (0 <= t -> (0 <= t # B)%Q) as H0 by (intros; unfold Qle; cbn; lia).
  assert (t <= Z.pos B -> (t # B <= 1)%Q) as H1 by (intros; unfold Qle; cbn; lia).
  assert ((t # B == 1 # 2)%Q -> 2 * t = Z.pos B) as Heq by (unfold Qeq; cbn; lia).
  destruct r, s; cbn [round_nearest_even].
  - apply (nearest_above _ _ (t # B)); [done|rewrite Hge; split; [lia|apply H1; lia]|]. intros ?%Heq. lia.
  - destruct (Z.even m') eqn:Ev.
    + apply (nearest_below _ _ (t # B)); [done|rewrite Hle; split; [apply H0; lia|lia]|done].
    + apply (nearest_above _ _ (t # B)); [done|rewrite Hge; split; [lia|apply H1; lia]|]. intros _. by rewrite Z.even_add, Ev.
  - apply (nearest_below _ _ (t # B)); [done|rewrite Hle; split; [apply H0; lia|lia]|]. intros ?%Heq. lia.
  - apply (nearest_below _ _ (t # B)); [done|rewrite Hle; split; [apply H0; lia|lia]|]. intros ?%Heq. lia.
Qed.

(** ** The double nearest to a rational *)

Lemma p2_le a b : a <= b -> (p2 a <= p2 b)%Q.
Proof.
  intros Hab. replace b with ((b - a) + a) by lia. rewrite p2_plus, (p2_Z (b - a)) by lia.
  assert (1 <= 2 ^ (b - a)) by (apply (Z.pow_le_mono_r 2 0); lia).
  apply Qle_trans with (1 * p2 a)%Q; [lra|]. apply Qmult_le_compat_r; [|apply Qlt_le_weak, p2_pos].
  change 1%Q with (inject_Z 1). by rewrite <- Zle_Qle.
Qed.

Lemma p2_lt_inv a b : (p2 a < p2 b)%Q -> a < b.
Proof. intros H. destruct (Z.lt_ge_cases a b) as [|Hge]; [done|]. apply p2_le in Hge. lra. Qed.

(** [v] is the double of sign [s] nearest to [x], which lies in the range of normal numbers. *)
Definition rounds (s : bool) (x : Q) (v : double) : Prop :=
  exists e R, -1074 <= e < 971 /\ (p2 (52 + e) <= x < p2 (53 + e))%Q /\ nearest (x / p2 e) R /\
    v = if R =? 2 ^ 53 then S754_finite s (2 ^ 52) (e + 1) else S754_finite s (Z.to_pos R) e.

#[export] Instance rounds_proper : Proper (eq ==> Qeq ==> eq ==> iff) rounds.
Proof. intros s ? <- x y E v ? <-. unfold rounds. by setoid_rewrite E. Qed.

Lemma rounds_unique s x y v w : (x == y)%Q -> rounds s x v -> rounds s y w -> v = w.
Proof.
  intros E (e1 & R1 & _ & [B1 B2] & N1 & ->) (e2 & R2 & _ & [C1 C2] & N2 & ->).
  assert (e1 = e2) as <-.
  { assert (52 + e1 < 53 + e2) by (apply p2_lt_inv; lra). assert (52 + e2 < 53 + e1) by (apply p2_lt_inv; lra). lia. }
  rewrite <- E in N2. by rewrite (nearest_unique _ _ _ N1 N2).
Qed.

Lemma div_p2 x e : (x / p2 e * p2 e == x)%Q.
Proof. field. pose proof (p2_pos e). intros Hz. lra. Qed.

Lemma shr_fexp_located p e l n A B :
  Z.pos (digits2_pos p) = 53 + n -> 0 <= n -> -1074 <= e + n -> 0 < B -> located A B (shr_record_of_loc (Z.pos p) l) ->
  located A (2 ^ n * B) (shr_fexp 53 1024 (Z.pos p) e l).1.
Proof.
  intros Hd Hn He HB Hl. unfold shr_fexp. cbn [Zdigits2]. rewrite Hd. unfold fexp.
  change (SpecFloat.emin 53 1024) with (-1074). replace (Z.max (53 + n + e - 53) (-1074) - e) with n by lia.
  unfold shr. destruct n as [|q|q]; [|apply iter_shr_located; [done|by rewrite shr_record_of_loc_m|done]|lia].
  cbn [fst]. by rewrite Z.pow_0_r, Z.mul_1_l.
Qed.

Lemma round_aux_rounds s p ez l A (B : positive) n :
  located A (Z.pos B) (shr_record_of_loc (Z.pos p) l) -> Z.pos (digits2_pos p) = 53 + n -> 0 <= n -> -1074 <= ez + n < 971 ->
  rounds s ((A # B) * p2 ez) (binary_round_aux 53 1024 s (Z.pos p) ez l).
Proof.
  intros Hl Hd Hn He. unfold binary_round_aux.
  pose proof (shr_fexp_spec p ez l n Hd Hn ltac:(lia)) as H1.
  pose proof (shr_fexp_located p ez l n A (Z.pos B) Hd Hn ltac:(lia) ltac:(lia) Hl) as Hl1.
  destruct (shr_fexp 53 1024 (Z.pos p) ez l) as [mrs e1]. destruct H1 as [Hm ->]. set (e := ez + n) in *.
  assert (exists B', Z.pos B' = 2 ^ n * Z.pos B) as [B' HB'].
  { assert (0 < 2 ^ n * Z.pos B) by (apply Z.mul_pos_pos; [apply Z.pow_pos_nonneg|]; lia). exists (Z.to_pos (2 ^ n * Z.pos B)). lia. }
  cbn [fst] in Hl1. rewrite <- HB' in Hl1.
  assert (2 ^ 52 <= shr_m mrs < 2 ^ 53) as Hq.
  { rewrite Hm. pose proof (digits_bounds p) as [Hlo Hhi]. rewrite Hd in Hlo, Hhi.
    assert (0 < 2 ^ n) as Hp by (apply Z.pow_pos_nonneg; lia).
    replace (53 + n - 1) with (52 + n) in Hlo by lia. rewrite Z.pow_add_r in Hlo, Hhi by lia.
    split; [apply Z.div_le_lower_bound; lia|apply Z.div_lt_upper_bound; lia]. }
  pose proof (located_bounds A (Z.pos B') mrs ltac:(lia) Hl1) as Hb. pose proof (located_nearest _ _ _ Hl1) as Hnear.
  pose proof (round_nearest_even_near (shr_m mrs) (loc_of_shr_record mrs) ltac:(lia)) as Hr.
  assert ((A # B) * p2 ez == (A # B') * p2 e)%Q as Ex.
  { assert ((A # B) == (A # B') * p2 n)%Q as ->.
    { rewrite p2_Z by lia. unfold Qeq. cbn [Qnum Qden Qmult inject_Z]. rewrite Pos.mul_1_r, HB'. ring. }
    unfold e. rewrite p2_plus. ring. }
  assert ((A # B) * p2 ez / p2 e == (A # B'))%Q as Ex'.
  { rewrite Ex. field. pose proof (p2_pos e). intros Hz. lra. }
  pose proof (p2_pos e) as Hpe.
  set (R := round_nearest_even (shr_m mrs) (loc_of_shr_record mrs)) in *.
  exists e, R. split; [lia|]. split; [|split; [by rewrite Ex'|]].
  - rewrite Ex, (p2_plus 52), (p2_plus 53), (p2_Z 52), (p2_Z 53) by lia. split; [apply Qmult_le_compat_r; [|lra]|apply Qmult_lt_compat_r; [lra|]];
      unfold Qle, Qlt; cbn [Qnum Qden inject_Z]; nia.
  - clearbody R. destruct R as [|R|R]; [lia| |lia]. destruct (Z.eqb_spec (Z.pos R) (2 ^ 53)) as [E|E].
    + pose proof (shr_fexp_spec R e loc_Exact 1) as H2.
      rewrite (digits_unique R 54) in H2 by (rewrite ?E; try change (2 ^ (54 - 1)) with (2 ^ 53); lia).
      specialize (H2 eq_refl ltac:(lia) ltac:(lia)). destruct (shr_fexp 53 1024 (Z.pos R) e loc_Exact) as [mrs2 e2].
      destruct H2 as [-> ->]. rewrite E. change (2 ^ 53 / 2 ^ 1) with (Z.pos (2 ^ 52)). by rewrite (proj2 (Z.leb_le _ _)) by lia.
    + pose proof (shr_fexp_spec R e loc_Exact 0) as H2.
      rewrite (digits_unique R 53) in H2 by (try change (2 ^ (53 - 1)) with (2 ^ 52); lia).
      specialize (H2 eq_refl ltac:(lia) ltac:(lia)). destruct (shr_fexp 53 1024 (Z.pos R) e loc_Exact) as [mrs2 e2].
      destruct H2 as [-> ->]. by rewrite Z.pow_0_r, Z.div_1_r, Z.add_0_r, (proj2 (Z.leb_le _ _)) by lia.
Qed.

Lemma p2_shift k e : 0 <= k -> (p2 (k + e) == inject_Z (2 ^ k) * p2 e)%Q.
Proof. intros Hk. by rewrite p2_plus, (p2_Z k). Qed.

Lemma p2_52 e : (p2 (52 + e) == 4503599627370496 * p2 e)%Q.
Proof. by apply p2_shift. Qed.
Lemma p2_53 e : (p2 (53 + e) == 9007199254740992 * p2 e)%Q.
Proof. by apply p2_shift. Qed.

(** The quotient by a power of two, within a half of an integer. *)
Lemma div_within x e S : (Qabs (x - inject_Z S * p2 e) < (1 # 2) * p2 e)%Q -> (Qabs (x / p2 e - inject_Z S) < 1 # 2)%Q.
Proof.
  intros H. pose proof (p2_pos e) as Hp. apply (Qmult_lt_r _ _ (p2 e) Hp).
  rewrite <- (Qabs_pos (p2 e)) at 2 by lra. rewrite <- Qabs_Qmult.
  assert ((x / p2 e - inject_Z S) * p2 e == x - inject_Z S * p2 e)%Q as ->; [|done]. field. intros Hz. lra.
Qed.

(** A rational closer to a double than half a unit in the last place rounds to it. *)
Lemma rounds_near s x v m e :
  full m -> (Qabs (x - mag m e) < (1 # 18014398509481984) * mag m e)%Q -> rounds s x v -> v = S754_finite s m e.
Proof.
  intros Hm Hx (e' & R & He' & [B1 B2] & Hn & ->). unfold full in Hm. apply Qabs_Qlt_condition in Hx as [X1 X2].
  rewrite p2_52 in B1. rewrite p2_53 in B2. pose proof (p2_pos e) as Hp.
  assert (4503599627370496 * p2 e <= mag m e <= 9007199254740991 * p2 e)%Q as [M1 M2].
  { unfold mag. split; apply Qmult_le_compat_r; try lra.
    - change 4503599627370496%Q with (inject_Z (2 ^ 52)). rewrite <- Zle_Qle. lia.
    - change 9007199254740991%Q with (inject_Z (2 ^ 53 - 1)). rewrite <- Zle_Qle. lia. }
  destruct (Qlt_le_dec x (4503599627370496 * p2 e)) as [Hlow|Hhigh].
  - assert (p2 e == 2 * p2 (e - 1))%Q as Ep. { replace e with (1 + (e - 1)) at 1 by lia. by apply p2_shift. }
    pose proof (p2_pos (e - 1)) as Hp'.
    assert (e' = e - 1) as ->.
    { assert (52 + e' < 53 + (e - 1)). { apply p2_lt_inv. rewrite p2_52, p2_53. lra. }
      assert (52 + (e - 1) < 53 + e'); [|lia]. apply p2_lt_inv. rewrite p2_52, p2_53. lra. }
    assert (R = 2 ^ 53) as ->.
    { apply (nearest_within _ _ _ Hn), div_within. change (inject_Z (2 ^ 53)) with 9007199254740992%Q. apply Qabs_Qlt_condition. lra. }
    assert (m = 2 ^ 52)%positive as ->; [|rewrite Z.eqb_refl; f_equal; lia].
    destruct (Z.eq_dec (Z.pos m) (2 ^ 52)) as [E|E]; [lia|exfalso].
    assert (4503599627370497 * p2 e <= mag m e)%Q; [|lra]. unfold mag. apply Qmult_le_compat_r; [|lra].
    change 4503599627370497%Q with (inject_Z (2 ^ 52 + 1)). rewrite <- Zle_Qle. lia.
  - assert (e' = e) as ->.
    { assert (52 + e' < 53 + e). { apply p2_lt_inv. rewrite p2_52, p2_53. lra. }
      assert (52 + e < 53 + e'); [|lia]. apply p2_lt_inv. rewrite p2_52, p2_53. lra. }
    assert (R = Z.pos m) as ->.
    { apply (nearest_within _ _ _ Hn), div_within. fold (mag m e). apply Qabs_Qlt_condition. lra. }
    by rewrite (proj2 (Z.eqb_neq _ _)) by lia.
Qed.

(** ** Division *)

Lemma div_core_rounds s n1 e1 n2 e2 (D := Z.pos (digits2_pos n1) + e1 - (Z.pos (digits2_pos n2) + e2)) :
  -1021 <= D <= 1000 ->
  let '(q, e, l) := SFdiv_core_binary 53 1024 (Z.pos n1) e1 (Z.pos n2) e2 in
  rounds s (mag n1 e1 / mag n2 e2) (binary_round_aux 53 1024 s q e l).
Proof.
  intros HD. unfold SFdiv_core_binary. cbn [Zdigits2]. fold D. unfold fexp. change (SpecFloat.emin 53 1024) with (-1074).
  rewrite (Z.max_l (D - 53)) by lia. set (e := Z.min (D - 53) (e1 - e2)). set (k := e1 - e2 - e).
  assert (0 <= k) as Hk by lia.
  assert ((match k with 0 => Z.pos n1 | Z.pos _ => Z.shiftl (Z.pos n1) k | Z.neg _ => 0 end) = Z.pos n1 * 2 ^ k) as ->.
  { destruct k as [|kp|kp]; [lia|by rewrite Z.shiftl_mul_pow2 by lia|lia]. }
  pose proof (Z_div_mod (Z.pos n1 * 2 ^ k) (Z.pos n2) ltac:(lia)) as Hdm.
  destruct (Z.div_eucl (Z.pos n1 * 2 ^ k) (Z.pos n2)) as [q r]. destruct Hdm as [Hq Hr].
  pose proof (digits_bounds n1) as [L1 U1]. pose proof (digits_bounds n2) as [L2 U2].
  set (d1 := Z.pos (digits2_pos n1)) in *. set (d2 := Z.pos (digits2_pos n2)) in *.
  assert (1 <= d1 /\ 1 <= d2) as [Hd1 Hd2] by (unfold d1, d2; lia).
  assert (0 < 2 ^ k) as Hpk by (apply Z.pow_pos_nonneg; lia).
  assert (2 ^ (d1 - 1 + k - d2) <= q) as Hqlo.
  { assert (2 ^ (d1 - 1) * 2 ^ k = 2 ^ (d1 - 1 + k - d2) * 2 ^ d2) as P1 by (rewrite <- !Z.pow_add_r by lia; f_equal; lia).
    assert (0 < 2 ^ (d1 - 1 + k - d2)) by (apply Z.pow_pos_nonneg; lia). assert (0 < 2 ^ d2) by (apply Z.pow_pos_nonneg; lia). nia. }
  assert (q < 2 ^ (d1 + k - d2 + 1)) as Hqhi.
  { assert (2 ^ d1 * 2 ^ k = 2 ^ (d1 + k - d2 + 1) * 2 ^ (d2 - 1)) as P1 by (rewrite <- !Z.pow_add_r by lia; f_equal; lia).
    assert (0 < 2 ^ (d2 - 1)) by (apply Z.pow_pos_nonneg; lia). nia. }
  assert (1 <= 2 ^ (d1 - 1 + k - d2)) as H1 by (apply (Z.pow_le_mono_r 2 0); lia).
  destruct q as [|q|q]; [lia| |lia].
  pose proof (digits_bounds q) as [Lq Uq]. set (dq := Z.pos (digits2_pos q)) in *.
  assert (d1 - 1 + k - d2 < dq) as Hdq1 by (apply (Z.pow_lt_mono_r_iff 2); lia).
  assert (dq - 1 < d1 + k - d2 + 1) as Hdq2 by (apply (Z.pow_lt_mono_r_iff 2); lia).
  pose proof (new_location_located (Z.pos q) r (Z.pos n2) ltac:(lia) ltac:(lia)) as Hloc.
  assert (mag n1 e1 / mag n2 e2 == ((Z.pos q * Z.pos n2 + r) # n2) * p2 e)%Q as Ex.
  { replace (Z.pos q * Z.pos n2 + r) with (Z.pos n1 * 2 ^ k) by lia. unfold mag. rewrite Qmake_Qdiv, inject_Z_mult, <- (p2_Z k) by lia.
    replace e1 with (k + (e + e2)) at 1 by lia. rewrite !p2_plus. field. pose proof (p2_pos e2). split; [|intros Hz; lra].
    change 0%Q with (inject_Z 0). rewrite inject_Z_injective. lia. }
  rewrite Ex. apply (round_aux_rounds s q e _ _ n2 (dq - 53)); [done|lia..].
Qed.

Lemma mag_Z n : (mag n 0 == inject_Z (Z.pos n))%Q.
Proof. unfold mag, p2. cbn. ring. Qed.

(** A ratio of integers of at most a few hundred bits. *)
Lemma ratio_rounds s n d :
  -1021 <= Z.pos (digits2_pos n) - Z.pos (digits2_pos d) <= 1000 ->
  rounds s (inject_Z (Z.pos n) / inject_Z (Z.pos d)) (d_of_ratio s n d).
Proof.
  intros Hd. pose proof (div_core_rounds s n 0 d 0 ltac:(lia)) as Hc. unfold d_of_ratio.
  destruct (SFdiv_core_binary _ _ _ _ _ _) as [[q e] l]. by rewrite !mag_Z in Hc.
Qed.

(** The double of an integer is exact. *)
Lemma of_Z_exact s p :
  Z.pos p < 2 ^ 53 ->
  exists m e, binary_round 53 1024 s p 0 = S754_finite s m e /\ full m /\ -53 <= e <= 0 /\ (mag m e == inject_Z (Z.pos p))%Q.
Proof.
  intros Hp. unfold binary_round. pose proof (digits_bounds p) as Hb. set (d := Z.pos (digits2_pos p)) in *.
  assert (1 <= d <= 53) as Hd. { split; [unfold d; lia|]. assert (d - 1 < 53); [|lia]. apply (Z.pow_lt_mono_r_iff 2); lia. }
  unfold fexp. change (SpecFloat.emin 53 1024) with (-1074). replace (Z.max (d + 0 - 53) (-1074)) with (d - 53) by lia.
  assert (exists q, shl_align p 0 (d - 53) = (q, d - 53) /\ Z.pos q = Z.pos p * 2 ^ (53 - d)) as (q & -> & Hq).
  { unfold shl_align. destruct (d - 53 - 0) as [|k|k] eqn:Hk; [|lia|].
    - exists p. replace (d - 53) with 0 by lia. replace (53 - d) with 0 by lia. split; [done|lia].
    - exists (Pos.iter xO p k). split; [done|]. rewrite iter_xO. f_equal. f_equal. lia. }
  assert (full q) as Hfull.
  { unfold full. rewrite Hq. assert (0 < 2 ^ (53 - d)) by (apply Z.pow_pos_nonneg; lia).
    replace 52 with ((d - 1) + (53 - d)) at 1 by lia. replace (2 ^ 53) with (2 ^ (d + (53 - d))) by (f_equal; lia).
    rewrite !Z.pow_add_r by lia. split; [apply Z.mul_le_mono_nonneg_r|apply Z.mul_lt_mono_pos_r]; lia. }
  exists q, (d - 53). split; [|split; [done|split; [lia|]]].
  - apply (rounds_near s (mag q (d - 53))); [done| |].
    + assert (mag q (d - 53) - mag q (d - 53) == 0)%Q as -> by ring. pose proof (mag_pos q (d - 53)). change (Qabs 0) with 0%Q. lra.
    + setoid_replace (mag q (d - 53)) with ((Z.pos q # 1) * p2 (d - 53))%Q using relation Qeq by reflexivity.
      apply (round_aux_rounds s q _ loc_Exact _ 1 0); [apply exact_located|rewrite full_digits by done; lia|lia|lia].
  - unfold mag. rewrite Hq, inject_Z_mult, <- p2_Z, <- Qmult_assoc, <- p2_plus by lia.
    replace (53 - d + (d - 53)) with 0 by lia. unfold p2. cbn. ring.
Qed.

Lemma div_rounds s1 m1 e1 s2 m2 e2 :
  full m1 -> full m2 -> -400 <= e1 <= 400 -> -400 <= e2 <= 400 ->
  rounds (xorb s1 s2) (mag m1 e1 / mag m2 e2) (d_div (S754_finite s1 m1 e1) (S754_finite s2 m2 e2)).
Proof.
  intros H1 H2 He1 He2. unfold d_div, SFdiv.
  pose proof (div_core_rounds (xorb s1 s2) m1 e1 m2 e2) as Hc. rewrite !full_digits in Hc by done.
  destruct (SFdiv_core_binary _ _ _ _ _ _) as [[q e] l]. apply Hc. lia.
Qed.

(** ** Canonical doubles *)

Abbreviation canonical := (valid_binary 53 1024).

Lemma canonical_shape s m e :
  canonical (S754_finite s m e) = true -> Z.pos m < 2 ^ 53 /\ -1074 <= e <= 971 /\ (full m \/ e = -1074).
Proof.
  cbn [valid_binary]. unfold bounded, canonical_mantissa, fexp. change (SpecFloat.emin 53 1024) with (-1074).
  intros [Hc%Z.eqb_eq He%Z.leb_le]%andb_true_iff. pose proof (digits_bounds m) as [H1 H2].
  set (d := Z.pos (digits2_pos m)) in *.
  assert (2 ^ d <= 2 ^ 53) as H3 by (apply Z.pow_le_mono_r; lia).
  split; [lia|]. split; [lia|]. destruct (Z.eq_dec e (-1074)); [by right|left]. unfold full.
  assert (d = 53) as E by lia. rewrite E in H1. change (2 ^ 52) with (2 ^ (53 - 1)). lia.
Qed.

Lemma full_canonical s m e : full m -> -1074 <= e <= 971 -> canonical (S754_finite s m e) = true.
Proof.
  intros Hm He. cbn [valid_binary]. unfold bounded, canonical_mantissa, fexp. change (SpecFloat.emin 53 1024) with (-1074).
  rewrite full_digits by done. apply andb_true_iff. split; [apply Z.eqb_eq; lia|apply Z.leb_le; lia].
Qed.

(** What [shr_fexp] leaves: the bits to keep, or everything when there are no more than those. *)
Lemma shr_fexp_cases mz e l (n := Z.max (Zdigits2 mz + e - 53) (-1074) - e) :
  0 <= mz ->
  (0 <= n /\ shr_m (shr_fexp 53 1024 mz e l).1 = mz / 2 ^ n /\ (shr_fexp 53 1024 mz e l).2 = e + n) \/
  (n <= 0 /\ shr_fexp 53 1024 mz e l = (shr_record_of_loc mz l, e)).
Proof.
  intros Hm. unfold shr_fexp, fexp. change (SpecFloat.emin 53 1024) with (-1074). fold n. unfold shr.
  destruct n as [|p|p] eqn:En; [right|left|right]; [split; [lia|done]| |split; [lia|done]].
  split; [lia|]. cbn [fst snd]. by rewrite iter_shr_spec; rewrite shr_record_of_loc_m.
Qed.

Lemma Zdigits2_bounds m : 0 <= m -> 0 <= Zdigits2 m /\ m < 2 ^ Zdigits2 m /\ (0 < m -> 2 ^ (Zdigits2 m - 1) <= m).
Proof.
  intros Hm. destruct m as [|p|p]; [split_and!; cbn; lia| |lia]. cbn [Zdigits2]. pose proof (digits_bounds p). lia.
Qed.

(** A rounded mantissa and its exponent, brought into form. *)
Lemma final_shift s R e :
  0 <= R <= 2 ^ 53 -> -1074 <= e -> (2 ^ 52 <= R \/ e = -1074) ->
  canonical (let '(mrs, e') := shr_fexp 53 1024 R e loc_Exact in
    match shr_m mrs with
    | 0 => S754_zero s
    | Z.pos m => if e' <=? 1024 - 53 then S754_finite s m e' else S754_infinity s
    | Z.neg _ => S754_nan
    end) = true.
Proof.
  intros HR He Hor. destruct R as [|R|R]; [| |lia].
  { destruct Hor as [| ->]; [lia|done]. }
  pose proof (digits_bounds R) as [L U]. pose proof (shr_fexp_cases (Z.pos R) e loc_Exact ltac:(lia)) as Hs. cbn [Zdigits2] in Hs.
  set (d := Z.pos (digits2_pos R)) in *.
  destruct (Z.eq_dec (Z.pos R) (2 ^ 53)) as [E|E].
  - assert (d = 54) as Ed by (unfold d; apply digits_unique; rewrite ?E; [lia|]; change (2 ^ (54 - 1)) with (2 ^ 53); lia).
    rewrite Ed in Hs. replace (Z.max (54 + e - 53) (-1074) - e) with 1 in Hs by lia. destruct Hs as [(_ & Hm & He')|[? _]]; [|lia].
    destruct (shr_fexp _ _ _ _ _) as [mrs e']. cbn [fst snd] in *. rewrite Hm, He', E. change (2 ^ 53 / 2 ^ 1) with (Z.pos (2 ^ 52)). cbn iota.
    destruct (Z.leb_spec (e + 1) (1024 - 53)); [|done]. cbn [valid_binary]. unfold bounded, canonical_mantissa, fexp.
    change (SpecFloat.emin 53 1024) with (-1074). change (Z.pos (digits2_pos (2 ^ 52))) with 53.
    apply andb_true_iff. split; [apply Z.eqb_eq; lia|by apply Z.leb_le].
  - assert (d <= 53) as Hd. { assert (d - 1 < 53); [|lia]. apply (Z.pow_lt_mono_r_iff 2); lia. }
    assert (Z.max (d + e - 53) (-1074) = e) as Hcan.
    { destruct Hor as [Hbig| ->]; [|lia]. assert (52 < d) by (apply (Z.pow_lt_mono_r_iff 2); lia). lia. }
    rewrite Hcan, Z.sub_diag in Hs.
    assert (shr_m (shr_fexp 53 1024 (Z.pos R) e loc_Exact).1 = Z.pos R /\ (shr_fexp 53 1024 (Z.pos R) e loc_Exact).2 = e) as [Hm He'].
    { destruct Hs as [(_ & -> & ->)|[_ ->]]; [|done]. by rewrite Z.pow_0_r, Z.div_1_r, Z.add_0_r. }
    destruct (shr_fexp _ _ _ _ _) as [mrs e']. cbn [fst snd] in *. rewrite Hm, He'. cbn iota.
    destruct (Z.leb_spec e (1024 - 53)); [|done]. cbn [valid_binary]. unfold bounded, canonical_mantissa, fexp.
    change (SpecFloat.emin 53 1024) with (-1074). fold d. apply andb_true_iff. split; [by apply Z.eqb_eq|by apply Z.leb_le].
Qed.

(** Rounding gives a canonical double when it starts with no fewer bits than it keeps. *)
Lemma round_aux_canonical s mz e l :
  0 <= mz -> e <= Z.max (Zdigits2 mz + e - 53) (-1074) -> canonical (binary_round_aux 53 1024 s mz e l) = true.
Proof.
  intros Hmz He. unfold binary_round_aux. pose proof (shr_fexp_cases mz e l Hmz) as Hs.
  destruct (Zdigits2_bounds mz Hmz) as (Hd & Hhi & Hlo). set (d := Zdigits2 mz) in *. set (n := Z.max (d + e - 53) (-1074) - e) in *.
  assert (0 <= n) as Hn by lia.
  assert (shr_m (shr_fexp 53 1024 mz e l).1 = mz / 2 ^ n /\ (shr_fexp 53 1024 mz e l).2 = e + n) as [Hm He'].
  { destruct Hs as [(_ & ? & ?)|[? ->]]; [done|]. replace n with 0 by lia. cbn [fst snd].
    by rewrite shr_record_of_loc_m, Z.pow_0_r, Z.div_1_r, Z.add_0_r. }
  destruct (shr_fexp 53 1024 mz e l) as [mrs e']. cbn [fst snd] in *. subst e'.
  assert (0 < 2 ^ n) as Hp by (apply Z.pow_pos_nonneg; lia).
  assert (0 <= shr_m mrs < 2 ^ 53) as Hq.
  { rewrite Hm. split; [by apply Z.div_pos|]. apply Z.div_lt_upper_bound; [done|]. rewrite <- Z.pow_add_r by lia.
    eapply Z.lt_le_trans; [exact Hhi|]. apply Z.pow_le_mono_r; lia. }
  pose proof (round_nearest_even_near (shr_m mrs) (loc_of_shr_record mrs) ltac:(lia)) as Hr.
  apply final_shift; [lia|lia|]. destruct (Z.eq_dec (e + n) (-1074)) as [|Hne]; [by right|left].
  assert (n = d - 53) as En by lia. assert (0 < mz) as Hpos.
  { destruct (Z.eq_dec mz 0) as [->|]; [|lia]. change (Zdigits2 0) with 0 in *. lia. }
  specialize (Hlo Hpos). enough (2 ^ 52 <= shr_m mrs) by lia. rewrite Hm. apply Z.div_le_lower_bound; [done|].
  rewrite <- Z.pow_add_r by lia. eapply Z.le_trans; [|exact Hlo]. apply Z.pow_le_mono_r; lia.
Qed.

Lemma ratio_canonical s n d : canonical (d_of_ratio s n d) = true.
Proof.
  unfold d_of_ratio, SFdiv_core_binary. cbn [Zdigits2]. pose proof (digits_bounds n) as [L1 U1]. pose proof (digits_bounds d) as [L2 U2].
  set (dn := Z.pos (digits2_pos n)) in *. set (dd := Z.pos (digits2_pos d)) in *. assert (1 <= dn /\ 1 <= dd) as [Hdn Hdd] by (unfold dn, dd; lia).
  unfold fexp. change (SpecFloat.emin 53 1024) with (-1074).
  set (e := Z.min (Z.max (dn + 0 - (dd + 0) - 53) (-1074)) (0 - 0)). set (k := 0 - 0 - e). assert (0 <= k) as Hk by lia.
  assert ((match k with 0 => Z.pos n | Z.pos _ => Z.shiftl (Z.pos n) k | Z.neg _ => 0 end) = Z.pos n * 2 ^ k) as ->.
  { destruct k as [|kp|kp]; [lia|by rewrite Z.shiftl_mul_pow2 by lia|lia]. }
  assert (0 < 2 ^ k) as Hpk by (apply Z.pow_pos_nonneg; lia).
  pose proof (Z_div_mod (Z.pos n * 2 ^ k) (Z.pos d) ltac:(lia)) as Hdm.
  destruct (Z.div_eucl (Z.pos n * 2 ^ k) (Z.pos d)) as [q r]. destruct Hdm as [Hq Hr].
  assert (0 <= q) as Hq0 by nia. apply round_aux_canonical; [done|].
  destruct (Z.le_gt_cases e (-1074)) as [|Hbig]; [lia|].
  assert (2 ^ (dn - 1 + k - dd) <= q) as Hqlo.
  { assert (2 ^ (dn - 1) * 2 ^ k = 2 ^ (dn - 1 + k - dd) * 2 ^ dd) as P1 by (rewrite <- !Z.pow_add_r by lia; f_equal; lia).
    assert (0 < 2 ^ (dn - 1 + k - dd)) by (apply Z.pow_pos_nonneg; lia). assert (0 < 2 ^ dd) by (apply Z.pow_pos_nonneg; lia). nia. }
  destruct (Zdigits2_bounds q Hq0) as (Hd0 & Hhi & _).
  assert (dn - 1 + k - dd < Zdigits2 q) by (apply (Z.pow_lt_mono_r_iff 2); lia). lia.
Qed.

(** Whatever [strtod] reads, the double is canonical. *)
Lemma strtod_canonical text v range rest : strtod text = Converted v range rest -> canonical v = true.
Proof.
  assert (forall neg m base e r v range rest, scaled neg m base e r = Converted v range rest -> canonical v = true) as Hs.
  { intros neg m base e r w rg rs. unfold scaled.
    destruct (m * _); [by intros [= <- _ _]| |by intros [= <- _ _]]. destruct (base ^ _); [by intros [= <- _ _]| |by intros [= <- _ _]].
    intros [= <- _ _]. apply ratio_canonical. }
  unfold strtod. destruct (take_sign _) as [neg t]. repeat case_match; intros; simplify_eq; try done; by eapply Hs.
Qed.

(** ** Comparisons of values *)

Lemma mag_lt_exponent m1 e1 m2 e2 : Z.pos m1 < 2 ^ 53 -> full m2 -> e1 < e2 -> (mag m1 e1 < mag m2 e2)%Q.
Proof.
  intros H1 [H2 _] He. apply Qlt_le_trans with (p2 (53 + e1)).
  - rewrite p2_shift by done. unfold mag. apply Qmult_lt_compat_r; [apply p2_pos|]. by rewrite <- Zlt_Qlt.
  - apply Qle_trans with (p2 (52 + e2)); [apply p2_le; lia|]. rewrite p2_shift by done. unfold mag.
    apply Qmult_le_compat_r; [by rewrite <- Zle_Qle|apply Qlt_le_weak, p2_pos].
Qed.

Lemma mag_le_mantissa m1 m2 e : Z.pos m1 <= Z.pos m2 -> (mag m1 e <= mag m2 e)%Q.
Proof. intros H. unfold mag. apply Qmult_le_compat_r; [by rewrite <- Zle_Qle|apply Qlt_le_weak, p2_pos]. Qed.

(** Below a bound. *)
Lemma le_value m e M E :
  Z.pos m < 2 ^ 53 -> full M ->
  f_le (S754_finite false m e) (S754_finite false M E) = true -> (mag m e <= mag M E)%Q.
Proof.
  intros Hm HM. unfold f_le, SFleb, SFcompare.
  destruct (Z.compare_spec e E) as [->|He|He]; [|intros _; by apply Qlt_le_weak, mag_lt_exponent|done].
  change (Pos.compare_cont Eq m M) with (Pos.compare m M).
  destruct (Pos.compare_spec m M) as [->|Hlt|Hgt]; intros Hc; [apply Qle_refl|apply mag_le_mantissa; lia|done].
Qed.

(** Above a normal bound the mantissa is full. *)
Lemma ge_value m e M E :
  canonical (S754_finite false m e) = true -> full M -> -1074 < E ->
  f_le (S754_finite false M E) (S754_finite false m e) = true -> (mag M E <= mag m e)%Q /\ full m.
Proof.
  intros (Hm & _ & Hor)%canonical_shape HM HE. unfold f_le, SFleb, SFcompare.
  destruct (Z.compare_spec E e) as [<-|He|He].
  - change (Pos.compare_cont Eq M m) with (Pos.compare M m). assert (full m) as Hf by (destruct Hor; [done|lia]).
    destruct (Pos.compare_spec M m) as [->|Hlt|Hgt]; intros Hc; [split; [apply Qle_refl|done]|split; [apply mag_le_mantissa; lia|done]|done].
  - intros _. assert (full m) as Hf by (destruct Hor; [done|lia]). split; [|done]. apply Qlt_le_weak, mag_lt_exponent; [apply HM|done|done].
  - done.
Qed.

(** Values below a bound compare below it. *)
Lemma value_le m e M E :
  full m -> full M -> (mag m e <= mag M E)%Q -> f_le (S754_finite false m e) (S754_finite false M E) = true.
Proof.
  intros Hm HM Hle. unfold f_le, SFleb, SFcompare. destruct (Z.compare_spec e E) as [->|He|He]; [|done|].
  - change (Pos.compare_cont Eq m M) with (Pos.compare m M). destruct (Pos.compare_spec m M) as [|Hlt|Hgt]; [done|done|exfalso].
    assert (mag M E < mag m E)%Q; [|lra]. unfold mag. apply Qmult_lt_compat_r; [apply p2_pos|]. rewrite <- Zlt_Qlt. lia.
  - exfalso. pose proof (mag_lt_exponent M E m e (proj2 HM) Hm He). lra.
Qed.

(** The comparison of negated doubles. *)
Lemma f_le_neg m e M E : f_le (S754_finite true M E) (S754_finite true m e) = f_le (S754_finite false m e) (S754_finite false M E).
Proof.
  unfold f_le, SFleb, SFcompare. destruct (Z.compare_spec E e), (Z.compare_spec e E); try lia; try done.
  change (Pos.compare_cont Eq M m) with (Pos.compare M m). change (Pos.compare_cont Eq m M) with (Pos.compare m M).
  destruct (Pos.compare_spec M m), (Pos.compare_spec m M); try lia; done.
Qed.

(** A canonical double between two opposite bounds. *)
Definition within (M : positive) (E : Z) (v : double) : bool :=
  f_le (S754_finite true M E) v && f_le v (S754_finite false M E).

Lemma within_value M E s m e :
  canonical (S754_finite s m e) = true -> full M -> within M E (S754_finite s m e) = true -> (mag m e <= mag M E)%Q.
Proof.
  intros (Hc & _)%canonical_shape HM [H1 H2]%andb_true_iff. destruct s; [|by apply le_value]. rewrite f_le_neg in H1. by apply le_value.
Qed.

Lemma value_within M E s m e : full m -> full M -> (mag m e <= mag M E)%Q -> within M E (S754_finite s m e) = true.
Proof.
  intros Hm HM Hle. pose proof (value_le m e M E Hm HM Hle) as H. unfold within. destruct s; [by rewrite f_le_neg, H|by rewrite H].
Qed.

(** ** Scaling a position up *)

(** Rounding adds less than one part in [2^52], or next to nothing below the normal range. *)
Lemma round_aux_upper s p e s' m' e' :
  binary_round_aux 53 1024 s (Z.pos p) e loc_Exact = S754_finite s' m' e' ->
  (mag m' e' <= mag p e * (1 + eps) + p2 (-1074))%Q.
Proof.
  intros Hb. unfold binary_round_aux in Hb. pose proof (shr_fexp_cases (Z.pos p) e loc_Exact ltac:(lia)) as Hs. cbn [Zdigits2] in Hs.
  set (d := Z.pos (digits2_pos p)) in *. set (n := Z.max (d + e - 53) (-1074) - e) in *.
  pose proof (mag_pos p e) as Hp. pose proof (p2_pos (-1074)) as Hp0.
  assert (0 < eps * mag p e)%Q as Heps by (apply Qmult_lt_0_compat; [reflexivity|done]).
  (* the second shift loses no more than it drops *)
  assert (forall R e1 mrs e2, 0 <= R -> shr_fexp 53 1024 R e1 loc_Exact = (mrs, e2) -> (inject_Z (shr_m mrs) * p2 e2 <= inject_Z R * p2 e1)%Q) as Hsecond.
  { intros R e1 mrs e2 HR Hsh. destruct (shr_fexp_cases R e1 loc_Exact HR) as [(Hn & Hm & He)|[_ E]]; rewrite Hsh in *; cbn [fst snd] in *.
    - set (n2 := Z.max (Zdigits2 R + e1 - 53) (-1074) - e1) in *. subst e2. rewrite Hm. rewrite (Z.add_comm e1), p2_shift by done.
      rewrite Qmult_assoc, <- inject_Z_mult. apply Qmult_le_compat_r; [|apply Qlt_le_weak, p2_pos]. rewrite <- Zle_Qle.
      assert (0 < 2 ^ n2) by (apply Z.pow_pos_nonneg; lia). rewrite Z.mul_comm. by apply Z.mul_div_le.
    - injection E as -> ->. apply Qle_refl. }
  assert (exists R e1, 0 <= R /\ (inject_Z R * p2 e1 <= mag p e * (1 + eps) + p2 (-1074))%Q /\
    exists mrs e2, shr_fexp 53 1024 R e1 loc_Exact = (mrs, e2) /\ shr_m mrs = Z.pos m' /\ e2 = e') as (R & e1 & HR & Hbound & mrs & e2 & Hsh & Hm & ->).
  2: { eapply Qle_trans; [|exact Hbound]. specialize (Hsecond R e1 mrs e' HR Hsh). by rewrite Hm in Hsecond. }
  assert (forall R e1, (let '(mrs'', e'') := shr_fexp 53 1024 R e1 loc_Exact in
    match shr_m mrs'' with 0 => S754_zero s | Z.pos m => if e'' <=? 1024 - 53 then S754_finite s m e'' else S754_infinity s
    | Z.neg _ => S754_nan end) = S754_finite s' m' e' -> exists mrs e2, shr_fexp 53 1024 R e1 loc_Exact = (mrs, e2) /\ shr_m mrs = Z.pos m' /\ e2 = e') as Hout.
  { intros R e1 Hx. destruct (shr_fexp 53 1024 R e1 loc_Exact) as [mrs e2]. exists mrs, e2. split; [done|].
    destruct (shr_m mrs); [done| |done]. destruct (_ <=? _); [by simplify_eq|done]. }
  destruct Hs as [(Hn & Hm & He1)|[_ Es]].
  - destruct (shr_fexp 53 1024 (Z.pos p) e loc_Exact) as [mrs e1]. cbn [fst snd] in *. subst e1.
    pose proof (round_nearest_even_near (shr_m mrs) (loc_of_shr_record mrs)) as Hr.
    assert (0 < 2 ^ n) as Hpn by (apply Z.pow_pos_nonneg; lia). assert (0 <= shr_m mrs) as Hm0 by (rewrite Hm; apply Z.div_pos; lia).
    exists (round_nearest_even (shr_m mrs) (loc_of_shr_record mrs)), (e + n). split; [lia|]. split; [|by apply Hout].
    apply Qle_trans with (inject_Z (shr_m mrs + 1) * p2 (e + n))%Q; [apply Qmult_le_compat_r; [rewrite <- Zle_Qle; lia|apply Qlt_le_weak, p2_pos]|].
    rewrite inject_Z_plus. change (inject_Z 1) with 1%Q.
    assert (inject_Z (shr_m mrs) * p2 (e + n) <= mag p e)%Q as H1.
    { rewrite (Z.add_comm e), p2_shift, Qmult_assoc, <- inject_Z_mult by done. unfold mag. apply Qmult_le_compat_r; [|apply Qlt_le_weak, p2_pos].
      rewrite <- Zle_Qle, Hm, Z.mul_comm. by apply Z.mul_div_le. }
    assert (p2 (e + n) <= eps * mag p e + p2 (-1074))%Q; [|lra].
    destruct (Z.le_gt_cases (e + n) (-1074)) as [Hlow|Hhigh].
    + pose proof (p2_le _ _ Hlow). lra.
    + replace (e + n) with (-52 + ((d - 1) + e)) by lia. rewrite !p2_plus.
      assert (p2 (d - 1) * p2 e <= mag p e)%Q as H2.
      { unfold mag. apply Qmult_le_compat_r; [|apply Qlt_le_weak, p2_pos]. rewrite p2_Z, <- Zle_Qle by lia. apply digits_bounds. }
      assert (p2 (-52) == eps)%Q as -> by reflexivity. set (z := (p2 (d - 1) * p2 e)%Q) in *.
      assert (eps * z <= eps * mag p e)%Q; [|lra]. rewrite !(Qmult_comm eps). apply Qmult_le_compat_r; [done|by vm_compute].
  - rewrite Es in Hb. cbn [loc_of_shr_record shr_record_of_loc shr_m round_nearest_even] in Hb.
    exists (Z.pos p), e. split; [lia|]. split; [fold (mag p e); lra|by apply Hout].
Qed.

(** An integer bound survives rounding to an integer. *)
Lemma llround_below s m e K : 0 <= K -> (mag m e < inject_Z K + (1 # 2))%Q -> Z.abs (llround (S754_finite s m e)) <= K.
Proof.
  intros HK Hm. unfold llround.
  assert (0 <= (if 0 <=? e then Z.pos m * 2 ^ e else (2 * Z.pos m + 2 ^ (- e)) / (2 * 2 ^ (- e))) <= K) as Hb; [|destruct s; lia].
  destruct (Z.leb_spec 0 e) as [He|He].
  - assert (0 < 2 ^ e) by (apply Z.pow_pos_nonneg; lia). split; [lia|]. unfold mag in Hm. rewrite p2_Z, <- inject_Z_mult in Hm by done.
    assert (inject_Z (Z.pos m * 2 ^ e) < inject_Z (K + 1))%Q as Hlt by (rewrite inject_Z_plus; change (inject_Z 1) with 1%Q; lra).
    rewrite <- Zlt_Qlt in Hlt. lia.
  - set (k := 2 ^ (- e)). assert (0 < k) as Hk by (apply Z.pow_pos_nonneg; lia). split; [apply Z.div_pos; lia|].
    enough ((2 * Z.pos m + k) / (2 * k) < K + 1) by lia. apply Z.div_lt_upper_bound; [lia|].
    assert (mag m e * inject_Z k == inject_Z (Z.pos m))%Q as Em.
    { unfold mag, k. rewrite <- p2_Z, <- Qmult_assoc, <- p2_plus by lia. replace (e + - e) with 0 by lia. unfold p2. cbn. ring. }
    assert (0 < inject_Z k)%Q as HkQ by (change 0%Q with (inject_Z 0); by rewrite <- Zlt_Qlt).
    assert (inject_Z (Z.pos m) < (inject_Z K + (1 # 2)) * inject_Z k)%Q as H1.
    { rewrite <- Em. by apply Qmult_lt_compat_r. }
    assert (inject_Z (2 * Z.pos m + k) < inject_Z (2 * k * (K + 1)))%Q as H2.
    { rewrite !inject_Z_plus, !inject_Z_mult, inject_Z_plus. change (inject_Z 1) with 1%Q. change (inject_Z 2) with 2%Q. lra. }
    by rewrite <- Zlt_Qlt in H2.
Qed.

(** ** Decimal texts *)

Lemma digits_value_app a b : digits_value (a ++ b) = digits_value a * 10 ^ zlen b + digits_value b.
Proof.
  induction b as [|c b IH] using rev_ind; [rewrite app_nil_r; change (10 ^ zlen []) with 1; change (digits_value []) with 0; lia|].
  rewrite app_assoc, !digits_value_snoc, IH. unfold zlen. rewrite length_app, Nat2Z.inj_add, Z.pow_add_r by lia.
  change (10 ^ Z.of_nat (length [c])) with 10. lia.
Qed.

Lemma digits_value_zeros k : digits_value (replicate k 48) = 0.
Proof. induction k as [|k IH]; [done|]. cbn [replicate]. change (48 :: replicate k 48) with ([48] ++ replicate k 48). rewrite digits_value_app, IH. done. Qed.

Lemma dec_digits_length fuel : forall n k, 0 <= n < 10 ^ Z.of_nat k -> (1 <= k)%nat -> (length (dec_digits fuel n) <= k)%nat.
Proof.
  induction fuel as [|fuel IH]; intros n k Hn Hk; cbn [dec_digits]; [cbn; lia|]. rewrite length_app. cbn [length].
  destruct (Z.ltb_spec n 10); [cbn; lia|]. destruct k as [|[|k]]; [lia|cbn in Hn; lia|].
  specialize (IH (n / 10) (S k)). rewrite (Nat2Z.inj_succ (S k)), Z.pow_succ_r in Hn by lia.
  enough (length (dec_digits fuel (n / 10)) <= S k)%nat by lia. apply IH; [|lia].
  split; [apply Z.div_pos; lia|]. apply Z.div_lt_upper_bound; lia.
Qed.

Lemma dec_text_value n : 0 <= n -> digits_value (dec_text n) = n /\ digits (dec_text n) /\ dec_text n <> [].
Proof.
  intros Hn. unfold dec_text. destruct (dec_digits_spec (S (Z.to_nat (Z.log2 n))) n) as [Hv Hd].
  - split; [done|]. destruct (Z.eq_dec n 0) as [->|Hz]; [by vm_compute|].
    rewrite Nat2Z.inj_succ, Z2Nat.id by apply Z.log2_nonneg. pose proof (Z.log2_spec n ltac:(lia)) as [_ Hl].
    eapply Z.lt_le_trans; [exact Hl|]. apply Z.pow_le_mono_l. lia.
  - split_and!; [done|done|]. destruct (dec_digits_nonnil (Z.to_nat (Z.log2 n)) n) as (c & ds & ->). done.
Qed.

Lemma scaled_pos neg n k d :
  0 <= k <= 300 -> 10 ^ k = Z.pos d ->
  match n with
  | Z.pos p => exists range, scaled neg n 10 (- k) [] = Converted (d_of_ratio neg p d) range []
  | _ => scaled neg n 10 (- k) [] = Converted (S754_zero neg) false []
  end.
Proof.
  intros Hk Hd. unfold scaled. rewrite Z.max_r by lia. rewrite Z.pow_0_r, Z.mul_1_r, Z.opp_involutive, Z.max_l, Hd by lia.
  destruct n; [done|by eexists|done].
Qed.

Lemma snprintf_short size s : (length s < size)%nat -> snprintf size s = s.
Proof. intros Hl. unfold snprintf. apply take_ge. lia. Qed.

Lemma dec_text_short n k : 0 <= n < 10 ^ Z.of_nat k -> (1 <= k)%nat -> (length (dec_text n) <= k)%nat.
Proof. apply dec_digits_length. Qed.

(** What [%.*f] writes is the number scaled and rounded, with the point put in. *)
Lemma print_fixed_reads k s m e (N := scale_round (Z.pos m) e (Z.of_nat k)) :
  (1 <= k)%nat -> 0 <= N -> strtod (print_fixed k (S754_finite s m e)) = scaled s N 10 (- Z.of_nat k) [].
Proof.
  intros Hk HN. cbn [print_fixed]. fold N. destruct (dec_text_value N HN) as (Hv & Hd & Hne).
  set (ds := pad_zeros (S k) (dec_text N)).
  assert (digits ds /\ digits_value ds = N /\ (S k <= length ds)%nat) as (Hdd & Hvd & Hl).
  { unfold ds, pad_zeros. rewrite digits_value_app, digits_value_zeros, length_app, length_replicate. split_and!; [|lia|lia].
    apply Forall_app. split; [by apply Forall_replicate|done]. }
  destruct k as [|k]; [lia|]. cbn [insert_point]. set (cut := (length ds - S k)%nat).
  assert (sign_text s ++ take cut ds ++ 46 :: drop cut ds = decimal_text s (take cut ds) (Some (drop cut ds))) as -> by done.
  rewrite strtod_decimal; [|destruct ds; [cbn in Hl; lia|unfold cut; cbn [length]; replace (S (length ds) - S k)%nat with (S (length ds - S k)) by (cbn in Hl; lia); done]
    |by apply Forall_take|by apply Forall_drop].
  cbn [fraction default from_option id]. rewrite take_drop, Hvd. unfold zlen. rewrite length_drop. do 2 f_equal. unfold cut. lia.
Qed.

Lemma print_fixed_short k s m e (N := scale_round (Z.pos m) e (Z.of_nat k)) :
  (1 <= k <= 17)%nat -> 0 <= N < 10 ^ 30 -> snprintf 64 (print_fixed k (S754_finite s m e)) = print_fixed k (S754_finite s m e).
Proof.
  intros Hk HN. apply snprintf_short. cbn [print_fixed]. fold N.
  pose proof (dec_text_short N 30 ltac:(exact HN) ltac:(lia)) as Hl. destruct k as [|k]; [lia|]. cbn [insert_point].
  rewrite !length_app. cbn [length]. rewrite length_take, length_drop. unfold pad_zeros. rewrite length_app, length_replicate.
  destruct s; cbn [sign_text length]; lia.
Qed.

(** The scaled number is the nearest integer. *)
Lemma scale_round_near m e k (N := scale_round (Z.pos m) e k) :
  0 <= k -> 0 <= N /\ (Qabs (inject_Z N - mag m e * inject_Z (10 ^ k)) <= 1 # 2)%Q.
Proof.
  intros Hk. unfold N, scale_round. rewrite (Z.max_l k), (Z.max_r (- k)), Z.pow_0_r, Z.mul_1_r by lia.
  set (a := Z.pos m * 10 ^ k * 2 ^ Z.max e 0). set (d := 2 ^ Z.max (- e) 0).
  assert (0 < d) as Hd by (apply Z.pow_pos_nonneg; lia).
  assert (0 <= a) as Ha. { unfold a. assert (0 < 10 ^ k) by (apply Z.pow_pos_nonneg; lia). assert (0 < 2 ^ Z.max e 0) by (apply Z.pow_pos_nonneg; lia). nia. }
  split; [by apply round_half_even_nonneg|].
  assert (mag m e * inject_Z (10 ^ k) * inject_Z d == inject_Z a)%Q as Ea.
  { unfold a, d, mag. rewrite !inject_Z_mult, <- !p2_Z by lia. destruct (Z.le_gt_cases 0 e).
    - rewrite (Z.max_l e), (Z.max_r (- e)) by lia. unfold p2 at 2. cbn [Qpower]. ring.
    - rewrite (Z.max_r e), (Z.max_l (- e)) by lia.
      assert (p2 e * p2 (- e) == 1)%Q as Ep by (rewrite <- p2_plus; replace (e + - e) with 0 by lia; reflexivity).
      assert (inject_Z (Z.pos m) * p2 e * inject_Z (10 ^ k) * p2 (- e) == inject_Z (Z.pos m) * inject_Z (10 ^ k) * (p2 e * p2 (- e)))%Q as -> by ring.
      rewrite Ep. unfold p2. cbn [Qpower]. ring. }
  set (R := round_half_even a d).
  assert (Z.abs (2 * (R * d - a)) <= d) as HR.
  { unfold R, round_half_even. pose proof (Z.div_mod a d ltac:(lia)). pose proof (Z.mod_pos_bound a d Hd).
    destruct ((2 * (a mod d) <? d) || ((2 * (a mod d) =? d) && Z.even (a / d))) eqn:E; [|].
    - apply orb_true_iff in E as [E%Z.ltb_lt|[E%Z.eqb_eq _]%andb_true_iff]; nia.
    - apply orb_false_iff in E as [E%Z.ltb_ge _]. nia. }
  assert (0 < inject_Z d)%Q as HdQ by (change 0%Q with (inject_Z 0); by rewrite <- Zlt_Qlt).
  apply (Qmult_lt_0_le_reg_r _ _ (inject_Z d) HdQ). rewrite <- (Qabs_pos (inject_Z d)) at 1 by lra. rewrite <- Qabs_Qmult.
  assert ((inject_Z R - mag m e * inject_Z (10 ^ k)) * inject_Z d == inject_Z R * inject_Z d - inject_Z a)%Q as -> by (rewrite <- Ea; ring).
  rewrite <- inject_Z_mult. apply Qabs_Qle_condition.
  assert (- d <= 2 * (R * d - a) <= d) as [H1 H2] by lia. rewrite Zle_Qle in H1, H2. unfold Z.sub in H1, H2.
  rewrite ?inject_Z_mult, ?inject_Z_plus, ?inject_Z_opp in *. change (inject_Z 2) with 2%Q in *. rewrite ?inject_Z_mult in *. lra.
Qed.

Lemma digits2_at_most p k : 0 <= k -> Z.pos p < 2 ^ k -> Z.pos (digits2_pos p) <= k.
Proof.
  intros Hk Hp. pose proof (digits_bounds p) as [H1 _]. assert (Z.pos (digits2_pos p) - 1 < k); [|lia]. apply (Z.pow_lt_mono_r_iff 2); lia.
Qed.

Lemma ratio_moderate s n d :
  Z.pos n < 2 ^ 200 -> Z.pos d < 2 ^ 200 -> rounds s (inject_Z (Z.pos n) / inject_Z (Z.pos d)) (d_of_ratio s n d).
Proof.
  intros Hn Hd. apply ratio_rounds. pose proof (digits2_at_most n 200 ltac:(lia) Hn). pose proof (digits2_at_most d 200 ltac:(lia) Hd). lia.
Qed.

(** Seventeen decimals are enough for any double between 0.1 and 1000. *)
Lemma seventeen_decimals s m e :
  full m -> (1 # 10 <= mag m e <= 1000)%Q ->
  exists range, strtod (snprintf 64 (print_fixed 17 (S754_finite s m e))) = Converted (S754_finite s m e) range [].
Proof.
  intros Hm [H1 H2]. destruct (scale_round_near m e 17 ltac:(lia)) as [HN Hnear]. change (inject_Z (10 ^ 17)) with 100000000000000000%Q in Hnear.
  change (Z.of_nat 17) with 17 in *. pose proof (print_fixed_reads 17 s m e ltac:(lia)) as Hread. pose proof (print_fixed_short 17 s m e ltac:(lia)) as Hshort.
  change (Z.of_nat 17) with 17 in *. set (N := scale_round (Z.pos m) e 17) in *. apply Qabs_Qle_condition in Hnear as [N1 N2].
  assert (0 < N < 10 ^ 30) as [Hpos Hbig].
  { split.
    - rewrite Zlt_Qlt. change (inject_Z 0) with 0%Q. lra.
    - rewrite Zlt_Qlt. change (inject_Z (10 ^ 30)) with 1000000000000000000000000000000%Q. lra. }
  rewrite Hshort, Hread by lia. pose proof (scaled_pos s N 17 (10 ^ 17) ltac:(lia) eq_refl) as Hs.
  destruct N as [|p|p]; [lia| |lia]. destruct Hs as [range Hs]. rewrite Hs. exists range. f_equal.
  refine (rounds_near s _ _ m e Hm _ (ratio_moderate s p (10 ^ 17) _ _)); [|eapply Z.lt_trans; [exact Hbig|done]|done].
  change (inject_Z (Z.pos (10 ^ 17))) with 100000000000000000%Q.
  assert (inject_Z (Z.pos p) / 100000000000000000 == (1 # 100000000000000000) * inject_Z (Z.pos p))%Q as -> by field.
  apply Qabs_Qlt_condition. lra.
Qed.

(** Whole millionths, as a double: the quotient, and what six decimals of it read as. *)
Lemma six_decimals s n :
  Z.pos n < 2 ^ 31 ->
  exists m e range, d_div (binary_round 53 1024 s n 0) (d_of_Z 1000000) = S754_finite s m e /\ full m /\
    canonical (S754_finite s m e) = true /\ close (mag m e) (inject_Z (Z.pos n) / 1000000) /\
    strtod (snprintf 64 (print_fixed 6 (S754_finite s m e))) = Converted (S754_finite s m e) range [].
Proof.
  intros Hn. pose (M := 8589934592000000%positive). assert (full M) as HfM by (unfold full; cbn; lia).
  change (d_of_Z 1000000) with (S754_finite false M (-33)). assert (mag M (-33) == 1000000)%Q as HmM by (by vm_compute).
  destruct (of_Z_exact s n ltac:(lia)) as (m1 & e1 & E1 & Hf1 & He1 & Hv1). rewrite E1.
  destruct (div_close s m1 e1 false M (-33)) as (m & e & Ed & Hf & He & Hc); [done|done|lia|lia|].
  pose proof (full_canonical s m e Hf ltac:(lia)) as Hcan.
  pose proof (div_rounds s m1 e1 false M (-33) Hf1 HfM ltac:(lia) ltac:(lia)) as Hr. rewrite Ed in *.
  rewrite xorb_false_r in *. unfold close in Hc. rewrite Hv1, HmM in Hr, Hc. exists m, e.
  assert (exists range, strtod (snprintf 64 (print_fixed 6 (S754_finite s m e))) = Converted (S754_finite s m e) range []) as [range Hx];
    [|by exists range]. pose proof (mag_pos m e) as Hmp.
  destruct (scale_round_near m e 6 ltac:(lia)) as [HN Hnear]. change (inject_Z (10 ^ 6)) with 1000000%Q in Hnear.
  pose proof (print_fixed_reads 6 s m e ltac:(lia)) as Hread. pose proof (print_fixed_short 6 s m e ltac:(lia)) as Hshort.
  change (Z.of_nat 6) with 6 in *.
  assert (scale_round (Z.pos m) e 6 = Z.pos n) as EN.
  { set (N := scale_round (Z.pos m) e 6) in *. apply Qabs_Qle_condition in Hnear, Hc.
    assert (inject_Z (Z.pos n) / 1000000 == (1 # 1000000) * inject_Z (Z.pos n))%Q as Hdiv by field. rewrite Hdiv in Hc.
    assert (inject_Z (Z.pos n) < 2147483648)%Q as HnQ by (change 2147483648%Q with (inject_Z (2 ^ 31)); by rewrite <- Zlt_Qlt).
    unfold eps in Hc. change (2 ^ 52)%positive with 4503599627370496%positive in Hc.
    assert (inject_Z (N - Z.pos n) < 1)%Q as B1 by (unfold Z.sub; rewrite inject_Z_plus, inject_Z_opp; lra).
    assert (-(1) < inject_Z (N - Z.pos n))%Q as B2 by (unfold Z.sub; rewrite inject_Z_plus, inject_Z_opp; lra).
    change 1%Q with (inject_Z 1) in B1. change (-(1))%Q with (inject_Z (-1)) in B2. rewrite <- Zlt_Qlt in B1, B2. lia. }
  rewrite EN in *. rewrite Hshort, Hread by lia. destruct (scaled_pos s (Z.pos n) 6 (10 ^ 6) ltac:(lia) eq_refl) as [range Hs].
  rewrite Hs. exists range. f_equal.
  refine (rounds_unique s _ _ _ _ _ (ratio_moderate s n (10 ^ 6) _ _) Hr); [reflexivity|lia|done].
Qed.

(** ** Differences *)

(** Rounding keeps what is at least one at least one. *)
Lemma round_aux_lower s p e :
  e <= Z.max (Z.pos (digits2_pos p) + e - 53) (-1074) -> (1 <= mag p e)%Q ->
  match binary_round_aux 53 1024 s (Z.pos p) e loc_Exact with
  | S754_finite _ m' e' => (1 <= mag m' e')%Q
  | S754_zero _ => False
  | _ => True
  end.
Proof.
  intros He Hx. pose proof (digits_bounds p) as [L U]. set (d := Z.pos (digits2_pos p)) in *.
  assert (0 < d + e) as Hde.
  { apply p2_lt_inv. rewrite p2_plus, (p2_Z d) by (unfold d; lia). apply Qle_lt_trans with (mag p e); [exact Hx|].
    unfold mag. apply Qmult_lt_compat_r; [apply p2_pos|]. by rewrite <- Zlt_Qlt. }
  set (n := d - 53). assert (0 <= n) as Hn by lia. unfold binary_round_aux.
  pose proof (shr_fexp_spec p e loc_Exact n ltac:(unfold n; fold d; lia) Hn ltac:(lia)) as H1.
  destruct (shr_fexp 53 1024 (Z.pos p) e loc_Exact) as [mrs e1]. destruct H1 as [Hm ->].
  assert (0 < 2 ^ n) as Hp by (apply Z.pow_pos_nonneg; lia).
  assert (2 ^ 52 <= shr_m mrs < 2 ^ 53) as Hq.
  { rewrite Hm. replace (d - 1) with (52 + n) in L by lia. replace d with (53 + n) in U by lia. rewrite Z.pow_add_r in L, U by lia.
    split; [apply Z.div_le_lower_bound; lia|apply Z.div_lt_upper_bound; lia]. }
  pose proof (round_nearest_even_near (shr_m mrs) (loc_of_shr_record mrs) ltac:(lia)) as Hr.
  set (R := round_nearest_even _ _) in *. clearbody R.
  assert (forall m e', 2 ^ 52 <= Z.pos m -> -52 <= e' -> (1 <= mag m e')%Q) as Hbig.
  { intros m e' Hm' He'. apply Qle_trans with (p2 (52 + e')); [apply (p2_le 0); lia|]. rewrite p2_shift by done. unfold mag.
    apply Qmult_le_compat_r; [by rewrite <- Zle_Qle|apply Qlt_le_weak, p2_pos]. }
  destruct (shr_fexp_cases R (e + n) loc_Exact ltac:(lia)) as [(Hn2 & Hm2 & He2)|[_ E]].
  - destruct (shr_fexp 53 1024 R (e + n) loc_Exact) as [mrs2 e2]. cbn [fst snd] in *. set (n2 := Z.max _ _ - _) in *.
    assert (shr_m mrs2 * 2 ^ n2 = R) as Hex.
    { rewrite Hm2. destruct (Zdigits2_bounds R ltac:(lia)) as (_ & _ & HdR). specialize (HdR ltac:(lia)).
      assert (Zdigits2 R - 1 < 54) by (apply (Z.pow_lt_mono_r_iff 2); lia).
      destruct (Z.eq_dec R (2 ^ 53)) as [->|Hne].
      - change (Zdigits2 (2 ^ 53)) with 54 in *. replace n2 with 1 by (unfold n2; lia). done.
      - assert (Zdigits2 R - 1 < 53) by (apply (Z.pow_lt_mono_r_iff 2); lia). replace n2 with 0 by (unfold n2 in *; lia).
        by rewrite Z.pow_0_r, Z.div_1_r, Z.mul_1_r. }
    assert (0 < 2 ^ n2) as Hp2 by (apply Z.pow_pos_nonneg; lia).
    destruct (shr_m mrs2) as [|m|m]; [lia| |lia]. destruct (_ <=? _); [|done]. subst e2.
    apply Qle_trans with (inject_Z R * p2 (e + n))%Q.
    + assert (exists q, R = Z.pos q) as [q Eq] by (exists (Z.to_pos R); lia). rewrite Eq. apply Hbig; lia.
    + rewrite <- Hex, inject_Z_mult. unfold mag. replace (e + n + n2) with (n2 + (e + n)) by lia. rewrite (p2_shift n2 (e + n) Hn2). lra.
  - rewrite E. cbn [shr_m shr_record_of_loc]. destruct R as [|R|R]; [lia| |lia]. destruct (_ <=? _); [|done]. apply Hbig; lia.
Qed.

Lemma shl_align_value m e e' : e' <= e -> Z.pos (shl_align m e e').1 = Z.pos m * 2 ^ (e - e') /\ (shl_align m e e').2 = e'.
Proof.
  intros He. unfold shl_align. destruct (e' - e) as [|k|k] eqn:Ek; [|lia|].
  - replace (e - e') with 0 by lia. cbn. lia.
  - cbn [fst snd]. rewrite iter_xO. split; [do 2 f_equal; lia|done].
Qed.

Lemma digits_shifted p q k : 0 <= k -> Z.pos q = Z.pos p * 2 ^ k -> Z.pos (digits2_pos q) = Z.pos (digits2_pos p) + k.
Proof.
  intros Hk Hq. pose proof (digits_bounds p) as [L U]. assert (0 < 2 ^ k) by (apply Z.pow_pos_nonneg; lia).
  apply digits_unique; [lia|]. rewrite Hq. replace (Z.pos (digits2_pos p) + k - 1) with (Z.pos (digits2_pos p) - 1 + k) by lia.
  rewrite !Z.pow_add_r by lia. split; [apply Z.mul_le_mono_nonneg_r|apply Z.mul_lt_mono_pos_r]; lia.
Qed.

Lemma binary_round_far s p e :
  (1 <= mag p e)%Q ->
  match binary_round 53 1024 s p e with
  | S754_finite _ m' e' => (1 <= mag m' e')%Q /\ canonical (binary_round 53 1024 s p e) = true
  | S754_zero _ => False
  | _ => True
  end.
Proof.
  intros Hx. unfold binary_round. set (f := fexp 53 1024 (Z.pos (digits2_pos p) + e)).
  assert (f = Z.max (Z.pos (digits2_pos p) + e - 53) (-1074)) as Ef by done.
  assert (exists q e1, shl_align p e f = (q, e1) /\ (mag q e1 == mag p e)%Q /\ e1 <= Z.max (Z.pos (digits2_pos q) + e1 - 53) (-1074))
    as (q & e1 & -> & Hmag & He1).
  { destruct (Z.le_gt_cases f e) as [Hle|Hgt].
    - destruct (shl_align_value p e f Hle) as [Hv He']. destruct (shl_align p e f) as [q e1]. cbn [fst snd] in *. subst e1.
      exists q, f. split; [done|]. split.
      + unfold mag. rewrite Hv, inject_Z_mult, <- p2_Z, <- Qmult_assoc, <- p2_plus by lia. by replace (e - f + f) with e by lia.
      + rewrite (digits_shifted p q (e - f)) by (done || lia). lia.
    - exists p, e. unfold shl_align. split; [destruct (f - e) eqn:E; [done|done|lia]|]. split; [reflexivity|lia]. }
  rewrite <- Hmag in Hx. pose proof (round_aux_lower s q e1 He1 Hx) as Hlow.
  pose proof (round_aux_canonical s (Z.pos q) e1 loc_Exact ltac:(lia) He1) as Hcan.
  destruct (binary_round_aux _ _ _ _ _ _); done.
Qed.

(** A small difference means close values. *)
Lemma sub_close s m e M E D ED :
  full D -> (mag D ED < 1)%Q -> f_lt (d_abs (d_sub (S754_finite s m e) (S754_finite false M E))) (S754_finite false D ED) = true ->
  (Qabs (dval (S754_finite s m e) - mag M E) < 1)%Q.
Proof.
  intros HD HD1 Hlt. apply Qnot_le_lt. intros Hge. unfold d_sub, SFsub in Hlt. set (ez := Z.min e E) in Hlt.
  destruct (shl_align_value m e ez ltac:(lia)) as [H1 _]. destruct (shl_align_value M E ez ltac:(lia)) as [H2 _].
  set (a := cond_Zopp s (Z.pos (shl_align m e ez).1) - cond_Zopp false (Z.pos (shl_align M E ez).1)) in Hlt.
  assert (forall x ex, ez <= ex -> (inject_Z (x * 2 ^ (ex - ez)) * p2 ez == inject_Z x * p2 ex)%Q) as Hshift.
  { intros x ex Hex. rewrite inject_Z_mult, <- p2_Z, <- Qmult_assoc, <- p2_plus by lia. by replace (ex - ez + ez) with ex by lia. }
  assert (dval (S754_finite s m e) - mag M E == inject_Z a * p2 ez)%Q as Ea.
  { pose proof (Hshift (Z.pos m) e ltac:(lia)) as Sm. pose proof (Hshift (Z.pos M) E ltac:(lia)) as SM. unfold mag in *.
    unfold a, cond_Zopp, dval. rewrite H1, H2. unfold Z.sub at 1.
    destruct s; [change (Z.neg m) with (- Z.pos m)|]; rewrite inject_Z_plus, !inject_Z_opp; lra. }
  rewrite Ea, Qabs_Qmult, (Qabs_pos (p2 ez)) in Hge by apply Qlt_le_weak, p2_pos.
  assert (forall sg p, (1 <= mag p ez)%Q -> f_lt (d_abs (binary_round 53 1024 sg p ez)) (S754_finite false D ED) = true -> False) as Hgo.
  { intros sg p Hp Hx. pose proof (binary_round_far sg p ez Hp) as Hfar. destruct (binary_round 53 1024 sg p ez) as [?|?| |s' m' e']; try done.
    destruct Hfar as [Hm' Hc]. cbn [d_abs SFabs] in Hx.
    assert (mag m' e' <= mag D ED)%Q; [|lra]. apply le_value; [by apply canonical_shape in Hc as [? _]|done|].
    revert Hx. unfold f_lt, f_le, SFltb, SFleb. by destruct (SFcompare _ _) as [[]|]. }
  unfold binary_normalize in Hlt. destruct a as [|p|p].
  - cbn in Hge. assert (0 * p2 ez == 0)%Q as E0 by ring. rewrite E0 in Hge. lra.
  - by eapply (Hgo false p).
  - by eapply (Hgo true p).
Qed.

(** ** The numbers of the configuration *)

(** A positive normal constant between two rationals. *)
Definition in_range (lo hi : Q) (c : double) : bool :=
  match c with
  | S754_finite false M E => (2 ^ 52 <=? Z.pos M) && (Z.pos M <? 2 ^ 53) && (-1074 <? E) && Qle_bool lo (mag M E) && Qle_bool (mag M E) hi
  | _ => false
  end.

Lemma in_range_inv lo hi c :
  in_range lo hi c = true -> exists M E, c = S754_finite false M E /\ full M /\ -1074 < E /\ (lo <= mag M E <= hi)%Q.
Proof.
  unfold in_range. destruct c as [?|?| |[] M E]; try done. rewrite !andb_true_iff, Z.leb_le, !Z.ltb_lt, !Qle_bool_iff.
  intros. destruct_and!. exists M, E. by split_and!.
Qed.

(** From a tenth to a thousand, from two to nine hundred, and from a thousandth to nine tenths. *)
Definition moderate : double -> bool := in_range (1 # 10) 1000.
Definition sizable : double -> bool := in_range 2 900.
Definition slight : double -> bool := in_range (1 # 1000) (9 # 10).

Definition reads_back (k : nat) (v : double) : Prop := exists range, strtod (snprintf 64 (print_fixed k v)) = Converted v range [].

Lemma between_reads v lo hi :
  canonical v = true -> moderate lo = true -> moderate hi = true ->
  f_le lo v = true -> f_le v hi = true -> reads_back 17 v.
Proof.
  intros Hc (Ml & El & -> & Fl & HEl & Bl & _)%in_range_inv (Mh & Eh & -> & Fh & _ & _ & Bh)%in_range_inv H1 H2.
  destruct v as [?|[]| |[] m e]; try done. destruct (ge_value m e Ml El Hc Fl HEl H1) as [Hlo Hm].
  apply le_value in H2; [|apply Hm|done]. apply seventeen_decimals; [done|lra].
Qed.

Lemma near_reads v c d :
  canonical v = true -> is_finite v = true -> sizable c = true -> slight d = true ->
  f_lt (d_abs (d_sub v c)) d = true -> reads_back 17 v.
Proof.
  intros Hc Hf (M & E & -> & FM & HE & B1 & B2)%in_range_inv (D & ED & -> & FD & _ & _ & BD)%in_range_inv Hlt.
  destruct v as [s|?| |s m e]; try done.
  { cbn [d_sub SFsub d_abs SFabs] in Hlt. exfalso. assert (mag M E <= mag D ED)%Q; [|lra]. apply le_value; [apply FM|done|].
    revert Hlt. unfold f_lt, f_le, SFltb, SFleb. by destruct (SFcompare _ _) as [[]|]. }
  pose proof (sub_close s m e M E D ED FD ltac:(lra) Hlt) as Hclose. apply Qabs_Qlt_condition in Hclose as [C1 C2].
  pose proof (mag_pos m e) as Hp. destruct s; cbn [dval] in C1, C2.
  - exfalso. change (Z.neg m) with (- Z.pos m) in C1. rewrite inject_Z_opp in C1. unfold mag in Hp, B1. unfold mag in C1. lra.
  - fold (mag m e) in C1, C2. apply seventeen_decimals; [|lra]. destruct (canonical_shape _ _ _ Hc) as (Hm & _ & [Hfull|He]); [done|exfalso].
    subst e. pose proof (mag_lt_exponent m (-1074) M E Hm FM HE) as Hsm.
    assert (mag m (-1074) < p2 (53 + -1074))%Q as Hx. { rewrite p2_shift by done. unfold mag. apply Qmult_lt_compat_r; [apply p2_pos|]. by rewrite <- Zlt_Qlt. }
    pose proof (p2_le (53 + -1074) 0 ltac:(lia)) as H0. change (p2 0) with 1%Q in H0. lra.
Qed.

(** A position within the globe, scaled to millionths. *)
Lemma position_bound v M E K :
  canonical v = true -> full M -> (mag M E == inject_Z K)%Q -> 0 <= K <= 1000 -> within M E v = true ->
  Z.abs (llround (d_mul v (d_of_Z 1000000))) <= K * 1000000.
Proof.
  intros Hc HM HK Hb Hw. destruct v as [s|[]| |s m e]; [|done|done|done|].
  { assert (llround (d_mul (S754_zero s) (d_of_Z 1000000)) = 0) as -> by (by destruct s). lia. }
  pose proof (within_value M E s m e Hc HM Hw) as Hle. pose (P := 8589934592000000%positive).
  change (d_of_Z 1000000) with (S754_finite false P (-33)). assert (mag P (-33) == 1000000)%Q as HP by (by vm_compute).
  unfold d_mul, SFmul. destruct (binary_round_aux 53 1024 _ _ _ _) as [?|?| |s' m' e'] eqn:Hr; try (cbn; lia).
  apply round_aux_upper in Hr. apply llround_below; [lia|].
  assert (mag (m * P) (e + -33) == mag m e * 1000000)%Q as Em.
  { rewrite <- HP. unfold mag. rewrite Pos2Z.inj_mul, inject_Z_mult, p2_plus. ring. }
  rewrite Em in Hr. rewrite HK in Hle. pose proof (p2_le (-1074) (-10) ltac:(lia)) as Ht. change (p2 (-10)) with (1 # 1024)%Q in Ht.
  assert (inject_Z K <= 1000)%Q as HK1 by (change 1000%Q with (inject_Z 1000); rewrite <- Zle_Qle; lia).
  rewrite inject_Z_mult. change (inject_Z 1000000) with 1000000%Q. unfold eps in Hr. change (2 ^ 52)%positive with 4503599627370496%positive in Hr.
  pose proof (mag_pos m e). lra.
Qed.

(** Millionths within the globe are degrees within the globe. *)
Lemma degrees_within s n M E K :
  full M -> (mag M E == inject_Z K)%Q -> 0 <= K <= 1000 -> Z.pos n < K * 1000000 ->
  within M E (d_div (binary_round 53 1024 s n 0) (d_of_Z 1000000)) = true.
Proof.
  intros HM HK Hb Hn. destruct (six_decimals s n ltac:(lia)) as (m & e & range & -> & Hf & _ & Hc & _). apply value_within; [done|done|].
  unfold close in Hc. apply Qabs_Qle_condition in Hc. rewrite HK.
  assert (inject_Z (Z.pos n) / 1000000 == (1 # 1000000) * inject_Z (Z.pos n))%Q as Hdiv by field. rewrite Hdiv in Hc.
  assert (inject_Z (Z.pos n) <= inject_Z K * 1000000 - 1)%Q as H1.
  { assert (Z.pos n <= K * 1000000 - 1) as H1 by lia. rewrite Zle_Qle in H1. unfold Z.sub in H1. rewrite inject_Z_plus, inject_Z_mult in H1.
    change (inject_Z (- (1))) with (-(1))%Q in H1. change (inject_Z 1000000) with 1000000%Q in H1. lra. }
  assert (inject_Z K <= 1000)%Q as HK1 by (change 1000%Q with (inject_Z 1000); rewrite <- Zle_Qle; lia).
  unfold eps in Hc. change (2 ^ 52)%positive with 4503599627370496%positive in Hc. pose proof (mag_pos m e).
  apply Qnot_lt_le. intros Hbig. lra.
Qed.

(** The two ranges of a position: 90 and 180 degrees are [kGlobe * 2^-46] and [kGlobe * 2^-45]. *)
Definition kGlobe : positive := 6333186975989760.

Lemma kGlobe_full : full kGlobe.
Proof. unfold full, kGlobe. lia. Qed.

Lemma lat_bound v : canonical v = true -> within kGlobe (-46) v = true -> Z.abs (llround (d_mul v (d_of_Z 1000000))) <= 90000000.
Proof. intros Hc Hw. apply (position_bound v kGlobe (-46) 90 Hc kGlobe_full); [by vm_compute|lia|done]. Qed.

Lemma lon_bound v : canonical v = true -> within kGlobe (-45) v = true -> Z.abs (llround (d_mul v (d_of_Z 1000000))) <= 180000000.
Proof. intros Hc Hw. apply (position_bound v kGlobe (-45) 180 Hc kGlobe_full); [by vm_compute|lia|done]. Qed.

Lemma lat_degrees s n :
  Z.pos n <= 90000000 -> within kGlobe (-46) (d_div (binary_round 53 1024 s n 0) (d_of_Z 1000000)) = true.
Proof.
  intros Hn. destruct (Z.eq_dec (Z.pos n) 90000000) as [E|E]; [injection E as ->; by destruct s; vm_compute|].
  apply (degrees_within s n kGlobe (-46) 90 kGlobe_full); [by vm_compute|lia|lia].
Qed.

Lemma lon_degrees s n :
  Z.pos n <= 180000000 -> within kGlobe (-45) (d_div (binary_round 53 1024 s n 0) (d_of_Z 1000000)) = true.
Proof.
  intros Hn. destruct (Z.eq_dec (Z.pos n) 180000000) as [E|E]; [injection E as ->; by destruct s; vm_compute|].
  apply (degrees_within s n kGlobe (-45) 180 kGlobe_full); [by vm_compute|lia|lia].
Qed.
