(* ===== verification/Ini.v ===== *)
(** The reader of configuration files ([util/ini]) and the numbers in them.

    An [Ini] is its map of entries, in key order.  The list of keys that were asked for
    ([read_]) feeds one warning, and is in [Log] with it.  Lookups return the value and the [ok] flag
    the source passes by reference. *)

From S2P Require Import Prelude ByteIO Floats Record CText.

(** ** [std::map<std::string, std::string>] *)

(** [std::string::compare], by unsigned bytes. *)
Fixpoint str_lt (a b : Str) : bool :=
  match a, b with
  | _, [] => false
  | [], _ :: _ => true
  | x :: a, y :: b => if x <? y then true else if y <? x then false else str_lt a b
  end.

Abbreviation StrMap := (list (Str * Str)).

Fixpoint sm_find (k : Str) (m : StrMap) : option Str :=
  match m with
  | [] => None
  | (k', v) :: m => if beq k k' then Some v else sm_find k m
  end.

Fixpoint sm_set (k v : Str) (m : StrMap) : StrMap :=
  match m with
  | [] => [(k, v)]
  | (k', v') :: m' =>
      if str_lt k k' then (k, v) :: m else if beq k k' then (k, v) :: m' else (k', v') :: sm_set k v m'
  end.

(** ** Reading a file *)

Definition ini_space (c : Z) : bool := (c =? 32) || (c =? 9) || (c =? 13) || (c =? 10).

Fixpoint drop_space (s : Str) : Str :=
  match s with c :: s' => if ini_space c then drop_space s' else s | [] => [] end.

Definition trim (s : Str) : Str := rev (drop_space (rev (drop_space s))).

(** The text before the first byte that satisfies [p], if there is one. *)
Fixpoint before (p : Z -> bool) (s : Str) : option Str :=
  match s with
  | [] => None
  | c :: s => if p c then Some [] else (fun b => c :: b) <$> before p s
  end.

Definition is_quote (c : Z) : bool := (c =? 34) || (c =? 39).
Definition is_comment (c : Z) : bool := (c =? 35) || (c =? 59).

Definition last_byte (s : Str) : Z := List.last s 0.
Definition first_byte (s : Str) : Z := List.hd 0 s.

Definition clean_value (v : Str) : Str :=
  let v := trim v in
  if (2 <=? length v)%nat && is_quote (first_byte v) && (last_byte v =? first_byte v) then
    take (length v - 2) (drop 1 v)
  else
    match before is_comment v with
    | Some kept => trim kept
    | None => v
    end.

Definition tolower (s : Str) : Str := map c_tolower s.

(** What one line of the file is. *)
Inductive Line :=
| Nothing
| Header (section : Str)
| Entry (key value : Str)
| BadLine (why : Str).

Definition read_line (section line : Str) : Line :=
  match trim line with
  | [] => Nothing
  | (c :: rest) as s =>
      if is_comment c then Nothing
      else if c =? 91 then
        match before (Z.eqb 93) rest with
        | None => BadLine (lit ": unterminated section header")
        | Some name => Header (trim name)
        end
      else
        match cut_at 61 s with
        | None => BadLine (lit ": expected `key = value`")
        | Some (k, v) =>
            match trim k with
            | [] => BadLine (lit ": empty key")
            | key =>
                let key := match section with [] => key | _ => section ++ lit "." ++ key end in
                Entry (tolower key) (clean_value v)
            end
        end
  end.

(** A result or the text of the error. *)
Abbreviation Result A := (Str + A)%type.

Fixpoint read_lines (path : Str) (lineno : Z) (lines : list Str) (section : Str) (m : StrMap) : Result StrMap :=
  match lines with
  | [] => inr m
  | line :: lines =>
      match read_line section line with
      | Nothing => read_lines path (lineno + 1) lines section m
      | Header section => read_lines path (lineno + 1) lines section m
      | Entry k v => read_lines path (lineno + 1) lines section (sm_set k v m)
      | BadLine why => inl (path ++ lit ":" ++ show_int lineno ++ why)
      end
  end.

Definition ini_load (path : Str) (input : Input) (m : StrMap) : Result StrMap :=
  match input with
  | NoFile => inl (lit "cannot open " ++ path)
  | File content _ => read_lines path 1 (getlines content) [] m
  end.

Definition ini_set (key value : Str) (m : StrMap) : StrMap := sm_set (tolower key) value m.

(** ** Typed lookups *)

Definition ini_has (key : Str) (m : StrMap) : bool := bool_decide (is_Some (sm_find key m)).

(** The value of a key that is there and not empty. *)
Definition present (key : Str) (m : StrMap) : option Str :=
  match sm_find key m with Some (c :: v) => Some (c :: v) | _ => None end.

Definition get_str (key : Str) (def : Str) (m : StrMap) : Str := default def (present key m).

(** A C conversion of the whole value; the C library sees it up to the first nul. *)
Definition whole {A} (conv : Str -> Conversion A) (v : Str) : option A :=
  match conv (Reader.until_nul v) with
  | Converted a false [] => Some a
  | _ => None
  end.

Definition get_int64 (key : Str) (def : Z) (m : StrMap) : Z * bool :=
  match present key m with
  | None => (def, true)
  | Some v => match whole strtoll v with Some n => (n, true) | None => (def, false) end
  end.

(** [long] has the same width on the platforms the daemon runs on. *)
Definition get_int (key : Str) (def : Z) (m : StrMap) : Z * bool := get_int64 key def m.

Definition get_double (key : Str) (def : double) (m : StrMap) : double * bool :=
  match present key m with
  | None => (def, true)
  | Some v => match whole strtod v with Some d => (d, true) | None => (def, false) end
  end.

Definition get_bool (key : Str) (def : bool) (m : StrMap) : bool * bool :=
  match present key m with
  | None => (def, true)
  | Some v =>
      let s := tolower v in
      if beq s (lit "1") || beq s (lit "true") || beq s (lit "yes") || beq s (lit "on") then (true, true)
      else if beq s (lit "0") || beq s (lit "false") || beq s (lit "no") || beq s (lit "off") then (false, true)
      else (def, false)
  end.

Example ini_sample :
  ini_load (lit "f") (File (lit "
# a comment
[Radio]
LORA_SF = 11 ; slow
; another
[node]
 Advert_Name = '#1; it''s' 
lat=0x10") false) [] =
  inr [(lit "node.advert_name", lit "#1; it''s"); (lit "node.lat", lit "0x10"); (lit "radio.lora_sf", lit "11")].
Proof. vm_compute. done. Qed.

(** ** Lemmas on the map *)

Lemma str_lt_irrefl a : str_lt a a = false.
Proof. induction a as [|x a IH]; simpl; [done|]. by rewrite Z.ltb_irrefl. Qed.

Lemma str_lt_trans a : forall b c, str_lt a b = true -> str_lt b c = true -> str_lt a c = true.
Proof.
  induction a as [|x a IH]; intros [|y b] [|z c]; simpl; try done.
  destruct (Z.ltb_spec x y), (Z.ltb_spec y z), (Z.ltb_spec x z), (Z.ltb_spec y x), (Z.ltb_spec z y), (Z.ltb_spec z x);
    try lia; try done. apply IH.
Qed.

Definition sm_sorted (m : StrMap) : Prop := StronglySorted (fun a b => str_lt a b = true) (map fst m).

(** Storing beyond the last key appends. *)
Lemma sm_set_last k v m : Forall (fun e => str_lt e.1 k = true) m -> sm_set k v m = m ++ [(k, v)].
Proof.
  induction 1 as [|[k' v'] m Hk _ IH]; simpl; [done|]. cbn in Hk.
  destruct (str_lt k k') eqn:H1.
  - pose proof (str_lt_trans _ _ _ Hk H1) as H2. by rewrite str_lt_irrefl in H2.
  - destruct (beq k k') eqn:H2; [|by rewrite IH]. apply beq_eq in H2 as ->. by rewrite str_lt_irrefl in Hk.
Qed.

Lemma sm_set_find k v m : sm_find k (sm_set k v m) = Some v.
Proof.
  induction m as [|[k' v'] m IH]; simpl; [by rewrite beq_refl|].
  destruct (str_lt k k'); simpl; [by rewrite beq_refl|].
  destruct (beq k k') eqn:H; simpl; rewrite ?beq_refl, ?H; done.
Qed.

Lemma sm_set_find_ne k v m k' : k <> k' -> sm_find k' (sm_set k v m) = sm_find k' m.
Proof.
  intros Hne. assert (beq k' k = false) as Hb by (by apply beq_neq).
  induction m as [|[k1 v1] m IH]; simpl; [by rewrite Hb|].
  destruct (str_lt k k1); simpl; [by rewrite Hb|].
  destruct (beq k k1) eqn:H; simpl; [|by rewrite IH]. apply beq_eq in H as ->. by rewrite Hb.
Qed.

Lemma sm_set_elem k v m e : e ∈ sm_set k v m -> e = (k, v) \/ e ∈ m.
Proof.
  induction m as [|[k1 v1] m IH]; simpl; [rewrite list_elem_of_singleton; by left|].
  destruct (str_lt k k1), (beq k k1); rewrite ?elem_of_cons; tauto.
Qed.

Lemma str_lt_total a : forall b, str_lt a b = false -> beq a b = false -> str_lt b a = true.
Proof.
  induction a as [|x a IH]; intros [|y b]; simpl; try done.
  intros H1 H2. destruct (Z.ltb_spec x y); [done|]. destruct (Z.ltb_spec y x); [done|].
  assert (x = y) as -> by lia. apply IH; [done|]. apply beq_neq. apply beq_neq in H2. congruence.
Qed.

Lemma sm_set_sorted k v m : sm_sorted m -> sm_sorted (sm_set k v m).
Proof.
  unfold sm_sorted. induction m as [|[k1 v1] m IH]; simpl; intros Hs; [by repeat constructor|].
  apply StronglySorted_inv in Hs as [Hs Hf]. destruct (str_lt k k1) eqn:Hlt; simpl.
  - constructor; [by constructor|]. constructor; [done|]. eapply Forall_impl; [|exact Hf].
    cbn. intros a Ha. by eapply str_lt_trans.
  - destruct (beq k k1) eqn:Heq; simpl; [apply beq_eq in Heq as ->; by constructor|].
    constructor; [auto|]. apply Forall_forall. intros x (e & <- & He)%in_map_iff.
    rewrite <- list_elem_of_In in He. apply sm_set_elem in He as [->|He]; [by apply str_lt_total|].
    rewrite Forall_forall in Hf. apply Hf, in_map. by apply list_elem_of_In.
Qed.
