(* ===== verification/DaemonConfig.v ===== *)
(** The daemon's configuration ([daemon/config]): the table of settings, the reader of the
    config file, and the typed access a companion app has to ten of the keys.

    A row of the table holds pointers into the [Config] it is built over; here it holds a
    getter and a setter.  [log_syslog_style] and the client buffer limit have no key and keep
    their defaults. *)

From S2P Require Import Prelude ByteIO Floats Crypto Identity Packet Payloads Radio.
From S2P Require Import Dispatcher Record Persist Contacts Channels Inbox Sender Node.
From S2P Require Import CText Ini FloatFacts Rounding.

(** ** Data *)

Inductive LogLevel := Error | Warn | Info | Debug | Trace.

Definition log_parse_level (name : Str) : option LogLevel :=
  if beq name (lit "error") then Some Error
  else if beq name (lit "warn") || beq name (lit "warning") then Some Warn
  else if beq name (lit "info") then Some Info
  else if beq name (lit "debug") then Some Debug
  else if beq name (lit "trace") then Some Trace
  else None.

Record SpiConfig := mkSpi {
  spi_spidev : Str;
  spi_gpiochip : Str;
  spi_irq_pin : Z;
  spi_busy_pin : Z;
  spi_reset_pin : Z;
  spi_nss_pin : Z;
  spi_rxen_pin : Z;
  spi_txen_pin : Z;
  spi_speed_hz : Z;
  spi_retry_interval_s : Z }.

#[export] Instance eta_SpiConfig : Eta SpiConfig := fun s =>
  mkSpi (spi_spidev s) (spi_gpiochip s) (spi_irq_pin s) (spi_busy_pin s) (spi_reset_pin s) (spi_nss_pin s)
    (spi_rxen_pin s) (spi_txen_pin s) (spi_speed_hz s) (spi_retry_interval_s s).

Definition SpiConfig_default : SpiConfig :=
  mkSpi (lit "/dev/spidev1.0") (lit "gpiochip0") 26 24 25 (-1) (-1) (-1) 2000000 10.

Inductive Transport := Unix | Tcp.

Record Options := mkOptions {
  op_transport : Transport;
  op_socket_path : Str;
  op_bind_addr : Str;
  op_port : Z;
  op_max_outbound_bytes : Z }.

#[export] Instance eta_Options : Eta Options := fun o =>
  mkOptions (op_transport o) (op_socket_path o) (op_bind_addr o) (op_port o) (op_max_outbound_bytes o).

Definition Options_default : Options :=
  mkOptions Unix (lit "/run/coreletd/companion.sock") (lit "127.0.0.1") 5000 (256 * 1024).

(** The daemon's [Config]; [cf_messages_path] is the node config's [messages_path], and
    [rw_] are the two settings of [Raw]. *)
Record DaemonConfig := mkDaemonConfig {
  cf_log_level : LogLevel;
  cf_state_dir : Str;
  cf_radio : RadioParams;
  cf_spi : SpiConfig;
  cf_node : Config;
  cf_messages_path : Str;
  cf_companion : Options;
  rw_log_level : Str;
  rw_companion_interface : Str }.

#[export] Instance eta_DaemonConfig : Eta DaemonConfig := fun c =>
  mkDaemonConfig (cf_log_level c) (cf_state_dir c) (cf_radio c) (cf_spi c) (cf_node c) (cf_messages_path c)
    (cf_companion c) (rw_log_level c) (rw_companion_interface c).

Definition NodeConfig_default : Config := mkConfig [] kAdvTypeChat 0 0 0 false 32.

Definition DaemonConfig_default : DaemonConfig :=
  mkDaemonConfig Info [] RadioParams_default SpiConfig_default NodeConfig_default [] Options_default
    (lit "info") (lit "unix").

Definition state_path (file : string) (c : DaemonConfig) : Str := cf_state_dir c ++ lit file.
Definition identity_path := state_path "/identity".
Definition contacts_path := state_path "/contacts".
Definition channels_path := state_path "/channels".
Definition messages_path := state_path "/messages".
Definition settings_path := state_path "/settings".

(** ** Constraints *)

Definition valid_freq (mhz : double) : bool :=
  f_eq mhz (d_of_Z 0) || (f_le (d_of_Z 150) mhz && f_le mhz (d_of_Z 960)).

Definition supported_bandwidth (khz : double) : bool :=
  existsb (fun supported => f_lt (d_abs (d_sub khz supported)) (d_lit 5 3)) kBandwidthsKhz.

Definition valid_tcxo (volts : double) : bool :=
  f_eq volts (d_of_Z 0) || (f_le (d_lit 16 1) volts && f_le volts (d_lit 33 1)).

Definition valid_duty_cycle (pct : double) : bool := f_lt (d_of_Z 0) pct && f_le pct (d_of_Z 100).

Definition valid_lat (deg : double) : bool := f_le (d_of_Z (-90)) deg && f_le deg (d_of_Z 90).
Definition valid_lon (deg : double) : bool := f_le (d_of_Z (-180)) deg && f_le deg (d_of_Z 180).

(** ** The settings table *)

Inductive Target :=
| StrTarget (get : DaemonConfig -> Str) (set : Str -> DaemonConfig -> DaemonConfig)
| BoolTarget (get : DaemonConfig -> bool) (set : bool -> DaemonConfig -> DaemonConfig)
| IntTarget (get : DaemonConfig -> Z) (set : Z -> DaemonConfig -> DaemonConfig) (min max : Z)
| RealTarget (get : DaemonConfig -> double) (set : double -> DaemonConfig -> DaemonConfig)
    (valid : double -> bool) (requirement : Str)
| DegreesTarget (get : DaemonConfig -> Z) (set : Z -> DaemonConfig -> DaemonConfig)
    (valid : double -> bool) (requirement : Str).

Record Setting := mkSetting { st_key : Str; st_target : Target }.

(** Setters of the nested structs. *)
Definition on_radio (f : RadioParams -> RadioParams) (c : DaemonConfig) : DaemonConfig := c <| cf_radio ::= f |>.
Definition on_spi (f : SpiConfig -> SpiConfig) (c : DaemonConfig) : DaemonConfig := c <| cf_spi ::= f |>.
Definition on_node (f : Config -> Config) (c : DaemonConfig) : DaemonConfig := c <| cf_node ::= f |>.
Definition on_companion (f : Options -> Options) (c : DaemonConfig) : DaemonConfig := c <| cf_companion ::= f |>.

Definition Real (key : string) (get : RadioParams -> double) (set : double -> RadioParams -> RadioParams)
    (valid : double -> bool) (requirement : string) : Setting :=
  mkSetting (lit key) (RealTarget (fun c => get (cf_radio c)) (fun v => on_radio (set v)) valid (lit requirement)).

Definition kMaxInt : Z := 2 ^ 31 - 1.
Definition kMaxU16 : Z := 2 ^ 16 - 1.
Definition kMaxTimerDelaySeconds : Z := (2 ^ 32 - 1) / 1000.

(** An [int] pin of the SPI section. *)
Definition pin (key : string) (get : SpiConfig -> Z) (set : Z -> SpiConfig -> SpiConfig) (min : Z) : Setting :=
  mkSetting (lit key) (IntTarget (fun c => get (cf_spi c)) (fun v => on_spi (set (i32 v))) min kMaxInt).

Definition radio_settings : list Setting :=
  [Real "radio.lora_freq" rp_freq_mhz (fun v r => r <| rp_freq_mhz := v |>) valid_freq
     "0 (unset) or between 150 and 960 MHz";
   Real "radio.lora_bw" rp_bw_khz (fun v r => r <| rp_bw_khz := v |>) supported_bandwidth
     "a bandwidth supported by SX1262 (7.81 to 500 kHz)";
   mkSetting (lit "radio.lora_sf")
     (IntTarget (fun c => rp_sf (cf_radio c)) (fun v => on_radio (fun r => r <| rp_sf := u8 v |>)) 5 12);
   mkSetting (lit "radio.lora_cr")
     (IntTarget (fun c => rp_cr (cf_radio c)) (fun v => on_radio (fun r => r <| rp_cr := u8 v |>)) 5 8);
   mkSetting (lit "radio.lora_tx_power")
     (IntTarget (fun c => rp_tx_power_dbm (cf_radio c)) (fun v => on_radio (fun r => r <| rp_tx_power_dbm := i32 v |>))
        kMinTxPowerDbm kMaxTxPowerDbm);
   Real "radio.duty_cycle" rp_duty_cycle_pct (fun v r => r <| rp_duty_cycle_pct := v |>) valid_duty_cycle
     "greater than 0 and less than 100 percent"].

Definition hardware_settings : list Setting :=
  [mkSetting (lit "hardware.spidev")
     (StrTarget (fun c => spi_spidev (cf_spi c)) (fun v => on_spi (fun s => s <| spi_spidev := v |>)));
   mkSetting (lit "hardware.lora_gpiochip")
     (StrTarget (fun c => spi_gpiochip (cf_spi c)) (fun v => on_spi (fun s => s <| spi_gpiochip := v |>)));
   pin "hardware.lora_irq_pin" spi_irq_pin (fun v s => s <| spi_irq_pin := v |>) 0;
   pin "hardware.lora_busy_pin" spi_busy_pin (fun v s => s <| spi_busy_pin := v |>) 0;
   pin "hardware.lora_reset_pin" spi_reset_pin (fun v s => s <| spi_reset_pin := v |>) 0;
   pin "hardware.lora_nss_pin" spi_nss_pin (fun v s => s <| spi_nss_pin := v |>) (-1);
   pin "hardware.lora_rxen_pin" spi_rxen_pin (fun v s => s <| spi_rxen_pin := v |>) (-1);
   pin "hardware.lora_txen_pin" spi_txen_pin (fun v s => s <| spi_txen_pin := v |>) (-1);
   mkSetting (lit "hardware.lora_retry_interval")
     (IntTarget (fun c => spi_retry_interval_s (cf_spi c))
        (fun v => on_spi (fun s => s <| spi_retry_interval_s := u32 v |>)) 0 86400);
   mkSetting (lit "hardware.dio2_as_rf_switch")
     (BoolTarget (fun c => rp_dio2_as_rf_switch (cf_radio c)) (fun v => on_radio (fun r => r <| rp_dio2_as_rf_switch := v |>)));
   Real "hardware.lora_tcxo" rp_tcxo_voltage (fun v r => r <| rp_tcxo_voltage := v |>) valid_tcxo
     "0 (disabled) or between 1.6 and 3.3 volts";
   mkSetting (lit "hardware.rx_boosted_gain")
     (BoolTarget (fun c => rp_rx_boosted_gain (cf_radio c)) (fun v => on_radio (fun r => r <| rp_rx_boosted_gain := v |>)));
   mkSetting (lit "hardware.current_limit")
     (IntTarget (fun c => rp_current_limit_ma (cf_radio c))
        (fun v => on_radio (fun r => r <| rp_current_limit_ma := i32 v |>)) 1 157);
   mkSetting (lit "hardware.spi_speed")
     (IntTarget (fun c => spi_speed_hz (cf_spi c)) (fun v => on_spi (fun s => s <| spi_speed_hz := u32 v |>)) 1 16000000)].

Definition node_settings : list Setting :=
  [mkSetting (lit "node.advert_name")
     (StrTarget (fun c => cfg_name (cf_node c)) (fun v => on_node (fun n => n <| cfg_name := v |>)));
   mkSetting (lit "node.advert_interval")
     (IntTarget (fun c => cfg_advert_interval_s (cf_node c))
        (fun v => on_node (fun n => n <| cfg_advert_interval_s := u32 v |>)) 0 kMaxTimerDelaySeconds);
   mkSetting (lit "node.lat")
     (DegreesTarget (fun c => cfg_lat_e6 (cf_node c)) (fun v => on_node (fun n => n <| cfg_lat_e6 := v |>))
        valid_lat (lit "between -90 and 90 degrees"));
   mkSetting (lit "node.lon")
     (DegreesTarget (fun c => cfg_lon_e6 (cf_node c)) (fun v => on_node (fun n => n <| cfg_lon_e6 := v |>))
        valid_lon (lit "between -180 and 180 degrees"));
   mkSetting (lit "node.repeat")
     (BoolTarget (fun c => cfg_repeat (cf_node c)) (fun v => on_node (fun n => n <| cfg_repeat := v |>)));
   mkSetting (lit "node.max_hops")
     (IntTarget (fun c => Z.of_nat (cfg_max_hops (cf_node c)))
        (fun v => on_node (fun n => n <| cfg_max_hops := Z.to_nat (u8 v) |>)) 0 (Z.of_nat kMaxPathSize))].

Definition companion_settings : list Setting :=
  [mkSetting (lit "companion.companion_interface")
     (StrTarget rw_companion_interface (fun v c => c <| rw_companion_interface := v |>));
   mkSetting (lit "companion.companion_socket")
     (StrTarget (fun c => op_socket_path (cf_companion c)) (fun v => on_companion (fun o => o <| op_socket_path := v |>)));
   mkSetting (lit "companion.companion_bind")
     (StrTarget (fun c => op_bind_addr (cf_companion c)) (fun v => on_companion (fun o => o <| op_bind_addr := v |>)));
   mkSetting (lit "companion.companion_port")
     (IntTarget (fun c => op_port (cf_companion c)) (fun v => on_companion (fun o => o <| op_port := u16 v |>)) 1 kMaxU16)].

Definition settings : list Setting :=
  radio_settings ++ hardware_settings ++ node_settings ++ companion_settings ++
  [mkSetting (lit "storage.state_dir") (StrTarget cf_state_dir (fun v c => c <| cf_state_dir := v |>));
   mkSetting (lit "logging.log_level") (StrTarget rw_log_level (fun v c => c <| rw_log_level := v |>))].

Definition kAppKeys : list Str :=
  map lit ["radio.lora_freq"; "radio.lora_bw"; "radio.lora_sf"; "radio.lora_cr"; "radio.lora_tx_power";
           "radio.duty_cycle"; "node.advert_name"; "node.lat"; "node.lon"; "node.repeat"]%string.

(** ** Applying one setting *)

Definition kMillion : double := d_of_Z 1000000.

(** [*field / 1e6] *)
Definition degrees_of (v : Z) : double := d_div (d_of_Z v) kMillion.
(** [static_cast<int32_t>(std::llround(value * 1e6))] *)
Definition millionths_of (deg : double) : Z := i32 (llround (d_mul deg kMillion)).

Definition apply (ini : StrMap) (s : Setting) (c : DaemonConfig) : Result DaemonConfig :=
  let key := st_key s in
  match st_target s with
  | StrTarget get set => inr (set (get_str key (get c) ini) c)
  | BoolTarget get set =>
      let '(value, ok) := get_bool key (get c) ini in
      if negb ok then inl (key ++ lit ": not a boolean") else inr (set value c)
  | IntTarget get set min max =>
      let '(value, ok) := get_int64 key (get c) ini in
      if negb ok then inl (key ++ lit ": not an integer")
      else if (value <? min) || (max <? value) then
        inl (key ++ lit " must be between " ++ show_int min ++ lit " and " ++ show_int max)
      else inr (set value c)
  | RealTarget get set valid requirement =>
      let '(value, ok) := get_double key (get c) ini in
      if negb ok || negb (is_finite value) then inl (key ++ lit ": not a finite number")
      else if negb (valid value) then inl (key ++ lit " must be " ++ requirement)
      else inr (set value c)
  | DegreesTarget get set valid requirement =>
      let '(value, ok) := get_double key (degrees_of (get c)) ini in
      if negb ok || negb (is_finite value) then inl (key ++ lit ": not a finite number")
      else if negb (valid value) then inl (key ++ lit " must be " ++ requirement)
      else inr (set (millionths_of value) c)
  end.

(** [std::strtod(buf, nullptr)]: zero when nothing converts. *)
Definition strtod_value (text : Str) : double :=
  match strtod text with Converted v _ _ => v | NoConversion => d_of_Z 0 end.

Fixpoint format_real_loop (n : nat) (decimals : nat) (v : double) : Str :=
  match n with
  | O => snprintf 64 (print_g17 v)
  | S n =>
      let buf := snprintf 64 (print_fixed decimals v) in
      if f_eq (strtod_value buf) v then buf else format_real_loop n (S decimals) v
  end.

Definition format_real (v : double) : Str := format_real_loop 18 0 v.

Definition format (s : Setting) (c : DaemonConfig) : Str :=
  match st_target s with
  | StrTarget get _ => get c
  | BoolTarget get _ => if get c then lit "1" else lit "0"
  | IntTarget get _ _ _ => show_int (get c)
  | RealTarget get _ _ _ => format_real (get c)
  | DegreesTarget get _ _ _ => format_real (degrees_of (get c))
  end.

(** ** The operations of [Config] *)

Definition app_key (key : Str) : bool := existsb (beq key) kAppKeys.

Definition find_setting (key : Str) : option Setting := find (fun s => beq (st_key s) key) settings.

Definition keys : list Str := List.filter (fun k => negb (app_key k)) (map st_key settings).

Definition cfg_get (key : Str) (c : DaemonConfig) : Str :=
  if negb (app_key key) then []
  else match find_setting key with Some s => format s c | None => [] end.

Definition cfg_set (key value : Str) (c : DaemonConfig) : Result DaemonConfig :=
  if negb (app_key key) then inl (key ++ lit " is not a setting an app may change")
  else match find_setting key with
       | Some s => apply (ini_set key value []) s c
       | None => inl []
       end.

Fixpoint apply_all (ini : StrMap) (ss : list Setting) (c : DaemonConfig) : Result DaemonConfig :=
  match ss with
  | [] => inr c
  | s :: ss =>
      if app_key (st_key s) then apply_all ini ss c
      else match apply ini s c with inl e => inl e | inr c => apply_all ini ss c end
  end.

Fixpoint drop_slashes (rev_dir : Str) : Str :=
  match rev_dir with
  | c :: (_ :: _) as r => if c =? 47 then drop_slashes r else rev_dir
  | _ => rev_dir
  end.

Definition cfg_load (path : Str) (input : Input) (c : DaemonConfig) : Result DaemonConfig :=
  match ini_load path input [] with
  | inl e => inl e
  | inr ini =>
      match apply_all ini settings (c <| rw_log_level := lit "info" |> <| rw_companion_interface := lit "unix" |>) with
      | inl e => inl e
      | inr c =>
          match log_parse_level (rw_log_level c) with
          | None => inl (lit "logging.log_level: unknown level " ++ [34] ++ rw_log_level c ++ [34])
          | Some level =>
              let c := c <| cf_log_level := level |> in
              let transport :=
                if beq (rw_companion_interface c) (lit "unix") then Some Unix
                else if beq (rw_companion_interface c) (lit "tcp") then Some Tcp else None in
              match transport with
              | None => inl (lit "companion.companion_interface must be " ++ [34] ++ lit "unix" ++ [34] ++ lit " or "
                             ++ [34] ++ lit "tcp" ++ [34])
              | Some t =>
                  let c := on_companion (fun o => o <| op_transport := t |>) c in
                  match cf_state_dir c with
                  | [] => inl (lit "storage.state_dir is required — the directory holding this node's identity, contacts, channels and messages (/var/lib/coreletd for the packaged service)")
                  | _ :: _ =>
                      if negb (first_byte (cf_state_dir c) =? 47) then
                        inl (lit "storage.state_dir must be an absolute path, not " ++ [34] ++ cf_state_dir c ++ [34])
                      else inr (c <| cf_state_dir := rev (drop_slashes (rev (cf_state_dir c))) |>)
                  end
              end
          end
      end
  end.

Definition control_char (c : Z) : bool := (c <? 32) || (c =? 127).

(** [None] when valid; the error otherwise. *)
Definition validate (c : DaemonConfig) : option Str :=
  let name := cfg_name (cf_node c) in
  match name with
  | [] => Some (lit "node.advert_name must not be empty — MeshCore clients ignore adverts with no name")
  | _ =>
      if existsb control_char name then Some (lit "node.advert_name must not contain control characters")
      else
        let overhead := (1 + (if cfg_has_location (cf_node c) then 8 else 0))%nat in
        let budget := (kMaxAdvertAppDataSize - overhead)%nat in
        if (budget <? length name)%nat then
          Some (lit "node.advert_name is " ++ show_int (zlen name) ++ lit " bytes; the advert only carries "
                ++ show_int (Z.of_nat budget) ++
                (if cfg_has_location (cf_node c) then lit " once node.lat/node.lon are set" else []) ++
                lit ", and a longer one fails signature verification on every MeshCore node")
        else None
  end.

Definition finalise (c : DaemonConfig) : DaemonConfig := c <| cf_messages_path := messages_path c |>.

(** ** Reading back what is written *)

(** The value has a fixed-point text of at most 17 decimals that reads back as itself. *)
Definition fixed_point (v : double) : bool :=
  is_finite v && existsb (fun k => f_eq (strtod_value (snprintf 64 (print_fixed k v))) v) (seq 0 18).

Lemma f_eq_sign a b : f_eq a b = true -> d_sign a = d_sign b -> a = b.
Proof.
  unfold f_eq, SFeqb, SFcompare. destruct a as [[]|[]| |[] m e], b as [[]|[]| |[] m' e']; cbn; try done;
    destruct (Z.compare_spec e e') as [->| |]; try done;
    destruct (Pos.compare_cont Eq m m') eqn:Hm; try done; intros _ _; apply Pos.compare_eq in Hm; by subst.
Qed.

Lemma scaled_sign neg m base e r v range_error rest :
  scaled neg m base e r = Converted v range_error rest -> d_sign v = neg \/ v = S754_nan.
Proof.
  unfold scaled. intros H. destruct (m * _) as [|n|n]; [simplify_eq; by left| |simplify_eq; by left].
  destruct (base ^ _) as [|d|d]; [simplify_eq; by left| |simplify_eq; by left].
  injection H as <- _ _. unfold d_of_ratio. destruct (SFdiv_core_binary _ _ _ _ _ _) as [[mz ez] lz]. unfold binary_round_aux.
  destruct (shr_fexp _ _ mz ez lz) as [mrs e']. destruct (shr_fexp _ _ _ e' _) as [mrs2 e2].
  destruct (shr_m mrs2); [by left| |by right]. destruct (_ <=? _); by left.
Qed.

(** Bytes of a decimal number. *)
Definition number_char (c : Z) : bool := is_digit c || (c =? 45) || (c =? 46).

Lemma decimal_text_chars neg i f :
  digits i -> digits (fraction f) -> Forall (fun c => number_char c = true) (decimal_text neg i f).
Proof.
  intros Hi Hf. assert (forall l, digits l -> Forall (fun c => number_char c = true) l) as Hd.
  { intros l. apply Forall_impl. intros c Hc. unfold number_char. by rewrite Hc. }
  unfold decimal_text. rewrite !Forall_app. split; [destruct neg; by each|]. split; [auto|].
  destruct f; [|constructor]. constructor; [done|]. by apply Hd.
Qed.

Lemma number_until_nul s : Forall (fun c => number_char c = true) s -> Reader.until_nul s = s.
Proof.
  induction 1 as [|c s Hc _ IH]; cbn; [done|]. destruct (Z.eqb_spec c 0) as [->|]; [done|]. by rewrite IH.
Qed.

Lemma format_real_found n : forall k v,
  existsb (fun k => f_eq (strtod_value (snprintf 64 (print_fixed k v))) v) (seq k n) = true ->
  exists j, format_real_loop n k v = snprintf 64 (print_fixed j v) /\ (j < k + n)%nat /\
    f_eq (strtod_value (format_real_loop n k v)) v = true.
Proof.
  induction n as [|n IH]; intros k v; cbn [seq existsb format_real_loop]; [done|].
  destruct (f_eq (strtod_value (snprintf 64 (print_fixed k v))) v) eqn:Hk; cbn [orb].
  - intros _. exists k. split; [done|]. split; [lia|done].
  - intros H. destruct (IH (S k) v H) as (j & H1 & H2 & H3). exists j. split; [done|]. split; [lia|done].
Qed.

Lemma format_real_reads v :
  fixed_point v = true ->
  whole strtod (format_real v) = Some v /\ format_real v <> [] /\
  Forall (fun c => number_char c = true) (format_real v).
Proof.
  intros [Hf Hx]%andb_true_iff. apply format_real_found in Hx as (j & Htext & Hj & Heq).
  fold (format_real v) in *.
  destruct (snprintf_fixed_shape j v Hf) as (i & f & Hshape & Hne & Hi & Hfr & Hlen).
  rewrite Hshape in Htext. rewrite Htext in *. pose proof (decimal_text_chars (d_sign v) i f Hi Hfr) as Hch.
  split; [|split; [|done]].
  - unfold whole. rewrite number_until_nul by done. unfold strtod_value in Heq.
    rewrite strtod_decimal in Heq |- * by done.
    assert (0 <= digits_value (i ++ fraction f)) as Hpos.
    { assert (digits (i ++ fraction f)) as Hd by (by apply Forall_app). unfold digits_value. clear -Hd.
      assert (forall a, 0 <= a -> 0 <= fold_left (fun acc c => acc * 10 + (c - 48)) (i ++ fraction f) a) as Hgo;
        [|by apply Hgo]. induction Hd as [|c l Hc _ IH]; cbn; [done|]. intros a Ha. apply IH.
      apply is_digit_range in Hc. lia. }
    pose proof (scaled_in_range (d_sign v) (digits_value (i ++ fraction f)) (zlen (fraction f)) [] Hpos) as Hr.
    destruct (scaled _ _ _ _ _) as [|w re rest] eqn:Hs; [destruct Hr; unfold zlen; lia|].
    apply scaled_sign in Hs. destruct Hr as [-> Hre]; [unfold zlen; lia|].
    assert (w = v) as ->.
    { destruct Hs as [Hs| ->]; [|done]. by apply f_eq_sign. }
    rewrite Hre; [done|]. destruct v; done || eauto.
  - unfold decimal_text. destruct (d_sign v); [done|]. cbn. destruct i; done.
Qed.

Lemma f_eq_refl v : is_finite v = true -> f_eq v v = true.
Proof.
  unfold f_eq, SFeqb, SFcompare. destruct v as [?|?| |s m e]; try done. intros _. rewrite Z.compare_refl.
  change (Pos.compare_cont Eq m m) with (Pos.compare m m). rewrite Pos.compare_refl. by destruct s.
Qed.

Lemma reads_fixed k v : (k < 18)%nat -> is_finite v = true -> reads_back k v -> fixed_point v = true.
Proof.
  intros Hk Hf [range Hr]. unfold fixed_point. rewrite Hf. apply existsb_exists. exists k. split; [apply in_seq; lia|].
  unfold strtod_value. rewrite Hr. by apply f_eq_refl.
Qed.

(** ** Positions *)

(** A position in millionths survives being written in degrees and read back. *)
Lemma millionths_degrees v : - 2 ^ 31 < v < 2 ^ 31 -> millionths_of (degrees_of v) = v.
Proof.
  intros Hv. unfold millionths_of, degrees_of, kMillion. rewrite llround_scaled by done. apply i32_small. width.
Qed.

(** The degrees of a whole number of millionths. *)
Lemma degrees_fixed v : - 2 ^ 31 < v < 2 ^ 31 -> fixed_point (degrees_of v) = true /\ canonical (degrees_of v) = true.
Proof.
  intros Hv. assert (forall s n, Z.pos n < 2 ^ 31 -> let x := d_div (binary_round 53 1024 s n 0) (d_of_Z 1000000) in
    fixed_point x = true /\ canonical x = true) as Hgo.
  { intros s n Hn x. subst x. destruct (six_decimals s n Hn) as (m & e & range & -> & _ & Hc & _ & Hr).
    split; [|done]. apply (reads_fixed 6); [lia|done|by exists range]. }
  destruct v as [|n|n]; [vm_compute; done|apply (Hgo false); lia|apply (Hgo true); lia].
Qed.

Lemma valid_lat_within v : valid_lat v = within kGlobe (-46) v. Proof. done. Qed.
Lemma valid_lon_within v : valid_lon v = within kGlobe (-45) v. Proof. done. Qed.

(** Degrees within the globe are millionths within it, and back. *)
Lemma lat_millionths v : canonical v = true -> valid_lat v = true -> Z.abs (millionths_of v) <= 90000000.
Proof.
  rewrite valid_lat_within. intros Hc Hw. pose proof (lat_bound v Hc Hw) as Hb. unfold millionths_of, kMillion.
  rewrite i32_small; [done|width].
Qed.

Lemma lon_millionths v : canonical v = true -> valid_lon v = true -> Z.abs (millionths_of v) <= 180000000.
Proof.
  rewrite valid_lon_within. intros Hc Hw. pose proof (lon_bound v Hc Hw) as Hb. unfold millionths_of, kMillion.
  rewrite i32_small; [done|width].
Qed.

Lemma lat_of_millionths v : Z.abs v <= 90000000 -> valid_lat (degrees_of v) = true.
Proof.
  intros Hv. rewrite valid_lat_within. destruct v as [|n|n]; [by vm_compute|apply (lat_degrees false); lia|apply (lat_degrees true); lia].
Qed.

Lemma lon_of_millionths v : Z.abs v <= 180000000 -> valid_lon (degrees_of v) = true.
Proof.
  intros Hv. rewrite valid_lon_within. destruct v as [|n|n]; [by vm_compute|apply (lon_degrees false); lia|apply (lon_degrees true); lia].
Qed.

(** ** The ranges of the table, as an invariant *)

(** A number of the table: finite, within the row's range, and a double as the arithmetic makes them. *)
Definition real_ok (valid : double -> bool) (v : double) : Prop :=
  is_finite v = true /\ valid v = true /\ canonical v = true.

Lemma between_fixed v lo hi :
  canonical v = true -> is_finite v = true -> moderate lo = true -> moderate hi = true ->
  f_le lo v = true -> f_le v hi = true -> fixed_point v = true.
Proof. intros Hc Hf Hlo Hhi H1 H2. apply (reads_fixed 17); [lia|done|exact (between_reads v lo hi Hc Hlo Hhi H1 H2)]. Qed.

(** Every frequency, bandwidth and duty cycle the table accepts (the latter from a tenth of a percent on) has a text
    that reads back. *)
Lemma freq_fixed v : real_ok valid_freq v -> fixed_point v = true.
Proof.
  intros (Hf & Hv & Hc). unfold valid_freq in Hv. apply orb_true_iff in Hv as [Hv|[H1 H2]%andb_true_iff].
  - apply f_eq_same in Hv as [->|[Hz _]]; [by vm_compute|]. destruct v as [[]| | |]; try done; by vm_compute.
  - refine (between_fixed v _ _ Hc Hf _ _ H1 H2); by vm_compute.
Qed.

Lemma bw_fixed v : real_ok supported_bandwidth v -> fixed_point v = true.
Proof.
  intros (Hf & Hv & Hc). unfold supported_bandwidth in Hv. apply existsb_exists in Hv as (c & Hin & Hlt).
  apply (reads_fixed 17); [lia|done|]. refine (near_reads v c _ Hc Hf _ _ Hlt); [|by vm_compute].
  assert (forallb sizable kBandwidthsKhz = true) as Hall by (by vm_compute).
  rewrite forallb_forall in Hall. by apply Hall.
Qed.

Lemma duty_fixed v : real_ok valid_duty_cycle v -> f_le (d_lit 1 1) v = true -> fixed_point v = true.
Proof.
  intros (Hf & Hv & Hc) H1. unfold valid_duty_cycle in Hv. apply andb_true_iff in Hv as [_ H2].
  refine (between_fixed v _ _ Hc Hf _ _ H1 H2); by vm_compute.
Qed.

Record radio_ok (r : RadioParams) : Prop := {
  ok_freq : real_ok valid_freq (rp_freq_mhz r);
  ok_bw : real_ok supported_bandwidth (rp_bw_khz r);
  ok_sf : 5 <= rp_sf r <= 12;
  ok_cr : 5 <= rp_cr r <= 8;
  ok_power : -9 <= rp_tx_power_dbm r <= 22;
  ok_tcxo : real_ok valid_tcxo (rp_tcxo_voltage r);
  ok_current : 1 <= rp_current_limit_ma r <= 157;
  ok_duty : real_ok valid_duty_cycle (rp_duty_cycle_pct r) }.

Record spi_ok (s : SpiConfig) : Prop := {
  ok_irq : 0 <= spi_irq_pin s <= kMaxInt;
  ok_busy : 0 <= spi_busy_pin s <= kMaxInt;
  ok_reset : 0 <= spi_reset_pin s <= kMaxInt;
  ok_nss : -1 <= spi_nss_pin s <= kMaxInt;
  ok_rxen : -1 <= spi_rxen_pin s <= kMaxInt;
  ok_txen : -1 <= spi_txen_pin s <= kMaxInt;
  ok_speed : 1 <= spi_speed_hz s <= 16000000;
  ok_retry : 0 <= spi_retry_interval_s s <= 86400 }.

Record node_config_ok (n : Config) : Prop := {
  ok_interval : 0 <= cfg_advert_interval_s n <= kMaxTimerDelaySeconds;
  ok_position : Z.abs (cfg_lat_e6 n) <= 90000000 /\ Z.abs (cfg_lon_e6 n) <= 180000000;
  ok_hops : (cfg_max_hops n <= kMaxPathSize)%nat }.

Record config_ok (c : DaemonConfig) : Prop := {
  ok_radio : radio_ok (cf_radio c);
  ok_spi : spi_ok (cf_spi c);
  ok_node : node_config_ok (cf_node c);
  ok_port : 1 <= op_port (cf_companion c) <= kMaxU16 }.

(** Decides a closed conjunction of comparisons. *)
Ltac ranges := each; vm_compute; repeat split; (reflexivity || discriminate).

Lemma default_config_ok : config_ok DaemonConfig_default.
Proof.
  split; [split|split|split|]; try ranges. unfold kMaxPathSize. cbn. lia.
Qed.

Lemma get_double_canonical key def m v ok : get_double key def m = (v, ok) -> canonical def = true -> canonical v = true.
Proof.
  unfold get_double, whole. intros Hg Hd. destruct (present key m) as [text|]; [|by simplify_eq].
  destruct (strtod _) as [|d [] [|]] eqn:E; simplify_eq; try done. by apply strtod_canonical in E.
Qed.

Lemma get_double_ok valid key def m v ok :
  get_double key def m = (v, ok) -> real_ok valid def ->
  negb ok || negb (is_finite v) = false -> negb (valid v) = false -> real_ok valid v.
Proof.
  intros Hg (_ & _ & Hd) [_ Hf%negb_false_iff]%orb_false_iff Hv%negb_false_iff. split_and!; [done|done|].
  by eapply get_double_canonical.
Qed.

Lemma range_ok v lo hi : (v <? lo) || (hi <? v) = false -> lo <= v <= hi.
Proof. intros [H1%Z.ltb_ge H2%Z.ltb_ge]%orb_false_iff. done. Qed.

(** One row: the struct it writes to is within its ranges again. *)
Ltac row :=
  match goal with
  | H : apply ?ini ?s ?c = inr _ |- _ =>
      unfold apply in H; cbn [st_target st_key Real pin] in H;
      repeat match type of H with
             | context [let '(_, _) := ?g in _] => destruct g eqn:?
             | context [if ?b then _ else _] => destruct b eqn:?
             end; simplify_eq
  end.

(** The field a row wrote, from the test the row made. *)
Ltac field :=
  first
    [ done
    | by eapply get_double_ok
    | match goal with
      | H : (_ <? _) || (_ <? _) = false |- _ =>
          apply range_ok in H;
          unfold kMinTxPowerDbm, kMaxTxPowerDbm, kMaxInt, kMaxU16, kMaxTimerDelaySeconds, kMaxPathSize in *; width; lia
      end ].

Lemma radio_row s ini c c' : In s radio_settings -> apply ini s c = inr c' -> config_ok c -> config_ok c'.
Proof.
  intros Hin Ha [Hr Hs Hn Hp].
  repeat (destruct Hin as [<-|Hin]; [row; (split; [|done..]); destruct Hr; split; cbn; field|]). destruct Hin.
Qed.

Lemma hardware_row s ini c c' : In s hardware_settings -> apply ini s c = inr c' -> config_ok c -> config_ok c'.
Proof.
  intros Hin Ha [Hr Hs Hn Hp].
  repeat (destruct Hin as [<-|Hin];
    [row; destruct Hr, Hs; (split; [split|split| |]); cbn; field|]). destruct Hin.
Qed.

Lemma degrees_row valid (bound : Z) key v0 m v ok :
  get_double key (degrees_of v0) m = (v, ok) -> Z.abs v0 <= 180000000 ->
  (forall d, canonical d = true -> valid d = true -> Z.abs (millionths_of d) <= bound) ->
  negb (valid v) = false -> Z.abs (millionths_of v) <= bound.
Proof.
  intros Hg H0 Hb Hv%negb_false_iff. apply Hb; [|done]. eapply get_double_canonical; [exact Hg|]. apply degrees_fixed. lia.
Qed.

Lemma node_row s ini c c' : In s node_settings -> apply ini s c = inr c' -> config_ok c -> config_ok c'.
Proof.
  intros Hin Ha [Hr Hs Hn Hp].
  repeat (destruct Hin as [<-|Hin];
    [row; (split; [done|done| |done]); destruct Hn as [Hi [Hla Hlo] Hh]; split; cbn;
     first [done
       | by (split; [eapply degrees_row; [eassumption|lia|exact lat_millionths|done]|done])
       | by (split; [done|eapply degrees_row; [eassumption|lia|exact lon_millionths|done]])
       | field]|]). destruct Hin.
Qed.

Lemma other_row s ini c c' :
  In s (companion_settings ++ [mkSetting (lit "storage.state_dir") (StrTarget cf_state_dir (fun v c => c <| cf_state_dir := v |>));
   mkSetting (lit "logging.log_level") (StrTarget rw_log_level (fun v c => c <| rw_log_level := v |>))]) ->
  apply ini s c = inr c' -> config_ok c -> config_ok c'.
Proof.
  intros Hin Ha [Hr Hs Hn Hp].
  repeat (destruct Hin as [<-|Hin]; [row; (split; [done..|]); cbn; field|]). destruct Hin.
Qed.

Lemma apply_ok s ini c c' : In s settings -> apply ini s c = inr c' -> config_ok c -> config_ok c'.
Proof.
  unfold settings. rewrite !in_app_iff. intros [H|[H|[H|H]]].
  - by eapply radio_row.
  - by eapply hardware_row.
  - by eapply node_row.
  - eapply other_row. apply in_app_iff. exact H.
Qed.

Lemma find_setting_In key s : find_setting key = Some s -> In s settings /\ st_key s = key.
Proof. intros [Hin Hk]%find_some. by apply beq_eq in Hk. Qed.

Lemma cfg_set_ok key value c c' : cfg_set key value c = inr c' -> config_ok c -> config_ok c'.
Proof.
  unfold cfg_set. destruct (negb (app_key key)); [done|]. destruct (find_setting key) as [s|] eqn:Hs; [|done].
  apply find_setting_In in Hs as [Hs _]. by apply apply_ok.
Qed.

Lemma apply_all_ok ini ss : forall c c',
  (forall s, In s ss -> In s settings) -> apply_all ini ss c = inr c' -> config_ok c -> config_ok c'.
Proof.
  induction ss as [|s ss IH]; intros c c' Hin Ha Hok; cbn [apply_all] in Ha; [by simplify_eq|].
  assert (forall s, In s ss -> In s settings) as Hin' by (intros; apply Hin; by right).
  destruct (app_key (st_key s)); [by apply (IH c)|].
  destruct (apply ini s c) as [|c1] eqn:H1; [done|]. apply (IH c1); [done|done|].
  eapply apply_ok; [|exact H1|done]. apply Hin. by left.
Qed.

Lemma cfg_load_ok path input c c' : cfg_load path input c = inr c' -> config_ok c -> config_ok c'.
Proof.
  intros Hl Hok. unfold cfg_load in Hl. destruct (ini_load path input []) as [|ini]; [done|].
  destruct (apply_all ini settings _) as [|c1] eqn:H1; [done|].
  assert (config_ok c1) as Hok1.
  { eapply apply_all_ok; [|exact H1|]; [done|]. destruct Hok. by split. }
  repeat case_match; simplify_eq; destruct Hok1; by split.
Qed.
