(* ===== verification/Settings.v ===== *)
(** The settings a companion app changes ([daemon/settings]), behind the interface the
    session uses ([companion/settings.h]): kept in a file of the state directory, read over
    the defaults at start-up. *)

From S2P Require Import Prelude ByteIO Floats Crypto Identity Packet Payloads Radio.
From S2P Require Import Dispatcher Record Persist Contacts Channels Inbox Sender Node.
From S2P Require Import CText Ini DaemonConfig.

(** [companion::Settings::Result] *)
Inductive SetResult := SetOk | SetInvalid | SetIoError.

Abbreviation Change := (Str * Str)%type.

Record SettingsStore := mkSettingsStore { ss_cfg : DaemonConfig; ss_path : Str; ss_stored : StrMap }.

#[export] Instance eta_SettingsStore : Eta SettingsStore := fun s => mkSettingsStore (ss_cfg s) (ss_path s) (ss_stored s).

Definition make_settings (cfg : DaemonConfig) : SettingsStore := mkSettingsStore cfg (settings_path cfg) [].

(** Bytes that make [quoted] use quotes. *)
Definition quote_worthy (c : Z) : bool := is_comment c || is_quote c.
Definition blank (c : Z) : bool := (c =? 32) || (c =? 9).

Definition quoted (v : Str) : Str :=
  let plain :=
    negb (beq v []) && negb (existsb quote_worthy v) && negb (blank (first_byte v)) && negb (blank (last_byte v)) in
  if plain then v else [34] ++ v ++ [34].

(** [key.substr(0, dot)] and [key.substr(dot + 1)]; without a dot both are the key. *)
Definition split_key (key : Str) : Str * Str := default (key, key) (cut_at 46 key).

Definition settings_header : list Str :=
  map lit ["# coreletd settings v1"; "#";
           "# What a companion app set: only the keys it changed, the rest left at";
           "# their defaults. Written by the daemon; edit it only while it is stopped."]%string.

Definition setting_line (suffix value : Str) : Str := suffix ++ lit " = " ++ quoted value.

(** The lines of the stored keys, under a header whenever the section changes. *)
Fixpoint settings_lines (section : Str) (stored : StrMap) : list Str :=
  match stored with
  | [] => []
  | (key, value) :: stored =>
      let '(sec, suffix) := split_key key in
      (if beq sec section then [] else [[]; lit "[" ++ sec ++ lit "]"]) ++
      setting_line suffix value :: settings_lines sec stored
  end.

Definition settings_text (stored : StrMap) : Str :=
  concat (map (fun l => l ++ [newline]) (settings_header ++ settings_lines [] stored)).

Definition ss_save (faults : Faults) (umask_mode : Z) (fs : Fs) (path : Str) (stored : StrMap) : bool * Fs :=
  let '(ok, fs, _) := save_file faults umask_mode path (settings_text stored) false fs in (ok, fs).

(** [SettingsStore::load]'s loop over the entries of the file. *)
Fixpoint load_entries (es : StrMap) (cfg : DaemonConfig) (stored : StrMap) : Result (DaemonConfig * StrMap) :=
  match es with
  | [] => inr (cfg, stored)
  | (key, value) :: es =>
      if negb (app_key key) then load_entries es cfg stored
      else match cfg_set key value cfg with
           | inl e => inl e
           | inr cfg => load_entries es cfg (sm_set key (cfg_get key cfg) stored)
           end
  end.

(** The store after [load], or the error.  [exists] answers truthfully here: a [stat] that
    fails on a file that is there makes [load] return with the store unchanged. *)
Definition ss_load (fs : Fs) (s : SettingsStore) : Result SettingsStore :=
  match lookup_file fs (ss_path s) with
  | None => inr s
  | Some _ =>
      match ini_load (ss_path s) (open_file fs (ss_path s)) [] with
      | inl e => inl e
      | inr es =>
          match load_entries es (ss_cfg s) (ss_stored s) with
          | inl e => inl (ss_path s ++ lit ": " ++ e)
          | inr (cfg, stored) =>
              match validate cfg with
              | Some e => inl (ss_path s ++ lit ": " ++ e)
              | None => inr (mkSettingsStore cfg (ss_path s) stored)
              end
          end
      end
  end.

Fixpoint set_all (changes : list Change) (cfg : DaemonConfig) : Result DaemonConfig :=
  match changes with
  | [] => inr cfg
  | (key, value) :: changes =>
      match cfg_set key value cfg with
      | inl e => inl e
      | inr cfg => set_all changes cfg
      end
  end.

(** [SettingsStore::set] up to [apply()], which the caller makes. *)
Definition ss_set (faults : Faults) (umask_mode : Z) (changes : list Change) (fs : Fs) (s : SettingsStore) :
    SetResult * SettingsStore * Fs :=
  match set_all changes (ss_cfg s) with
  | inl _ => (SetInvalid, s, fs)
  | inr next =>
      match validate next with
      | Some _ => (SetInvalid, s, fs)
      | None =>
          let stored := fold_left (fun m ch => sm_set ch.1 (cfg_get ch.1 next) m) changes (ss_stored s) in
          let '(ok, fs) := ss_save faults umask_mode fs (ss_path s) stored in
          if ok then (SetOk, mkSettingsStore next (ss_path s) stored, fs) else (SetIoError, s, fs)
      end
  end.

Section apply.
Context `{CryptoLib} {R : Type} `{Radio R}.

(** [dispatcher_->reconfigure(...)], with the callbacks it runs. *)
Definition reconfigure_radio (params : RadioParams) : M R unit := fun e n =>
  let '(d, rs) := reconfigure (e_now e) (e_pump_r e) params (m_disp (n_mesh n)) in
  (tt, n <| n_mesh ::= fun m => m <| m_disp := d |> <| m_sender ::= on_tx_results (e_now e) rs |> |>, []).

(** [SettingsStore::apply]: the running node and dispatcher take the configuration over. *)
Definition ss_apply (s : SettingsStore) : M R unit :=
  _ ← set_name (cfg_name (cf_node (ss_cfg s)));
  _ ← set_location (cfg_lat_e6 (cf_node (ss_cfg s))) (cfg_lon_e6 (cf_node (ss_cfg s)));
  _ ← set_repeat (cfg_repeat (cf_node (ss_cfg s)));
  reconfigure_radio (cf_radio (ss_cfg s)).
End apply.

Definition sample : SettingsStore :=
  make_settings (DaemonConfig_default <| cf_state_dir := lit "/s" |> <| cf_node ::= fun n => n <| cfg_name := lit "ABCD" |> |>).

Example set_and_read_back :
  let '(r, s, fs) := ss_set no_faults 384
    [(lit "radio.lora_freq", lit "869.618"); (lit "node.advert_name", lit " x#'y"); (lit "node.lat", lit "51.5007")]
    (mkFs ∅ ∅) sample in
  r = SetOk /\ ss_load fs sample = inr s /\ ss_stored s =
    [(lit "node.advert_name", lit " x#'y"); (lit "node.lat", lit "51.5007"); (lit "radio.lora_freq", lit "869.618")].
Proof. vm_compute. done. Qed.

(** ** The file's syntax reads back *)

(** No control characters: what [validate] asks of a name, and numbers satisfy. *)
Definition printable (s : Str) : Prop := Forall (fun c => 32 <= c) s.

(** Lower-case words, as the sections and keys of the settings are. *)
Definition word (s : Str) : Prop := s <> [] /\ Forall (fun c => 97 <= c <= 122 \/ c = 95) s.

Lemma drop_space_id c s : ini_space c = false -> drop_space (c :: s) = c :: s.
Proof. intros H. cbn. by rewrite H. Qed.

(** A text that neither starts nor ends in white space. *)
Lemma trim_id s : s <> [] -> ini_space (first_byte s) = false -> ini_space (last_byte s) = false -> trim s = s.
Proof.
  intros Hne Hf Hl. unfold trim. destruct s as [|c s]; [done|]. rewrite drop_space_id by done.
  destruct (exists_last Hne) as (s' & x & E). rewrite E in *. unfold last_byte in Hl. rewrite last_last in Hl.
  rewrite rev_app_distr. cbn [rev app]. rewrite drop_space_id by done. by rewrite <- (rev_involutive s') at 2.
Qed.

Lemma trim_leading s : trim (32 :: s) = trim s.
Proof. done. Qed.

Lemma trim_trailing_space s : trim (s ++ [32]) = trim s.
Proof.
  unfold trim. assert (drop_space (s ++ [32]) = match drop_space s with [] => [] | t => t ++ [32] end) as ->.
  { induction s as [|c s IH]; cbn; [done|]. destruct (ini_space c) eqn:Hc; [done|]. done. }
  destruct (drop_space s) as [|c t]; [done|]. rewrite rev_app_distr. done.
Qed.

Lemma word_bytes s : word s ->
  ini_space (first_byte s) = false /\ ini_space (last_byte s) = false /\ Forall (fun c => c <> 61 /\ c <> 93 /\ c <> newline) s.
Proof.
  intros [Hne Hw]. assert (forall c, 97 <= c <= 122 \/ c = 95 -> ini_space c = false) as Hs by (unfold ini_space; intros; lia).
  split_and!.
  - destruct s; [done|]. apply Forall_cons_iff in Hw as [Hc _]. by apply Hs.
  - destruct (exists_last Hne) as (s' & x & E). rewrite E in *. unfold last_byte. rewrite last_last.
    apply Forall_app in Hw as [_ Hx]. apply Forall_cons_iff in Hx as [Hx _]. by apply Hs.
  - eapply Forall_impl; [|exact Hw]. unfold newline. cbn. intros. lia.
Qed.

Lemma trim_word s : word s -> trim s = s.
Proof. intros Hw. destruct (word_bytes s Hw) as (H1 & H2 & _). apply trim_id; [apply Hw|done|done]. Qed.

Lemma before_none p s : Forall (fun c => p c = false) s -> before p s = None.
Proof. induction 1 as [|c s Hc _ IH]; cbn; [done|]. by rewrite Hc, IH. Qed.

Lemma before_app p s c r : Forall (fun c => p c = false) s -> p c = true -> before p (s ++ c :: r) = Some s.
Proof. induction 1 as [|x s Hx _ IH]; intros Hc; cbn; [by rewrite Hc|]. by rewrite Hx, IH. Qed.

(** What [quoted] put out neither starts nor ends in white space. *)
Lemma quoted_edges v : printable v ->
  quoted v <> [] /\ ini_space (first_byte (quoted v)) = false /\ ini_space (last_byte (quoted v)) = false.
Proof.
  intros Hp. unfold quoted. destruct (_ && _) eqn:Hplain.
  - apply andb_true_iff in Hplain as [Hplain Hl%negb_true_iff]. apply andb_true_iff in Hplain as [Hplain Hf%negb_true_iff].
    apply andb_true_iff in Hplain as [Hne%negb_true_iff%beq_neq _].
    assert (forall c, 32 <= c -> blank c = false -> ini_space c = false) as Hs by (unfold blank, ini_space; intros; lia).
    split; [done|]. unfold printable in Hp. rewrite Forall_forall in Hp. split.
    + apply Hs; [|done]. apply Hp. destruct v; [done|by left].
    + apply Hs; [|done]. apply Hp. destruct (exists_last Hne) as (s' & x & ->). unfold last_byte. rewrite last_last.
      apply in_app_iff. right. by left.
  - split; [done|]. split; [done|]. unfold last_byte. by rewrite app_assoc, last_last.
Qed.

Lemma clean_quoted v : printable v -> clean_value (32 :: quoted v) = v.
Proof.
  intros Hp. destruct (quoted_edges v Hp) as (Hne & Hf & Hl). unfold clean_value.
  rewrite trim_leading, trim_id by done. unfold quoted in *. destruct (_ && _) eqn:Hplain.
  - clear Hf Hl. apply andb_true_iff in Hplain as [Hplain _]. apply andb_true_iff in Hplain as [Hplain _].
    apply andb_true_iff in Hplain as [_ Hq%negb_true_iff].
    assert (Forall (fun c => quote_worthy c = false) v) as Hall.
    { apply Forall_forall. intros c Hc. destruct (quote_worthy c) eqn:E; [|done].
      rewrite <- not_true_iff_false in Hq. destruct Hq. apply existsb_exists. eauto. }
    assert (is_quote (first_byte v) = false) as ->.
    { destruct v; [done|]. apply Forall_cons_iff in Hall as [H _]. by apply orb_false_iff in H as [_ H]. }
    rewrite andb_false_r. cbn [andb]. rewrite before_none; [done|]. eapply Forall_impl; [|exact Hall].
    intros c H. by apply orb_false_iff in H as [H _].
  - cbn [app first_byte hd length]. rewrite !length_app. cbn [length].
    replace (2 <=? S (length v + 1))%nat with true by (symmetry; apply Nat.leb_le; lia).
    unfold last_byte. rewrite app_comm_cons, last_last. cbn [andb is_quote Z.eqb orb].
    cbn [drop skipn]. replace (S (length v + 1) - 2)%nat with (length v) by lia. apply take_app_length.
Qed.

Lemma read_setting_line section suffix v :
  section <> [] -> word suffix -> printable v ->
  read_line section (setting_line suffix v) = Entry (tolower (section ++ lit "." ++ suffix)) v.
Proof.
  intros Hsec Hw Hp. destruct (quoted_edges v Hp) as (Hqn & _ & Hql). destruct (word_bytes suffix Hw) as (Hwf & Hwl & Hwb).
  unfold read_line, setting_line.
  assert (suffix ++ lit " = " ++ quoted v = (suffix ++ [32]) ++ 61 :: 32 :: quoted v) as -> by (by rewrite <- app_assoc).
  rewrite trim_id.
  - assert (exists c rest, (suffix ++ [32]) ++ 61 :: 32 :: quoted v = c :: rest /\ is_comment c = false /\ c <> 91) as (c & r & E & Hc & H91).
    { destruct Hw as [Hne Hall]. destruct suffix as [|c s]; [done|]. apply Forall_cons_iff in Hall as [Hc _].
      exists c. eexists. split; [reflexivity|]. unfold is_comment. lia. }
    rewrite E. rewrite Hc, (proj2 (Z.eqb_neq _ _) H91). rewrite <- E. rewrite cut_at_app.
    + rewrite trim_trailing_space, trim_word by done. rewrite clean_quoted by done.
      destruct Hw as [Hne _]. destruct suffix; [done|]. destruct section; [done|]. done.
    + apply Forall_app. split; [|by each]. eapply Forall_impl; [|exact Hwb]. by intros c' (? & _).
  - by destruct suffix.
  - destruct suffix; [by destruct Hw|]. done.
  - unfold last_byte in *. destruct (exists_last Hqn) as (q & x & E). rewrite E in *. rewrite last_last in Hql.
    change (61 :: 32 :: q ++ [x]) with ((61 :: 32 :: q) ++ [x]). by rewrite app_assoc, last_last.
Qed.

Lemma read_header_line section sec : word sec -> read_line section (lit "[" ++ sec ++ lit "]") = Header sec.
Proof.
  intros Hw. destruct (word_bytes sec Hw) as (_ & _ & Hb).
  change (lit "[" ++ sec ++ lit "]") with (91 :: sec ++ [93]). unfold read_line. rewrite trim_id; [|done|done|].
  - cbn [is_comment Z.eqb orb Pos.eqb]. rewrite before_app; [by rewrite trim_word| |done].
    eapply Forall_impl; [|exact Hb]. intros c (_ & H & _). rewrite Z.eqb_sym. by apply Z.eqb_neq.
  - unfold last_byte. by rewrite app_comm_cons, last_last.
Qed.

(** ** The ten keys *)

Inductive AppKey := KFreq | KBw | KSf | KCr | KPower | KDuty | KName | KLat | KLon | KRepeat.

Definition all_keys : list AppKey := [KFreq; KBw; KSf; KCr; KPower; KDuty; KName; KLat; KLon; KRepeat].

Definition section_of (k : AppKey) : Str :=
  match k with KName | KLat | KLon | KRepeat => lit "node" | _ => lit "radio" end.

Definition suffix_of (k : AppKey) : Str :=
  match k with
  | KFreq => lit "lora_freq" | KBw => lit "lora_bw" | KSf => lit "lora_sf" | KCr => lit "lora_cr"
  | KPower => lit "lora_tx_power" | KDuty => lit "duty_cycle" | KName => lit "advert_name"
  | KLat => lit "lat" | KLon => lit "lon" | KRepeat => lit "repeat"
  end.

Definition key_text (k : AppKey) : Str := section_of k ++ lit "." ++ suffix_of k.

#[export] Instance AppKey_eq_dec : EqDecision AppKey.
Proof. solve_decision. Defined.

Lemma app_keys_listed : kAppKeys = map key_text all_keys.
Proof. vm_compute. done. Qed.

Lemma app_key_text k : app_key (key_text k) = true.
Proof. destruct k; vm_compute; done. Qed.

Lemma app_key_inv key : app_key key = true -> exists k, key = key_text k.
Proof.
  unfold app_key. rewrite app_keys_listed. intros (x & (k & <- & _)%in_map_iff & Hx%beq_eq)%existsb_exists. eauto.
Qed.

Lemma key_text_inj a b : key_text a = key_text b -> a = b.
Proof. destruct a, b; intros H; try reflexivity; vm_compute in H; discriminate. Qed.

Lemma section_word k : word (section_of k).
Proof. destruct k; (split; [done|]); apply (bool_decide_unpack _); vm_compute; exact I. Qed.

Lemma suffix_word k : word (suffix_of k).
Proof. destruct k; (split; [done|]); apply (bool_decide_unpack _); vm_compute; exact I. Qed.

Lemma split_key_text k : split_key (key_text k) = (section_of k, suffix_of k).
Proof. destruct k; vm_compute; done. Qed.

Lemma tolower_key_text k : tolower (key_text k) = key_text k.
Proof. destruct k; vm_compute; done. Qed.

Lemma read_key_line k v : printable v -> read_line (section_of k) (setting_line (suffix_of k) v) = Entry (key_text k) v.
Proof.
  intros Hp. rewrite read_setting_line; [by fold (key_text k); rewrite tolower_key_text| |apply suffix_word|done].
  apply section_word.
Qed.

(** The lines of the stored keys give the stored keys. *)
Lemma read_settings_lines path stored : forall n section m,
  Forall (fun e => exists k, e.1 = key_text k /\ printable e.2) stored -> sm_sorted (m ++ stored) ->
  read_lines path n (settings_lines section stored) section m = inr (m ++ stored).
Proof.
  induction stored as [|[key v] stored IH]; intros n section m Hok Hs; [by rewrite app_nil_r|].
  apply Forall_cons_iff in Hok as [(k & Hk & Hp) Hok]. cbn in Hk, Hp. subst key.
  cbn [settings_lines]. rewrite split_key_text.
  assert (sm_set (key_text k) v m = m ++ [(key_text k, v)]) as Hset.
  { apply sm_set_last. unfold sm_sorted in Hs. rewrite map_app in Hs. cbn in Hs. apply Forall_forall. intros e He.
    apply (StronglySorted_app_1_elem_of (fun a b => str_lt a b = true) _ _ e.1 (key_text k) Hs); [|by left].
    apply list_elem_of_In. by apply in_map. }
  assert (forall n, read_lines path n (setting_line (suffix_of k) v :: settings_lines (section_of k) stored) (section_of k) m
    = inr (m ++ (key_text k, v) :: stored)) as Hline.
  { intros n'. cbn [read_lines]. rewrite read_key_line by done. rewrite Hset, IH; [by rewrite <- app_assoc|done|].
    by rewrite <- app_assoc. }
  destruct (beq (section_of k) section) eqn:Hsec.
  - apply beq_eq in Hsec. subst section. apply Hline.
  - cbn [app read_lines]. change (read_line section []) with Nothing. cbn iota.
    rewrite read_header_line by apply section_word. apply Hline.
Qed.

Lemma settings_lines_no_newline stored : forall section,
  Forall (fun e => exists k, e.1 = key_text k /\ printable e.2) stored ->
  Forall (Forall (fun c => c <> newline)) (settings_lines section stored).
Proof.
  assert (forall s, printable s -> Forall (fun c => c <> newline) s) as Hpr.
  { intros s. apply Forall_impl. unfold newline. intros. lia. }
  assert (forall s, word s -> Forall (fun c => c <> newline) s) as Hw.
  { intros s Hs. eapply Forall_impl; [|apply (word_bytes s Hs)]. by intros c (_ & _ & ?). }
  induction stored as [|[key v] stored IH]; intros section Hok; [constructor|].
  apply Forall_cons_iff in Hok as [(k & Hk & Hp) Hok]. cbn in Hk, Hp. subst key. cbn [settings_lines]. rewrite split_key_text.
  apply Forall_app. split.
  - destruct (beq _ _); [constructor|]. constructor; [constructor|]. constructor; [|constructor].
    rewrite !Forall_app. split_and!; [by each|apply Hw, section_word|by each].
  - constructor; [|by apply IH]. unfold setting_line, quoted. rewrite !Forall_app. split_and!; [apply Hw, suffix_word|by each|].
    destruct (_ && _); [by apply Hpr|]. rewrite !Forall_app. split_and!; [by each|by apply Hpr|by each].
Qed.

(** The syntax round trip: a settings file reads as the map it was written from. *)
Lemma settings_text_reads path bad stored :
  Forall (fun e => exists k, e.1 = key_text k /\ printable e.2) stored -> sm_sorted stored ->
  ini_load path (File (settings_text stored) bad) [] = inr stored.
Proof.
  intros Hok Hs. unfold ini_load, settings_text. rewrite getlines_concat.
  - cbn [settings_header map app]. unfold settings_header. cbn [map app read_lines].
    repeat match goal with |- context [read_line [] (lit ?s)] => change (read_line [] (lit s)) with Nothing; cbn iota end.
    by apply read_settings_lines.
  - apply Forall_app. split; [apply (bool_decide_unpack _); vm_compute; exact I|by apply settings_lines_no_newline].
Qed.

(** ** What a key reads and writes *)

Inductive Val := VStr (s : Str) | VBool (b : bool) | VInt (n : Z) | VReal (d : double).

Definition field (k : AppKey) (c : DaemonConfig) : Val :=
  match k with
  | KFreq => VReal (rp_freq_mhz (cf_radio c))
  | KBw => VReal (rp_bw_khz (cf_radio c))
  | KSf => VInt (rp_sf (cf_radio c))
  | KCr => VInt (rp_cr (cf_radio c))
  | KPower => VInt (rp_tx_power_dbm (cf_radio c))
  | KDuty => VReal (rp_duty_cycle_pct (cf_radio c))
  | KName => VStr (cfg_name (cf_node c))
  | KLat => VInt (cfg_lat_e6 (cf_node c))
  | KLon => VInt (cfg_lon_e6 (cf_node c))
  | KRepeat => VBool (cfg_repeat (cf_node c))
  end.

(** Everything no app may change. *)
Definition rest (c : DaemonConfig) : DaemonConfig :=
  c <| cf_radio ::= fun r =>
         r <| rp_freq_mhz := d_of_Z 0 |> <| rp_bw_khz := d_of_Z 0 |> <| rp_sf := 0 |> <| rp_cr := 0 |>
           <| rp_tx_power_dbm := 0 |> <| rp_duty_cycle_pct := d_of_Z 0 |> |>
    <| cf_node ::= fun n =>
         n <| cfg_name := [] |> <| cfg_lat_e6 := 0 |> <| cfg_lon_e6 := 0 |> <| cfg_repeat := false |> |>.

Lemma config_ext c d : rest c = rest d -> (forall k, field k c = field k d) -> c = d.
Proof.
  intros Hr Hf. pose proof (Hf KFreq). pose proof (Hf KBw). pose proof (Hf KSf). pose proof (Hf KCr).
  pose proof (Hf KPower). pose proof (Hf KDuty). pose proof (Hf KName). pose proof (Hf KLat). pose proof (Hf KLon).
  pose proof (Hf KRepeat). clear Hf. destruct c as [l1 d1 [] s1 [] m1 o1 a1 b1], d as [l2 d2 [] s2 [] m2 o2 a2 b2].
  cbn in *. simplify_eq. done.
Qed.

(** The table row of a key. *)
Definition setting_of (k : AppKey) : Setting :=
  default (mkSetting [] (StrTarget (fun _ => []) (fun _ c => c)))
    (match k with
     | KFreq => radio_settings !! 0%nat | KBw => radio_settings !! 1%nat | KSf => radio_settings !! 2%nat
     | KCr => radio_settings !! 3%nat | KPower => radio_settings !! 4%nat | KDuty => radio_settings !! 5%nat
     | KName => node_settings !! 0%nat | KLat => node_settings !! 2%nat | KLon => node_settings !! 3%nat
     | KRepeat => node_settings !! 4%nat
     end).

(** Walks the table, deciding each comparison of keys by evaluation. *)
Ltac walk :=
  cbn [find app];
  repeat (match goal with
          | |- context [if beq ?a ?b then _ else _] => let v := eval vm_compute in (beq a b) in change (beq a b) with v
          end; cbn iota).

Lemma find_setting_text k : find_setting (key_text k) = Some (setting_of k).
Proof.
  unfold find_setting, settings, radio_settings, hardware_settings, node_settings, companion_settings.
  destruct k; walk; reflexivity.
Qed.

Lemma setting_of_key k : st_key (setting_of k) = key_text k.
Proof. destruct k; reflexivity. Qed.

Lemma cfg_set_text k v c : cfg_set (key_text k) v c = apply [(key_text k, v)] (setting_of k) c.
Proof.
  unfold cfg_set. rewrite app_key_text, find_setting_text. unfold ini_set. rewrite tolower_key_text. done.
Qed.

Lemma cfg_get_text k c : cfg_get (key_text k) c = format (setting_of k) c.
Proof. unfold cfg_get. by rewrite app_key_text, find_setting_text. Qed.

(** Setting one key changes its field and nothing else. *)
Lemma set_frame k v c c' :
  cfg_set (key_text k) v c = inr c' -> rest c' = rest c /\ forall k', k' <> k -> field k' c' = field k' c.
Proof.
  rewrite cfg_set_text. intros Ha. unfold apply in Ha. rewrite setting_of_key in Ha.
  destruct k; cbn [setting_of radio_settings node_settings lookup list_lookup default from_option id st_target Real] in Ha;
    repeat match type of Ha with
           | context [let '(_, _) := ?g in _] => destruct g eqn:?
           | context [if ?b then _ else _] => destruct b eqn:?
           end; simplify_eq; (split; [done|]); intros []; intros; done.
Qed.

(** The text of a key depends on its field alone. *)
Lemma get_field k c d : field k c = field k d -> cfg_get (key_text k) c = cfg_get (key_text k) d.
Proof.
  rewrite !cfg_get_text. unfold format.
  destruct k; cbn [setting_of radio_settings node_settings lookup list_lookup default from_option id st_target Real field];
    by intros [= ->].
Qed.

(** What makes a configuration writable: in range, validated, and a duty cycle of no less than a tenth of a percent. *)
Record writable (c : DaemonConfig) : Prop := {
  wr_ok : config_ok c;
  wr_valid : validate c = None;
  wr_duty : f_le (d_lit 1 1) (rp_duty_cycle_pct (cf_radio c)) = true }.

(** Its numbers have texts that read back, within the rows' constraints. *)
Lemma writable_reads c :
  writable c ->
  fixed_point (rp_freq_mhz (cf_radio c)) = true /\ fixed_point (rp_bw_khz (cf_radio c)) = true /\
  fixed_point (rp_duty_cycle_pct (cf_radio c)) = true /\
  fixed_point (degrees_of (cfg_lat_e6 (cf_node c))) = true /\ valid_lat (degrees_of (cfg_lat_e6 (cf_node c))) = true /\
  fixed_point (degrees_of (cfg_lon_e6 (cf_node c))) = true /\ valid_lon (degrees_of (cfg_lon_e6 (cf_node c))) = true.
Proof.
  intros [[[] _ [_ [Hla Hlo] _] _] _ Hd].
  split_and!; [by apply freq_fixed|by apply bw_fixed|by apply duty_fixed|apply degrees_fixed; lia|by apply lat_of_millionths
    |apply degrees_fixed; lia|by apply lon_of_millionths].
Qed.

Lemma present_text k c v : c :: v <> [] -> present (key_text k) [(key_text k, c :: v)] = Some (c :: v).
Proof. intros _. unfold present. cbn [sm_find]. by rewrite beq_refl. Qed.

Lemma get_double_line k def v :
  fixed_point v = true -> get_double (key_text k) def [(key_text k, format_real v)] = (v, true).
Proof.
  intros Hv. destruct (format_real_reads v Hv) as (Hw & Hne & _). unfold get_double.
  destruct (format_real v) as [|x t] eqn:E; [done|]. rewrite present_text by done. by rewrite Hw.
Qed.

Lemma get_int_line k def n :
  - 2 ^ 63 <= n < 2 ^ 63 -> get_int64 (key_text k) def [(key_text k, show_int n)] = (n, true).
Proof.
  intros Hn. unfold get_int64.
  assert (exists x t, show_int n = x :: t) as (x & t & E).
  { unfold show_int. destruct (n <? 0); [by eexists _, _|]. destruct (dec_digits_nonnil 19 n) as (x & t & E). eauto. }
  pose proof (strtoll_show n Hn) as Hs. rewrite E in *. rewrite present_text by done. unfold whole.
  rewrite number_until_nul, Hs; [done|]. rewrite <- E.
  assert (forall m, 0 <= m < 2 ^ 64 -> Forall (fun c => number_char c = true) (dec_digits 20 m)) as Hd.
  { intros m Hm. destruct (dec_digits_spec 20 m) as [_ Hf]; [change (10 ^ Z.of_nat 20) with 100000000000000000000; lia|].
    eapply Forall_impl; [|exact Hf]. intros c Hc. unfold number_char. by rewrite Hc. }
  unfold show_int. destruct (Z.ltb_spec n 0); [constructor; [done|]|]; apply Hd; lia.
Qed.

Lemma is_finite_fixed v : fixed_point v = true -> is_finite v = true.
Proof. by intros [H _]%andb_true_iff. Qed.

Ltac real_line :=
  rewrite get_double_line by done; cbn [negb orb]; rewrite is_finite_fixed by done; cbn [negb];
  match goal with H : ?valid ?d = true |- context [negb (?valid ?d)] => rewrite H end; cbn [negb];
  eexists; (split; [reflexivity|]); try done.

Ltac int_line :=
  rewrite get_int_line by (unfold kMinTxPowerDbm, kMaxTxPowerDbm; lia); cbn [negb];
  rewrite (proj2 (Z.ltb_ge _ _)), (proj2 (Z.ltb_ge _ _)) by (unfold kMinTxPowerDbm, kMaxTxPowerDbm; lia); cbn [orb];
  eexists; (split; [reflexivity|]); cbn; f_equal; width.

(** Writing a key's text into any configuration gives it the field it was taken from. *)
Lemma set_get k c b : writable c -> exists b', cfg_set (key_text k) (cfg_get (key_text k) c) b = inr b' /\ field k b' = field k c.
Proof.
  intros Hw. pose proof (writable_reads c Hw) as Hread. destruct Hw as [[Hr _ Hn _] Hval _].
  rewrite cfg_set_text, cfg_get_text. unfold apply, format. rewrite setting_of_key.
  destruct Hr. destruct Hn as [_ [Hla Hlo] _]. unfold real_ok in *. destruct_and!. unfold kMinTxPowerDbm, kMaxTxPowerDbm.
  destruct k; cbn [setting_of radio_settings node_settings lookup list_lookup default from_option id st_target Real field].
  - real_line.
  - real_line.
  - int_line.
  - int_line.
  - int_line.
  - real_line.
  - assert (forall def, get_str (key_text KName) def [(key_text KName, cfg_name (cf_node c))] = cfg_name (cf_node c)) as ->.
    { intros def. unfold get_str. unfold validate in Hval. destruct (cfg_name (cf_node c)); [done|]. by rewrite present_text. }
    eexists. split; reflexivity.
  - real_line. cbn. f_equal. apply millionths_degrees. width.
  - real_line. cbn. f_equal. apply millionths_degrees. width.
  - assert (forall def v, get_bool (key_text KRepeat) def [(key_text KRepeat, if v : bool then lit "1" else lit "0")] = (v, true)) as ->
      by (intros def []; vm_compute; reflexivity).
    eexists. split; reflexivity.
Qed.

(** The texts [get] gives hold no control character. *)
Lemma get_printable k c : writable c -> printable (cfg_get (key_text k) c).
Proof.
  intros Hw. pose proof (writable_reads c Hw) as (? & ? & ? & ? & _ & ? & _). destruct Hw as [_ Hval _].
  rewrite cfg_get_text. unfold format, printable.
  assert (forall s, Forall (fun c => number_char c = true) s -> Forall (fun c => 32 <= c) s) as Hnum.
  { intros s. apply Forall_impl. intros x. unfold number_char, is_digit. lia. }
  assert (forall n, Forall (fun c => 32 <= c) (show_int n)) as Hint.
  { assert (forall fuel n, Forall (fun c => 32 <= c) (dec_digits fuel n)) as Hd.
    { induction fuel as [|fuel IH]; intros n; cbn [dec_digits]; [constructor|]. apply Forall_app. split.
      - destruct (n <? 10); [constructor|apply IH].
      - each. pose proof (Z.mod_pos_bound n 10). lia. }
    intros n. unfold show_int. destruct (n <? 0); [constructor; [lia|]|]; apply Hd. }
  destruct k; cbn [setting_of radio_settings node_settings lookup list_lookup default from_option id st_target Real field];
    try (apply Hnum, format_real_reads; done); try apply Hint.
  - unfold validate in Hval. destruct (cfg_name (cf_node c)) as [|x s] eqn:E; [constructor|].
    destruct (existsb control_char (x :: s)) eqn:Hc; [done|]. apply Forall_forall. intros y Hy.
    destruct (control_char y) eqn:Hcy.
    + rewrite <- not_true_iff_false in Hc. destruct Hc. apply existsb_exists. eauto.
    + unfold control_char in Hcy. lia.
  - destruct (cfg_repeat (cf_node c)); each; vm_compute; discriminate.
Qed.

(** ** The store *)

(** The store over the defaults [base]: the stored texts are those of the running
    configuration, and the keys that are not stored are still at their defaults. *)
Record settings_ok (base : DaemonConfig) (s : SettingsStore) : Prop := {
  so_path : ss_path s = settings_path base;
  so_sorted : sm_sorted (ss_stored s);
  so_texts : Forall (fun e => exists k, e = (key_text k, cfg_get (key_text k) (ss_cfg s))) (ss_stored s);
  so_rest : rest (ss_cfg s) = rest base;
  so_default k : ~ In (key_text k) (map fst (ss_stored s)) -> field k (ss_cfg s) = field k base }.

Lemma make_settings_ok base : settings_ok base (make_settings base).
Proof. split; [done|constructor|constructor|done|done]. Qed.

(** Reading the stored texts over any configuration. *)
Lemma load_entries_spec c es : forall b stored,
  writable c -> NoDup (map fst es) -> Forall (fun e => exists k, e = (key_text k, cfg_get (key_text k) c)) es ->
  exists b', load_entries es b stored = inr (b', fold_left (fun m e => sm_set e.1 e.2 m) es stored) /\
    rest b' = rest b /\
    forall k, (In (key_text k) (map fst es) -> field k b' = field k c) /\
              (~ In (key_text k) (map fst es) -> field k b' = field k b).
Proof.
  induction es as [|[key v] es IH]; intros b stored Hw Hnd Hes; cbn [load_entries map fold_left fst snd].
  - exists b. split; [done|]. split; [done|]. intros k. split; [done|done].
  - apply Forall_cons_iff in Hes as [(k & [= -> ->]) Hes]. cbn [map fst] in Hnd. apply list.NoDup_cons in Hnd as [Hni Hnd].
    rewrite app_key_text. cbn [negb]. destruct (set_get k c b Hw) as (b1 & Hset & Hf1). rewrite Hset.
    destruct (set_frame k _ b b1 Hset) as [Hr1 Hother].
    rewrite (get_field k b1 c Hf1).
    destruct (IH b1 (sm_set (key_text k) (cfg_get (key_text k) c) stored) Hw Hnd Hes) as (b' & -> & Hr & Hk).
    exists b'. split; [done|]. split; [congruence|]. intros k'. destruct (Hk k') as [Hin Hnin]. split.
    + intros [Heq|Hin']; [|auto]. apply key_text_inj in Heq as <-. rewrite Hnin; [done|]. by rewrite <- list_elem_of_In.
    + intros Hno. cbn [In] in Hno. rewrite Hnin by tauto. apply Hother. intros ->. tauto.
Qed.

Lemma sorted_keys_NoDup (m : StrMap) : sm_sorted m -> NoDup (map fst m).
Proof.
  unfold sm_sorted. intros Hs. apply NoDup_ListNoDup. induction Hs as [|x l _ IH Hf]; constructor; [|done].
  rewrite Forall_forall in Hf. intros Hx%Hf. by rewrite str_lt_irrefl in Hx.
Qed.

(** Storing a sorted map into an empty one, key by key. *)
Lemma fold_sm_set_sorted es : forall m, sm_sorted (m ++ es) -> fold_left (fun m e => sm_set e.1 e.2 m) es m = m ++ es.
Proof.
  induction es as [|[k v] es IH]; intros m Hs; cbn; [by rewrite app_nil_r|].
  rewrite sm_set_last.
  - rewrite IH; by rewrite <- app_assoc.
  - unfold sm_sorted in Hs. rewrite map_app in Hs. apply Forall_forall. intros e He.
    apply (StronglySorted_app_1_elem_of (fun a b => str_lt a b = true) _ _ e.1 k Hs); [|by left].
    apply list_elem_of_In. by apply in_map.
Qed.

(** What a settings file written by the store loads as. *)
Lemma load_written base s bad fs :
  settings_ok base s -> writable (ss_cfg s) ->
  open_file fs (ss_path s) = File (settings_text (ss_stored s)) bad -> is_Some (lookup_file fs (ss_path s)) ->
  ss_load fs (make_settings base) = inr s.
Proof.
  intros [Hp Hs Ht Hr Hd] Hw Hopen [i Hi]. unfold ss_load, make_settings. cbn [ss_path ss_cfg ss_stored].
  rewrite <- Hp, Hi, Hopen, settings_text_reads; [|eapply Forall_impl; [|exact Ht]|done].
  2: { intros e (k & ->). exists k. split; [done|]. by apply get_printable. }
  destruct (load_entries_spec (ss_cfg s) (ss_stored s) base [] Hw (sorted_keys_NoDup _ Hs) Ht) as (b & -> & Hrb & Hk).
  rewrite fold_sm_set_sorted by done. cbn [app].
  assert (b = ss_cfg s) as ->.
  { apply config_ext; [congruence|]. intros k. destruct (Hk k) as [Hin Hnin].
    destruct (in_dec (list_eq_dec Z.eq_dec) (key_text k) (map fst (ss_stored s))); [auto|].
    rewrite Hnin by done. by rewrite Hd. }
  rewrite (wr_valid _ Hw). by destruct s.
Qed.

(** ** Changing settings *)

Lemma set_all_spec changes : forall c c',
  set_all changes c = inr c' ->
  Forall (fun ch => exists k, ch.1 = key_text k) changes /\ rest c' = rest c /\
  (forall k, ~ In (key_text k) (map fst changes) -> field k c' = field k c) /\
  (config_ok c -> config_ok c').
Proof.
  induction changes as [|[key v] changes IH]; intros c c' Ha; cbn [set_all map fst] in *.
  { simplify_eq. split; [constructor|]. done. }
  destruct (cfg_set key v c) as [|c1] eqn:H1; [done|]. destruct (IH c1 c' Ha) as (Hks & Hr & Hf & Hok).
  assert (app_key key = true) as (k & ->)%app_key_inv.
  { unfold cfg_set in H1. by destruct (app_key key). }
  destruct (set_frame k v c c1 H1) as [Hr1 Hf1]. split; [|split; [|split]].
  - constructor; [by exists k|done].
  - congruence.
  - intros k' Hno. cbn [In] in Hno. rewrite Hf by tauto. apply Hf1. intros ->. tauto.
  - intros Hc. apply Hok. by eapply cfg_set_ok.
Qed.

(** The stored map after a change: the changed keys at their new texts, the others as before. *)
Lemma fold_set_find (get : Str -> Str) k changes : forall (m : StrMap),
  sm_find k (fold_left (fun m (ch : Change) => sm_set ch.1 (get ch.1) m) changes m) =
  if bool_decide (k ∈ map fst changes) then Some (get k) else sm_find k m.
Proof.
  induction changes as [|[k1 v1] changes IH]; intros m; cbn [fold_left map fst]; [done|]. rewrite IH.
  destruct (bool_decide_reflect (k ∈ map fst changes)) as [Hin|Hno].
  - rewrite bool_decide_eq_true_2; [done|]. apply elem_of_cons. by right.
  - destruct (decide (k = k1)) as [->|Hne].
    + rewrite sm_set_find, bool_decide_eq_true_2; [done|]. apply elem_of_cons. by left.
    + rewrite sm_set_find_ne, bool_decide_eq_false_2 by (rewrite ?elem_of_cons; naive_solver). done.
Qed.

Lemma fold_set_sorted (get : Str -> Str) changes : forall (m : StrMap),
  sm_sorted m -> sm_sorted (fold_left (fun m (ch : Change) => sm_set ch.1 (get ch.1) m) changes m).
Proof. induction changes as [|ch changes IH]; intros m Hm; cbn; [done|]. by apply IH, sm_set_sorted. Qed.

Lemma sm_elem_find k v m : sm_sorted m -> (k, v) ∈ m <-> sm_find k m = Some v.
Proof.
  intros Hs. split.
  - unfold sm_sorted in Hs. induction m as [|[k1 v1] m IH]; cbn in *; [set_solver|].
    apply StronglySorted_inv in Hs as [Hs Hf]. intros [Heq|Hin]%elem_of_cons; [simplify_eq; by rewrite beq_refl|].
    destruct (beq k k1) eqn:Hb; [|by apply IH]. apply beq_eq in Hb as ->. rewrite Forall_forall in Hf.
    rewrite list_elem_of_In in Hin. apply (in_map fst) in Hin. apply Hf in Hin. cbn in Hin. by rewrite str_lt_irrefl in Hin.
  - clear Hs. induction m as [|[k1 v1] m IH]; cbn; [done|]. destruct (beq k k1) eqn:Hb.
    + apply beq_eq in Hb as ->. intros. simplify_eq. by left.
    + intros H. right. auto.
Qed.

Lemma sm_key_find k m : In k (map fst m) <-> is_Some (sm_find k m).
Proof.
  induction m as [|[k1 v1] m IH]; cbn; [split; [done|by intros []]|]. destruct (beq k k1) eqn:Hb.
  - apply beq_eq in Hb as ->. split; [eauto|by left].
  - apply beq_neq in Hb. rewrite <- IH. split; [intros [?|?]; [congruence|done]|by right].
Qed.

(** A successful change keeps the store's invariant. *)
Lemma ss_set_ok base faults mode changes fs s s' fs' :
  ss_set faults mode changes fs s = (SetOk, s', fs') -> settings_ok base s ->
  settings_ok base s' /\ ss_path s' = ss_path s /\ (config_ok (ss_cfg s) -> config_ok (ss_cfg s')) /\
  validate (ss_cfg s') = None /\ ss_save faults mode fs (ss_path s) (ss_stored s') = (true, fs').
Proof.
  unfold ss_set. intros Hset Hok.
  destruct (set_all changes (ss_cfg s)) as [|next] eqn:Ha; [done|]. destruct (validate next) eqn:Hv; [done|].
  destruct (ss_save _ _ _ _ _) as [[] fs1] eqn:Hsave; [|done]. simplify_eq. destruct Hok as [Hp Hs Ht Hr Hd].
  cbn [ss_path ss_cfg ss_stored]. destruct (set_all_spec changes (ss_cfg s) next Ha) as (Hks & Hrn & Hfn & Hokn).
  split; [|by split_and!].
  split; cbn [ss_path ss_cfg ss_stored];
    [done|by apply (fold_set_sorted (fun k => cfg_get k next))| |by rewrite Hrn|].
  - apply Forall_forall. intros [key v] He. rewrite <- list_elem_of_In in He.
    apply sm_elem_find in He; [|by apply (fold_set_sorted (fun k => cfg_get k next))]. rewrite (fold_set_find (fun k => cfg_get k next)) in He.
    destruct (bool_decide_reflect (key ∈ map fst changes)) as [Hin|Hno].
    + simplify_eq. apply list_elem_of_fmap in Hin as (ch & -> & Hch). rewrite list_elem_of_In in Hch.
      rewrite Forall_forall in Hks. destruct (Hks ch Hch) as (k & ->). eauto.
    + apply sm_elem_find in He; [|done]. rewrite list_elem_of_In in He. rewrite Forall_forall in Ht.
      destruct (Ht _ He) as (k & [= -> ->]). exists k.
      rewrite (get_field k next (ss_cfg s)); [done|]. apply Hfn. by rewrite <- list_elem_of_In.
  - intros k Hno. rewrite sm_key_find, (fold_set_find (fun k => cfg_get k next)) in Hno.
    destruct (bool_decide_reflect (key_text k ∈ map fst changes)) as [|Hnc]; [destruct Hno; eauto|].
    rewrite Hfn by (by rewrite <- list_elem_of_In). apply Hd. by rewrite sm_key_find.
Qed.

(** One key set and stored keeps the store's invariant. *)
Lemma store_step base k v c' s :
  settings_ok base s -> cfg_set (key_text k) v (ss_cfg s) = inr c' ->
  settings_ok base (mkSettingsStore c' (ss_path s) (sm_set (key_text k) (cfg_get (key_text k) c') (ss_stored s))).
Proof.
  intros [Hp Hs Ht Hr Hd] Hset. destruct (set_frame k v _ c' Hset) as [Hrest Hother].
  assert (sm_sorted (sm_set (key_text k) (cfg_get (key_text k) c') (ss_stored s))) as Hs' by by apply sm_set_sorted.
  split; cbn [ss_path ss_cfg ss_stored]; [done|done| |by rewrite Hrest|].
  - apply Forall_forall. intros [key t] He. rewrite <- list_elem_of_In in He. apply sm_elem_find in He; [|done].
    destruct (decide (key = key_text k)) as [->|Hne].
    + rewrite sm_set_find in He. simplify_eq. eauto.
    + rewrite sm_set_find_ne in He by done. apply sm_elem_find in He; [|done]. rewrite list_elem_of_In in He.
      rewrite Forall_forall in Ht. destruct (Ht _ He) as (k' & [= -> ->]). exists k'.
      rewrite (get_field k' c' (ss_cfg s)); [done|]. apply Hother. by intros ->.
  - intros k' Hno. rewrite sm_key_find in Hno. destruct (decide (k' = k)) as [->|Hne].
    + rewrite sm_set_find in Hno. destruct Hno; eauto.
    + rewrite sm_set_find_ne in Hno by (intros ?%key_text_inj; done). rewrite Hother by done. apply Hd.
      by rewrite sm_key_find.
Qed.

Lemma load_entries_ok base path es : forall c stored c' stored',
  load_entries es c stored = inr (c', stored') -> settings_ok base (mkSettingsStore c path stored) ->
  settings_ok base (mkSettingsStore c' path stored') /\ (config_ok c -> config_ok c').
Proof.
  induction es as [|[key v] es IH]; intros c stored c' stored' Hl Hok; cbn [load_entries] in Hl; [by simplify_eq|].
  destruct (negb (app_key key)) eqn:Ha; [by eapply IH|].
  apply negb_false_iff, app_key_inv in Ha as (k & ->). destruct (cfg_set _ _ _) as [|c1] eqn:Hset; [done|].
  destruct (IH _ _ _ _ Hl (store_step base k v c1 _ Hok Hset)) as [Hok' Hc']. split; [done|]. intros Hc.
  apply Hc'. by eapply cfg_set_ok.
Qed.

(** What [load] gives is validated, whatever the file holds. *)
Lemma ss_load_ok base fs s :
  ss_load fs (make_settings base) = inr s -> config_ok base -> validate base = None ->
  settings_ok base s /\ config_ok (ss_cfg s) /\ validate (ss_cfg s) = None.
Proof.
  unfold ss_load. intros Hl Hc Hv. pose proof (make_settings_ok base) as H0.
  destruct (lookup_file _ _); [|by injection Hl as <-].
  destruct (ini_load _ _ _) as [|es]; [done|]. destruct (load_entries _ _ _) as [|[c' stored']] eqn:Hle; [done|].
  destruct (validate c') eqn:Hv'; [done|]. injection Hl as <-. cbn [ss_cfg].
  destruct (load_entries_ok base (settings_path base) es _ _ _ _ Hle H0) as [H1 H2]. auto.
Qed.

(** A refused change leaves the store as it was; an invalid one the files too. *)
Lemma ss_set_refused faults mode changes fs s r s' fs' :
  ss_set faults mode changes fs s = (r, s', fs') -> r <> SetOk -> s' = s /\ (r = SetInvalid -> fs' = fs).
Proof.
  unfold ss_set. intros Hset Hne. repeat case_match; simplify_eq; try done.
Qed.

(** The runs of the store: loaded once, then changed any number of times, under any faults. *)
Inductive settings_run (base : DaemonConfig) : SettingsStore -> Fs -> Prop :=
  | run_load fs s : ss_load fs (make_settings base) = inr s -> settings_run base s fs
  | run_set faults mode changes s fs r s' fs' :
      settings_run base s fs -> ss_set faults mode changes fs s = (r, s', fs') -> settings_run base s' fs'
  | run_outside s fs fs' : settings_run base s fs -> settings_run base s fs'.

Lemma settings_run_ok base s fs :
  settings_run base s fs -> config_ok base -> validate base = None ->
  settings_ok base s /\ config_ok (ss_cfg s) /\ validate (ss_cfg s) = None.
Proof.
  induction 1 as [fs s Hl|faults mode changes s fs r s' fs' _ IH Hset|s fs fs' _ IH]; intros Hc Hv.
  - by eapply ss_load_ok.
  - destruct (IH Hc Hv) as (H1 & H2 & H3). destruct r.
    + destruct (ss_set_ok base _ _ _ _ _ _ _ Hset H1) as (H4 & _ & H5 & H6 & _). auto.
    + by destruct (ss_set_refused _ _ _ _ _ _ _ _ Hset) as [-> _].
    + by destruct (ss_set_refused _ _ _ _ _ _ _ _ Hset) as [-> _].
  - auto.
Qed.

(** ** What a node advertises *)

Lemma type_flags t : 0 <= u8 (Z.land t kAdvTypeMask) < 16.
Proof.
  unfold kAdvTypeMask. change 15 with (Z.ones 4). rewrite Z.land_ones by lia.
  pose proof (Z.mod_pos_bound t (2 ^ 4)). width.
Qed.

(** The flags of an advert are the type and one bit for each part it carries. *)
Lemma advert_flags t loc name :
  let f := u8 (Z.land t kAdvTypeMask) in
  let f := if loc : bool then Z.lor f kAdvHasLocation else f in
  let f := if name : bool then Z.lor f kAdvHasName else f in
  is_u8 f /\ AdvertAppData.flag f kAdvHasLocation = loc /\ AdvertAppData.flag f kAdvHasFeature1 = false /\
  AdvertAppData.flag f kAdvHasFeature2 = false /\ AdvertAppData.flag f kAdvHasName = name.
Proof.
  intros f. pose proof (type_flags t) as Hf. fold f in Hf. clearbody f.
  assert (f ∈ map Z.of_nat (seq 0 16)) as Hin.
  { apply list_elem_of_In, in_map_iff. exists (Z.to_nat f). rewrite in_seq. split; lia. }
  cbn in Hin. rewrite !elem_of_cons, elem_of_nil in Hin.
  destruct_or!; try done; subst f; destruct loc, name; cbv; intuition congruence.
Qed.

Lemma flags_of_appdata cfg :
  AdvertAppData.flags (build_appdata cfg) =
    let f := u8 (Z.land (cfg_adv_type cfg) kAdvTypeMask) in
    let f := if cfg_has_location cfg then Z.lor f kAdvHasLocation else f in
    if negb (beq (cfg_name cfg) []) then Z.lor f kAdvHasName else f.
Proof.
  unfold build_appdata. destruct (cfg_has_location cfg), (cfg_name cfg); reflexivity.
Qed.

(** A validated configuration has an advert every MeshCore node verifies: within the 32
    bytes, naming the node and giving its position. *)
Lemma validated_advert c :
  config_ok c -> validate c = None -> bytes_ok (cfg_name (cf_node c)) ->
  let a := build_appdata (cf_node c) in
  (length (AdvertAppData.encode a) <= kMaxAdvertAppDataSize)%nat /\ AdvertAppData.decode (AdvertAppData.encode a) = Some a.
Proof.
  intros [_ _ [_ [Hla Hlo] _] _] Hv Hb a.
  pose proof (flags_of_appdata (cf_node c)) as Hfl. cbv zeta in Hfl. fold a in Hfl.
  pose proof (advert_flags (cfg_adv_type (cf_node c)) (cfg_has_location (cf_node c)) (negb (beq (cfg_name (cf_node c)) [])))
    as (Hu & H1 & H2 & H3 & H4).
  rewrite <- Hfl in Hu, H1, H2, H3, H4.
  assert (a = AdvertAppData.mk (AdvertAppData.flags a)
    (if cfg_has_location (cf_node c) then cfg_lat_e6 (cf_node c) else 0)
    (if cfg_has_location (cf_node c) then cfg_lon_e6 (cf_node c) else 0) 0 0 (cfg_name (cf_node c))) as Ha.
  { subst a. unfold build_appdata. destruct (cfg_has_location _), (cfg_name _); reflexivity. }
  unfold validate in Hv. destruct (cfg_name (cf_node c)) as [|x name] eqn:En; [done|].
  change (negb (beq (x :: name) [])) with true in H4.
  destruct (existsb _ _); [done|]. destruct (Nat.ltb_spec (kMaxAdvertAppDataSize - (1 + (if cfg_has_location (cf_node c) then 8 else 0))) (length (x :: name)))
    as [|Hle]; [done|]. clear Hv. split.
  - rewrite appdata_encode_app. cbv zeta. rewrite H1, H2, H3, H4, Ha. cbn [AdvertAppData.name AdvertAppData.lat_e6 AdvertAppData.lon_e6].
    unfold kMaxAdvertAppDataSize in *. destruct (cfg_has_location (cf_node c)); cbn [length app] in *; rewrite ?length_app; cbn; lia.
  - rewrite appdata_decode_encode.
    + unfold appdata_image. rewrite H1, H2, H3, H4. rewrite Ha at 2. rewrite Ha. cbn. by destruct (cfg_has_location (cf_node c)).
    + rewrite Ha in Hu |- *. cbn in Hu. split_and!; cbn; try done; destruct (cfg_has_location (cf_node c)); cbn; try done; width.
Qed.

(** ** Claims *)

Lemma load_after_save base faults mode fs s' fs' :
  fs_wf fs -> tmp_private fs (settings_path base) -> settings_ok base s' -> writable (ss_cfg s') ->
  ss_save faults mode fs (ss_path s') (ss_stored s') = (true, fs') -> ss_load fs' (make_settings base) = inr s'.
Proof.
  intros Hwf Hpriv Hok Hw Hsave. unfold ss_save in Hsave. rewrite (so_path _ _ Hok) in Hsave.
  destruct (save_file _ _ _ _ _ _) as [[ok fs1] seen] eqn:Es. injection Hsave as -> ->.
  destruct (save_file_spec _ _ _ _ _ _ _ _ _ Hwf Hpriv Es) as [_ Hi]. specialize (Hi eq_refl). unfold installed in Hi.
  apply (load_written base s' false fs' Hok Hw); rewrite (so_path _ _ Hok); [|by rewrite Hi].
  unfold open_file. by rewrite Hi.
Qed.

Section restart.
Context (base : DaemonConfig) (s : SettingsStore) (fs : Fs).
Context (Hrun : settings_run base s fs) (Hbase : config_ok base) (Hvalid : validate base = None).

Lemma set_then_load faults mode changes s' fs' :
  fs_wf fs -> tmp_private fs (settings_path base) ->
  ss_set faults mode changes fs s = (SetOk, s', fs') ->
  f_le (d_lit 1 1) (rp_duty_cycle_pct (cf_radio (ss_cfg s'))) = true ->
  ss_load fs' (make_settings base) = inr s'.
Proof.
  intros Hwf Hpriv Hset Hduty. destruct (settings_run_ok base s fs Hrun Hbase Hvalid) as (Hok & Hcs & _).
  destruct (ss_set_ok base _ _ _ _ _ _ _ Hset Hok) as (Hok' & Hp & Hc' & Hv' & Hsave). rewrite <- Hp in Hsave.
  refine (load_after_save base faults mode fs s' fs' Hwf Hpriv Hok' _ Hsave).
  split; [by apply Hc'|exact Hv'|exact Hduty].
Qed.

(** C20. Settings survive a restart: whenever the store reports a change as made, a daemon started on the same
    configuration reads exactly the store the running one has, every value and every stored text included; the real
    numbers and the position come back as the very same doubles and integers.  The duty cycle in force has to be at least
    a tenth of a percent (an app can set no less than ten percent; a hand-written one may be so small that its text is
    refused as out of range). *)
Theorem settings_survive_restart faults mode changes s' fs' :
  fs_wf fs -> tmp_private fs (settings_path base) ->
  ss_set faults mode changes fs s = (SetOk, s', fs') ->
  f_le (d_lit 1 1) (rp_duty_cycle_pct (cf_radio (ss_cfg s'))) = true ->
  ss_load fs' (make_settings base) = inr s'.
Proof. apply set_then_load. Qed.

(** C21. The settings in force are valid at any time: whatever the settings file holds and whatever an app asks for,
    every value stays within its row's range (a position within 90 and 180 degrees, to the millionth), and the advert the
    node sends has room for the name and the position and decodes to that name and that very position. *)
Theorem settings_always_advertisable :
  config_ok (ss_cfg s) /\ validate (ss_cfg s) = None /\
  (bytes_ok (cfg_name (cf_node (ss_cfg s))) ->
   let a := build_appdata (cf_node (ss_cfg s)) in
   (length (AdvertAppData.encode a) <= kMaxAdvertAppDataSize)%nat /\
   AdvertAppData.decode (AdvertAppData.encode a) = Some a /\
   AdvertAppData.name a = cfg_name (cf_node (ss_cfg s)) /\
   AdvertAppData.lat_e6 a = cfg_lat_e6 (cf_node (ss_cfg s)) /\ AdvertAppData.lon_e6 a = cfg_lon_e6 (cf_node (ss_cfg s))).
Proof.
  destruct (settings_run_ok base s fs Hrun Hbase Hvalid) as (_ & Hcs & Hvs). split_and!; [done|done|].
  intros Hb a. destruct (validated_advert _ Hcs Hvs Hb) as [Hl Hd]. split_and!; [done|done|..].
  all: subst a; unfold build_appdata, cfg_has_location in *; destruct (Z.eqb_spec (cfg_lat_e6 (cf_node (ss_cfg s))) 0),
    (Z.eqb_spec (cfg_lon_e6 (cf_node (ss_cfg s))) 0), (cfg_name _); done.
Qed.

(** Only the flush of the directory fails. *)
Definition dir_flush_fails : Faults :=
  mkFaults false false false false false false false false false false true false.

Lemma save_dir_flush_fails mode path text kb :
  save_file dir_flush_fails mode path text kb fs =
  let '(_, fs', seen) := save_file no_faults mode path text kb fs in (false, fs', seen).
Proof.
  unfold save_file. cbn [f_create f_write no_faults dir_flush_fails].
  destruct (create_trunc _ _ _) as [i fs1]. unfold durable_replace. destruct (names _ !! _); [|done].
  cbn. repeat case_match; simplify_eq; done.
Qed.

(** A change reported as not written may be in force after a restart: when the flush of the directory is what
    fails, the store says so and goes on without the change, and the file has it. *)
Theorem refused_change_returns mode changes s' fs' :
  fs_wf fs -> tmp_private fs (settings_path base) ->
  ss_set no_faults mode changes fs s = (SetOk, s', fs') ->
  f_le (d_lit 1 1) (rp_duty_cycle_pct (cf_radio (ss_cfg s'))) = true ->
  ss_set dir_flush_fails mode changes fs s = (SetIoError, s, fs') /\ ss_load fs' (make_settings base) = inr s'.
Proof.
  intros Hwf Hpriv Hset Hduty. split; [|by eapply set_then_load].
  unfold ss_set, ss_save in *. destruct (set_all _ _) as [|next]; [done|]. destruct (validate next); [done|].
  rewrite save_dir_flush_fails. destruct (save_file no_faults _ _ _ _ _) as [[[] fs1] seen]; [|done]. by injection Hset as <- <-.
Qed.
End restart.

Module Demo.
Definition base := ss_cfg sample.
Definition fs0 : Fs := mkFs ∅ ∅.
Definition changes : list Change :=
  [(lit "radio.lora_freq", lit "869.618"); (lit "node.advert_name", lit " x#'y"); (lit "node.lat", lit "51.5007")].

Lemma sample_run : settings_run base sample fs0.
Proof. apply run_load. vm_compute. reflexivity. Qed.

Lemma sample_ok : config_ok base.
Proof. destruct default_config_ok. split; try done. by destruct ok_node. Qed.

Lemma settings_survive_restart_witness :
  let '(r, s', fs') := ss_set no_faults 384 changes fs0 sample in r = SetOk /\ ss_load fs' (make_settings base) = inr s'.
Proof.
  destruct (ss_set _ _ _ _ _) as [[r s'] fs'] eqn:E. pose proof E as E'. vm_compute in E'. injection E' as <- Hs Hf.
  split; [reflexivity|].
  apply (settings_survive_restart base sample fs0 sample_run sample_ok eq_refl no_faults 384 changes s' fs'); [done|done|done|].
  subst s'. vm_compute. reflexivity.
Defined.

Lemma settings_always_advertisable_witness :
  let a := build_appdata (cf_node (ss_cfg sample)) in
  (length (AdvertAppData.encode a) <= kMaxAdvertAppDataSize)%nat /\ AdvertAppData.decode (AdvertAppData.encode a) = Some a.
Proof.
  destruct (settings_always_advertisable base sample fs0 sample_run sample_ok eq_refl) as (_ & _ & H).
  destruct H as (H1 & H2 & _); [|split; [exact H1|exact H2]]. apply (bool_decide_unpack _). vm_compute. exact I.
Defined.

Lemma refused_change_returns_witness :
  let '(_, s', fs') := ss_set no_faults 384 changes fs0 sample in
  ss_set dir_flush_fails 384 changes fs0 sample = (SetIoError, sample, fs') /\ ss_load fs' (make_settings base) = inr s'.
Proof.
  destruct (ss_set _ _ _ _ _) as [[r s'] fs'] eqn:E. pose proof E as E'. vm_compute in E'. injection E' as <- Hs Hf.
  apply (refused_change_returns base sample fs0 sample_run sample_ok eq_refl 384 changes s' fs'); [done|done|done|].
  subst s'. vm_compute. reflexivity.
Defined.
End Demo.
