(* ===== verification/Log.v ===== *)
(** * The log, and what the configuration says in it ([src/src/util/log.cpp], [log.h], [ini.cpp])

    A line goes to the standard output or to the standard error with its level and, unless the
    daemon runs under systemd, the time.  The globals [g_level] and [g_syslog_style] are a
    record; what [localtime_r] makes of the current second and what [vsnprintf] makes of a
    format are arguments.

    [Ini] is here with the list of the keys it was asked for, which is what the reader of the
    configuration warns about: the load below is [DaemonConfig.cfg_load] with that list and the
    warnings, and gives the same configuration.  The theorem: every key of a configuration file
    is applied or named in a warning on the standard error, at the level the daemon starts
    with. *)

From S2P Require Import Prelude ByteIO Floats Crypto Identity Packet Payloads Radio.
From S2P Require Import Dispatcher Record Persist Contacts Channels Inbox Sender Node.
From S2P Require Import CText Ini FloatFacts DaemonConfig Settings.

(** ** Lines *)

Record Logger := mkLogger { g_level : LogLevel; g_syslog_style : bool }.

#[export] Instance eta_Logger : Eta Logger := fun g => mkLogger (g_level g) (g_syslog_style g).

Definition Logger_default : Logger := mkLogger Info false.

Definition log_set_level (level : LogLevel) (g : Logger) : Logger := g <| g_level := level |>.
Definition log_level (g : Logger) : LogLevel := g_level g.
Definition log_set_syslog_style (on : bool) (g : Logger) : Logger := g <| g_syslog_style := on |>.

(** [static_cast<int>(level)] *)
Definition level_int (l : LogLevel) : Z :=
  match l with Error => 0 | Warn => 1 | Info => 2 | Debug => 3 | Trace => 4 end.

Definition level_name (l : LogLevel) : Str :=
  match l with
  | Error => lit "ERROR"
  | Warn => lit "WARN "
  | Info => lit "INFO "
  | Debug => lit "DEBUG"
  | Trace => lit "TRACE"
  end.

Inductive Stream := Stdout | Stderr.

Record Tm := mkTm { tm_hour : Z; tm_min : Z; tm_sec : Z }.

(** [strftime(..., "%H:%M:%S", ...)] *)
Definition two_digits (n : Z) : Str := pad_zeros 2 (dec_text n).
Definition hms (tm : Tm) : Str :=
  two_digits (tm_hour tm) ++ lit ":" ++ two_digits (tm_min tm) ++ lit ":" ++ two_digits (tm_sec tm).

(** What a C function sees of a string: the bytes before the first nul. *)
Definition c_str (s : Str) : Str := Reader.until_nul s.

(** The first call of [vsnprintf] measures, the second writes into a buffer of that size;
    [rendered] is the text of the format, [None] when it cannot be rendered. *)
Definition vformat (rendered : option Str) : Str :=
  match rendered with None => [] | Some text => snprintf (length text + 1) text end.

Definition log_write (g : Logger) (tm : Tm) (level : LogLevel) (msg : Str) : Stream * Str :=
  let out := match level with Error | Warn => Stderr | _ => Stdout end in
  let line := lit "[" ++ level_name level ++ lit "] " ++ c_str msg ++ [10] in
  (out, if g_syslog_style g then line else hms tm ++ lit " " ++ line).

(** [UMC_LOG], which formats only what will be written. *)
Definition umc_log (g : Logger) (tm : Tm) (level : LogLevel) (rendered : option Str) : list (Stream * Str) :=
  if level_int level <=? level_int (log_level g) then [log_write g tm level (vformat rendered)] else [].

(** ** The reader of configuration files, with the keys it was asked for *)

Record IniFile := mkIniFile { entries_ : StrMap; read_ : list Str }.

#[export] Instance eta_IniFile : Eta IniFile := fun i => mkIniFile (entries_ i) (read_ i).

(** [Ini::find] *)
Definition ini_find (key : Str) (ini : IniFile) : option Str * IniFile :=
  (sm_find key (entries_ ini), ini <| read_ ::= fun r => r ++ [key] |>).

Definition unread_keys (ini : IniFile) : list Str :=
  List.filter (fun k => negb (existsb (beq k) (read_ ini))) (map fst (entries_ ini)).

(** The getters that log instead of reporting: the value, and the warning. *)
Section getters.
Context (g : Logger) (tm : Tm).

Definition get_int_warn (key : Str) (def : Z) (m : StrMap) : Z * list (Stream * Str) :=
  let '(v, ok) := get_int key def m in
  (v, if ok then [] else umc_log g tm Warn (Some (lit "config: " ++ c_str key ++ lit " is not an integer, using default"))).
Definition get_double_warn (key : Str) (def : double) (m : StrMap) : double * list (Stream * Str) :=
  let '(v, ok) := get_double key def m in
  (v, if ok then [] else umc_log g tm Warn (Some (lit "config: " ++ c_str key ++ lit " is not a number, using default"))).
Definition get_bool_warn (key : Str) (def : bool) (m : StrMap) : bool * list (Stream * Str) :=
  let '(v, ok) := get_bool key def m in
  (v, if ok then [] else umc_log g tm Warn (Some (lit "config: " ++ c_str key ++ lit " is not a boolean, using default"))).
End getters.

(** [apply] asks for the key of its row, once, whatever the target. *)
Definition apply_asking (ini : IniFile) (s : Setting) (c : DaemonConfig) : Result DaemonConfig * IniFile :=
  let '(_, ini') := ini_find (st_key s) ini in (apply (entries_ ini) s c, ini').

Fixpoint apply_all_asking (ini : IniFile) (ss : list Setting) (c : DaemonConfig) : Result DaemonConfig * IniFile :=
  match ss with
  | [] => (inr c, ini)
  | s :: ss =>
      if app_key (st_key s) then apply_all_asking ini ss c
      else match apply_asking ini s c with
           | (inl e, ini) => (inl e, ini)
           | (inr c, ini) => apply_all_asking ini ss c
           end
  end.

(** The last loop of [Config::load]. *)
Definition unread_warning (c : DaemonConfig) (key : Str) : Str :=
  if app_key key
  then lit "config: " ++ c_str key ++ lit " ignored — it is set from a companion app, or in " ++ c_str (settings_path c)
  else lit "config: unknown key " ++ [34] ++ c_str key ++ [34] ++ lit " ignored".

(** [Config::load] with what it logs: everything between the table and the warnings is
    [cfg_load]'s, and nothing is logged unless it succeeds. *)
Definition cfg_load_logging (g : Logger) (tm : Tm) (path : Str) (input : Input) (c : DaemonConfig) :
    Result DaemonConfig * list (Stream * Str) :=
  match ini_load path input [], cfg_load path input c with
  | inr m, inr c' =>
      let ini := (apply_all_asking (mkIniFile m []) settings
                    (c <| rw_log_level := lit "info" |> <| rw_companion_interface := lit "unix" |>)).2 in
      (inr c', List.concat (map (fun key => umc_log g tm Warn (Some (unread_warning c' key))) (unread_keys ini)))
  | _, r => (r, [])
  end.

(** [SettingsStore::load] logs the keys of the settings file that are no setting, up to the
    first one it refuses. *)
Fixpoint load_entries_logging (g : Logger) (tm : Tm) (es : StrMap) (cfg : DaemonConfig) : list (Stream * Str) :=
  match es with
  | [] => []
  | (key, value) :: es =>
      if negb (app_key key)
      then umc_log g tm Warn (Some (lit "settings: unknown key " ++ [34] ++ c_str key ++ [34] ++ lit " ignored"))
           ++ load_entries_logging g tm es cfg
      else match cfg_set key value cfg with
           | inl _ => []
           | inr cfg => load_entries_logging g tm es cfg
           end
  end.

(** ** What is written *)

(** Measuring first means nothing is cut. *)
Lemma vformat_whole text : vformat (Some text) = text.
Proof. unfold vformat, snprintf. by rewrite Nat.add_sub, firstn_all. Qed.

(** A message is written exactly at its level and above; a level only ever adds lines. *)
Lemma umc_log_monotone g g' tm level msg :
  g_syslog_style g = g_syslog_style g' -> level_int (g_level g) <= level_int (g_level g') ->
  umc_log g tm level msg = [] \/ umc_log g' tm level msg = umc_log g tm level msg.
Proof.
  intros Hs Hl. unfold umc_log, log_level. destruct (Z.leb_spec (level_int level) (level_int (g_level g))); [|by left].
  right. rewrite (proj2 (Z.leb_le _ _)) by lia. unfold log_write. by rewrite Hs.
Qed.

(** An error is written whatever the level, to the standard error. *)
Lemma errors_always_logged g tm msg :
  exists line, umc_log g tm Error msg = [(Stderr, line)].
Proof. unfold umc_log, log_level, log_write. destruct (g_level g); eexists; done. Qed.

(** ** Nothing in a configuration file is ignored in silence *)

Lemma existsb_In k l : existsb (beq k) l = true <-> In k l.
Proof.
  rewrite existsb_exists. split.
  - intros (x & Hx & E). apply beq_eq in E. by subst.
  - intros Hk. exists k. by rewrite beq_refl.
Qed.

Lemma existsb_same k l l' : (forall x, In x l <-> In x l') -> existsb (beq k) l = existsb (beq k) l'.
Proof. intros Hl. apply eq_true_iff_eq. by rewrite !existsb_In, Hl. Qed.

(** Asking changes nothing but the list, and a table applied to its end was asked for whole. *)
Lemma apply_all_asking_agrees ss : forall ini c,
  (apply_all_asking ini ss c).1 = apply_all (entries_ ini) ss c /\
  entries_ (apply_all_asking ini ss c).2 = entries_ ini /\
  (forall c', apply_all (entries_ ini) ss c = inr c' ->
     read_ (apply_all_asking ini ss c).2 = read_ ini ++ List.filter (fun k => negb (app_key k)) (map st_key ss)).
Proof.
  induction ss as [|s ss IH]; intros ini c; cbn [apply_all_asking apply_all map List.filter].
  { split_and!; try done. intros _ _. by rewrite app_nil_r. }
  destruct (app_key (st_key s)) eqn:Ha; cbn [negb]; [apply IH|].
  unfold apply_asking, ini_find. destruct (apply (entries_ ini) s c) as [e|c1]; [by split_and!|].
  destruct (IH (ini <| read_ ::= fun r => r ++ [st_key s] |>) c1) as (E1 & E2 & E3). split_and!; [done..|].
  intros c' Hc. rewrite (E3 c' Hc). cbn [read_ setf]. by rewrite <- app_assoc.
Qed.

Lemma cfg_load_agrees g tm path input c : (cfg_load_logging g tm path input c).1 = cfg_load path input c.
Proof.
  unfold cfg_load_logging. destruct (ini_load path input []) as [e|m] eqn:E; [done|].
  by destruct (cfg_load path input c).
Qed.

(** A load that succeeds applied the whole table. *)
Lemma cfg_load_applied path input c c' m :
  ini_load path input [] = inr m -> cfg_load path input c = inr c' ->
  exists c1, apply_all m settings (c <| rw_log_level := lit "info" |> <| rw_companion_interface := lit "unix" |>) = inr c1.
Proof. unfold cfg_load. intros ->. by destruct (apply_all m settings _) as [e|c1]; [|exists c1]. Qed.

Lemma unread_after_load path input c c' m :
  ini_load path input [] = inr m -> cfg_load path input c = inr c' ->
  unread_keys (apply_all_asking (mkIniFile m []) settings
                 (c <| rw_log_level := lit "info" |> <| rw_companion_interface := lit "unix" |>)).2 =
  List.filter (fun k => negb (existsb (beq k) keys)) (map fst m).
Proof.
  intros Hm Hc. destruct (cfg_load_applied path input c c' m Hm Hc) as [c1 H1].
  destruct (apply_all_asking_agrees settings (mkIniFile m [])
    (c <| rw_log_level := lit "info" |> <| rw_companion_interface := lit "unix" |>)) as (_ & E2 & E3).
  cbn [entries_ read_] in E2, E3. unfold unread_keys. rewrite (E3 c1 H1), E2. done.
Qed.

Lemma c_str_plain s : Forall (fun b => b <> 0) s -> c_str s = s.
Proof.
  unfold c_str. induction 1 as [|b s Hb _ IH]; cbn; [done|]. rewrite (proj2 (Z.eqb_neq _ _) Hb). by rewrite IH.
Qed.

Lemma c_str_no_nul s : Forall (fun b => b <> 0) (c_str s).
Proof. unfold c_str. induction s as [|b s IH]; cbn; [done|]. destruct (Z.eqb_spec b 0); by constructor. Qed.

Lemma unread_warning_plain c key : Forall (fun b => b <> 0) (unread_warning c key).
Proof.
  unfold unread_warning. destruct (app_key key); rewrite !Forall_app; split_and!; try apply c_str_no_nul;
    repeat constructor; discriminate.
Qed.

Lemma log_write_names g tm msg :
  Forall (fun b => b <> 0) msg -> exists line pre post, log_write g tm Warn msg = (Stderr, line) /\ line = pre ++ msg ++ post.
Proof.
  intros Hm. unfold log_write. rewrite (c_str_plain msg Hm).
  destruct (g_syslog_style g).
  - eexists _, (lit "[" ++ level_name Warn ++ lit "] "), [10]. split; [done|]. by rewrite <- !app_assoc.
  - eexists _, (hms tm ++ lit " [" ++ level_name Warn ++ lit "] "), [10]. split; [done|]. by rewrite <- !app_assoc.
Qed.

(** C22. Nothing in a configuration file is ignored in silence: when it loads, with the level
    the daemon starts with, what is logged is one warning on the standard error for each key
    of the file that is not the operator's to set, in key order, naming the key; every other
    key of the file is one the table applied. *)
Theorem no_key_ignored_silently g tm path input c c' lines m :
  cfg_load_logging g tm path input c = (inr c', lines) -> ini_load path input [] = inr m ->
  1 <= level_int (g_level g) ->
  lines = map (fun key => log_write g tm Warn (unread_warning c' key))
            (List.filter (fun k => negb (existsb (beq k) keys)) (map fst m)) /\
  (forall key, In key (map fst m) ->
     (exists s, In s settings /\ st_key s = key /\ app_key key = false) \/
     exists line, In (Stderr, line) lines /\
       exists pre post, line = pre ++ unread_warning c' key ++ post).
Proof.
  intros Hl Hm Hg. unfold cfg_load_logging in Hl. rewrite Hm in Hl.
  destruct (cfg_load path input c) as [e|c1] eqn:Hc; [done|].
  apply pair_equal_spec in Hl as [[= <-] <-].
  rewrite (unread_after_load path input c c1 m Hm Hc). set (unread := List.filter _ (map fst m)).
  assert (forall l, List.concat (map (fun key => umc_log g tm Warn (Some (unread_warning c1 key))) l) =
    map (fun key => log_write g tm Warn (unread_warning c1 key)) l) as ->.
  { induction l as [|k l IH]; [done|]. cbn [map List.concat]. rewrite IH. unfold umc_log, log_level.
    change (level_int Warn) with 1. by rewrite (proj2 (Z.leb_le _ _) Hg), vformat_whole. }
  split; [done|]. intros key Hk. destruct (existsb (beq key) keys) eqn:Hin.
  - left. apply existsb_In in Hin. unfold keys in Hin. apply filter_In in Hin as [Hin Ha].
    apply in_map_iff in Hin as (s & <- & Hs). exists s. split_and!; try done. by apply negb_true_iff.
  - right. destruct (log_write_names g tm (unread_warning c1 key) (unread_warning_plain c1 key)) as (line & pre & post & E & El).
    exists line. split; [|by exists pre, post]. rewrite <- E. apply in_map_iff. exists key. split; [done|].
    unfold unread. apply filter_In. by rewrite Hin.
Qed.

(** A file with a key that is an app's and one that is nobody's. *)
Definition typo_ini : Input :=
  File (lit "[node]
advert_name = Hut
advert_intervall = 600
[storage]
state_dir = /s/") false.

Lemma no_key_ignored_silently_witness :
  exists c' lines,
    cfg_load_logging Logger_default (mkTm 9 5 0) (lit "f") typo_ini DaemonConfig_default = (inr c', lines) /\
    lines = [(Stderr, lit "09:05:00 [WARN ] config: unknown key " ++ [34] ++ lit "node.advert_intervall" ++ [34] ++ lit " ignored" ++ [10]);
             (Stderr, lit "09:05:00 [WARN ] config: node.advert_name ignored — it is set from a companion app, or in /s/settings" ++ [10])].
Proof.
  destruct (cfg_load (lit "f") typo_ini DaemonConfig_default) as [e|c'] eqn:Hc; [by vm_compute in Hc|].
  destruct (ini_load (lit "f") typo_ini []) as [e|m] eqn:Hm; [by vm_compute in Hm|].
  destruct (cfg_load_logging Logger_default (mkTm 9 5 0) (lit "f") typo_ini DaemonConfig_default) as [r lines] eqn:Hl.
  pose proof (cfg_load_agrees Logger_default (mkTm 9 5 0) (lit "f") typo_ini DaemonConfig_default) as Ha.
  rewrite Hl, Hc in Ha. cbn in Ha. subst r. exists c', lines. split; [done|].
  pose proof (no_key_ignored_silently Logger_default (mkTm 9 5 0) (lit "f") typo_ini DaemonConfig_default c' lines m Hl Hm) as Ht.
  destruct (Ht ltac:(vm_compute; discriminate)) as [-> _]. clear Ht Hl.
  vm_compute in Hc, Hm. injection Hc as <-. injection Hm as <-. by vm_compute.
Defined.
