(* ===== verification/Session.v ===== *)
(** * The companion session ([src/src/companion/session.h], [session.cpp])

    Turns the frames of a companion app into operations on the node, the stores, the
    settings and the clock, and the node's notifications into pushed frames.

    A handler of the source works on the daemon through references and hands frames to the
    server.  Here it is a computation in a state monad [SM] over the whole daemon, which
    collects the frames handed to [Server::send], in order. *)

From S2P Require Import Prelude ByteIO Floats Crypto Identity Packet Payloads Radio.
From S2P Require Import Dispatcher Record Persist Contacts Channels Inbox Sender Node.
From S2P Require Import Frames EventLoop CText FloatFacts Ini DaemonConfig Settings.

(** ** The protocol's numbers ([companion/frames.h]) *)

Definition kCmdAppStart : Z := 1.
Definition kCmdSendTxtMsg : Z := 2.
Definition kCmdSendChannelTxtMsg : Z := 3.
Definition kCmdGetContacts : Z := 4.
Definition kCmdGetDeviceTime : Z := 5.
Definition kCmdSetDeviceTime : Z := 6.
Definition kCmdSendSelfAdvert : Z := 7.
Definition kCmdSetAdvertName : Z := 8.
Definition kCmdAddUpdateContact : Z := 9.
Definition kCmdSyncNextMessage : Z := 10.
Definition kCmdSetRadioParams : Z := 11.
Definition kCmdSetRadioTxPower : Z := 12.
Definition kCmdResetPath : Z := 13.
Definition kCmdSetAdvertLatLon : Z := 14.
Definition kCmdRemoveContact : Z := 15.
Definition kCmdShareContact : Z := 16.
Definition kCmdExportContact : Z := 17.
Definition kCmdReboot : Z := 19.
Definition kCmdGetBatteryVoltage : Z := 20.
Definition kCmdSetTuningParams : Z := 21.
Definition kCmdDeviceQuery : Z := 22.
Definition kCmdHasConnection : Z := 28.
Definition kCmdLogout : Z := 29.
Definition kCmdGetContactByKey : Z := 30.
Definition kCmdGetChannel : Z := 31.
Definition kCmdSetChannel : Z := 32.
Definition kCmdGetTuningParams : Z := 43.

Definition kRespContactsStart : Z := 2.
Definition kRespContact : Z := 3.
Definition kRespEndOfContacts : Z := 4.
Definition kRespSelfInfo : Z := 5.
Definition kRespSent : Z := 6.
Definition kRespCurrTime : Z := 9.
Definition kRespNoMoreMessages : Z := 10.
Definition kRespExportContact : Z := 11.
Definition kRespBatteryVoltage : Z := 12.
Definition kRespDeviceInfo : Z := 13.
Definition kRespContactMsgRecvV3 : Z := 16.
Definition kRespChannelMsgRecvV3 : Z := 17.
Definition kRespChannelInfo : Z := 18.
Definition kRespTuningParams : Z := 23.

Definition kPushAdvert : Z := 0x80.
Definition kPushPathUpdated : Z := 0x81.
Definition kPushSendConfirmed : Z := 0x82.
Definition kPushMsgWaiting : Z := 0x83.
Definition kPushLogRxData : Z := 0x88.
Definition kPushNewAdvert : Z := 0x8A.

Definition kErrUnsupportedCmd : Z := 1.
Definition kErrNotFound : Z := 2.
Definition kErrTableFull : Z := 3.
Definition kErrBadState : Z := 4.
Definition kErrFileIoError : Z := 5.
Definition kErrIllegalArg : Z := 6.

Definition kFirmwareVersion : Z := 3.
Definition kContactPathField : nat := 64.
Definition kContactNameField : nat := 32.
Definition kChannelNameField : nat := 32.
Definition kChannelSecretSize : nat := 16.
Definition kNoPath : Z := 0xFF.

(** ** What the session reads of the host ([companion/device_metrics.h]) *)

Record Info := mkInfo {
  in_model : Str;
  in_firmware_build : Str;
  in_version : Str;
  in_max_contacts_div2 : Z;
  in_max_channels : Z }.

Record Storage := mkStorage { st_used_bytes : Z; st_total_bytes : Z }.

(** ** Helpers *)

Definition to_kb (bytes : Z) : Z := Z.min (bytes / 1024) (2 ^ 32 - 1).

Definition send_error_code (err : option SendError) : Z :=
  match err with
  | Some NoSharedSecret => kErrBadState
  | Some PendingFull => kErrTableFull
  | Some TooLong => kErrIllegalArg
  | None => kErrBadState
  end.

Definition put_padded (out data : Bytes) (width : nat) : Bytes :=
  let n := Nat.min (length data) width in out ++ take n data ++ replicate (width - n) 0.

Definition kRepeatFreqsKhz : list Z := [433000; 869495; 918000].
Definition kMaxAirtimeFactorMilli : Z := 9000.

(** ["%0*u"] *)
Definition padded_text (width : nat) (n : Z) : Str := pad_zeros width (dec_text n).

Definition mhz_from_khz (khz : Z) : Str :=
  snprintf 16 (dec_text (khz / 1000) ++ [46] ++ padded_text 3 (khz mod 1000)).

Definition degrees_from_e6 (e6 : Z) : Str :=
  let magnitude := Z.abs e6 in
  snprintf 24 (sign_text (e6 <? 0) ++ dec_text (magnitude / 1000000) ++ [46] ++ padded_text 6 (magnitude mod 1000000)).

Definition exact (v : double) : Str := snprintf 32 (print_g17 v).

(** ** The daemon, as the session reaches it *)

Record Daemon {R : Type} := mkDaemon {
  d_node : Node R;
  d_settings : SettingsStore;
  d_writer : StateWriter;
  d_wall : WallClock;
  d_app_started : bool;
  d_app_name : Str;
  d_last_send_ms : option Z }.
Arguments Daemon : clear implicits.

#[export] Instance eta_Daemon {R} : Eta (Daemon R) := fun d =>
  mkDaemon R (d_node d) (d_settings d) (d_writer d) (d_wall d) (d_app_started d) (d_app_name d) (d_last_send_ms d).

(** What one event finds outside: the node's environment, the host clock's seconds, and the
    answers of the metrics and the server. *)
Record SEnv := mkSEnv {
  se_env : Env;
  se_system : Z;
  se_connected : bool;
  se_info : Info;
  se_battery_mv : Z;
  se_storage : Storage }.

Definition se_now (e : SEnv) : Z := e_now (se_env e).

(** The node's environment under the daemon's wall clock. *)
Definition node_env {R} (e : SEnv) (d : Daemon R) : Env :=
  let n := se_env e in
  mkEnv (e_now n) (unix_now (se_system e) (d_wall d)) (clock_is_valid (se_system e) (d_wall d))
    (e_pump_r n) (e_ack_r n) (e_extra n) (e_delay_r n) (e_begin n) (e_faults n) (e_umask_mode n).

(** ** The monad *)

Definition SM (R A : Type) : Type := SEnv -> Daemon R -> A * Daemon R * list Bytes.

#[export] Instance SM_ret R : MRet (SM R) := fun A a e d => (a, d, []).
#[export] Instance SM_bind R : MBind (SM R) := fun A B f m e d =>
  let '(a, d1, o1) := m e d in let '(b, d2, o2) := f a e d1 in (b, d2, o1 ++ o2).

Definition s_ask {R} : SM R SEnv := fun e d => (e, d, []).
Definition s_gets {R A} (f : Daemon R -> A) : SM R A := fun e d => (f d, d, []).
Definition s_asks {R A} (f : SEnv -> Daemon R -> A) : SM R A := fun e d => (f e d, d, []).
Definition s_modify {R} (f : Daemon R -> Daemon R) : SM R unit := fun e d => (tt, f d, []).

(** [reply] and [push]. *)
Definition reply {R} (payload : Bytes) : SM R unit := fun e d => (tt, d, [payload]).
Definition push {R} (payload : Bytes) : SM R unit := fun e d => (tt, d, if d_app_started d then [payload] else []).

Definition resp_err_ {R} (code : Z) : SM R Bytes := mret (resp_err code).

Definition d_contacts {R} (d : Daemon R) : ContactStore := n_contacts (d_node d).
Definition d_channels {R} (d : Daemon R) : ChannelStore := n_channels (d_node d).

Definition with_contacts {R} (f : ContactStore -> ContactStore) : SM R unit :=
  s_modify (fun d => d <| d_node ::= fun n => n <| n_mesh ::= fun m => m <| m_contacts ::= f |> |> |>).

(** [contacts_.upsert(pubkey)] and [contacts_.remove(pubkey)]. *)
Definition contact_upsert {R} (pubkey : Bytes) : SM R (option nat) := fun e d =>
  let '(c, s) := upsert pubkey (d_contacts d) in (c, (with_contacts (fun _ => s) e d).1.2, []).

Definition contact_remove {R} (pubkey : Bytes) : SM R bool := fun e d =>
  let '(b, s) := remove_contact pubkey (d_contacts d) in (b, (with_contacts (fun _ => s) e d).1.2, []).

Section session.
Context `{CryptoLib} {R : Type} `{Radio R}.

(** ** Pushes *)

Definition request_state_save : SM R unit := fun e d => (tt, d <| d_writer ::= request_save (se_now e) |>, []).

Definition on_advert_seen (pubkey : Bytes) : SM R unit := push (put_bytes [kPushAdvert] pubkey).

Definition on_contact_changed (pubkey : Bytes) (is_new : bool) : SM R unit :=
  _ ← (if is_new then push (put_bytes [kPushNewAdvert] pubkey) else mret tt);
  request_state_save.

Definition on_path_updated (pubkey : Bytes) : SM R unit := push (put_bytes [kPushPathUpdated] pubkey).

Definition on_message_stored : SM R unit := push [kPushMsgWaiting].

Definition on_ack (ack_hash : Bytes) : SM R unit :=
  e ← s_ask;
  last ← s_gets d_last_send_ms;
  push (put_u32 (put_bytes [kPushSendConfirmed] ack_hash)
          (match last with Some t => u32 (se_now e - t) | None => 0 end)).

Definition on_raw_rx (p : Packet) (raw : Bytes) : SM R unit :=
  push (put_bytes [kPushLogRxData; u8 (snr_q4 (p_snr p)); u8 (i8 (Z.max (-128) (Z.min 127 (p_rssi p))))] raw).

(** The delegate's calls. *)
Definition on_note (x : Note) : SM R unit :=
  match x with
  | OnContactChanged pubkey is_new => on_contact_changed pubkey is_new
  | OnMessageStored => on_message_stored
  | OnAck ack_hash => on_ack ack_hash
  | OnAdvertSeen pubkey => on_advert_seen pubkey
  | OnPathUpdated pubkey => on_path_updated pubkey
  end.

Fixpoint on_notes (xs : list Note) : SM R unit :=
  match xs with [] => mret tt | x :: xs => _ ← on_note x; on_notes xs end.

(** A call into the node, with the delegate's calls it makes. *)
Definition call_node {A} (m : M R A) : SM R A := fun e d =>
  let '(a, n, xs) := m (node_env e d) (d_node d) in
  let '(_, d, out) := on_notes xs e (d <| d_node := n |>) in (a, d, out).

(** ** Replies *)

Definition saved_reply : SM R Bytes :=
  _ ← request_state_save;
  healthy ← s_gets (fun d => sw_healthy (d_writer d));
  mret (if healthy : bool then resp_ok else resp_err kErrFileIoError).

(** [settings_.set(changes)]: the store, and on success the running node. *)
Definition set_settings (changes : list Change) : SM R SetResult := fun e d =>
  let '(r, s, fs) := ss_set (e_faults (se_env e)) (e_umask_mode (se_env e)) changes (n_fs (d_node d)) (d_settings d) in
  let d := d <| d_settings := s |> <| d_node ::= fun n => n <| n_fs := fs |> |> in
  match r with
  | SetOk => (_ ← call_node (ss_apply s); mret SetOk) e d
  | r => (r, d, [])
  end.

Definition settings_reply (changes : list Change) : SM R Bytes :=
  r ← set_settings changes;
  mret (match r with
        | SetOk => resp_ok
        | SetInvalid => resp_err kErrIllegalArg
        | SetIoError => resp_err kErrFileIoError
        end).

Definition self_info_frame (d : Daemon R) : Bytes :=
  let n := d_node d in
  let cfg := n_cfg n in
  let rp := radio_params (radio_ (m_disp (n_mesh n))) in
  let out := [kRespSelfInfo; u8 (cfg_adv_type cfg); u8 (rp_tx_power_dbm rp); u8 kMaxTxPowerDbm] in
  let out := put_bytes out (pub (n_self n)) in
  let out := put_i32 (put_i32 out (cfg_lat_e6 cfg)) (cfg_lon_e6 cfg) in
  let out := out ++ [0; 0; 0; 0] in
  let out := put_u32 out (u32 (llround (d_mul (rp_freq_mhz rp) (d_of_Z 1000)))) in
  let out := put_u32 out (u32 (llround (d_mul (rp_bw_khz rp) (d_of_Z 1000)))) in
  put_str (out ++ [u8 (rp_sf rp); u8 (rp_cr rp)]) (cfg_name cfg).

Definition contact_frame (code : Z) (c : Contact) : Bytes :=
  let out := put_bytes [code] (c_pubkey c) in
  let out := out ++ [c_type c; c_flags c; if c_path_known c then u8 (zlen (c_out_path c)) else kNoPath] in
  let out := put_padded out (c_out_path c) kContactPathField in
  let out := put_padded out (to_bytes (c_name c)) kContactNameField in
  let out := put_u32 out (c_adv_timestamp c) in
  let out := put_i32 (put_i32 out (c_lat_e6 c)) (c_lon_e6 c) in
  put_u32 out (if negb (c_last_seen c =? 0) then c_last_seen c else c_adv_timestamp c).

(** ** Commands *)

Definition cmd_app_start (args : Bytes) : SM R Bytes :=
  _ ← s_modify (fun d =>
    (if (7 <? length args)%nat then d <| d_app_name := to_string (subview_from args 7) |> else d)
      <| d_app_started := true |>);
  s_gets self_info_frame.

Definition cmd_device_query (args : Bytes) : SM R Bytes :=
  e ← s_ask;
  repeat ← s_gets (fun d => cfg_repeat (n_cfg (d_node d)));
  let info := se_info e in
  let out := [kRespDeviceInfo; kFirmwareVersion; in_max_contacts_div2 info; in_max_channels info] in
  let out := put_u32 out 0 in
  let out := put_padded out (to_bytes (in_firmware_build info)) 12 in
  let out := put_padded out (to_bytes (in_model info)) 40 in
  let out := put_padded out (to_bytes (in_version info)) 20 in
  mret (out ++ [if repeat : bool then 1 else 0; 0]).

Definition cmd_get_device_time (args : Bytes) : SM R Bytes :=
  e ← s_ask;
  wall ← s_gets d_wall;
  mret (put_u32 [kRespCurrTime] (unix_now (se_system e) wall)).

Definition cmd_set_device_time (args : Bytes) : SM R Bytes :=
  let '(app_time, r) := Reader.u32 (Reader.make args) in
  if negb (Reader.ok r) then resp_err_ kErrIllegalArg
  else
    e ← s_ask;
    wall ← s_gets d_wall;
    let now := unix_now (se_system e) wall - clock_offset wall in
    _ ← s_modify (fun d => d <| d_wall ::= set_clock_offset (app_time - now) |>);
    mret resp_ok.

Definition cmd_send_self_advert (args : Bytes) : SM R Bytes :=
  let flood := match args with [] => true | b :: _ => negb (b =? 0) end in
  _ ← call_node (send_advert flood);
  mret resp_ok.

(** Streams its own frames. *)
Definition cmd_get_contacts (args : Bytes) : SM R unit :=
  let r := Reader.make args in
  let since := if Reader.has 4 r then (Reader.u32 r).1 else 0 in
  contacts ← s_gets (fun d => cs_contacts (d_contacts d));
  let matching := List.filter (fun c => negb (c_adv_timestamp c <? since)) contacts in
  let most_recent := fold_left (fun m c => Z.max m (c_adv_timestamp c)) matching 0 in
  _ ← reply (put_u32 [kRespContactsStart] (u32 (Z.of_nat (length matching))));
  _ ← fold_left (fun (m : SM R unit) c => _ ← m; reply (contact_frame kRespContact c)) matching (mret tt);
  reply (put_u32 [kRespEndOfContacts] most_recent).

(** [find] with a key read from the front of the arguments. *)
Definition cmd_get_contact_by_key (args : Bytes) : SM R Bytes :=
  let '(pubkey, r) := Reader.take kPubKeySize (Reader.make args) in
  if negb (Reader.ok r) then resp_err_ kErrIllegalArg
  else
    contacts ← s_gets d_contacts;
    match find_contact pubkey contacts ≫= (fun i => contact_at i contacts) with
    | None => resp_err_ kErrNotFound
    | Some c => mret (contact_frame kRespContact c)
    end.

(** The optional tail of a contact: the name, the timestamp, the position. *)
Definition read_contact_tail (r : Reader.t) (c : Contact) : Contact :=
  let '(c, r) := if Reader.has kContactNameField r
                 then let '(name, r) := Reader.fixed_str kContactNameField r in (c <| c_name := name |>, r) else (c, r) in
  let '(c, r) := if Reader.has 4 r
                 then let '(t, r) := Reader.u32 r in (c <| c_adv_timestamp := t |>, r) else (c, r) in
  if Reader.has 8 r
  then
    let '(lat, r) := Reader.i32 r in
    let '(lon, r) := Reader.i32 r in
    c <| c_lat_e6 := lat |> <| c_lon_e6 := lon |>
  else c.

Definition cmd_add_update_contact (args : Bytes) : SM R Bytes :=
  let '(pubkey, r) := Reader.take kPubKeySize (Reader.make args) in
  let '(type, r) := Reader.u8 r in
  let '(flags, r) := Reader.u8 r in
  let '(path_len, r) := Reader.u8 r in
  let '(path_field, r) := Reader.take kContactPathField r in
  if negb (Reader.ok r) then resp_err_ kErrIllegalArg
  else if negb (path_len =? kNoPath) && (Z.of_nat kContactPathField <? path_len) then resp_err_ kErrIllegalArg
  else
    let path := if path_len =? kNoPath then [] else take (Z.to_nat path_len) path_field in
    c ← contact_upsert pubkey;
    match c with
    | None => resp_err_ kErrTableFull
    | Some i =>
        _ ← with_contacts (update_contact i (fun c => c <| c_type := type |> <| c_flags := flags |>));
        _ ← with_contacts (fun s => (if path_len =? kNoPath then clear_path i s else cs_set_path i path s).2);
        _ ← with_contacts (update_contact i (read_contact_tail r));
        _ ← with_contacts (fun s => s <| cs_dirty := true |>);
        saved_reply
    end.

Definition cmd_remove_contact (args : Bytes) : SM R Bytes :=
  let '(pubkey, r) := Reader.take kPubKeySize (Reader.make args) in
  if negb (Reader.ok r) then resp_err_ kErrIllegalArg
  else
    removed ← contact_remove pubkey;
    if negb removed then resp_err_ kErrNotFound else saved_reply.

Definition cmd_reset_path (args : Bytes) : SM R Bytes :=
  let '(pubkey, r) := Reader.take kPubKeySize (Reader.make args) in
  if negb (Reader.ok r) then resp_err_ kErrIllegalArg
  else
    contacts ← s_gets d_contacts;
    match find_contact pubkey contacts with
    | None => resp_err_ kErrNotFound
    | Some i => _ ← with_contacts (fun s => (clear_path i s).2); saved_reply
    end.

Definition cmd_export_contact (args : Bytes) : SM R Bytes :=
  let r := Reader.make args in
  if Reader.has kPubKeySize r then resp_err_ kErrNotFound
  else
    advert ← s_asks (fun e d => build_advert_packet true (node_env e d) (d_node d));
    match advert with
    | None => resp_err_ kErrBadState
    | Some advert => mret (put_bytes [kRespExportContact] (encode advert))
    end.

(** The first contact whose key starts with the prefix. *)
Definition prefix_contact (prefix : Bytes) (s : ContactStore) : option nat :=
  fst <$> list_find (fun c => (6 <=? length (c_pubkey c))%nat && beq (take (length prefix) (c_pubkey c)) prefix = true)
            (cs_contacts s).

Definition cmd_send_txt_msg (args : Bytes) : SM R Bytes :=
  let '(txt_type, r) := Reader.u8 (Reader.make args) in
  let r := Reader.skip 1 r in
  let '(timestamp, r) := Reader.u32 r in
  let '(prefix, r) := Reader.take 6 r in
  if negb (Reader.ok r) then resp_err_ kErrIllegalArg
  else
    let text := to_string (Reader.rest r).1 in
    contacts ← s_gets d_contacts;
    match prefix_contact prefix contacts with
    | None => resp_err_ kErrNotFound
    | Some i =>
        sent ← call_node (send_text i text txt_type timestamp);
        match sent with
        | (None, err) => resp_err_ (send_error_code err)
        | (Some ack, _) =>
            e ← s_ask;
            _ ← s_modify (fun d => d <| d_last_send_ms := Some (se_now e) |>);
            known ← s_gets (fun d => match contact_at i (d_contacts d) with Some c => c_path_known c | None => false end);
            mret (put_u32 (put_bytes [kRespSent; if known : bool then 0 else 1] ack) (if known : bool then 8000 else 30000))
        end
    end.

Definition cmd_send_channel_txt_msg (args : Bytes) : SM R Bytes :=
  let r := Reader.skip 1 (Reader.make args) in
  let '(channel_index, r) := Reader.u8 r in
  let '(timestamp, r) := Reader.u32 r in
  if negb (Reader.ok r) then resp_err_ kErrIllegalArg
  else
    let text := to_string (Reader.rest r).1 in
    sent ← call_node (send_channel_text (Z.to_nat channel_index) text timestamp);
    if negb sent then resp_err_ kErrNotFound else mret resp_ok.

(** The frame a queued message is delivered in. *)
Definition message_frame (msg : StoredMessage) : Bytes :=
  if sm_is_channel msg
  then put_str (put_u32 [kRespChannelMsgRecvV3; u8 (sm_snr_q4 msg); 0; 0; sm_channel_index msg; sm_path_len msg;
                         sm_txt_type msg] (sm_timestamp msg)) (sm_text msg)
  else put_str (put_u32 (put_padded [kRespContactMsgRecvV3; u8 (sm_snr_q4 msg); 0; 0]
                           (subview (sm_sender_pubkey msg) 0 6) 6
                         ++ [sm_path_len msg; sm_txt_type msg]) (sm_timestamp msg)) (sm_text msg).

Definition cmd_sync_next_message (args : Bytes) : SM R Bytes :=
  msg ← call_node pop_message;
  match msg with
  | None => mret [kRespNoMoreMessages]
  | Some msg => _ ← request_state_save; mret (message_frame msg)
  end.

Definition cmd_get_channel (args : Bytes) : SM R Bytes :=
  let '(index, r) := Reader.u8 (Reader.make args) in
  if negb (Reader.ok r) then resp_err_ kErrIllegalArg
  else
    ch ← s_gets (fun d => channel_at (Z.to_nat index) (d_channels d));
    match ch with
    | None => resp_err_ kErrNotFound
    | Some ch =>
        mret (put_padded (put_padded [kRespChannelInfo; index] (to_bytes (ch_name ch)) kChannelNameField)
                (ch_secret ch) kChannelSecretSize)
    end.

Definition cmd_set_channel (args : Bytes) : SM R Bytes :=
  let '(index, r) := Reader.u8 (Reader.make args) in
  let '(name, r) := Reader.fixed_str kChannelNameField r in
  let '(secret, r) := Reader.take kChannelSecretSize r in
  if negb (Reader.ok r) then resp_err_ kErrIllegalArg
  else if Z.of_nat kMaxChannels <=? index then resp_err_ kErrIllegalArg
  else
    let secret := if forallb (fun b => b =? 0) secret then [] else secret in
    _ ← call_node (modify (fun n => n <| n_channels ::= channel_set (Z.to_nat index) (mkChannel name secret) |>));
    saved_reply.

Definition cmd_set_advert_name (args : Bytes) : SM R Bytes :=
  let name := Reader.until_nul (to_string args) in
  match name with
  | [] => resp_err_ kErrIllegalArg
  | _ => settings_reply [(lit "node.advert_name", name)]
  end.

Definition cmd_set_advert_latlon (args : Bytes) : SM R Bytes :=
  let '(lat, r) := Reader.i32 (Reader.make args) in
  let '(lon, r) := Reader.i32 r in
  if negb (Reader.ok r) then resp_err_ kErrIllegalArg
  else settings_reply [(lit "node.lat", degrees_from_e6 lat); (lit "node.lon", degrees_from_e6 lon)].

Definition cmd_get_battery (args : Bytes) : SM R Bytes :=
  e ← s_ask;
  let storage := se_storage e in
  mret (put_u32 (put_u32 (put_u16 [kRespBatteryVoltage] (se_battery_mv e)) (to_kb (st_used_bytes storage)))
          (to_kb (st_total_bytes storage))).

Definition cmd_set_radio_params (args : Bytes) : SM R Bytes :=
  let '(freq_khz, r) := Reader.u32 (Reader.make args) in
  let '(bw_hz, r) := Reader.u32 r in
  let '(sf, r) := Reader.u8 r in
  let '(cr, r) := Reader.u8 r in
  if negb (Reader.ok r) then resp_err_ kErrIllegalArg
  else
    let repeat := Reader.has 1 r && negb ((Reader.u8 r).1 =? 0) in
    if repeat && negb (existsb (Z.eqb freq_khz) kRepeatFreqsKhz) then resp_err_ kErrIllegalArg
    else if freq_khz =? 0 then resp_err_ kErrIllegalArg
    else match nearest_bandwidth (d_div (d_of_Z bw_hz) (d_of_Z 1000)) with
         | None => resp_err_ kErrIllegalArg
         | Some bw =>
             settings_reply
               [(lit "radio.lora_freq", mhz_from_khz freq_khz); (lit "radio.lora_bw", exact bw);
                (lit "radio.lora_sf", show_int sf); (lit "radio.lora_cr", show_int cr);
                (lit "node.repeat", if repeat then lit "1" else lit "0")]
         end.

Definition cmd_set_tx_power (args : Bytes) : SM R Bytes :=
  let '(b, r) := Reader.u8 (Reader.make args) in
  if negb (Reader.ok r) then resp_err_ kErrIllegalArg
  else settings_reply [(lit "radio.lora_tx_power", show_int (i8 b))].

Definition duty_from_factor (af : Z) : double :=
  d_div (d_of_Z 100) (d_add (d_of_Z 1) (d_div (d_of_Z af) (d_of_Z 1000))).

Definition cmd_set_tuning_params (args : Bytes) : SM R Bytes :=
  let '(rx_delay, r) := Reader.u32 (Reader.make args) in
  let '(af, r) := Reader.u32 r in
  if negb (Reader.ok r) then resp_err_ kErrIllegalArg
  else if negb (rx_delay =? 0) then resp_err_ kErrIllegalArg
  else if kMaxAirtimeFactorMilli <? af then resp_err_ kErrIllegalArg
  else settings_reply [(lit "radio.duty_cycle", exact (duty_from_factor af))].

Definition factor_from_duty (pct : double) : Z :=
  u32 (llround (d_mul (d_sub (d_div (d_of_Z 100) pct) (d_of_Z 1)) (d_of_Z 1000))).

Definition cmd_get_tuning_params (args : Bytes) : SM R Bytes :=
  pct ← s_gets (fun d => rp_duty_cycle_pct (radio_params (radio_ (m_disp (n_mesh (d_node d))))));
  mret (put_u32 (put_u32 [kRespTuningParams] 0) (factor_from_duty pct)).

Definition has_messages (d : Daemon R) : bool := match mi_messages (n_inbox (d_node d)) with [] => false | _ => true end.

(** The cases of the switch that leave one reply in [out]. *)
Definition run_command (cmd : Z) (args : Bytes) : SM R Bytes :=
  let on c := cmd =? c in
  if on kCmdDeviceQuery then cmd_device_query args
  else if on kCmdGetDeviceTime then cmd_get_device_time args
  else if on kCmdSetDeviceTime then cmd_set_device_time args
  else if on kCmdSendSelfAdvert then cmd_send_self_advert args
  else if on kCmdSetAdvertName then cmd_set_advert_name args
  else if on kCmdSetAdvertLatLon then cmd_set_advert_latlon args
  else if on kCmdGetContactByKey then cmd_get_contact_by_key args
  else if on kCmdAddUpdateContact then cmd_add_update_contact args
  else if on kCmdRemoveContact then cmd_remove_contact args
  else if on kCmdResetPath then cmd_reset_path args
  else if on kCmdShareContact || on kCmdExportContact then cmd_export_contact args
  else if on kCmdSendTxtMsg then cmd_send_txt_msg args
  else if on kCmdSendChannelTxtMsg then cmd_send_channel_txt_msg args
  else if on kCmdSyncNextMessage then cmd_sync_next_message args
  else if on kCmdGetChannel then cmd_get_channel args
  else if on kCmdSetChannel then cmd_set_channel args
  else if on kCmdGetBatteryVoltage then cmd_get_battery args
  else if on kCmdSetRadioParams then cmd_set_radio_params args
  else if on kCmdSetRadioTxPower then cmd_set_tx_power args
  else if on kCmdSetTuningParams then cmd_set_tuning_params args
  else if on kCmdGetTuningParams then cmd_get_tuning_params args
  else if on kCmdHasConnection then e ← s_ask; mret (resp_ok_value (if se_connected e then 1 else 0))
  else if on kCmdLogout then mret resp_ok
  else resp_err_ kErrUnsupportedCmd.

Definition handle_frame (frame : Bytes) : SM R unit :=
  match frame with
  | [] => mret tt
  | cmd :: _ =>
      let args := subview_from frame 1 in
      if cmd =? kCmdAppStart then
        out ← cmd_app_start args;
        _ ← reply out;
        waiting ← s_gets has_messages;
        if waiting : bool then push [kPushMsgWaiting] else mret tt
      else if cmd =? kCmdGetContacts then cmd_get_contacts args
      else
        out ← run_command cmd args;
        match out with [] => mret tt | _ => reply out end
  end.

(** [set_connect_handler]'s callback. *)
Definition on_connect : SM R unit := s_modify (fun d => d <| d_app_started := false |>).

(** A frame off the air: the raw hook first, then the node. *)
Definition on_air (rx : RxPacket) : SM R unit := fun e d =>
  let calls := (on_radio_rx (se_now e) rx (m_disp (n_mesh (d_node d)))).2 in
  (_ ← (match raw_hook calls with Some p => on_raw_rx p (rx_data rx) | None => mret tt end);
   call_node (on_frame rx)) e d.

(** ** The daemon's events

    What the event loop calls: the server's callbacks, the radio's, and the timers'. *)

(** The state writer saves the stores it holds by reference. *)
Definition on_flush (f1 f2 f3 : Faults) (w : StateWriter) : SM R unit := fun e d =>
  let n := d_node d in
  let '(_, st, w, fs) := flush f1 f2 f3 (e_umask_mode (se_env e)) (n_fs n)
                           (mkStores (n_contacts n) (n_channels n) (n_inbox n)) w in
  (tt, d <| d_writer := w |>
         <| d_node := n <| n_mesh ::= fun m => m <| m_contacts := contacts_ st |> |> <| n_channels := channels_ st |>
                        <| n_inbox := inbox_ st |> <| n_fs := fs |> |>, []).

Inductive SEvent :=
| SConnect                                (** a client connected *)
| SFrame (frame : Bytes)                  (** a frame from the app *)
| SAir (rx : RxPacket)                    (** a frame off the air *)
| SDispatcher (ev : Event (R := R))       (** radio and timers of the dispatcher *)
| SRetry (id : Z)                         (** a retry timer *)
| SDeliveredSweep                         (** the node's sweep timer *)
| SAdvertTimer                            (** the node's advert timer *)
| SWriterPending (f1 f2 f3 : Faults)      (** the writer's coalescing timer *)
| SWriterSweep (f1 f2 f3 : Faults).       (** the writer's sweep timer *)

Definition on_event (ev : SEvent) : SM R unit :=
  match ev with
  | SConnect => on_connect
  | SFrame frame => handle_frame frame
  | SAir rx => on_air rx
  | SDispatcher ev => call_node (on_dispatcher ev)
  | SRetry id => call_node (on_retry_due id)
  | SDeliveredSweep => call_node on_delivered_sweep
  | SAdvertTimer => call_node (send_advert true)
  | SWriterPending f1 f2 f3 => fun e d => on_flush f1 f2 f3 ((d_writer d) <| sw_pending := None |>) e d
  | SWriterSweep f1 f2 f3 => fun e d => on_flush f1 f2 f3 (d_writer d) e d
  end.

(** A run: the daemon after it, and every frame handed to the server. *)
Fixpoint s_run (evs : list (SEnv * SEvent)) (d : Daemon R) : Daemon R * list Bytes :=
  match evs with
  | [] => (d, [])
  | (e, ev) :: evs =>
      let '(_, d, out) := on_event ev e d in
      let '(d, outs) := s_run evs d in (d, out ++ outs)
  end.

End session.
