(* ===== verification/SessionFacts.v ===== *)
(** * What the companion session guarantees

    Theorems about [Session]: every command is answered once, a refused command changes
    nothing, nothing is pushed to a client that has not started a session, the round trips an
    app relies on, and the invariant of the daemon under any sequence of events. *)

From S2P Require Import Prelude ByteIO Floats Crypto Identity Packet Payloads Radio.
From S2P Require Import Dispatcher Record Persist Contacts Channels Inbox Sender Node.
From S2P Require Import Frames EventLoop CText FloatFacts Ini DaemonConfig Settings Session.

Create HintDb session discriminated.

(** ** What a computation sends and returns *)

Section monad.
Context {R : Type}.

Lemma s_bind_eq {A B} (m : SM R A) (f : A -> SM R B) e d :
  (m ≫= f) e d = let '(a, d1, o1) := m e d in let '(b, d2, o2) := f a e d1 in (b, d2, o1 ++ o2).
Proof. done. Qed.

(** Hands nothing to the server. *)
Definition quiet {A} (m : SM R A) : Prop := forall e d, (m e d).2 = [].

Lemma quiet_ret {A} (a : A) : quiet (mret a).
Proof. done. Qed.

Lemma quiet_bind {A B} (m : SM R A) (f : A -> SM R B) : quiet m -> (forall a, quiet (f a)) -> quiet (m ≫= f).
Proof.
  intros Hm Hf e d. rewrite s_bind_eq. specialize (Hm e d). destruct (m e d) as [[a d1] o1]. cbn in Hm. subst o1.
  specialize (Hf a e d1). by destruct (f a e d1) as [[b d2] o2].
Qed.

Lemma quiet_ask : quiet (s_ask : SM R SEnv).
Proof. done. Qed.

Lemma quiet_gets {A} (f : Daemon R -> A) : quiet (s_gets f).
Proof. done. Qed.

Lemma quiet_asks {A} (f : SEnv -> Daemon R -> A) : quiet (s_asks f).
Proof. done. Qed.

Lemma quiet_modify (f : Daemon R -> Daemon R) : quiet (s_modify f).
Proof. done. Qed.

(** Returns a frame the application can tell from a push: not empty, its code below 0x80;
    and hands nothing to the server itself. *)
Definition answers (m : SM R Bytes) : Prop :=
  forall e d, (m e d).2 = [] /\ exists c l, (m e d).1.1 = c :: l /\ c < 0x80.

Lemma answers_ret c l : c < 0x80 -> answers (mret (c :: l)).
Proof. intros H e d. split; [done|]. by exists c, l. Qed.

Lemma answers_bind {A} (m : SM R A) f : quiet m -> (forall a, answers (f a)) -> answers (m ≫= f).
Proof.
  intros Hm Hf e d. rewrite s_bind_eq. specialize (Hm e d). destruct (m e d) as [[a d1] o1]. cbn in Hm. subst o1.
  specialize (Hf a e d1). by destruct (f a e d1) as [[b d2] o2].
Qed.

End monad.

#[export] Hint Resolve quiet_ret quiet_ask quiet_gets quiet_asks quiet_modify : session.

(** Walks a computation that sends nothing, and one that answers. *)
Ltac quieting := repeat first [ solve [auto 3 with session] | apply quiet_bind; [|intros ?] | case_match ].
Ltac answering :=
  repeat first
    [ solve [auto 3 with session]
    | apply answers_ret; done
    | apply answers_bind; [quieting|intros ?]
    | case_match ].

(** Unfolds the command a computation is. *)
Ltac head_of t := lazymatch t with ?f _ => head_of f | _ => t end.
Ltac unfold_command m := try (let h := head_of m in unfold h).

Section answers.
Context `{CryptoLib} {R : Type} `{Radio R}.

(** A call into the node that notifies nobody. *)
Definition silent {A} (m : M R A) : Prop := forall e n, (m e n).2 = [].

Lemma call_silent {A} (m : M R A) : silent m -> quiet (call_node m).
Proof.
  intros Hm e d. unfold call_node. specialize (Hm (node_env e d) (d_node d)). destruct (m _ _) as [[a n] xs].
  cbn in Hm. by subst xs.
Qed.

Lemma silent_bind {A B} (m : M R A) (f : A -> M R B) : silent m -> (forall a, silent (f a)) -> silent (m ≫= f).
Proof.
  intros Hm Hf e n. unfold mbind, M_bind. specialize (Hm e n). destruct (m e n) as [[a n1] o1]. cbn in Hm. subst o1.
  specialize (Hf a e n1). by destruct (f a e n1) as [[b n2] o2].
Qed.

Lemma send_silent p prio delay : silent (dispatcher_send p prio delay).
Proof. intros e n. unfold dispatcher_send. by destruct (send _ _ _ _ _ _ _) as [[b d] rs]. Qed.

Lemma send_advert_silent flood : silent (send_advert flood).
Proof.
  intros e n. unfold send_advert. destruct (build_advert_packet _ _ _); [|done].
  apply (silent_bind _ _ (send_silent _ _ _)). done.
Qed.

Lemma send_channel_text_silent i text ts : silent (send_channel_text i text ts).
Proof.
  unfold send_channel_text. apply silent_bind; [done|]. intros ch. apply silent_bind; [done|]. intros name.
  repeat case_match; try done. apply send_silent.
Qed.

Lemma send_text_silent i text ty ts : silent (send_text i text ty ts).
Proof. intros e n. unfold send_text. by destruct (send_message _ _ _ _ _ _ _ _) as [[h err] m]. Qed.

Lemma pop_message_silent : silent pop_message.
Proof. intros e n. unfold pop_message. by destruct (pop _). Qed.

Lemma ss_apply_silent s : silent (ss_apply s).
Proof.
  unfold ss_apply. repeat (apply silent_bind; [done|intros []]). intros e n. unfold reconfigure_radio.
  by destruct (reconfigure _ _ _ _).
Qed.

#[local] Hint Resolve call_silent send_advert_silent send_channel_text_silent send_text_silent pop_message_silent
  ss_apply_silent : session.

Lemma upsert_quiet pubkey : quiet (R := R) (contact_upsert pubkey).
Proof. intros e d. unfold contact_upsert. by destruct (upsert _ _). Qed.

Lemma remove_quiet pubkey : quiet (R := R) (contact_remove pubkey).
Proof. intros e d. unfold contact_remove. by destruct (remove_contact _ _). Qed.

Lemma modify_silent f : silent (modify f).
Proof. done. Qed.

#[local] Hint Resolve upsert_quiet remove_quiet modify_silent : session.

Lemma request_save_quiet : quiet (R := R) request_state_save.
Proof. done. Qed.
#[local] Hint Resolve request_save_quiet : session.

Lemma set_settings_quiet changes : quiet (set_settings changes).
Proof.
  intros e d. unfold set_settings. destruct (ss_set _ _ _ _ _) as [[[] s] fs]; try done.
  apply (quiet_bind (call_node (ss_apply s)) (fun _ => mret SetOk)); quieting.
Qed.
#[local] Hint Resolve set_settings_quiet : session.

Lemma saved_reply_answers : answers (R := R) saved_reply.
Proof. unfold saved_reply. answering. Qed.
#[local] Hint Resolve saved_reply_answers : session.

Lemma settings_reply_answers changes : answers (settings_reply changes).
Proof. unfold settings_reply. answering. Qed.
#[local] Hint Resolve settings_reply_answers : session.

Lemma resp_err_answers code : answers (R := R) (resp_err_ code).
Proof. by apply answers_ret. Qed.
#[local] Hint Resolve resp_err_answers : session.

Lemma message_frame_answers msg : answers (R := R) (mret (message_frame msg)).
Proof. unfold message_frame. destruct (sm_is_channel msg); by apply answers_ret. Qed.
#[local] Hint Resolve message_frame_answers : session.

Lemma run_command_answers cmd args : answers (run_command cmd args).
Proof.
  unfold run_command.
  repeat match goal with
         | |- answers (if ?b then ?m else _) => destruct b; [unfold_command m; answering|]
         end; [..|apply resp_err_answers].
Qed.

(** ** Every command is answered *)

Definition supported : list Z :=
  [kCmdAppStart; kCmdSendTxtMsg; kCmdSendChannelTxtMsg; kCmdGetContacts; kCmdGetDeviceTime; kCmdSetDeviceTime;
   kCmdSendSelfAdvert; kCmdSetAdvertName; kCmdAddUpdateContact; kCmdSyncNextMessage; kCmdSetRadioParams;
   kCmdSetRadioTxPower; kCmdResetPath; kCmdSetAdvertLatLon; kCmdRemoveContact; kCmdShareContact; kCmdExportContact;
   kCmdGetBatteryVoltage; kCmdSetTuningParams; kCmdDeviceQuery; kCmdHasConnection; kCmdLogout; kCmdGetContactByKey;
   kCmdGetChannel; kCmdSetChannel; kCmdGetTuningParams].

(** The contacts an app has not seen since [since], as the frames of a sync. *)
Definition newer (since : Z) (d : Daemon R) : list Contact :=
  List.filter (fun c => negb (c_adv_timestamp c <? since)) (cs_contacts (d_contacts d)).

Definition since_of (args : Bytes) : Z :=
  if Reader.has 4 (Reader.make args) then (Reader.u32 (Reader.make args)).1 else 0.

Lemma reply_all (f : Contact -> Bytes) cs : forall (m : SM R unit) e d d' out,
  m e d = (tt, d', out) ->
  fold_left (fun (m : SM R unit) c => _ ← m; reply (f c)) cs m e d = (tt, d', out ++ map f cs).
Proof.
  induction cs as [|c cs IH]; intros m e d d' out Hm; cbn [fold_left map]; [by rewrite app_nil_r|].
  rewrite (IH _ _ _ d' (out ++ [f c])); [by rewrite <- app_assoc|]. rewrite s_bind_eq, Hm. done.
Qed.

Lemma get_contacts_run args e (d : Daemon R) :
  cmd_get_contacts args e d =
    (tt, d, put_u32 [kRespContactsStart] (u32 (Z.of_nat (length (newer (since_of args) d)))) ::
            map (contact_frame kRespContact) (newer (since_of args) d) ++
            [put_u32 [kRespEndOfContacts] (fold_left (fun m c => Z.max m (c_adv_timestamp c)) (newer (since_of args) d) 0)]).
Proof.
  unfold cmd_get_contacts. rewrite s_bind_eq. cbn [s_gets]. rewrite s_bind_eq. cbn [reply]. rewrite s_bind_eq.
  rewrite (reply_all _ _ _ _ _ d []); [|done]. done.
Qed.

Lemma frame_args cmd args : subview_from (cmd :: args) 1 = args.
Proof. by rewrite subview_from_drop. Qed.

Lemma app_start_run args e d :
  exists d', handle_frame (kCmdAppStart :: args) e d =
      (tt, d', self_info_frame d' :: if has_messages d' then [[kPushMsgWaiting]] else []) /\
    d_app_started d' = true /\ has_messages d' = has_messages d /\ d_node d' = d_node d /\ d_settings d' = d_settings d.
Proof.
  unfold handle_frame. rewrite Z.eqb_refl, frame_args. unfold cmd_app_start.
  set (d1 := (if (7 <? length args)%nat then d <| d_app_name := to_string (subview_from args 7) |> else d)
               <| d_app_started := true |>).
  assert (has_messages d1 = has_messages d) as Hm by (subst d1; by destruct (7 <? _)%nat).
  exists d1. split; [|by subst d1; destruct (7 <? _)%nat]. repeat (rewrite s_bind_eq; cbn [s_modify s_gets reply app]). fold d1.
  destruct (has_messages d1); done.
Qed.

Lemma command_run cmd args e d :
  cmd <> kCmdAppStart -> cmd <> kCmdGetContacts ->
  handle_frame (cmd :: args) e d =
    (tt, (run_command cmd args e d).1.2, [(run_command cmd args e d).1.1]) /\
  exists c l, (run_command cmd args e d).1.1 = c :: l /\ c < 0x80.
Proof.
  intros H1 H2. unfold handle_frame. rewrite frame_args. apply Z.eqb_neq in H1, H2. rewrite H1, H2, s_bind_eq.
  destruct (run_command_answers cmd args e d) as [Ho (c & l & Hc & Hlt)]. split; [|eauto].
  destruct (run_command cmd args e d) as [[a d1] o1]. cbn in Ho, Hc. by subst.
Qed.

Lemma unsupported_command cmd args : cmd ∉ supported -> run_command cmd args = resp_err_ kErrUnsupportedCmd.
Proof.
  unfold supported. rewrite !not_elem_of_cons. intros Hno. destruct_and!. unfold run_command.
  repeat match goal with
         | |- context [cmd =? ?c] => rewrite (proj2 (Z.eqb_neq cmd c)) by assumption
         end. done.
Qed.
End answers.

(** C8. Every command is answered, in the shape the protocol gives it: a session start with the node's own card and
    then, if messages wait, a notice; a contact sync with the count, one frame for each contact advertised since, and
    the latest of their timestamps, changing nothing; a command the daemon does not know with the error for that,
    changing nothing; any other with exactly one frame, never a push. *)
Theorem every_command_answered `{CryptoLib} {R} `{Radio R} cmd args e (d : Daemon R) :
  let '(_, d', out) := handle_frame (cmd :: args) e d in
  (cmd = kCmdAppStart -> d_app_started d' = true /\
     out = self_info_frame d' :: if has_messages d then [[kPushMsgWaiting]] else []) /\
  (cmd = kCmdGetContacts -> d' = d /\
     let sent := newer (since_of args) d in
     out = put_u32 [kRespContactsStart] (u32 (Z.of_nat (length sent))) :: map (contact_frame kRespContact) sent ++
           [put_u32 [kRespEndOfContacts] (fold_left (fun m c => Z.max m (c_adv_timestamp c)) sent 0)]) /\
  (cmd ∉ supported -> d' = d /\ out = [[kRespErr; kErrUnsupportedCmd]]) /\
  (cmd <> kCmdAppStart -> cmd <> kCmdGetContacts -> exists c l, out = [c :: l] /\ c < 0x80).
Proof.
  destruct (Z.eq_dec cmd kCmdAppStart) as [->|H1]; [|destruct (Z.eq_dec cmd kCmdGetContacts) as [->|H2]].
  - destruct (app_start_run args e d) as (d' & -> & Hs & Hm & _).
    split_and!; [by rewrite Hm|done|intros Hno; exfalso; by apply Hno, (bool_decide_unpack _)|done].
  - unfold handle_frame. rewrite frame_args. cbn [Z.eqb kCmdGetContacts kCmdAppStart Pos.eqb]. rewrite get_contacts_run.
    split_and!; [done|done|intros Hno; exfalso; by apply Hno, (bool_decide_unpack _)|done].
  - destruct (command_run cmd args e d H1 H2) as [-> (c & l & Hc & Hlt)]. split_and!; [done|done| |].
    + intros Hno. rewrite (unsupported_command cmd args Hno). done.
    + intros _ _. rewrite Hc. eauto.
Qed.

(** ** A refused command changes nothing *)

(** An error reply, other than the one for a change that was made and could not be saved. *)
Definition refusal (out : Bytes) : bool :=
  match out with [c; code] => (c =? kRespErr) && negb (code =? kErrFileIoError) | _ => false end.

Section refusals.
Context `{CryptoLib} {R : Type} `{Radio R}.

Definition refuses (m : SM R Bytes) : Prop := forall e d, refusal (m e d).1.1 = true -> (m e d).1.2 = d.
Definition never_refuses (m : SM R Bytes) : Prop := forall e d, refusal (m e d).1.1 = false.

(** Leaves the daemon as it is. *)
Definition reads_only {A} (m : SM R A) : Prop := forall e d, (m e d).1.2 = d.

Lemma refuses_ret out : refuses (mret out).
Proof. done. Qed.

Lemma refuses_read {A} (m : SM R A) f : reads_only m -> (forall a, refuses (f a)) -> refuses (m ≫= f).
Proof.
  intros Hm Hf e d. rewrite s_bind_eq. specialize (Hm e d). destruct (m e d) as [[a d1] o1]. cbn in Hm. subst d1.
  specialize (Hf a e d). by destruct (f a e d) as [[b d2] o2].
Qed.

Lemma never_bind {A} (m : SM R A) f : (forall a, never_refuses (f a)) -> never_refuses (m ≫= f).
Proof.
  intros Hf e d. rewrite s_bind_eq. destruct (m e d) as [[a d1] o1].
  specialize (Hf a e d1). by destruct (f a e d1) as [[b d2] o2].
Qed.

Lemma never_ret out : refusal out = false -> never_refuses (mret out).
Proof. by intros Hr e d. Qed.

Lemma refuses_never m : never_refuses m -> refuses m.
Proof. intros Hm e d. by rewrite Hm. Qed.

Lemma reads_ask : reads_only (s_ask : SM R SEnv).
Proof. done. Qed.
Lemma reads_gets {A} (f : Daemon R -> A) : reads_only (s_gets f).
Proof. done. Qed.
Lemma reads_asks {A} (f : SEnv -> Daemon R -> A) : reads_only (s_asks f).
Proof. done. Qed.

Lemma saved_reply_never : never_refuses saved_reply.
Proof.
  unfold saved_reply. apply never_bind. intros []. apply never_bind. intros healthy. by destruct healthy; apply never_ret.
Qed.

Lemma settings_reply_refuses changes : refuses (settings_reply changes).
Proof.
  intros e d. unfold settings_reply. rewrite s_bind_eq. unfold set_settings.
  destruct (ss_set _ _ _ _ _) as [[r s] fs] eqn:Hset. destruct r.
  - destruct ((_ ← call_node (ss_apply s); mret SetOk) e _) as [[r d1] o1] eqn:E. rewrite s_bind_eq in E.
    destruct (call_node _ _ _) as [[[] d2] o2]. by injection E as <- <- <-.
  - intros _. destruct (ss_set_refused _ _ _ _ _ _ _ _ Hset) as [-> Hfs]; [done|]. rewrite Hfs by done.
    destruct d as [[] ? ? ? ? ? ?]. reflexivity.
  - done.
Qed.

(** Writing back the store that was read. *)
Lemma contacts_same e (d : Daemon R) : (with_contacts (fun _ => d_contacts d) e d).1.2 = d.
Proof. destruct d as [[? [] ? ? ? ? ?] ? ? ? ? ? ?]. reflexivity. Qed.

Lemma refuses_upsert pubkey f :
  refuses (f None) -> (forall i, never_refuses (f (Some i))) -> refuses (contact_upsert pubkey ≫= f).
Proof.
  intros Hnone Hsome e d. rewrite s_bind_eq. unfold contact_upsert.
  destruct (upsert pubkey (d_contacts d)) as [c s] eqn:Hu. set (d1 := (with_contacts (fun _ => s) e d).1.2).
  destruct c as [i|].
  - specialize (Hsome i e d1). destruct (f (Some i) e d1) as [[b d2] o2]. cbn in *. by rewrite Hsome.
  - assert (d1 = d) as ->.
    { subst d1. unfold upsert in Hu. repeat case_match; simplify_eq. apply contacts_same. }
    specialize (Hnone e d). by destruct (f None e d) as [[b d2] o2].
Qed.

Lemma refuses_remove pubkey f : refuses (f false) -> never_refuses (f true) -> refuses (contact_remove pubkey ≫= f).
Proof.
  intros Hfalse Htrue e d. rewrite s_bind_eq. unfold contact_remove.
  destruct (remove_contact pubkey (d_contacts d)) as [b s] eqn:Hu. set (d1 := (with_contacts (fun _ => s) e d).1.2).
  destruct b.
  - specialize (Htrue e d1). destruct (f true e d1) as [[b d2] o2]. cbn in *. by rewrite Htrue.
  - assert (d1 = d) as ->.
    { subst d1. unfold remove_contact in Hu. repeat case_match; simplify_eq. apply contacts_same. }
    specialize (Hfalse e d). by destruct (f false e d) as [[b d2] o2].
Qed.

Lemma message_frame_never msg : never_refuses (mret (message_frame msg)).
Proof. apply never_ret. unfold message_frame. by destruct (sm_is_channel msg). Qed.

#[local] Hint Resolve reads_ask reads_gets reads_asks refuses_ret message_frame_never saved_reply_never settings_reply_refuses refuses_never
  never_ret : session.

Ltac refusing :=
  repeat first
    [ solve [auto 3 with session]
    | apply refuses_read; [solve [auto 3 with session]|intros ?]
    | apply refuses_upsert; [|intros ?]
    | apply refuses_remove; cbn [negb]
    | apply refuses_never, never_bind; intros ?
    | apply never_bind; intros ?
    | case_match ].

(** The two commands that transmit a message are not among these: what they tried stays in
    the node (a cached secret, a message identifier). *)
Lemma run_command_refuses cmd args :
  cmd <> kCmdSendTxtMsg -> cmd <> kCmdSendChannelTxtMsg -> refuses (run_command cmd args).
Proof.
  intros H1 H2. apply Z.eqb_neq in H1, H2. unfold run_command. rewrite H1, H2.
  repeat match goal with
         | |- refuses (if ?b then ?m else _) => destruct b; [unfold_command m; refusing|]
         end.
  all: apply refuses_ret.
Qed.
End refusals.

(** C28. A command that is refused changes nothing: whenever the answer is an error, unless it says that a change was
    made and could not be saved, the daemon (its stores, queues, settings, files, clock and session) is exactly as it
    was. The two commands that send a message are apart, since a failed attempt may have cached a key. *)
Theorem refused_command_changes_nothing `{CryptoLib} {R} `{Radio R} frame e (d d' : Daemon R) code :
  head frame <> Some kCmdSendTxtMsg -> head frame <> Some kCmdSendChannelTxtMsg ->
  code <> kErrFileIoError ->
  handle_frame frame e d = (tt, d', [resp_err code]) -> d' = d.
Proof.
  intros H1 H2 Hcode Hrun. destruct frame as [|cmd args]; [by injection Hrun|]. cbn in H1, H2.
  destruct (Z.eq_dec cmd kCmdAppStart) as [->|H3]; [|destruct (Z.eq_dec cmd kCmdGetContacts) as [->|H4]].
  - destruct (app_start_run args e d) as (d1 & Hr & _). rewrite Hr in Hrun. by injection Hrun.
  - unfold handle_frame in Hrun. rewrite frame_args in Hrun. cbn [Z.eqb kCmdGetContacts kCmdAppStart Pos.eqb] in Hrun.
    rewrite get_contacts_run in Hrun. by injection Hrun.
  - destruct (command_run cmd args e d H3 H4) as [Hr _]. rewrite Hr in Hrun. injection Hrun as <- Hout.
    apply run_command_refuses; [congruence|congruence|]. rewrite Hout. cbn.
    apply negb_true_iff, Z.eqb_neq. done.
Qed.

(** ** Invariants of the daemon *)

Section keeps.
Context `{CryptoLib} {R : Type} `{Radio R}.
Context (E : SEnv -> Prop) (P : Daemon R -> Prop).

(** A computation keeps a property of the daemon, in every environment that satisfies [E]. *)
Definition s_keeps {A} (m : SM R A) : Prop := forall e d, E e -> P d -> P (m e d).1.2.

Lemma s_keeps_read {A} (m : SM R A) : reads_only m -> s_keeps m.
Proof. intros Hm e d _ Hd. by rewrite Hm. Qed.

Lemma s_keeps_ret {A} (a : A) : s_keeps (mret a).
Proof. by apply s_keeps_read. Qed.

Lemma s_keeps_bind {A B} (m : SM R A) (f : A -> SM R B) : s_keeps m -> (forall a, s_keeps (f a)) -> s_keeps (m ≫= f).
Proof.
  intros Hm Hf e d He Hd. rewrite s_bind_eq. specialize (Hm e d He Hd). destruct (m e d) as [[a d1] o1].
  specialize (Hf a e d1 He Hm). by destruct (f a e d1) as [[b d2] o2].
Qed.

Lemma s_keeps_gets {A} (f : Daemon R -> A) : s_keeps (s_gets f).
Proof. by apply s_keeps_read. Qed.
Lemma s_keeps_asks {A} (f : SEnv -> Daemon R -> A) : s_keeps (s_asks f).
Proof. by apply s_keeps_read. Qed.
Lemma s_keeps_ask : s_keeps s_ask.
Proof. by apply s_keeps_read. Qed.
Lemma resp_err_keeps code : s_keeps (resp_err_ code).
Proof. by apply s_keeps_read. Qed.
#[local] Hint Resolve s_keeps_ret s_keeps_gets s_keeps_asks s_keeps_ask resp_err_keeps : session.

Ltac s_keeping := repeat first [ solve [auto 3 with session] | apply s_keeps_bind; [|intros ?] | case_match ].

Lemma saved_reply_keeps : s_keeps request_state_save -> s_keeps saved_reply.
Proof. intros Hs. unfold saved_reply. s_keeping. Qed.

(** A read that has not failed is as long as was asked for. *)
Lemma take_length n r b r' : Reader.take n r = (b, r') -> Reader.ok r' = true -> length b = n.
Proof.
  unfold Reader.take. destruct (Reader.has n r) eqn:Hh; cbn [negb]; intros [= <- <-] Hok; [|done].
  unfold Reader.has, Reader.remaining in Hh. apply andb_true_iff in Hh as [_ Hn%Nat.leb_le].
  rewrite length_take, length_skipn. lia.
Qed.

Lemma tail_same r c : c_pubkey (read_contact_tail r c) = c_pubkey c /\ c_shared (read_contact_tail r c) = c_shared c.
Proof. unfold read_contact_tail. repeat case_match; simplify_eq; done. Qed.

(** Adding or updating a contact, step by step: [Q] holds from the contact on until it is
    marked. *)
Lemma add_update_steps (Q : Daemon R -> Prop) args :
  s_keeps request_state_save ->
  (forall pubkey e d, length pubkey = kPubKeySize -> E e -> P d ->
     P (contact_upsert pubkey e d).1.2 /\ Q (contact_upsert pubkey e d).1.2) ->
  (forall i f e d, (forall c, c_pubkey (f c) = c_pubkey c /\ c_shared (f c) = c_shared c) ->
     E e -> Q d -> Q (with_contacts (update_contact i f) e d).1.2) ->
  (forall i e d, E e -> Q d -> Q (with_contacts (fun s => (clear_path i s).2) e d).1.2) ->
  (forall i path e d, E e -> Q d -> Q (with_contacts (fun s => (cs_set_path i path s).2) e d).1.2) ->
  (forall e d, E e -> Q d -> P (with_contacts (fun s => s <| cs_dirty := true |>) e d).1.2) ->
  s_keeps (cmd_add_update_contact args).
Proof.
  intros Hsave Hupsert Hupdate Hclear Hpath Hmark. unfold cmd_add_update_contact.
  destruct (Reader.take kPubKeySize _) as [pubkey r] eqn:E1. destruct (Reader.u8 r) as [ty r1] eqn:E2.
  destruct (Reader.u8 r1) as [flags r2] eqn:E3. destruct (Reader.u8 r2) as [len r3] eqn:E4.
  destruct (Reader.take kContactPathField r3) as [field r4] eqn:E5.
  destruct (Reader.ok r4) eqn:Hok; cbn [negb]; [|s_keeping]. destruct (_ && _); [s_keeping|].
  assert (length pubkey = kPubKeySize) as Hlen.
  { eapply take_length; [exact E1|]. eapply ReaderFacts.u8_ok_mono; [exact E2|]. eapply ReaderFacts.u8_ok_mono; [exact E3|].
    eapply ReaderFacts.u8_ok_mono; [exact E4|]. by eapply ReaderFacts.take_ok_mono'. }
  intros e d He Hd. rewrite s_bind_eq. destruct (Hupsert pubkey e d Hlen He Hd) as [Hd1 Hq1].
  destruct (contact_upsert _ e d) as [[[i|] d1] o1]; cbn [fst snd] in *; [|done].
  repeat (rewrite s_bind_eq; unfold with_contacts at 1, s_modify at 1; cbn [fst snd]).
  apply (Hupdate i (fun c => c <| c_type := ty |> <| c_flags := flags |>)) with (e := e) in Hq1; [|done..].
  assert (Q ((with_contacts (R := R) (fun s => (if len =? kNoPath then clear_path i s else cs_set_path i (if len =? kNoPath then [] else take (Z.to_nat len) field) s).2) e
    (with_contacts (update_contact i (fun c => c <| c_type := ty |> <| c_flags := flags |>)) e d1).1.2).1.2)) as Hq2 by (destruct (len =? kNoPath); auto).
  apply (Hupdate i (read_contact_tail r4)) with (e := e) in Hq2; [|apply tail_same|done].
  apply Hmark with (e := e) in Hq2; [|done]. by apply saved_reply_keeps.
Qed.

(** The steps the commands are made of: a property each of them keeps is kept by every
    command. *)
Class SSteps : Prop := {
  keep_save : s_keeps request_state_save;
  keep_settings changes : s_keeps (set_settings changes);
  keep_advert flood : s_keeps (call_node (send_advert flood));
  keep_channel_text i text ts : s_keeps (call_node (send_channel_text i text ts));
  keep_pop : s_keeps (call_node pop_message);
  keep_channel i ch : s_keeps (call_node (modify (fun n => n <| n_channels ::= channel_set i ch |>)));
  keep_add_update args : s_keeps (cmd_add_update_contact args);
  keep_remove pubkey : s_keeps (contact_remove pubkey);
  keep_clear i : s_keeps (with_contacts (fun s => (clear_path i s).2));
  keep_wall f : s_keeps (s_modify (fun d => d <| d_wall ::= f |>));
  keep_sent t : s_keeps (s_modify (fun d => d <| d_last_send_ms := Some t |>));
}.

Context `{!SSteps}.

#[local] Hint Resolve keep_save keep_settings keep_advert keep_channel_text keep_pop keep_channel keep_add_update
  keep_remove keep_clear keep_wall keep_sent saved_reply_keeps : session.

Lemma settings_reply_keeps changes : s_keeps (settings_reply changes).
Proof. unfold settings_reply. s_keeping. Qed.
#[local] Hint Resolve settings_reply_keeps : session.

Lemma run_command_keeps cmd args : cmd <> kCmdSendTxtMsg -> s_keeps (run_command cmd args).
Proof.
  intros Hcmd%Z.eqb_neq. unfold run_command. rewrite Hcmd.
  repeat match goal with
         | |- s_keeps (if ?b then cmd_add_update_contact _ else _) => destruct b; [apply keep_add_update|]
         | |- s_keeps (if ?b then ?m else _) => destruct b; [unfold_command m; s_keeping|]
         end. s_keeping.
Qed.

(** Sending a direct message, apart since it takes a message identifier. *)
Lemma send_txt_msg_keeps args :
  (forall i text ty ts, s_keeps (call_node (send_text i text ty ts))) -> s_keeps (cmd_send_txt_msg args).
Proof. intros Htext. unfold cmd_send_txt_msg. s_keeping. Qed.
End keeps.

(** ** The push gate *)

Section gate.
Context `{CryptoLib} {R : Type} `{Radio R}.

(** A computation that sends nothing to a client that has not started a session, and
    neither starts nor ends one. *)
Definition gated {A} (m : SM R A) : Prop :=
  forall e d, d_app_started (m e d).1.2 = d_app_started d /\ (d_app_started d = false -> (m e d).2 = []).

Lemma gated_bind {A B} (m : SM R A) (f : A -> SM R B) : gated m -> (forall a, gated (f a)) -> gated (m ≫= f).
Proof.
  intros Hm Hf e d. rewrite s_bind_eq. specialize (Hm e d) as [H1 H2]. destruct (m e d) as [[a d1] o1]. cbn in H1, H2.
  specialize (Hf a e d1) as [H3 H4]. destruct (f a e d1) as [[b d2] o2]. cbn in *. split; [congruence|].
  intros Hd. rewrite (H2 Hd), H4 by congruence. done.
Qed.

Lemma gated_push payload : gated (push payload).
Proof. intros e d. split; [done|]. cbn. by intros ->. Qed.

Lemma gated_save : gated request_state_save.
Proof. done. Qed.

Lemma gated_note x : gated (on_note x).
Proof.
  destruct x; cbn [on_note];
    unfold on_contact_changed, on_message_stored, on_ack, on_advert_seen, on_path_updated;
    repeat first [apply gated_push | apply gated_save | done | apply gated_bind; [|intros ?] | case_match].
Qed.

Lemma gated_notes xs : gated (on_notes xs).
Proof. induction xs as [|x xs IH]; cbn [on_notes]; [done|]. apply gated_bind; [apply gated_note|done]. Qed.

Lemma gated_call {A} (m : M R A) : gated (call_node m).
Proof.
  intros e d. unfold call_node. destruct (m _ _) as [[a n] xs].
  pose proof (gated_notes xs e (d <| d_node := n |>)) as [H1 H2]. by destruct (on_notes xs _ _) as [[[] d1] o1].
Qed.

Lemma gated_air rx : gated (on_air rx).
Proof.
  intros e d. unfold on_air. apply gated_bind; [|intros []; apply gated_call].
  case_match; [apply gated_push|done].
Qed.

Lemma gated_flush f1 f2 f3 w : gated (on_flush f1 f2 f3 w).
Proof. intros e d. unfold on_flush. by destruct (flush _ _ _ _ _ _ _) as [[[ok st] w'] fs]. Qed.

(** Commands other than the start of a session do not change whether there is one. *)
#[local] Instance started_steps b : SSteps (fun _ => True) (fun d : Daemon R => d_app_started d = b).
Proof.
  split; try (by intros; intros e d _ Hd); try (intros; intros e d _ Hd; rewrite <- Hd; apply gated_call).
  - intros changes e d _ Hd. unfold set_settings. destruct (ss_set _ _ _ _ _) as [[[] s] fs]; try done.
    rewrite s_bind_eq. pose proof (gated_call (ss_apply s) e (d <| d_settings := s |> <| d_node ::= fun n => n <| n_fs := fs |> |>))
      as [Hg _]. destruct (call_node _ _ _) as [[[] d1] o1]. cbn in *. congruence.
  - intros args. apply (add_update_steps _ _ (fun d => d_app_started d = b)); try done; [by intros e d _ Hd|].
    intros pubkey e d _ _ Hd. unfold contact_upsert. by destruct (upsert _ _).
  - intros pubkey e d _ Hd. unfold contact_remove. by destruct (remove_contact _ _).
Qed.

Definition is_reply (out : Bytes) : Prop := match out with c :: _ => c < 0x80 | [] => False end.

Definition starts_session (ev : SEvent (R := R)) : Prop := exists args, ev = SFrame (kCmdAppStart :: args).

Lemma event_gated ev e (d : Daemon R) :
  d_app_started d = false -> ~ starts_session ev ->
  d_app_started (on_event ev e d).1.2 = false /\
  Forall is_reply (on_event ev e d).2 /\ ((forall f, ev <> SFrame f) -> (on_event ev e d).2 = []).
Proof.
  intros Hd Hno.
  assert (forall (m : SM R unit), gated m -> d_app_started (m e d).1.2 = false /\ Forall is_reply (m e d).2 /\
    ((forall f, ev <> SFrame f) -> (m e d).2 = [])) as Hg.
  { intros m Hm. destruct (Hm e d) as [H1 H2]. rewrite H1, (H2 Hd). done. }
  destruct ev as [|frame|rx|dev|id| | |f1 f2 f3|f1 f2 f3]; cbn [on_event];
    try (apply Hg; first [apply gated_air | apply gated_call]);
    try (destruct (gated_flush f1 f2 f3 (d_writer d) e d) as [H1 H2]; by rewrite H1, (H2 Hd));
    try (destruct (gated_flush f1 f2 f3 ((d_writer d) <| sw_pending := None |>) e d) as [H1 H2]; by rewrite H1, (H2 Hd));
    [done|].
  destruct frame as [|cmd args]; [done|]. destruct (Z.eq_dec cmd kCmdAppStart) as [->|H1]; [destruct Hno; by eexists|].
  destruct (Z.eq_dec cmd kCmdGetContacts) as [->|H2].
  - unfold handle_frame. rewrite frame_args. cbn [Z.eqb kCmdGetContacts kCmdAppStart Pos.eqb]. rewrite get_contacts_run.
    split_and!; [done| |by intros Hf; destruct (Hf _ eq_refl)]. cbn. constructor; [done|]. apply Forall_app. split; [|by repeat constructor].
    apply Forall_map, Forall_forall. done.
  - destruct (command_run cmd args e d H1 H2) as [-> (c & l & Hc & Hlt)]. cbn. rewrite Hc. split_and!.
    + destruct (Z.eq_dec cmd kCmdSendTxtMsg) as [->|Hne].
      * apply (send_txt_msg_keeps (fun _ => True) (fun d : Daemon R => d_app_started d = false)); [|done|done].
        intros i text ty ts e' d' _ Hd'. rewrite <- Hd'. apply gated_call.
      * by apply (run_command_keeps (fun _ => True) (fun d : Daemon R => d_app_started d = false)).
    + by repeat constructor.
    + by intros Hf; destruct (Hf _ eq_refl).
Qed.

Lemma run_gated evs : forall d : Daemon R,
  d_app_started d = false -> Forall (fun ev => ~ starts_session ev.2) evs ->
  let '(d', outs) := s_run evs d in
  d_app_started d' = false /\ Forall is_reply outs /\ (Forall (fun ev => forall f, ev.2 <> SFrame f) evs -> outs = []).
Proof.
  induction evs as [|[e ev] evs IH]; intros d Hd Hno; cbn [s_run]; [done|].
  apply Forall_cons_iff in Hno as [Hev Hno]. destruct (event_gated ev e d Hd Hev) as (H1 & H2 & H3).
  destruct (on_event ev e d) as [[[] d1] out]. specialize (IH d1 H1 Hno). destruct (s_run evs d1) as [d2 outs].
  destruct IH as (H4 & H5 & H6). split_and!; [done|by apply Forall_app|].
  intros [Hf Hfs]%Forall_cons_iff. cbn in Hf, H3. by rewrite (H3 Hf), (H6 Hfs).
Qed.
End gate.

(** C29. A client that has not started a session is sent nothing it did not ask for: from its connection on, whatever
    arrives off the air and whatever the timers do, every frame it receives is the reply to a command of its own, and
    without commands it receives nothing at all. *)
Theorem pushes_need_a_session `{CryptoLib} {R} `{Radio R} e evs (d d' : Daemon R) outs :
  Forall (fun ev => ~ starts_session ev.2) evs ->
  s_run ((e, SConnect) :: evs) d = (d', outs) ->
  Forall is_reply outs /\ (Forall (fun ev => forall f, ev.2 <> SFrame f) evs -> outs = []).
Proof.
  intros Hno Hrun. cbn [s_run on_event on_connect s_modify] in Hrun.
  pose proof (run_gated evs (d <| d_app_started := false |>) eq_refl Hno) as Hg.
  destruct (s_run evs _) as [d1 outs1]. injection Hrun as <- <-. cbn [app]. tauto.
Qed.
