(* ===== verification/DaemonFacts.v ===== *)
(** * The daemon as a whole

    The invariant of the assembled daemon under everything the event loop calls: the node's
    tables stay within their bounds, the settings in force stay valid, and the running node
    has exactly the settings the store has. *)

From S2P Require Import Prelude ByteIO Floats Crypto Identity Packet Payloads Radio.
From S2P Require Import Dispatcher Record Persist Contacts Channels Inbox Sender Node.
From S2P Require Import Frames EventLoop CText FloatFacts Ini DaemonConfig Settings Session SessionFacts.

Section invariant.
Context `{CryptoLib} {R : Type} `{RadioLaws R}.
Context (base : DaemonConfig).

(** The node runs with the name, position and repeat of the settings. *)
Definition applied (n : Node R) (s : SettingsStore) : Prop :=
  cfg_name (n_cfg n) = cfg_name (cf_node (ss_cfg s)) /\
  cfg_lat_e6 (n_cfg n) = cfg_lat_e6 (cf_node (ss_cfg s)) /\
  cfg_lon_e6 (n_cfg n) = cfg_lon_e6 (cf_node (ss_cfg s)) /\
  cfg_repeat (n_cfg n) = cfg_repeat (cf_node (ss_cfg s)).

Record daemon_ok (d : Daemon R) : Prop := {
  do_node : node_ok (d_node d);
  do_settings : settings_ok base (d_settings d);
  do_config : config_ok (ss_cfg (d_settings d));
  do_valid : validate (ss_cfg (d_settings d)) = None;
  do_applied : applied (d_node d) (d_settings d) }.

Definition senv_ok (e : SEnv) : Prop := env_ok (se_env e).

(** Only the node and the settings matter. *)
Lemma daemon_ok_same (d d' : Daemon R) :
  d_node d' = d_node d -> d_settings d' = d_settings d -> daemon_ok d -> daemon_ok d'.
Proof. intros E1 E2 [? ? ? ? ?]. split; rewrite ?E1, ?E2; done. Qed.

Lemma note_same x e (d : Daemon R) : d_node (on_note x e d).1.2 = d_node d /\ d_settings (on_note x e d).1.2 = d_settings d.
Proof. by destruct x as [? []| | | |]. Qed.

Lemma notes_same xs : forall e (d : Daemon R),
  d_node (on_notes xs e d).1.2 = d_node d /\ d_settings (on_notes xs e d).1.2 = d_settings d.
Proof.
  induction xs as [|x xs IH]; intros e d; cbn [on_notes]; [done|]. rewrite s_bind_eq.
  pose proof (note_same x e d) as [E1 E2]. destruct (on_note x e d) as [[[] d1] o1]. cbn in E1, E2.
  specialize (IH e d1) as [E3 E4]. destruct (on_notes xs e d1) as [[[] d2] o2]. cbn in *. split; congruence.
Qed.

Lemma call_node_state {A} (m : M R A) e d :
  d_node (call_node m e d).1.2 = (m (node_env e d) (d_node d)).1.2 /\ d_settings (call_node m e d).1.2 = d_settings d.
Proof.
  unfold call_node. destruct (m _ _) as [[a n] xs]. pose proof (notes_same xs e (d <| d_node := n |>)) as [E1 E2].
  by destruct (on_notes xs _ _) as [[[] d1] o1].
Qed.

(** Node handlers do not touch the node's configuration. *)
#[local] Instance cfg_steps c : Steps (fun _ => True) (fun n : Node R => n_cfg n = c).
Proof.
  constructor; intros; intros e n _ <-.
  - unfold dispatcher_send. by destruct (send _ _ _ _ _ _ _) as [[? ?] ?].
  - unfold send_ack. destruct (contact_at _ _); [|done]. by destruct (route_to _ _ _ _ _ _ _ _) as [[? ?] ?].
  - unfold contact_secret. destruct (contact_at _ _); [|done]. by destruct (shared_secret _ _).
  - unfold complete_ack. destruct (complete _ _) as [[?|] ?]; [|done]. by repeat case_match.
  - unfold store_message. by destruct (store _ _ _ _ _) as [[? ?] ?].
  - unfold mark_delivered. by destruct (first_delivery _ _ _ _ _).
  - done.
  - done.
  - done.
  - unfold contacts_apply_advert. by destruct (apply_advert _ _ _ _) as [[? ?] ?].
Qed.

(** A call of the node that keeps its invariant and its configuration. *)
Lemma node_call_ok {A} (m : M R A) e d :
  senv_ok e -> daemon_ok d ->
  (env_ok (node_env e d) -> node_ok (d_node d) -> node_ok (m (node_env e d) (d_node d)).1.2) ->
  n_cfg (m (node_env e d) (d_node d)).1.2 = n_cfg (d_node d) ->
  daemon_ok (call_node m e d).1.2.
Proof.
  intros He [Hn Hs Hc Hv Ha] Hok Hcfg. destruct (call_node_state m e d) as [E1 E2].
  split; rewrite ?E1, ?E2; try done; [by apply Hok|]. unfold applied. by rewrite Hcfg.
Qed.

Lemma call_keeps {A} (m : M R A) :
  keeps env_ok node_ok m -> (forall c, keeps (fun _ => True) (fun n => n_cfg n = c) m) ->
  s_keeps senv_ok daemon_ok (call_node m).
Proof.
  intros Hk Hc e d He Hd. apply node_call_ok; [done|done|by apply Hk|]. by apply (Hc (n_cfg (d_node d))).
Qed.

Lemma with_contacts_keeps f :
  (forall s, store_ok s -> store_ok (f s) /\ cs_self (f s) = cs_self s) ->
  s_keeps senv_ok daemon_ok (with_contacts f).
Proof.
  intros Hf e d He [Hn Hs Hc Hv Ha]. split; try done. apply (on_contacts_keeps f Hf (se_env e) (d_node d) He Hn).
Qed.

(** [apply]: the node takes the settings over. *)
Lemma ss_apply_node s e n :
  node_ok n -> node_ok (ss_apply s e n).1.2 /\ applied (ss_apply s e n).1.2 s.
Proof.
  intros [Em Ec Es Ech Ed Ei].
  set (c1 := (n_cfg n) <| cfg_name := cfg_name (cf_node (ss_cfg s)) |>).
  set (c2 := c1 <| cfg_lat_e6 := cfg_lat_e6 (cf_node (ss_cfg s)) |> <| cfg_lon_e6 := cfg_lon_e6 (cf_node (ss_cfg s)) |>).
  set (n3 := n <| n_cfg := c2 <| cfg_repeat := cfg_repeat (cf_node (ss_cfg s)) |> |>).
  assert (ss_apply s e n = (tt, (on_dispatcher (EvReconfigure (cf_radio (ss_cfg s))) e n3).1.2, [])) as ->.
  { unfold ss_apply, mbind, M_bind. cbn -[reconfigure]. unfold reconfigure_radio, on_dispatcher, handle. subst n3 c2 c1. cbn -[reconfigure].
    by destruct (reconfigure _ _ _ _) as [d rs]. }
  assert (node_ok n3) as E3 by by constructor. split; [by apply on_dispatcher_ok|]. cbn [fst snd].
  unfold on_dispatcher. destruct (handle _ _ _ _) as [d rs]. done.
Qed.

(** The radio has the parameters of the settings, compared as [reconfigure] compares them. *)
Definition tuned (d : Daemon R) : Prop :=
  let got := radio_params (radio_ (m_disp (n_mesh (d_node d)))) in
  got = cf_radio (ss_cfg (d_settings d)) \/ RadioParams_eqb (cf_radio (ss_cfg (d_settings d))) got = true.

Lemma ss_apply_radio s e (n : Node R) :
  let got := radio_params (radio_ (m_disp (n_mesh (ss_apply s e n).1.2))) in
  got = cf_radio (ss_cfg s) \/ RadioParams_eqb (cf_radio (ss_cfg s)) got = true.
Proof.
  unfold ss_apply, mbind, M_bind. cbn -[reconfigure]. unfold reconfigure_radio. cbn -[reconfigure].
  match goal with |- context [reconfigure ?t ?r ?p ?d] => pose proof (reconfigure_takes t r p d) as Ht; destruct (reconfigure t r p d) as [d' rs] end.
  exact Ht.
Qed.

Lemma set_settings_keeps changes : s_keeps senv_ok daemon_ok (set_settings changes).
Proof.
  intros e d He Hd. unfold set_settings. destruct (ss_set _ _ _ _ _) as [[r s] fs] eqn:Hset.
  set (d1 := d <| d_settings := s |> <| d_node ::= fun n => n <| n_fs := fs |> |>).
  assert (node_ok (d_node d1)) as Hn1 by (destruct (do_node _ Hd); by constructor).
  destruct r; cbn [fst snd].
  - rewrite s_bind_eq. destruct (call_node_state (ss_apply s) e d1) as [E1 E2].
    destruct (call_node (ss_apply s) e d1) as [[[] d2] o2]. cbn [fst snd mret SM_ret] in *.
    destruct (ss_apply_node s (node_env e d1) _ Hn1) as [E3 E4].
    destruct (ss_set_ok base _ _ _ _ _ _ _ Hset (do_settings _ Hd)) as (E5 & _ & E6 & E7 & _).
    split; rewrite ?E1, ?E2; try done. by apply E6, Hd.
  - destruct (ss_set_refused _ _ _ _ _ _ _ _ Hset) as [-> _]; [done|]. destruct Hd. by split.
  - destruct (ss_set_refused _ _ _ _ _ _ _ _ Hset) as [-> _]; [done|]. destruct Hd. by split.
Qed.

Lemma update_fine i f s :
  (forall c, c_pubkey (f c) = c_pubkey c /\ c_shared (f c) = c_shared c) ->
  store_ok s -> store_ok (update_contact i f s) /\ cs_self (update_contact i f s) = cs_self s.
Proof.
  intros Hf Hs. split; [|done]. apply update_contact_ok; [|done]. intros c. destruct (Hf c) as [E1 E2].
  split; [done|]. unfold cache_ok. by rewrite E1, E2.
Qed.

#[local] Instance daemon_steps : SSteps senv_ok daemon_ok.
Proof.
  split; intros.
  - intros e d _ Hd. by apply (daemon_ok_same d).
  - apply set_settings_keeps.
  - apply call_keeps; [apply send_advert_keeps, _|intros c; apply send_advert_keeps, _].
  - intros e d He Hd. apply node_call_ok; [done|done| |].
    + intros He' Hn. pose proof (send_channel_text_keeps env_ok node_ok i text ts (node_env e d) (d_node d) He' Hn) as Hk.
      unfold mbind, M_bind in Hk. by destruct (send_channel_text _ _ _ _ _) as [[? ?] ?].
    + pose proof (send_channel_text_keeps (fun _ => True) (fun n => n_cfg n = n_cfg (d_node d)) i text ts (node_env e d) (d_node d) I eq_refl) as Hk.
      unfold mbind, M_bind in Hk. by destruct (send_channel_text _ _ _ _ _) as [[? ?] ?].
  - apply call_keeps; [apply pop_message_keeps|]. intros c e n _ <-. unfold pop_message. by destruct (pop _).
  - apply call_keeps; [apply channel_set_keeps|]. by intros c e n _ <-.
  - apply (add_update_steps _ _ daemon_ok).
    + intros e d _ Hd. by apply (daemon_ok_same d).
    + intros pubkey e d Hl He Hd. enough (daemon_ok (contact_upsert pubkey e d).1.2) by done.
      unfold contact_upsert. pose proof (upsert_fine pubkey (d_contacts d) Hl (no_contacts _ (do_node _ Hd))) as Hf.
      destruct (upsert _ _) as [c s]. destruct Hf as [E1 E2], Hd as [En ? ? ? ?]. split; try done.
      exact (contacts_swap (d_node d) s En E1 E2).
    + intros i f e d Hf. apply with_contacts_keeps. intros s. by apply update_fine.
    + intros i e d. apply with_contacts_keeps. intros s. apply clear_path_fine.
    + intros i path e d. apply with_contacts_keeps. intros s. apply cs_set_path_ok.
    + intros e d. apply with_contacts_keeps. intros s Hs. split; [by apply dirty_ok|done].
  - intros e d He Hd. unfold contact_remove. pose proof (remove_fine pubkey (d_contacts d) (no_contacts _ (do_node _ Hd))) as Hf.
    destruct (remove_contact _ _) as [b s]. destruct Hf as [E1 E2], Hd as [En ? ? ? ?]. split; try done.
    exact (contacts_swap (d_node d) s En E1 E2).
  - apply with_contacts_keeps. intros s. apply clear_path_fine.
  - intros e d _ Hd. by apply (daemon_ok_same d).
  - intros e d _ Hd. by apply (daemon_ok_same d).
Qed.

Lemma send_txt_ok args e d :
  senv_ok e -> daemon_ok d -> rs_next_id (m_sender (n_mesh (d_node d))) < 2 ^ 64 - 1 ->
  daemon_ok (cmd_send_txt_msg args e d).1.2.
Proof.
  intros He Hd Hid. unfold cmd_send_txt_msg.
  destruct (Reader.u8 _) as [ty r1], (Reader.u32 _) as [ts r2], (Reader.take _ _) as [prefix r3].
  destruct (negb (Reader.ok r3)); [done|]. rewrite s_bind_eq. cbn [s_gets].
  destruct (prefix_contact _ _) as [i|]; [|done]. rewrite s_bind_eq. set (text := to_string _).
  assert (daemon_ok (call_node (send_text i text ty ts) e d).1.2) as E1.
  { apply node_call_ok; [done|done|intros _ Hn; by apply send_text_ok|].
    unfold send_text. by destruct (send_message _ _ _ _ _ _ _ _) as [[h err] m]. }
  destruct (call_node _ e d) as [[[h err] d1] o1]. destruct h as [ack|]; [|done].
  repeat (rewrite s_bind_eq; cbn [s_ask s_modify s_gets mret SM_ret fst snd]). by apply (daemon_ok_same d1).
Qed.

Lemma handle_frame_ok frame e d :
  senv_ok e -> daemon_ok d -> rs_next_id (m_sender (n_mesh (d_node d))) < 2 ^ 64 - 1 ->
  daemon_ok (handle_frame frame e d).1.2.
Proof.
  intros He Hd Hid. destruct frame as [|cmd args]; [done|].
  destruct (Z.eq_dec cmd kCmdAppStart) as [->|E1]; [|destruct (Z.eq_dec cmd kCmdGetContacts) as [->|E2]].
  - destruct (app_start_run args e d) as (d' & -> & _ & _ & E1 & E2). by apply (daemon_ok_same d).
  - unfold handle_frame. rewrite frame_args. cbn [Z.eqb kCmdGetContacts kCmdAppStart Pos.eqb]. by rewrite get_contacts_run.
  - destruct (command_run cmd args e d E1 E2) as [-> _]. cbn [fst snd].
    destruct (Z.eq_dec cmd kCmdSendTxtMsg) as [->|E3]; [by apply send_txt_ok|].
    by apply (run_command_keeps senv_ok daemon_ok).
Qed.

(** Saving clears marks, and nothing else. *)
Lemma flush_stores f1 f2 f3 mode fs st w :
  let '(_, st', _, _) := flush f1 f2 f3 mode fs st w in
  (contacts_ st' = contacts_ st \/ contacts_ st' = (contacts_ st) <| cs_dirty := false |>) /\
  chs_channels (channels_ st') = chs_channels (channels_ st) /\
  mi_messages (inbox_ st') = mi_messages (inbox_ st) /\ mi_limit (inbox_ st') = mi_limit (inbox_ st).
Proof.
  unfold flush, cs_save, chs_save, mi_save. repeat case_match; simplify_eq/=; split_and!; try done; auto.
Qed.

Lemma flush_ok f1 f2 f3 w e d : daemon_ok d -> daemon_ok (on_flush f1 f2 f3 w e d).1.2.
Proof.
  intros [[Em Ec Es Ech Ed Ei] ? ? ? Ha]. unfold on_flush.
  pose proof (flush_stores f1 f2 f3 (e_umask_mode (se_env e)) (n_fs (d_node d))
    (mkStores (n_contacts (d_node d)) (n_channels (d_node d)) (n_inbox (d_node d))) w) as Hf.
  destruct (flush _ _ _ _ _ _ _) as [[[ok st] w'] fs']. destruct Hf as (E1 & E2 & E3 & E4). cbn in E1, E2, E3, E4.
  assert (store_ok (contacts_ st) /\ cs_self (contacts_ st) = cs_self (n_contacts (d_node d))) as [E5 E6].
  { destruct E1 as [->| ->]; [done|]. split; [by apply dirty_ok|done]. }
  split; try done. cbn. destruct Em as [? ? ? ? ? ?].
  constructor; cbn; unfold n_contacts in *; cbn; rewrite ?E2, ?E3, ?E4; try done; congruence.
Qed.

(** ** Runs of the daemon *)

(** What the source ensures of an event: timers that fire are armed, the radio's own changes
    are those it documents, and the 64-bit message identifiers have not run out. *)
Definition s_enabled (d : Daemon R) (ev : SEvent (R := R)) : Prop :=
  match ev with
  | SFrame _ => rs_next_id (m_sender (n_mesh (d_node d))) < 2 ^ 64 - 1
  | SDispatcher ev => n_enabled (d_node d) (NDispatcher ev)
  | SRetry id => n_enabled (d_node d) (NRetry id)
  | _ => True
  end.

Lemma on_air_ok rx e d : senv_ok e -> daemon_ok d -> daemon_ok (on_air rx e d).1.2.
Proof.
  intros He Hd. unfold on_air. rewrite s_bind_eq. set (hook := match raw_hook _ with Some p => _ | None => _ end).
  assert (hook e d = (tt, d, (hook e d).2)) as -> by (subst hook; by destruct (raw_hook _)).
  assert (daemon_ok (call_node (on_frame rx) e d).1.2) as Hk.
  { apply (call_keeps (on_frame rx)); [apply on_frame_keeps| |done|done].
    intros c e' n _ <-. unfold on_frame. destruct (on_radio_rx (e_now e') rx (m_disp (n_mesh n))) as [dd calls].
    destruct (delivered calls); [|done]. by apply (on_packet_keeps (fun _ => True) (fun m => n_cfg m = n_cfg n)). }
  by destruct (call_node _ e d) as [[[] d1] o1].
Qed.

Lemma on_event_ok ev e d : senv_ok e -> daemon_ok d -> s_enabled d ev -> daemon_ok (on_event ev e d).1.2.
Proof.
  intros He Hd Hev. destruct ev as [|frame|rx|dev|id| | |f1 f2 f3|f1 f2 f3]; cbn [on_event s_enabled] in *.
  - by apply (daemon_ok_same d).
  - by apply handle_frame_ok.
  - by apply on_air_ok.
  - apply node_call_ok; [done|done|intros Hne Hn; by apply (n_handle_ok (NDispatcher dev))|].
    unfold on_dispatcher. by destruct (handle _ _ _ _).
  - apply node_call_ok; [done|done|intros Hne Hn; by apply (n_handle_ok (NRetry id))|done].
  - apply (call_keeps on_delivered_sweep); [apply delivered_sweep_keeps|by intros c e' n _ <-|done|done].
  - by apply (keep_advert senv_ok daemon_ok).
  - by apply flush_ok.
  - by apply flush_ok.
Qed.

Inductive s_reach (d0 : Daemon R) : Daemon R -> Prop :=
| s_reach_start : s_reach d0 d0
| s_reach_step d e ev : s_reach d0 d -> senv_ok e -> s_enabled d ev -> s_reach d0 (on_event ev e d).1.2.

Lemma s_reach_ok d0 d : daemon_ok d0 -> s_reach d0 d -> daemon_ok d.
Proof. intros Hd0. induction 1; [done|]. by apply on_event_ok. Qed.
End invariant.
