(* ===== verification/SessionTrips.v ===== *)
(** * Round trips through the companion protocol

    What an app sets it reads back: channels, contacts, radio parameters and the clock; and
    the messages it collects are the queued ones, in order. *)

From S2P Require Import Prelude ByteIO Floats Crypto Identity Packet Payloads Radio.
From S2P Require Import Dispatcher Record Persist Contacts Channels Inbox Sender Node.
From S2P Require Import Frames EventLoop CText FloatFacts Ini DaemonConfig Settings Session SessionFacts.

(** ** Fixed-width fields *)

Lemma put_padded_app out data w : put_padded out data w = out ++ put_padded [] data w.
Proof. done. Qed.

Lemma put_padded_length data w : length (put_padded [] data w) = w.
Proof. unfold put_padded. cbn [app]. rewrite length_app, length_take, length_replicate. lia. Qed.

Lemma put_padded_full data w : length data = w -> put_padded [] data w = data.
Proof. intros <-. unfold put_padded. rewrite Nat.min_id, firstn_all, Nat.sub_diag. cbn. by rewrite app_nil_r. Qed.

Lemma put_padded_fits data w :
  (length data <= w)%nat -> put_padded [] data w = data ++ replicate (w - length data) 0.
Proof. intros Hl. unfold put_padded. rewrite Nat.min_l by done. by rewrite firstn_all. Qed.

Lemma until_nul_padded s k : Forall (fun c => c <> 0) s -> Reader.until_nul (s ++ replicate k 0) = s.
Proof.
  induction 1 as [|c s Hc _ IH]; cbn; [by destruct k|]. apply Z.eqb_neq in Hc. by rewrite Hc, IH.
Qed.

Lemma until_nul_field s w :
  (length s <= w)%nat -> Forall (fun c => c <> 0) s -> Reader.until_nul (put_padded [] s w) = s.
Proof. intros Hl Hs. rewrite put_padded_fits by done. by apply until_nul_padded. Qed.

(** Reading a fixed-width string that is known. *)
Lemma reads_fixed_str r a l n :
  ReaderFacts.reads r (a ++ l) -> length a = n ->
  exists r', Reader.fixed_str n r = (Reader.until_nul a, r') /\ ReaderFacts.reads r' l.
Proof.
  intros Hr Hn. destruct (ReaderFacts.reads_take_app r a l n Hr Hn) as (r' & Ht & Hr'). exists r'.
  unfold Reader.fixed_str. by rewrite Ht.
Qed.

Lemma reads_end r a : ReaderFacts.reads r a -> ReaderFacts.reads r (a ++ []).
Proof. by rewrite app_nil_r. Qed.

Section trips.
Context `{CryptoLib} {R : Type} `{Radio R}.

(** One command with its answer. *)
Lemma command_step cmd args e d out d' :
  cmd <> kCmdAppStart -> cmd <> kCmdGetContacts -> run_command cmd args e d = (out, d', []) ->
  handle_frame (cmd :: args) e d = (tt, d', [out]).
Proof. intros H1 H2 Hr. destruct (command_run cmd args e d H1 H2) as [-> _]. by rewrite Hr. Qed.

(** ** Channels *)

(** The daemon after a channel was set. *)
Definition with_channel (e : SEnv) (index : nat) (ch : Channel) (d : Daemon R) : Daemon R :=
  d <| d_node ::= fun n => n <| n_channels ::= channel_set index ch |> |> <| d_writer ::= request_save (se_now e) |>.

Lemma set_channel_run index name secret e d :
  0 <= index < 8 -> (length name <= kChannelNameField)%nat -> Forall (fun c => c <> 0) name ->
  length secret = kChannelSecretSize ->
  exists out, cmd_set_channel (index :: put_padded [] name kChannelNameField ++ secret) e d =
    (out, with_channel e (Z.to_nat index) (mkChannel name (if forallb (fun b => b =? 0) secret then [] else secret)) d, []).
Proof.
  intros Hi Hn Hnul Hs. unfold cmd_set_channel. start_reads.
  match goal with H : ReaderFacts.reads ?r (put_padded _ _ _ ++ _) |- _ =>
    destruct (reads_fixed_str r _ _ kChannelNameField H (put_padded_length _ _)) as (r2 & -> & Hr2); clear H end.
  apply reads_end in Hr2. run_reads. rewrite until_nul_field by done.
  rewrite (proj2 (Z.leb_gt _ _)) by (unfold kMaxChannels; cbn; lia).
  eexists. reflexivity.
Qed.

(** A secret of zeros and the empty secret of a cleared slot read the same. *)
Lemma cleared_secret secret :
  length secret = kChannelSecretSize ->
  put_padded [] (if forallb (fun b => b =? 0) secret then [] else secret) kChannelSecretSize = secret.
Proof.
  intros <-. destruct (forallb _ _) eqn:Hz; [|by apply put_padded_full].
  unfold put_padded. cbn [app take length Nat.min]. rewrite Nat.sub_0_r.
  induction secret as [|b s IH]; [done|]. cbn in Hz |- *. apply andb_true_iff in Hz as [Hb%Z.eqb_eq Hz]. by rewrite Hb, IH.
Qed.

(** A channel an app sets is the channel it reads back: the answer to the query holds the very name and secret
    fields that were sent, for every name that fits and every secret, the all-zero one that clears a slot included;
    and no other channel changes. *)
Theorem channel_set_get index name secret e e' (d : Daemon R) :
  0 <= index < 8 -> (length name <= kChannelNameField)%nat -> Forall (fun c => c <> 0) name ->
  length secret = kChannelSecretSize -> length (chs_channels (d_channels d)) = kMaxChannels ->
  let fields := put_padded [] name kChannelNameField ++ secret in
  let d' := (handle_frame (kCmdSetChannel :: index :: fields) e d).1.2 in
  handle_frame [kCmdGetChannel; index] e' d' = (tt, d', [kRespChannelInfo :: index :: fields]) /\
  (forall j, j <> Z.to_nat index -> channel_at j (d_channels d') = channel_at j (d_channels d)).
Proof.
  intros Hi Hn Hnul Hs Hch fields d'. destruct (set_channel_run index name secret e d Hi Hn Hnul Hs) as [out Hset].
  assert (d' = with_channel e (Z.to_nat index) (mkChannel name (if forallb (fun b => b =? 0) secret then [] else secret)) d) as Hd'.
  { subst d'. by rewrite (command_step kCmdSetChannel (index :: fields) e d out _ ltac:(done) ltac:(done) Hset). }
  clearbody d'. subst d'. set (d' := with_channel _ _ _ _).
  assert (chs_channels (d_channels d') = <[Z.to_nat index := mkChannel name (if forallb (fun b => b =? 0) secret then [] else secret)]>
    (chs_channels (d_channels d))) as Hl.
  { subst d'. unfold d_channels in *. cbn. unfold channel_set. rewrite (proj2 (Nat.leb_gt _ _)); [done|]. rewrite Hch. unfold kMaxChannels. lia. }
  split.
  - apply command_step; [done|done|]. change (run_command kCmdGetChannel) with (cmd_get_channel (R := R)).
    unfold cmd_get_channel. start_reads. rewrite s_bind_eq. cbn [s_gets]. unfold channel_at. rewrite Hl, list_lookup_insert_eq; [|rewrite Hch; unfold kMaxChannels; lia].
    cbn [ch_name ch_secret]. rewrite put_padded_app, cleared_secret by done. done.
  - intros j Hj. unfold channel_at. rewrite Hl, list_lookup_insert_ne; [done|congruence].
Qed.

(** ** Collecting messages *)

Definition waiting (d : Daemon R) : list StoredMessage := mi_messages (n_inbox (d_node d)).

Lemma sync_step args e d :
  exists d', handle_frame (kCmdSyncNextMessage :: args) e d =
    (tt, d', [match waiting d with [] => [kRespNoMoreMessages] | msg :: _ => message_frame msg end]) /\
  waiting d' = tail (waiting d) /\
  (is_Some (sw_pending (d_writer d)) \/ waiting d <> [] -> is_Some (sw_pending (d_writer d'))).
Proof.
  destruct (waiting d) as [|msg ms] eqn:E; unfold waiting in E.
  - exists d. split; [|unfold waiting; rewrite E; naive_solver]. apply command_step; [done|done|].
    change (run_command kCmdSyncNextMessage) with (cmd_sync_next_message (R := R)). unfold cmd_sync_next_message.
    rewrite s_bind_eq. unfold call_node, pop_message, pop. rewrite E. cbn. by destruct d as [[] ? ? ? ? ? ?].
  - eexists. split; [apply command_step; [done|done|]|].
    + change (run_command kCmdSyncNextMessage) with (cmd_sync_next_message (R := R)). unfold cmd_sync_next_message.
      rewrite s_bind_eq. unfold call_node, pop_message, pop. rewrite E. reflexivity.
    + split; [done|]. intros _. cbn. unfold request_save. destruct (sw_pending (d_writer d)) eqn:Hp; cbn; [by rewrite Hp|eauto].
Qed.

(** C39. An app collects its messages oldest first, each once: any number of sync commands answers with the queued
    messages in order and then says there are no more, leaves exactly the messages not collected, and schedules the
    queue to be saved as soon as one was taken. *)
Theorem messages_collected_in_order args es : forall (d : Daemon R),
  let '(d', outs) := s_run (map (fun e => (e, SFrame (kCmdSyncNextMessage :: args))) es) d in
  outs = map message_frame (take (length es) (waiting d)) ++
         replicate (length es - length (waiting d)) [kRespNoMoreMessages] /\
  waiting d' = drop (length es) (waiting d) /\
  (es <> [] -> waiting d <> [] -> is_Some (sw_pending (d_writer d'))).
Proof.
  cut (forall d : Daemon R,
    let '(d', outs) := s_run (map (fun e => (e, SFrame (kCmdSyncNextMessage :: args))) es) d in
    outs = map message_frame (take (length es) (waiting d)) ++
           replicate (length es - length (waiting d)) [kRespNoMoreMessages] /\
    waiting d' = drop (length es) (waiting d) /\
    (is_Some (sw_pending (d_writer d)) \/ (es <> [] /\ waiting d <> []) -> is_Some (sw_pending (d_writer d')))).
  { intros Hc d. specialize (Hc d). destruct (s_run _ d) as [d' outs]. naive_solver. }
  induction es as [|e es IH]; intros d; cbn [map s_run length].
  - rewrite firstn_O, skipn_O. naive_solver.
  - cbn [on_event]. destruct (sync_step args e d) as (d1 & -> & Hw & Hp). specialize (IH d1).
    destruct (s_run _ d1) as [d2 outs]. destruct IH as (-> & Hw2 & Hp2). rewrite Hw in *.
    destruct (waiting d) as [|msg ms]; cbn [tail take drop map length app Nat.sub] in *.
    + rewrite Nat.sub_0_r, firstn_nil, skipn_nil in *. split_and!; [done|done|]. naive_solver.
    + split_and!; [done|done|]. intros _. apply Hp2. left. apply Hp. by right.
Qed.

(** ** Contacts *)

(** A contact's card: its frame without the code and the time it was last heard. *)
Definition card (c : Contact) : Bytes :=
  c_pubkey c ++ c_type c :: c_flags c :: (if c_path_known c then u8 (zlen (c_out_path c)) else kNoPath) ::
  put_padded [] (c_out_path c) kContactPathField ++ put_padded [] (c_name c) kContactNameField ++
  put_u32 [] (c_adv_timestamp c) ++ put_i32 [] (c_lat_e6 c) ++ put_i32 [] (c_lon_e6 c) ++ [].

Definition heard (c : Contact) : Z := if negb (c_last_seen c =? 0) then c_last_seen c else c_adv_timestamp c.

Lemma contact_frame_card code c : contact_frame code c = code :: card c ++ put_u32 [] (heard c).
Proof.
  unfold contact_frame, card, heard, put_bytes, to_bytes, put_padded, put_i32, put_u32. cbn [app].
  rewrite <- ?app_assoc. cbn [app]. do 2 f_equal. rewrite <- ?app_assoc. cbn [app]. rewrite <- ?app_assoc. done.
Qed.

(** A contact whose fields fit the frame. *)
Record card_ok (c : Contact) : Prop := {
  cd_key : length (c_pubkey c) = kPubKeySize;
  cd_path : (length (c_out_path c) <= kContactPathField)%nat;
  cd_known : c_path_known c = false -> c_out_path c = [];
  cd_name : (length (c_name c) <= kContactNameField)%nat /\ Forall (fun x => x <> 0) (c_name c);
  cd_time : is_u32 (c_adv_timestamp c);
  cd_position : is_i32 (c_lat_e6 c) /\ is_i32 (c_lon_e6 c) }.

Lemma contact_at_update i f s : contact_at i (update_contact i f s) = f <$> contact_at i s.
Proof. unfold contact_at, update_contact. cbn. apply list_lookup_alter_eq. Qed.

(** Setting a path, whether or not it is the one already known. *)
Lemma set_path_at i path s c :
  contact_at i s = Some c ->
  contact_at i (cs_set_path i path s).2 = Some (c <| c_out_path := path |> <| c_path_known := true |>).
Proof.
  intros Hc. unfold cs_set_path. rewrite Hc. destruct (c_path_known c && beq (c_out_path c) path) eqn:E.
  - apply andb_true_iff in E as [Hk Hp%beq_eq]. cbn. rewrite Hc. destruct c. cbn in *. by subst.
  - cbn. unfold contact_at in *. cbn. by rewrite list_lookup_alter_eq, Hc.
Qed.

Lemma clear_path_at i s c :
  contact_at i s = Some c ->
  contact_at i (clear_path i s).2 = Some (c <| c_out_path := [] |> <| c_path_known := false |>).
Proof.
  intros Hc. unfold clear_path. rewrite Hc. destruct (negb (c_path_known c) && beq (c_out_path c) []) eqn:E.
  - apply andb_true_iff in E as [Hk%negb_true_iff Hp%beq_eq]. cbn. rewrite Hc. destruct c. cbn in *. by subst.
  - cbn. unfold contact_at in *. cbn. by rewrite list_lookup_alter_eq, Hc.
Qed.

Definition keys_of (s : ContactStore) : list Bytes := map c_pubkey (cs_contacts s).

Lemma find_contact_keys pk s s' : keys_of s = keys_of s' -> find_contact pk s = find_contact pk s'.
Proof.
  unfold keys_of, find_contact. generalize (cs_contacts s') as l'. induction (cs_contacts s) as [|c l IH]; intros [|c' l'] Hk; [done|done|done|].
  cbn [map] in Hk. injection Hk as Hc Hk. specialize (IH l' Hk). cbn [list_find].
  unfold same_key in *. rewrite Hc. destruct (decide _); [done|].
  destruct (list_find _ l) as [[]|], (list_find _ l') as [[]|]; cbn in *; congruence.
Qed.

Lemma keys_update i f s : (forall c, c_pubkey (f c) = c_pubkey c) -> keys_of (update_contact i f s) = keys_of s.
Proof. intros Hf. by apply map_alter_same. Qed.

Lemma keys_set_path i path s : keys_of (cs_set_path i path s).2 = keys_of s.
Proof. unfold cs_set_path. repeat case_match; try done. by apply map_alter_same. Qed.

Lemma keys_clear_path i s : keys_of (clear_path i s).2 = keys_of s.
Proof. unfold clear_path. repeat case_match; try done. by apply map_alter_same. Qed.

(** Where [upsert] puts a contact, it is found. *)
Lemma upsert_found pk s :
  is_Some (find_contact pk s) \/ (length (cs_contacts s) < cs_max_contacts s)%nat ->
  exists i c s', upsert pk s = (Some i, s') /\ contact_at i s' = Some c /\ c_pubkey c = pk /\ find_contact pk s' = Some i /\
    (forall j x, contact_at j s = Some x -> contact_at j s' = Some x).
Proof.
  intros Hroom. unfold upsert. destruct (find_contact pk s) as [i|] eqn:Hf.
  - destruct (find_contact_Some _ _ _ Hf) as (c & Hc & Hk). exists i, c, s. done.
  - destruct Hroom as [[]|Hroom]; [done|]. rewrite (proj2 (Nat.leb_gt _ _) Hroom).
    exists (length (cs_contacts s)). eexists _, _. split_and!; [done| | | |].
    + unfold contact_at. cbn. rewrite lookup_app_r, Nat.sub_diag by done. done.
    + done.
    + unfold find_contact in *. cbn. rewrite list_find_app_r.
      * cbn. rewrite decide_True; [cbn; f_equal; lia|]. unfold same_key. cbn. apply beq_refl.
      * by destruct (list_find _ _) as [[]|].
    + intros j x Hx. unfold contact_at in *. cbn. by apply lookup_app_l_Some.
Qed.

Lemma read_tail r c x :
  card_ok c ->
  ReaderFacts.reads r (put_padded [] (c_name c) kContactNameField ++ put_u32 [] (c_adv_timestamp c) ++
                       put_i32 [] (c_lat_e6 c) ++ put_i32 [] (c_lon_e6 c) ++ []) ->
  read_contact_tail r x =
    x <| c_name := c_name c |> <| c_adv_timestamp := c_adv_timestamp c |> <| c_lat_e6 := c_lat_e6 c |> <| c_lon_e6 := c_lon_e6 c |>.
Proof.
  intros [_ _ _ [Hn Hnul] Ht [Hla Hlo]] Hr. unfold read_contact_tail.
  assert (Reader.has kContactNameField r = true) as ->.
  { rewrite (ReaderFacts.reads_has _ _ _ Hr), length_app, put_padded_length. apply Nat.leb_le. lia. }
  destruct (reads_fixed_str r _ _ kContactNameField Hr (put_padded_length _ _)) as (r1 & -> & Hr1).
  rewrite until_nul_field by done. cbv beta iota. run_reads. cbn [length app put_u32 put_i32 Nat.leb]. run_reads.
  done.
Qed.

Lemma path_len_ok c : card_ok c ->
  let len := if c_path_known c then u8 (zlen (c_out_path c)) else kNoPath in
  (len =? kNoPath) = negb (c_path_known c) /\ negb (len =? kNoPath) && (Z.of_nat kContactPathField <? len) = false /\
  (c_path_known c = true -> Z.to_nat len = length (c_out_path c)).
Proof.
  intros Hc len. subst len. pose proof (cd_path _ Hc) as Hp. unfold kContactPathField, kNoPath, zlen in *.
  destruct (c_path_known c); cbn [negb]; [|done].
  assert (u8 (Z.of_nat (length (c_out_path c))) = Z.of_nat (length (c_out_path c))) as -> by (width; lia).
  destruct (Z.eqb_spec (Z.of_nat (length (c_out_path c))) 255); [lia|]. cbn [negb andb]. split_and!; [done| |intros _; lia].
  apply Z.ltb_ge. lia.
Qed.

(** What an added contact becomes: the card's fields over whatever was there. *)
Definition carded (c x : Contact) : Contact :=
  x <| c_type := c_type c |> <| c_flags := c_flags c |> <| c_out_path := c_out_path c |> <| c_path_known := c_path_known c |>
    <| c_name := c_name c |> <| c_adv_timestamp := c_adv_timestamp c |> <| c_lat_e6 := c_lat_e6 c |> <| c_lon_e6 := c_lon_e6 c |>.

Lemma card_carded c x : c_pubkey x = c_pubkey c -> card (carded c x) = card c.
Proof. intros Hk. unfold card. cbn. by rewrite Hk. Qed.

(** The path half of an update. *)
Lemma update_path_at c i len field s x :
  card_ok c -> contact_at i s = Some x ->
  len = (if c_path_known c then u8 (zlen (c_out_path c)) else kNoPath) ->
  field = put_padded [] (c_out_path c) kContactPathField ->
  let path := if len =? kNoPath then [] else take (Z.to_nat len) field in
  let s' := (if len =? kNoPath then clear_path i s else cs_set_path i path s).2 in
  contact_at i s' = Some (x <| c_out_path := c_out_path c |> <| c_path_known := c_path_known c |>) /\ keys_of s' = keys_of s.
Proof.
  intros Hc Hx -> ->. destruct (path_len_ok c Hc) as (Hn & _ & Hl). rewrite Hn. destruct (c_path_known c) eqn:Hk; cbn [negb].
  - rewrite Hl by done. rewrite put_padded_fits by apply Hc. rewrite take_app_length. split; [by apply set_path_at|apply keys_set_path].
  - rewrite (cd_known _ Hc Hk). split; [by apply clear_path_at|apply keys_clear_path].
Qed.

Lemma add_update_run c e (d : Daemon R) :
  card_ok c ->
  is_Some (find_contact (c_pubkey c) (d_contacts d)) \/
    (length (cs_contacts (d_contacts d)) < cs_max_contacts (d_contacts d))%nat ->
  exists out d' i x, cmd_add_update_contact (card c) e d = (out, d', []) /\
    find_contact (c_pubkey c) (d_contacts d') = Some i /\ contact_at i (d_contacts d') = Some (carded c x) /\
    c_pubkey x = c_pubkey c.
Proof.
  intros Hc Hroom. destruct (upsert_found _ _ Hroom) as (i & x & s1 & Hu & Hx & Hkx & Hf & _).
  pose proof (cd_key _ Hc) as Hkey. pose proof (put_padded_length (c_out_path c) kContactPathField) as Hpl.
  unfold cmd_add_update_contact, card at 1. start_reads.
  destruct (path_len_ok c Hc) as (Hn & Hbad & _). rewrite Hbad.
  match goal with H : ReaderFacts.reads ?r (put_padded _ _ _ ++ _) |- _ => rename H into Hr; rename r into rd end.
  set (len := if c_path_known c then _ else _) in *. rewrite s_bind_eq. unfold contact_upsert. rewrite Hu.
  repeat (rewrite s_bind_eq; cbn [with_contacts s_modify]).
  destruct (saved_reply e _) as [[out d'] o] eqn:Hs.
  assert (o = [] /\ d_contacts d' = (update_contact i (read_contact_tail rd)
    (if len =? kNoPath then clear_path i (update_contact i (fun c0 => c0 <| c_type := c_type c |> <| c_flags := c_flags c |>) s1)
     else cs_set_path i (if len =? kNoPath then [] else take (Z.to_nat len) (put_padded [] (c_out_path c) kContactPathField))
            (update_contact i (fun c0 => c0 <| c_type := c_type c |> <| c_flags := c_flags c |>) s1)).2) <| cs_dirty := true |>) as [-> Hd'].
  { unfold saved_reply in Hs. injection Hs as _ <- <-. done. }
  set (s2 := update_contact i _ s1) in Hd'.
  assert (contact_at i s2 = Some (x <| c_type := c_type c |> <| c_flags := c_flags c |>)) as Hx2 by (subst s2; by rewrite contact_at_update, Hx).
  destruct (update_path_at c i len _ s2 _ Hc Hx2 eq_refl eq_refl) as [Hx3 Hk3].
  eexists out, d', i, x. split; [done|]. split; [|split; [|done]].
  - rewrite <- Hf. apply find_contact_keys. rewrite Hd'. change (keys_of (?s <| cs_dirty := true |>)) with (keys_of s).
    rewrite keys_update by (intros; apply tail_same). rewrite Hk3. by apply keys_update.
  - rewrite Hd'. change (contact_at i (?s <| cs_dirty := true |>)) with (contact_at i s).
    rewrite contact_at_update, Hx3. cbn [fmap option_fmap option_map]. by rewrite (read_tail rd c _ Hc Hr).
Qed.

(** A contact an app adds or updates is the contact it reads back: the answer to the query by key carries the very
    card that was sent (key, type, flags, path, name, time and position), as long as the fields fit and there is room,
    followed by when the contact was last heard. *)
Theorem contact_add_get c e e' (d : Daemon R) :
  card_ok c ->
  is_Some (find_contact (c_pubkey c) (d_contacts d)) \/
    (length (cs_contacts (d_contacts d)) < cs_max_contacts (d_contacts d))%nat ->
  let d' := (handle_frame (kCmdAddUpdateContact :: card c) e d).1.2 in
  exists last, handle_frame (kCmdGetContactByKey :: c_pubkey c) e' d' =
    (tt, d', [kRespContact :: card c ++ put_u32 [] last]).
Proof.
  intros Hc Hroom d'. destruct (add_update_run c e d Hc Hroom) as (out & d1 & i & x & Hadd & Hf & Hx & Hk).
  assert (d' = d1) as ->.
  { subst d'. by rewrite (command_step kCmdAddUpdateContact (card c) e d out d1 ltac:(done) ltac:(done) Hadd). }
  exists (heard (carded c x)). apply command_step; [done|done|].
  change (run_command kCmdGetContactByKey) with (cmd_get_contact_by_key (R := R)). unfold cmd_get_contact_by_key.
  pose proof (cd_key _ Hc) as Hkey. pose proof (reads_end _ _ (ReaderFacts.reads_make (c_pubkey c))) as Hr. run_reads.
  rewrite s_bind_eq. cbn [s_gets]. rewrite Hf. cbn [mbind option_bind]. rewrite Hx.
  by rewrite contact_frame_card, card_carded.
Qed.

(** ** The clock *)

(** A clock an app sets is the clock it reads: within the same second of the host the answer is exactly the time
    that was set, and from then on the daemon takes its clock for valid and adverts for possible. *)
Theorem device_time_set_get t e e' (d : Daemon R) :
  is_u32 t -> se_system e' = se_system e -> 0 <= se_system e + g_offset (d_wall d) < 2 ^ 32 ->
  let d' := (handle_frame (kCmdSetDeviceTime :: put_u32 [] t) e d).1.2 in
  handle_frame [kCmdGetDeviceTime] e' d' = (tt, d', [put_u32 [kRespCurrTime] t]) /\
  (node_env e' d').(e_unix) = t /\ (node_env e' d').(e_clock_valid) = true.
Proof.
  intros Ht Hsys Hw d'.
  assert (d' = d <| d_wall ::= set_clock_offset (t - se_system e) |>) as ->.
  { subst d'. destruct (command_run kCmdSetDeviceTime (put_u32 [] t) e d ltac:(done) ltac:(done)) as [-> _].
    change (run_command kCmdSetDeviceTime) with (cmd_set_device_time (R := R)). unfold cmd_set_device_time.
    pose proof (reads_end _ _ (ReaderFacts.reads_make (put_u32 [] t))) as Hr. run_reads.
    repeat (rewrite s_bind_eq; cbn [s_ask s_gets s_modify]). cbn [fst snd].
    assert (unix_now (se_system e) (d_wall d) - clock_offset (d_wall d) = se_system e) as ->; [|done].
    unfold unix_now, clock_offset. rewrite (proj2 (Z.ltb_ge _ _)), u32_small by (width; lia). lia. }
  assert (unix_now (se_system e') (set_clock_offset (t - se_system e) (d_wall d)) = t) as Hnow.
  { unfold unix_now. cbn. rewrite Hsys. replace (se_system e + (t - se_system e)) with t by lia.
    rewrite (proj2 (Z.ltb_ge _ _)) by (width; lia). by apply u32_small. }
  split_and!; [|exact Hnow|done]. apply command_step; [done|done|].
  change (run_command kCmdGetDeviceTime) with (cmd_get_device_time (R := R)). unfold cmd_get_device_time.
  repeat (rewrite s_bind_eq; cbn [s_ask s_gets d_wall]).
  change (d_wall (d <| d_wall ::= ?f |>)) with (f (d_wall d)). by rewrite Hnow.
Qed.
End trips.
