(* ===== verification/Decimals.v ===== *)
(** * The decimal texts the session hands to the settings

    A frequency in kilohertz and a position in millionths of a degree reach the settings as
    decimal text, are read as doubles, and are scaled back.  Every value the protocol can
    carry survives. *)

From S2P Require Import Prelude ByteIO Floats Record CText FloatFacts Rounding Ini DaemonConfig.
From S2P Require Import Crypto Identity Packet Payloads Radio Dispatcher Persist Contacts Channels Inbox Sender Node.
From S2P Require Import Frames EventLoop Settings Session SessionFacts DaemonFacts SessionTrips.

Lemma padded_value w n :
  0 <= n < 10 ^ Z.of_nat w -> (1 <= w)%nat ->
  digits_value (padded_text w n) = n /\ digits (padded_text w n) /\ length (padded_text w n) = w.
Proof.
  intros Hn Hw. unfold padded_text, pad_zeros. destruct (dec_text_value n ltac:(lia)) as (Hv & Hd & _).
  pose proof (dec_digits_length (S (Z.to_nat (Z.log2 n))) n w Hn Hw) as Hl. fold (dec_text n) in Hl.
  rewrite digits_value_app, digits_value_zeros, length_app, length_replicate. split_and!; [lia| |lia].
  apply Forall_app. split; [|done]. by apply Forall_replicate.
Qed.

(** A whole number of [10^-w] units as a decimal: what [strtod] makes of it. *)
Lemma strtod_units neg w n m :
  0 <= n -> (1 <= w)%nat -> 10 ^ Z.of_nat w = Z.pos m ->
  strtod (sign_text neg ++ dec_text (n / Z.pos m) ++ [46] ++ padded_text w (n mod Z.pos m)) = scaled neg n 10 (- Z.of_nat w) [].
Proof.
  intros Hn Hw Hm. destruct (dec_text_value (n / Z.pos m)) as (Hv & Hd & Hne); [apply Z.div_pos; lia|].
  destruct (padded_value w (n mod Z.pos m)) as (Hv2 & Hd2 & Hl2); [rewrite Hm; by apply Z.mod_pos_bound|done|].
  assert (sign_text neg ++ dec_text (n / Z.pos m) ++ [46] ++ padded_text w (n mod Z.pos m)
    = decimal_text neg (dec_text (n / Z.pos m)) (Some (padded_text w (n mod Z.pos m)))) as -> by done.
  rewrite strtod_decimal by done. cbn [fraction default from_option id]. rewrite digits_value_app, Hv, Hv2. unfold zlen. rewrite Hl2, Hm.
  f_equal. rewrite (Z.div_mod n (Z.pos m)) at 3 by lia. lia.
Qed.

(** A short decimal text is read whole. *)
Lemma whole_units neg w n m :
  0 <= n < 2 ^ 33 -> (1 <= w <= 6)%nat -> 10 ^ Z.of_nat w = Z.pos m ->
  whole strtod (sign_text neg ++ dec_text (n / Z.pos m) ++ [46] ++ padded_text w (n mod Z.pos m)) =
    Some (match n with Z.pos p => d_of_ratio neg p m | _ => S754_zero neg end).
Proof.
  intros Hn Hw Hm. unfold whole. rewrite number_until_nul.
  2: { destruct (dec_text_value (n / Z.pos m)) as (_ & Hd & _); [apply Z.div_pos; lia|].
       destruct (padded_value w (n mod Z.pos m)) as (_ & Hd2 & _); [rewrite Hm; by apply Z.mod_pos_bound|lia|].
       exact (decimal_text_chars neg _ (Some _) Hd Hd2). }
  rewrite (strtod_units neg w n m) by (done || lia).
  pose proof (scaled_pos neg n (Z.of_nat w) m ltac:(lia) Hm) as Hs.
  pose proof (scaled_in_range neg n (Z.of_nat w) [] ltac:(lia) ltac:(lia)) as Hr.
  destruct n as [|p|p]; [by rewrite Hs| |lia]. destruct Hs as [range Hs]. rewrite Hs in *. destruct Hr as [_ Hr].
  destruct (ratio_close neg p m) as (mm & ee & Hv & _); [lia|assert (Z.pos m <= 10 ^ 6) by (rewrite <- Hm; apply Z.pow_le_mono_r; lia); lia|].
  rewrite Hv in *. rewrite Hr; [done|by eexists].
Qed.

Lemma mhz_reads khz :
  is_u32 khz -> 0 < khz ->
  whole strtod (mhz_from_khz khz) = Some (d_of_ratio false (Z.to_pos khz) 1000) /\ mhz_from_khz khz <> [] /\
  u32 (llround (d_mul (d_of_ratio false (Z.to_pos khz) 1000) (d_of_Z 1000))) = khz /\
  is_zero (d_of_ratio false (Z.to_pos khz) 1000) = false.
Proof.
  intros Hu Hp. unfold mhz_from_khz. destruct (padded_value 3 (khz mod 1000)) as (_ & _ & Hl3); [by apply Z.mod_pos_bound|lia|].
  rewrite snprintf_short.
  2: { rewrite !length_app, Hl3. cbn [length]. pose proof (dec_text_short (khz / 1000) 8) as Hs.
       assert (length (dec_text (khz / 1000)) <= 8)%nat; [|lia]. apply Hs; [|lia]. split; [apply Z.div_pos; lia|].
       change (10 ^ Z.of_nat 8) with 100000000. apply Z.div_lt_upper_bound; width; lia. }
  pose proof (whole_units false 3 khz 1000 ltac:(width; lia) ltac:(lia) eq_refl) as Hw. cbn [sign_text app] in Hw.
  destruct khz as [|p|p]; [lia| |lia]. split_and!; [done| | |].
  - destruct (dec_text_value (Z.pos p / 1000)) as (_ & _ & Hne); [apply Z.div_pos; lia|]. by destruct (dec_text _).
  - cbn [Z.to_pos]. rewrite llround_thousandths by (width; lia). by apply u32_small.
  - cbn [Z.to_pos]. destruct (ratio_close false p 1000) as (m & x & -> & _); [width; lia|lia|done].
Qed.

Lemma degrees_reads e6 :
  is_i32 e6 ->
  exists v, whole strtod (degrees_from_e6 e6) = Some v /\ degrees_from_e6 e6 <> [] /\ millionths_of v = e6.
Proof.
  intros Hu. unfold degrees_from_e6.
  destruct (padded_value 6 (Z.abs e6 mod 1000000)) as (_ & _ & Hl6); [by apply Z.mod_pos_bound|lia|].
  rewrite snprintf_short.
  2: { rewrite !length_app, Hl6. cbn [length]. pose proof (dec_text_short (Z.abs e6 / 1000000) 4) as Hs.
       assert (length (dec_text (Z.abs e6 / 1000000)) <= 4)%nat.
       { apply Hs; [|lia]. split; [apply Z.div_pos; lia|]. change (10 ^ Z.of_nat 4) with 10000. apply Z.div_lt_upper_bound; width; lia. }
       destruct (e6 <? 0); cbn [sign_text length]; lia. }
  pose proof (whole_units (e6 <? 0) 6 (Z.abs e6) 1000000 ltac:(width; lia) ltac:(lia) eq_refl) as Hw.
  eexists. split; [exact Hw|]. split.
  - destruct (dec_text_value (Z.abs e6 / 1000000)) as (_ & _ & Hne); [apply Z.div_pos; lia|].
    destruct (sign_text _); [|done]. by destruct (dec_text _).
  - unfold millionths_of. change kMillion with (d_of_Z 1000000). destruct e6 as [|p|p]; [done| |];
      cbv [Z.abs Z.ltb Z.compare]; rewrite llround_millionths by (width; lia); apply i32_small; width; lia.
Qed.

(** ** What a key becomes *)

(** The value of a text under a key, once it is accepted. *)
Lemma set_degrees k text v c c' :
  k = KLat \/ k = KLon -> whole strtod text = Some v -> text <> [] ->
  cfg_set (key_text k) text c = inr c' -> field k c' = VInt (millionths_of v).
Proof.
  intros Hk Hv Hne. rewrite cfg_set_text. unfold apply. rewrite setting_of_key.
  assert (forall def, get_double (key_text k) def [(key_text k, text)] = (v, true)) as Hget.
  { intros def. unfold get_double. destruct text as [|x t]; [done|]. by rewrite present_text, Hv. }
  destruct Hk as [-> | ->]; cbn [setting_of node_settings lookup list_lookup default from_option id st_target];
    rewrite Hget; cbn [negb orb]; repeat case_match; intros; simplify_eq; done.
Qed.

Lemma set_real k text v c c' :
  k = KFreq \/ k = KBw \/ k = KDuty -> whole strtod text = Some v -> text <> [] ->
  cfg_set (key_text k) text c = inr c' -> field k c' = VReal v.
Proof.
  intros Hk Hv Hne. rewrite cfg_set_text. unfold apply. rewrite setting_of_key.
  assert (forall def, get_double (key_text k) def [(key_text k, text)] = (v, true)) as Hget.
  { intros def. unfold get_double. destruct text as [|x t]; [done|]. by rewrite present_text, Hv. }
  destruct Hk as [-> |[-> | ->]]; cbn [setting_of radio_settings lookup list_lookup default from_option id st_target Real];
    rewrite Hget; cbn [negb orb]; repeat case_match; intros; simplify_eq; done.
Qed.

Lemma set_byte k n c c' :
  k = KSf \/ k = KCr -> is_u8 n -> cfg_set (key_text k) (show_int n) c = inr c' -> field k c' = VInt n.
Proof.
  intros Hk Hn. rewrite cfg_set_text. unfold apply. rewrite setting_of_key.
  destruct Hk as [-> | ->]; cbn [setting_of radio_settings lookup list_lookup default from_option id st_target Real];
    rewrite get_int_line by (width; lia); cbn [negb]; case_match; intros; simplify_eq; cbn; f_equal; by apply u8_small.
Qed.

Lemma set_flag b c c' :
  cfg_set (key_text KRepeat) (if b : bool then lit "1" else lit "0") c = inr c' -> field KRepeat c' = VBool b.
Proof.
  rewrite cfg_set_text. unfold apply. rewrite setting_of_key.
  cbn [setting_of node_settings lookup list_lookup default from_option id st_target].
  assert (forall def, get_bool (key_text KRepeat) def [(key_text KRepeat, if b then lit "1" else lit "0")] = (b, true)) as ->
    by (intros def; destruct b; vm_compute; reflexivity).
  cbn [negb]. intros. by simplify_eq.
Qed.

(** The first of several changes, when the others are to other keys. *)
Lemma set_all_cons k text changes c c' :
  set_all ((key_text k, text) :: changes) c = inr c' -> ~ In (key_text k) (map fst changes) ->
  exists c1, cfg_set (key_text k) text c = inr c1 /\ set_all changes c1 = inr c' /\ field k c' = field k c1.
Proof.
  cbn [set_all]. intros Ha Hno. destruct (cfg_set (key_text k) text c) as [|c1] eqn:H1; [done|].
  exists c1. split_and!; [done|done|]. by apply (set_all_spec changes c1 c' Ha).
Qed.

Section exact.
Context `{CryptoLib} {R : Type} `{RadioLaws R}.
Context (base : DaemonConfig).

(** A change that was answered with OK is in force. *)
Lemma settings_reply_taken changes e (d d' : Daemon R) out :
  senv_ok e -> daemon_ok base d -> settings_reply changes e d = (resp_ok, d', out) ->
  set_all changes (ss_cfg (d_settings d)) = inr (ss_cfg (d_settings d')) /\ daemon_ok base d' /\ tuned d'.
Proof.
  intros He Hd Hr. unfold settings_reply in Hr. rewrite s_bind_eq in Hr.
  pose proof (set_settings_keeps base changes e d He Hd) as Hk. unfold set_settings in *.
  destruct (ss_set _ _ _ _ _) as [[r s] fs] eqn:Hset. destruct r; [|done|done].
  rewrite s_bind_eq in Hr, Hk.
  match type of Hr with context [call_node ?m e ?d1] =>
    pose proof (call_node_state m e d1) as [En Es];
    pose proof (ss_apply_radio s (node_env e d1) (d_node d1)) as Ht; destruct (call_node m e d1) as [[[] d2] o2] end.
  cbn -[ss_apply] in Hr, Hk, Es, En, Ht. injection Hr as <- _. split; [|split; [done|unfold tuned; by rewrite Es, En]]. rewrite Es.
  unfold ss_set in Hset. destruct (set_all _ _) as [|next]; [done|]. destruct (validate next); [done|].
  destruct (ss_save _ _ _ _ _) as [[] fs1]; [|done]. by injection Hset as <- _.
Qed.

Lemma key_lat : lit "node.lat" = key_text KLat. Proof. done. Qed.
Lemma key_lon : lit "node.lon" = key_text KLon. Proof. done. Qed.
Lemma key_freq : lit "radio.lora_freq" = key_text KFreq. Proof. done. Qed.
Lemma key_bw : lit "radio.lora_bw" = key_text KBw. Proof. done. Qed.
Lemma key_sf : lit "radio.lora_sf" = key_text KSf. Proof. done. Qed.
Lemma key_cr : lit "radio.lora_cr" = key_text KCr. Proof. done. Qed.
Lemma key_repeat : lit "node.repeat" = key_text KRepeat. Proof. done. Qed.

Ltac not_listed := cbn [map fst In]; intros Hin; vm_compute in Hin; intuition discriminate.

(** C34. A position an app sets is the position the node advertises, to the last millionth of a degree: the trip
    through decimal text and floating point loses nothing. *)
Theorem position_set_exactly lat lon alt e (d d' : Daemon R) :
  senv_ok e -> daemon_ok base d -> is_i32 lat -> is_i32 lon ->
  handle_frame (kCmdSetAdvertLatLon :: put_i32 [] lat ++ put_i32 [] lon ++ alt) e d = (tt, d', [resp_ok]) ->
  cfg_lat_e6 (n_cfg (d_node d')) = lat /\ cfg_lon_e6 (n_cfg (d_node d')) = lon.
Proof.
  intros He Hd Hla Hlo Hrun.
  destruct (command_run kCmdSetAdvertLatLon (put_i32 [] lat ++ put_i32 [] lon ++ alt) e d ltac:(done) ltac:(done)) as [Hr _].
  rewrite Hr in Hrun. clear Hr. change (run_command kCmdSetAdvertLatLon) with (cmd_set_advert_latlon (R := R)) in Hrun.
  revert Hrun. unfold cmd_set_advert_latlon. start_reads. intros Hrun.
  destruct (settings_reply _ e d) as [[out d1] o] eqn:Hset. injection Hrun as -> ->.
  destruct (settings_reply_taken _ _ _ _ _ He Hd Hset) as (Ha & Hd' & _).
  destruct (degrees_reads lat Hla) as (vla & Hw1 & Hn1 & Hm1). destruct (degrees_reads lon Hlo) as (vlo & Hw2 & Hn2 & Hm2).
  rewrite key_lat, key_lon in Ha.
  apply set_all_cons in Ha as (c1 & Hs1 & Ha & Hf1); [|not_listed].
  apply set_all_cons in Ha as (c2 & Hs2 & Ha & Hf2); [|not_listed].
  rewrite (set_degrees KLat _ _ _ _ (or_introl eq_refl) Hw1 Hn1 Hs1), Hm1 in Hf1.
  rewrite (set_degrees KLon _ _ _ _ (or_intror eq_refl) Hw2 Hn2 Hs2), Hm2 in Hf2.
  destruct (do_applied _ _ Hd') as (_ & -> & -> & _). cbn [field] in Hf1, Hf2.
  injection Hf1 as ->. by injection Hf2 as ->.
Qed.

Lemma bandwidth_reads khz bw :
  nearest_bandwidth khz = Some bw -> whole strtod (exact bw) = Some bw /\ exact bw <> [] /\ is_zero bw = false.
Proof.
  unfold nearest_bandwidth. intros Hb. apply find_some in Hb as [Hin _].
  assert (forallb (fun bw => match whole strtod (exact bw), exact bw with Some v, _ :: _ => bool_decide (v = bw) && negb (is_zero bw) | _, _ => false end)
    kBandwidthsKhz = true) as Hall by vm_cast_no_check (eq_refl true).
  rewrite forallb_forall in Hall. specialize (Hall bw Hin). destruct (whole strtod (exact bw)), (exact bw); try done.
  apply andb_true_iff in Hall as [Hv%bool_decide_eq_true Hz%negb_true_iff]. by subst.
Qed.

Lemma f_eq_nonzero a b : f_eq a b = true -> is_zero a = false -> b = a.
Proof. intros [->|[Ha _]]%f_eq_same Hz; [done|congruence]. Qed.

(** The frequency, the bandwidth and the modulation in force are those of the settings. *)
Lemma tuned_exactly (d : Daemon R) (rp := radio_params (radio_ (m_disp (n_mesh (d_node d))))) (st := cf_radio (ss_cfg (d_settings d))) :
  tuned d -> is_zero (rp_freq_mhz st) = false -> is_zero (rp_bw_khz st) = false ->
  rp_freq_mhz rp = rp_freq_mhz st /\ rp_bw_khz rp = rp_bw_khz st /\ rp_sf rp = rp_sf st /\ rp_cr rp = rp_cr st.
Proof.
  intros [Ht|Ht] Hf Hb; fold rp st in Ht; [by rewrite Ht|]. unfold RadioParams_eqb in Ht. rewrite !andb_true_iff, !Z.eqb_eq in Ht.
  destruct_and!. split_and!; [by apply f_eq_nonzero..|done|done].
Qed.

(** Where the self-info frame carries them. *)
Lemma self_info_radio (d : Daemon R) (rp := radio_params (radio_ (m_disp (n_mesh (d_node d))))) :
  exists head tail, length head = (16 + length (pub (n_self (d_node d))))%nat /\
    self_info_frame d = head ++ put_u32 [] (u32 (llround (d_mul (rp_freq_mhz rp) (d_of_Z 1000))))
      ++ put_u32 [] (u32 (llround (d_mul (rp_bw_khz rp) (d_of_Z 1000)))) ++ [u8 (rp_sf rp); u8 (rp_cr rp)] ++ tail.
Proof.
  unfold self_info_frame. fold rp. cbv zeta. unfold put_str, put_bytes, put_i32. set (n := d_node d).
  set (freq := u32 (llround (d_mul (rp_freq_mhz rp) _))). set (bw := u32 (llround (d_mul (rp_bw_khz rp) _))).
  set (lat := u32 (cfg_lat_e6 (n_cfg n))). set (lon := u32 (cfg_lon_e6 (n_cfg n))). set (type := u8 (cfg_adv_type (n_cfg n))).
  set (power := u8 (rp_tx_power_dbm rp)). clearbody freq bw lat lon type power.
  rewrite (put_u32_app _ bw), (put_u32_app _ freq), (put_u32_app _ lon), (put_u32_app _ lat).
  exists ([kRespSelfInfo; type; power; u8 kMaxTxPowerDbm] ++ pub (n_self n) ++ put_u32 [] lat ++ put_u32 [] lon ++ [0; 0; 0; 0]),
    (cfg_name (n_cfg n)).
  rewrite !length_app, <- !app_assoc.
  split; [|done]. change (length (put_u32 [] lat)) with 4%nat. change (length (put_u32 [] lon)) with 4%nat. cbn [length]. lia.
Qed.

(** C35. The radio parameters an app sets are the ones in force, exactly, and the ones reported back: when the command
    is answered with OK the radio itself has a frequency of that very number of kilohertz, the supported bandwidth nearest
    to what was asked, the spreading factor and the coding rate asked for; the settings have the same; the self-info frame
    carries that number, the bandwidth in hertz, the spreading factor and the coding rate behind the position; and repeat
    is on only at the three frequencies an app may turn it on at. *)
Theorem radio_params_set_exactly khz hz sf cr rep e (d d' : Daemon R) :
  senv_ok e -> daemon_ok base d -> is_u32 khz -> is_u32 hz -> is_u8 sf -> is_u8 cr ->
  handle_frame (kCmdSetRadioParams :: put_u32 [] khz ++ put_u32 [] hz ++ [sf; cr; rep]) e d = (tt, d', [resp_ok]) ->
  let rp := radio_params (radio_ (m_disp (n_mesh (d_node d')))) in
  let st := cf_radio (ss_cfg (d_settings d')) in
  (u32 (llround (d_mul (rp_freq_mhz rp) (d_of_Z 1000))) = khz /\
   nearest_bandwidth (d_div (d_of_Z hz) (d_of_Z 1000)) = Some (rp_bw_khz rp) /\
   rp_sf rp = sf /\ rp_cr rp = cr) /\
  (rp_freq_mhz st = rp_freq_mhz rp /\ rp_bw_khz st = rp_bw_khz rp /\ rp_sf st = sf /\ rp_cr st = cr) /\
  (exists head tail, length head = (16 + length (pub (n_self (d_node d'))))%nat /\
     self_info_frame d' = head ++ put_u32 [] khz ++ put_u32 [] (u32 (llround (d_mul (rp_bw_khz rp) (d_of_Z 1000)))) ++ [sf; cr] ++ tail) /\
  cfg_repeat (n_cfg (d_node d')) = negb (rep =? 0) /\ (rep <> 0 -> In khz kRepeatFreqsKhz).
Proof.
  intros He Hd Hk Hh Hsf Hcr Hrun.
  destruct (command_run kCmdSetRadioParams (put_u32 [] khz ++ put_u32 [] hz ++ [sf; cr; rep]) e d ltac:(done) ltac:(done)) as [Hr _].
  rewrite Hr in Hrun. clear Hr. change (run_command kCmdSetRadioParams) with (cmd_set_radio_params (R := R)) in Hrun.
  revert Hrun. unfold cmd_set_radio_params. start_reads. cbn [length Nat.leb andb]. set (repeat := negb (rep =? 0)).
  destruct (repeat && negb (existsb (Z.eqb khz) kRepeatFreqsKhz)) eqn:Hrep; [done|].
  destruct (Z.eqb_spec khz 0) as [|Hnz]; [done|].
  destruct (nearest_bandwidth _) as [bw|] eqn:Hbw; [|done]. intros Hrun.
  destruct (settings_reply _ e d) as [[out d1] o] eqn:Hset. injection Hrun as -> ->.
  destruct (settings_reply_taken _ _ _ _ _ He Hd Hset) as (Ha & Hd' & Ht).
  destruct (mhz_reads khz Hk ltac:(width; lia)) as (Hw1 & Hn1 & Hm1 & Hz1). destruct (bandwidth_reads _ _ Hbw) as (Hw2 & Hn2 & Hz2).
  rewrite key_freq, key_bw, key_sf, key_cr, key_repeat in Ha.
  apply set_all_cons in Ha as (c1 & Hs1 & Ha & Hf1); [|not_listed].
  apply set_all_cons in Ha as (c2 & Hs2 & Ha & Hf2); [|not_listed].
  apply set_all_cons in Ha as (c3 & Hs3 & Ha & Hf3); [|not_listed].
  apply set_all_cons in Ha as (c4 & Hs4 & Ha & Hf4); [|not_listed].
  apply set_all_cons in Ha as (c5 & Hs5 & Ha & Hf5); [|not_listed].
  rewrite (set_real KFreq _ _ _ _ (or_introl eq_refl) Hw1 Hn1 Hs1) in Hf1.
  rewrite (set_real KBw _ _ _ _ (or_intror (or_introl eq_refl)) Hw2 Hn2 Hs2) in Hf2.
  rewrite (set_byte KSf _ _ _ (or_introl eq_refl) Hsf Hs3) in Hf3.
  rewrite (set_byte KCr _ _ _ (or_intror eq_refl) Hcr Hs4) in Hf4. rewrite (set_flag _ _ _ Hs5) in Hf5.
  destruct (do_applied _ _ Hd') as (_ & _ & _ & ->). cbn [field] in Hf1, Hf2, Hf3, Hf4, Hf5.
  injection Hf1 as Ef. injection Hf2 as Eb. injection Hf3 as Esf. injection Hf4 as Ecr. injection Hf5 as ->.
  destruct (tuned_exactly d' Ht) as (Tf & Tb & Ts & Tc); [by rewrite Ef|by rewrite Eb|]. destruct (self_info_radio d') as (head & tail & Hl & Hframe).
  cbv zeta. rewrite Tf, Tb, Ts, Tc, Ef, Eb, Esf, Ecr, Hm1 in *. rewrite !u8_small in Hframe by done. split_and!; eauto.
  intros Hne. apply Z.eqb_neq in Hne. subst repeat. rewrite Hne in Hrep. cbn [negb andb] in Hrep.
  apply negb_false_iff, existsb_exists in Hrep as (f & Hf & ->%Z.eqb_eq). done.
Qed.
End exact.
