(* ===== verification/Server.v ===== *)
(** * The companion server ([src/src/companion/server.h], [server.cpp])

    The stream transport of the companion protocol: one client at a time, frames in through
    the de-framer of [Frames], frames out through a bounded buffer.  The callbacks a session
    registers are parameters; what the system calls return is an argument of the operation
    that makes them. *)

From S2P Require Import Prelude ByteIO Floats Crypto Identity Packet Payloads Radio.
From S2P Require Import Dispatcher Record Persist Contacts Channels Inbox Sender Node.
From S2P Require Import Frames CText Ini DaemonConfig.

Definition outbound_buffer_has_capacity (buffered next limit : Z) : bool :=
  (buffered <=? limit) && (next <=? limit - buffered).

Definition POLLIN : Z := 1.
Definition POLLOUT : Z := 4.
Definition POLLERR : Z := 8.
Definition POLLHUP : Z := 16.
Definition POLLNVAL : Z := 32.

Definition has_event (revents mask : Z) : bool := negb (Z.land revents mask =? 0).

Definition kReadSize : nat := 4096.

(** What happened on the current connection, for the statements below; the server does not
    keep it. *)
Record Trace := mkTrace {
  tr_in : Bytes;             (** read from the client *)
  tr_handled : list Bytes;   (** frames given to the handler *)
  tr_queued : list Bytes;    (** payloads put into the outbound buffer *)
  tr_wire : Bytes }.         (** written to the client *)

#[export] Instance eta_Trace : Eta Trace := fun t => mkTrace (tr_in t) (tr_handled t) (tr_queued t) (tr_wire t).

Definition no_trace : Trace := mkTrace [] [] [] [].

(** Descriptors are open or closed; [sv_events] is what the client's watch asks for. *)
Record Server := mkServer {
  sv_opts : Options;
  sv_listen : bool;
  sv_client : bool;
  sv_lock : bool;
  sv_owns_path : bool;
  sv_path_dev : Z;
  sv_path_ino : Z;
  sv_events : Z;
  sv_reader : Bytes;
  sv_out : Bytes;
  sv_trace : Trace }.

#[export] Instance eta_Server : Eta Server := fun s =>
  mkServer (sv_opts s) (sv_listen s) (sv_client s) (sv_lock s) (sv_owns_path s) (sv_path_dev s) (sv_path_ino s)
    (sv_events s) (sv_reader s) (sv_out s) (sv_trace s).

Definition make_server (opts : Options) : Server := mkServer opts false false false false 0 0 0 [] [] no_trace.

(** The results of [write(2)] on a buffer that is not empty and of [read(2)]: [Wrote k] takes
    [k + 1] bytes, or all there are if they are fewer. *)
Inductive WriteResult := Wrote (k : nat) | WAgain | WIntr | WError.
Inductive ReadResult := ReadData (b : Bytes) | ReadAgain | ReadIntr | ReadError.

Section server.
Context {H : Type} (on_frame_ : Bytes -> H -> H * list Bytes) (on_connect_ on_disconnect_ : H -> H).

(** The server and what the callbacks work on. *)
Record Link := mkLink { lk_server : Server; lk_state : H }.

#[export] Instance eta_Link : Eta Link := fun l => mkLink (lk_server l) (lk_state l).

Definition drop_client (l : Link) : Link :=
  if negb (sv_client (lk_server l)) then l
  else mkLink ((lk_server l) <| sv_client := false |> <| sv_reader := [] |> <| sv_out := [] |>) (on_disconnect_ (lk_state l)).

Definition update_events (events : Z) (l : Link) : Link := l <| lk_server ::= fun s => s <| sv_events := events |> |>.

(** [n] bytes of the buffer were written. *)
Definition written (n : nat) (s : Server) : Server :=
  s <| sv_out ::= drop n |> <| sv_trace ::= fun t => t <| tr_wire ::= fun w => w ++ take n (sv_out s) |> |>.

(** [ws]: what successive calls of [write] return; would-block once they are used up. *)
Fixpoint server_flush (ws : list WriteResult) (l : Link) : Link * list WriteResult :=
  let s := lk_server l in
  if negb (sv_client s) then (l, ws)
  else match sv_out s with
       | [] => (update_events POLLIN l, ws)
       | out =>
           match ws with
           | [] => (update_events (Z.lor POLLIN POLLOUT) l, [])
           | Wrote k :: ws => server_flush ws (l <| lk_server ::= written (Nat.min (S k) (length out)) |>)
           | WAgain :: ws => (update_events (Z.lor POLLIN POLLOUT) l, ws)
           | WIntr :: ws => server_flush ws l
           | WError :: ws => (drop_client l, ws)
           end
       end.

Definition queue_frame (payload : Bytes) (s : Server) : Server :=
  s <| sv_out ::= fun out => out ++ frame_response payload |>
    <| sv_trace ::= fun t => t <| tr_queued ::= fun q => q ++ [payload] |> |>.

Definition server_send (payload : Bytes) (ws : list WriteResult) (l : Link) : Link * list WriteResult :=
  let s := lk_server l in
  if negb (sv_client s) then (l, ws)
  else
    let framed := frame_response payload in
    if negb (outbound_buffer_has_capacity (zlen (sv_out s)) (zlen framed) (op_max_outbound_bytes (sv_opts s)))
    then (drop_client l, ws)
    else server_flush ws (l <| lk_server ::= queue_frame payload |>).

Fixpoint send_all (payloads : list Bytes) (ws : list WriteResult) (l : Link) : Link * list WriteResult :=
  match payloads with
  | [] => (l, ws)
  | p :: payloads => let '(l, ws) := server_send p ws l in send_all payloads ws l
  end.

(** [on_frame_(frame)], with the sends the handler makes. *)
Definition handle_one (frame : Bytes) (ws : list WriteResult) (l : Link) : Link * list WriteResult :=
  let '(h, outs) := on_frame_ frame (lk_state l) in
  send_all outs ws (mkLink ((lk_server l) <| sv_trace ::= fun t => t <| tr_handled ::= fun f => f ++ [frame] |> |>) h).

(** The dispatch loop; every round that goes on takes a frame out of the reader, so one more
    than the bytes buffered is enough fuel. *)
Fixpoint dispatch_fuel (fuel : nat) (ws : list WriteResult) (l : Link) : Link * list WriteResult :=
  match fuel with
  | O => (l, ws)
  | S fuel =>
      if negb (sv_client (lk_server l)) then (l, ws)
      else
        let '(frame, buf) := next (sv_reader (lk_server l)) in
        let l := l <| lk_server ::= fun s => s <| sv_reader := buf |> |> in
        match frame with
        | None => (l, ws)
        | Some [] => dispatch_fuel fuel ws l
        | Some frame => let '(l, ws) := handle_one frame ws l in dispatch_fuel fuel ws l
        end
  end.

Definition dispatch (ws : list WriteResult) (l : Link) : Link * list WriteResult :=
  dispatch_fuel (S (length (sv_reader (lk_server l)))) ws l.

Definition feed_reader (b : Bytes) (s : Server) : Server :=
  s <| sv_reader ::= fun buf => feed buf b |> <| sv_trace ::= fun t => t <| tr_in ::= fun i => i ++ b |> |>.

(** The read loop; the flag says that the function has returned. [rs]: what successive calls
    of [read] return; would-block once they are used up. *)
Fixpoint read_loop (rs : list ReadResult) (ws : list WriteResult) (l : Link) : bool * Link * list WriteResult :=
  match rs with
  | [] | ReadAgain :: _ => (false, l, ws)
  | ReadIntr :: rs => read_loop rs ws l
  | ReadError :: _ => (true, drop_client l, ws)
  | ReadData [] :: _ => (true, drop_client l, ws)
  | ReadData b :: rs =>
      let '(l, ws) := dispatch ws (l <| lk_server ::= feed_reader b |>) in
      if negb (sv_client (lk_server l)) then (true, l, ws)
      else if (length b <? kReadSize)%nat then (false, l, ws)
      else read_loop rs ws l
  end.

Definition on_client_ready (revents : Z) (rs : list ReadResult) (ws : list WriteResult) (l : Link) : Link :=
  if has_event revents (Z.lor POLLERR POLLNVAL) then drop_client l
  else
    let '(l, ws) := if has_event revents POLLOUT then server_flush ws l else (l, ws) in
    if negb (sv_client (lk_server l)) then l
    else
      let '(returned, l, ws) := if has_event revents POLLIN then read_loop rs ws l else (false, l, ws) in
      if returned then l
      else if has_event revents POLLHUP && sv_client (lk_server l) then drop_client l else l.

(** [accepted]: [None] when [accept] fails, otherwise whether the new descriptor could be
    made non-blocking. *)
Definition accept_client (accepted : option bool) (l : Link) : Link :=
  match accepted with
  | None => l
  | Some nonblocking =>
      let l := if sv_client (lk_server l) then drop_client l else l in
      if negb nonblocking then l
      else
        mkLink ((lk_server l) <| sv_client := true |> <| sv_reader := [] |> <| sv_out := [] |> <| sv_events := POLLIN |>
                              <| sv_trace := no_trace |>)
          (on_connect_ (lk_state l))
  end.

Definition on_listen_ready (revents : Z) (accepted : option bool) (l : Link) : Link :=
  if has_event revents POLLIN then accept_client accepted l else l.
End server.

(** ** The endpoint

    What the socket's path names, and whether another process holds the lock beside it. *)
Inductive PathNode := NoEntry | SocketNode (dev ino : Z) | OtherNode.

#[export] Instance PathNode_eq_dec : EqDecision PathNode.
Proof. solve_decision. Defined.

Record Endpoint := mkEndpoint { ep_path : PathNode; ep_locked_elsewhere : bool }.

#[export] Instance eta_Endpoint : Eta Endpoint := fun e => mkEndpoint (ep_path e) (ep_locked_elsewhere e).

(** Which system calls succeed; [uc_bound] is the identity of the socket [bind] makes. *)
Record UnixCalls := mkUnixCalls {
  uc_open : bool;
  uc_regular : bool;
  uc_fchown : bool;
  uc_fchmod : bool;
  uc_lstat : bool;
  uc_unlink : bool;
  uc_socket : bool;
  uc_bound : option (Z * Z);
  uc_lstat_bound : bool;
  uc_chown : bool;
  uc_chmod : bool;
  uc_listen : bool;
  uc_nonblocking : bool;
  uc_lstat_cleanup : bool;
  uc_unlink_cleanup : bool }.

(** [sizeof(sockaddr_un::sun_path)] *)
Definition kSunPathSize : nat := 108.

Definition cleanup_unix_path (lstat_ok unlink_ok : bool) (e : Endpoint) (s : Server) : Endpoint * Server :=
  if negb (sv_owns_path s) then (e, s)
  else
    let ours := match ep_path e with
                | SocketNode dev ino => lstat_ok && (dev =? sv_path_dev s) && (ino =? sv_path_ino s)
                | _ => false
                end in
    (if ours && unlink_ok then e <| ep_path := NoEntry |> else e,
     s <| sv_owns_path := false |> <| sv_path_dev := 0 |> <| sv_path_ino := 0 |>).

Definition close_lock (s : Server) : Server := s <| sv_lock := false |>.
Definition close_listen (s : Server) : Server := s <| sv_listen := false |>.

(** The failure exits after [bind]. *)
Definition abandon (c : UnixCalls) (e : Endpoint) (s : Server) : bool * Endpoint * Server :=
  let '(e, s) := cleanup_unix_path (uc_lstat_cleanup c) (uc_unlink_cleanup c) e (close_listen s) in
  (false, e, close_lock s).

Definition start_unix (c : UnixCalls) (e : Endpoint) (s : Server) : bool * Endpoint * Server :=
  let path := op_socket_path (sv_opts s) in
  if beq path [] then (false, e, s)
  else if (kSunPathSize <=? length path)%nat then (false, e, s)
  else if negb (uc_open c) then (false, e, s)
  else
    let s := s <| sv_lock := true |> in
    if negb (uc_regular c) then (false, e, close_lock s)
    else if negb (uc_fchown c) then (false, e, close_lock s)
    else if negb (uc_fchmod c) then (false, e, close_lock s)
    else if ep_locked_elsewhere e then (false, e, close_lock s)
    else if negb (uc_lstat c) then (false, e, close_lock s)
    else match ep_path e with
         | OtherNode => (false, e, close_lock s)
         | node =>
             if (match node with SocketNode _ _ => negb (uc_unlink c) | _ => false end) then (false, e, close_lock s)
             else
               let e := e <| ep_path := NoEntry |> in
               if negb (uc_socket c) then (false, e, close_lock s)
               else
                 let s := s <| sv_listen := true |> in
                 match uc_bound c with
                 | None => (false, e, close_lock (close_listen s))
                 | Some (dev, ino) =>
                     let e := e <| ep_path := SocketNode dev ino |> in
                     let s := s <| sv_owns_path := true |> in
                     if negb (uc_lstat_bound c) then abandon c e s
                     else
                       let s := s <| sv_path_dev := dev |> <| sv_path_ino := ino |> in
                       if negb (uc_chown c) then abandon c e s
                       else if negb (uc_chmod c) then abandon c e s
                       else if negb (uc_listen c) then abandon c e s
                       else if negb (uc_nonblocking c) then abandon c e s
                       else (true, e, s)
                 end
         end.

(** [tc_port]: what [getsockname] reports. *)
Record TcpCalls := mkTcpCalls {
  tc_parsed : bool;
  tc_socket : bool;
  tc_bind : bool;
  tc_port : option Z;
  tc_listen : bool;
  tc_nonblocking : bool }.

Definition start_tcp (c : TcpCalls) (s : Server) : bool * Server :=
  let addr := op_bind_addr (sv_opts s) in
  if negb (beq addr [] || beq addr (lit "0.0.0.0")) && negb (tc_parsed c) then (false, s)
  else if negb (tc_socket c) then (false, s)
  else
    let s := s <| sv_listen := true |> in
    if negb (tc_bind c) then (false, close_listen s)
    else
      let '(named, s) :=
        if op_port (sv_opts s) =? 0
        then match tc_port c with
             | None => (false, s)
             | Some port => (true, s <| sv_opts ::= fun o => o <| op_port := port |> |>)
             end
        else (true, s) in
      if negb named then (false, close_listen s)
      else if negb (tc_listen c) then (false, close_listen s)
      else if negb (tc_nonblocking c) then (false, close_listen s)
      else (true, s).

Definition server_start (uc : UnixCalls) (tc : TcpCalls) (e : Endpoint) (s : Server) : bool * Endpoint * Server :=
  if sv_listen s then (false, e, s)
  else match op_transport (sv_opts s) with
       | Unix => start_unix uc e s
       | Tcp => let '(ok, s) := start_tcp tc s in (ok, e, s)
       end.

Definition shutdown {H} (on_disconnect_ : H -> H) (lstat_ok unlink_ok : bool) (e : Endpoint) (l : Link (H := H)) :
    Endpoint * Link :=
  let l := if sv_client (lk_server l) then drop_client on_disconnect_ l else l in
  let '(e, s) := cleanup_unix_path lstat_ok unlink_ok e (close_listen (lk_server l)) in
  (e, mkLink (close_lock s) (lk_state l)).
