(* ===== verification/ServerFacts.v ===== *)
(** * What the companion server guarantees

    The stream of each connection: what the handler is given is the frames of the bytes read,
    what goes out is the frames queued, the buffer stays within its limit and is watched for
    writability while it is not empty; and the endpoint's path is never taken from another
    daemon. *)

From S2P Require Import Prelude ByteIO Floats Crypto Identity Packet Payloads Radio.
From S2P Require Import Dispatcher Record Persist Contacts Channels Inbox Sender Node.
From S2P Require Import Frames CText Ini DaemonConfig Server.

(** The frames that reach the handler: the dispatch loop passes over empty ones. *)
Definition spoken (fs : list Bytes) : list Bytes := List.filter (fun f => negb (beq f [])) fs.

Lemma spoken_app a b : spoken (a ++ b) = spoken a ++ spoken b.
Proof. apply filter_app. Qed.

(** The current connection, as far as it got. *)
Record stream_ok (s : Server) : Prop := {
  st_out : tr_wire (sv_trace s) ++ sv_out s = concat (map frame_response (tr_queued (sv_trace s)));
  st_limit : zlen (sv_out s) <= op_max_outbound_bytes (sv_opts s);
  st_in : spoken (drain (tr_in (sv_trace s))).1 = tr_handled (sv_trace s) ++ spoken (drain (sv_reader s)).1 /\
          (drain (tr_in (sv_trace s))).2 = (drain (sv_reader s)).2 }.

Record server_ok (s : Server) : Prop := {
  sk_limit : 0 <= op_max_outbound_bytes (sv_opts s);
  sk_stream : sv_client s = true -> stream_ok s;
  sk_closed : sv_client s = false -> sv_out s = [] /\ sv_reader s = [] }.

(** Output that waits is waited for. *)
Definition watched (s : Server) : Prop :=
  sv_client s = true -> sv_out s <> [] -> sv_events s = Z.lor POLLIN POLLOUT.

(** Nothing deliverable is left in the reader. *)
Definition settled (s : Server) : Prop := drain (sv_reader s) = ([], sv_reader s).

Section facts.
Context {H : Type} (on_frame_ : Bytes -> H -> H * list Bytes) (on_connect_ on_disconnect_ : H -> H).
Implicit Types l : Link (H := H).

Abbreviation drop_client := (drop_client on_disconnect_).
Abbreviation server_flush := (server_flush on_disconnect_).
Abbreviation server_send := (server_send on_disconnect_).
Abbreviation send_all := (send_all on_disconnect_).
Abbreviation handle_one := (handle_one on_frame_ on_disconnect_).
Abbreviation dispatch_fuel := (dispatch_fuel on_frame_ on_disconnect_).
Abbreviation read_loop := (read_loop on_frame_ on_disconnect_).
Abbreviation on_client_ready := (on_client_ready on_frame_ on_disconnect_).

Definition good l : Prop := server_ok (lk_server l) /\ watched (lk_server l).

(** Sending does not touch the reader, unless it drops the client. *)
Definition same_reader l l' : Prop :=
  sv_opts (lk_server l') = sv_opts (lk_server l) /\
  (sv_client (lk_server l') = false \/ sv_reader (lk_server l') = sv_reader (lk_server l)).

Lemma same_reader_trans l1 l2 l3 : same_reader l1 l2 -> same_reader l2 l3 ->
  sv_client (lk_server l1) = true -> (sv_client (lk_server l2) = false -> l3 = l2) -> same_reader l1 l3.
Proof.
  intros [Ho1 [H1|H1]] [Ho2 H2] _ Hd; (split; [congruence|]).
  - rewrite (Hd H1). by left.
  - destruct H2 as [H2|H2]; [by left|right; congruence].
Qed.

Lemma drop_good l : server_ok (lk_server l) -> good (drop_client l) /\ same_reader l (drop_client l) /\
  sv_client (lk_server (drop_client l)) = false.
Proof.
  intros Hok. unfold Server.drop_client. destruct (sv_client (lk_server l)) eqn:E; cbn [negb].
  - split; [|split; [split; [done|by left]|done]]. pose proof (sk_limit _ Hok). split; cbn; [split; cbn; done|done].
  - split; [|split; [split; [done|by left]|done]]. split; [done|intros ?; congruence].
Qed.

(** Dropped links stay as they are. *)
Lemma flush_closed ws l : sv_client (lk_server l) = false -> server_flush ws l = (l, ws).
Proof. intros E. destruct ws; cbn; by rewrite E. Qed.

Lemma written_ok n l :
  server_ok (lk_server l) -> (n <= length (sv_out (lk_server l)))%nat -> server_ok (l <| lk_server ::= written n |>).(lk_server).
Proof.
  intros [Hl Hs Hc] Hn. split; [done| |]; cbn.
  - intros E. destruct (Hs E) as [Ho Hb Hi]. split; cbn; [|rewrite <- (take_drop n (sv_out (lk_server l))), zlen_app in Hb;
      pose proof (zlen_nonneg (take n (sv_out (lk_server l)))); lia|done].
    by rewrite <- app_assoc, take_drop.
  - intros E. destruct (Hc E) as [-> ->]. by rewrite drop_nil.
Qed.

Lemma events_ok v l : server_ok (lk_server l) -> server_ok (lk_server (update_events v l)).
Proof.
  intros [Hl Hs Hc]. split; [done| |done]. cbn. intros E. destruct (Hs E). by split.
Qed.

Lemma flush_good ws : forall l,
  server_ok (lk_server l) -> good (server_flush ws l).1 /\ same_reader l (server_flush ws l).1.
Proof.
  induction ws as [|w ws IH]; intros l Hok; cbn [Server.server_flush].
  - destruct (sv_client (lk_server l)) eqn:E; cbn [negb fst]; [|split; [split; [done|intros ?; congruence]|by split; [|right]]].
    destruct (sv_out (lk_server l)) as [|b out] eqn:Eo; (split; [split; [by apply events_ok|]|by split; [|right]]).
    + intros _ Hne. cbn in Hne. congruence.
    + done.
  - destruct (sv_client (lk_server l)) eqn:E; cbn [negb fst]; [|split; [split; [done|intros ?; congruence]|by split; [|right]]].
    destruct (sv_out (lk_server l)) as [|b out] eqn:Eo.
    { split; [split; [by apply events_ok|]|by split; [|right]]. intros _ Hne. cbn in Hne. congruence. }
    destruct w as [k| | |].
    + rewrite <- Eo. set (n := Nat.min (S k) (length (sv_out (lk_server l)))).
      destruct (IH (l <| lk_server ::= written n |>)) as [Hg Hr]; [apply written_ok; [done|subst n; lia]|]. done.
    + split; [split; [by apply events_ok|done]|by split; [|right]].
    + by apply IH.
    + cbn [fst]. destruct (drop_good l Hok) as (Hg & Hr & _). done.
Qed.

Lemma frame_response_length p : zlen (frame_response p) = 3 + zlen p.
Proof. unfold frame_response, put_bytes, put_u16. rewrite !zlen_app. done. Qed.

Lemma queue_ok payload l :
  server_ok (lk_server l) -> sv_client (lk_server l) = true ->
  outbound_buffer_has_capacity (zlen (sv_out (lk_server l))) (zlen (frame_response payload))
    (op_max_outbound_bytes (sv_opts (lk_server l))) = true ->
  server_ok (lk_server (l <| lk_server ::= queue_frame payload |>)).
Proof.
  intros [Hl Hs Hc] E Hcap. destruct (Hs E) as [Ho Hb Hi]. unfold outbound_buffer_has_capacity in Hcap.
  apply andb_true_iff in Hcap as [Hc1%Z.leb_le Hc2%Z.leb_le].
  split; [done| |by cbn; intros ?; congruence]. intros _. split; cbn -[frame_response]; [|rewrite zlen_app; lia|done].
  rewrite app_assoc, Ho, map_app, concat_app. cbn -[frame_response]. by rewrite app_nil_r.
Qed.

Lemma send_good payload ws l :
  good l -> good (server_send payload ws l).1 /\ same_reader l (server_send payload ws l).1.
Proof.
  intros [Hok Hw]. unfold Server.server_send. destruct (sv_client (lk_server l)) eqn:E; cbn [negb]; [|by split; [|split; [|right]]].
  destruct (outbound_buffer_has_capacity _ _ _) eqn:Hcap; cbn [negb].
  - destruct (flush_good ws (l <| lk_server ::= queue_frame payload |>)) as [Hg Hr]; [by apply queue_ok|]. split; [done|exact Hr].
  - destruct (drop_good l Hok) as (Hg & Hr & _). done.
Qed.

Lemma send_closed payload ws l : sv_client (lk_server l) = false -> server_send payload ws l = (l, ws).
Proof. intros E. unfold Server.server_send. by rewrite E. Qed.

Lemma send_all_closed payloads : forall ws l, sv_client (lk_server l) = false -> send_all payloads ws l = (l, ws).
Proof.
  induction payloads as [|p payloads IH]; intros ws l E; cbn [Server.send_all]; [done|]. rewrite send_closed by done. by apply IH.
Qed.

Lemma send_all_good payloads : forall ws l, good l -> good (send_all payloads ws l).1 /\ same_reader l (send_all payloads ws l).1.
Proof.
  induction payloads as [|p payloads IH]; intros ws l Hg; cbn [Server.send_all]; [by split; [|split; [|right]]|].
  destruct (send_good p ws l Hg) as [Hg1 Hr1]. destruct (server_send p ws l) as [l1 ws1] eqn:Es. cbn [fst] in *.
  destruct (IH ws1 l1 Hg1) as [Hg2 Hr2]. split; [done|].
  destruct (sv_client (lk_server l)) eqn:E.
  - eapply same_reader_trans; [exact Hr1|exact Hr2|done|]. intros E1. by rewrite send_all_closed.
  - rewrite send_closed in Es by done. injection Es as <- <-. by rewrite send_all_closed in Hr2 |- *.
Qed.

(** Taking one frame out of the reader, and handing it over unless it is empty. *)
Definition taken (frame buf : Bytes) (s : Server) : Server :=
  s <| sv_reader := buf |> <| sv_trace ::= fun t => t <| tr_handled ::= fun f => f ++ spoken [frame] |> |>.

Lemma taken_ok frame buf s :
  server_ok s -> watched s -> sv_client s = true -> next (sv_reader s) = (Some frame, buf) ->
  server_ok (taken frame buf s) /\ watched (taken frame buf s).
Proof.
  intros [Hl Hs Hc] Hw E Hn. destruct (Hs E) as [Ho Hb [Hi1 Hi2]]. split; [|done]. split; [done| |by cbn; intros ?; congruence].
  intros _. split; [exact Ho|exact Hb|]. cbn -[drain]. rewrite (drain_unfold (sv_reader s)), Hn in Hi1, Hi2. destruct (drain buf) as [fs r].
  cbn [fst snd] in *. split; [|done]. rewrite Hi1. change (frame :: fs) with ([frame] ++ fs). by rewrite spoken_app, app_assoc.
Qed.

Lemma settled_reader b buf : drain b = ([], buf) -> drain buf = ([], buf).
Proof. intros E. destruct (drain_rest _ _ _ E) as [Hw Hj]. by rewrite drain_pass, Hj, Hw. Qed.

Lemma dispatch_good fuel : forall ws l,
  good l -> (length (sv_reader (lk_server l)) < fuel)%nat ->
  good (dispatch_fuel fuel ws l).1 /\ settled (lk_server (dispatch_fuel fuel ws l).1).
Proof.
  induction fuel as [|fuel IH]; intros ws l [Hok Hw] Hf; [lia|]. cbn [Server.dispatch_fuel].
  destruct (sv_client (lk_server l)) eqn:E; cbn [negb].
  2: { split; [done|]. unfold settled. cbn [fst]. by rewrite (proj2 (sk_closed _ Hok E)). }
  destruct (next (sv_reader (lk_server l))) as [[frame|] buf] eqn:Hn.
  - pose proof (next_smaller _ _ _ Hn) as Hlt. destruct (taken_ok frame buf _ Hok Hw E Hn) as [Ht1 Ht2].
    destruct frame as [|b frame].
    + apply IH; [|cbn; lia]. split; [|exact Ht2].
      destruct l as [s h]. cbn in *. unfold taken in Ht1. cbn in Ht1. destruct Ht1 as [? Hs ?]. split; [done| |done]. intros E'.
      destruct (Hs E') as [? ? Hi]. split; [done|done|]. cbn in Hi. by rewrite app_nil_r in Hi.
    + unfold Server.handle_one. change (lk_state (l <| lk_server ::= ?f |>)) with (lk_state l).
      destruct (on_frame_ (b :: frame) (lk_state l)) as [h outs].
      match goal with |- context [send_all outs ws ?l1] => set (l2 := l1) end.
      assert (good l2) as Hg2 by (split; [exact Ht1|exact Ht2]).
      destruct (send_all_good outs ws l2 Hg2) as [Hg3 [_ Hr3]]. destruct (send_all outs ws l2) as [l3 ws3]. cbn [fst] in *.
      apply IH; [done|]. destruct Hr3 as [Hc3|Hr3]; [|rewrite Hr3; cbn; lia].
      rewrite (proj2 (sk_closed _ (proj1 Hg3) Hc3)). cbn. lia.
  - pose proof (drain_unfold (sv_reader (lk_server l))) as Hd. rewrite Hn in Hd.
    pose proof (settled_reader _ _ Hd) as Hset. split; [|exact Hset].
    destruct Hok as [Hl Hs Hc]. destruct (Hs E) as [Ho Hb [Hi1 Hi2]]. split; [|done]. split; [done| |by cbn; intros ?; congruence].
    intros _. split; [exact Ho|exact Hb|]. cbn -[drain]. by rewrite Hset, Hi1, Hi2, Hd.
Qed.

Lemma feed_ok b s : server_ok s -> watched s -> sv_client s = true -> server_ok (feed_reader b s) /\ watched (feed_reader b s).
Proof.
  intros [Hl Hs Hc] Hw E. destruct (Hs E) as [Ho Hb [Hi1 Hi2]]. split; [|done]. split; [done| |by cbn; intros ?; congruence].
  intros _. split; [exact Ho|exact Hb|]. cbn -[drain]. unfold feed. rewrite !drain_app.
  destruct (drain (tr_in (sv_trace s))) as [fs r], (drain (sv_reader s)) as [gs r2]. cbn [fst snd] in Hi1, Hi2. subst r2.
  destruct (drain (r ++ b)) as [fs' r']. cbn [fst snd]. by rewrite !spoken_app, Hi1, app_assoc.
Qed.

Definition fine l : Prop := good l /\ settled (lk_server l).

Lemma closed_fine l : good l -> sv_client (lk_server l) = false -> fine l.
Proof. intros Hg E. split; [done|]. unfold settled. by rewrite (proj2 (sk_closed _ (proj1 Hg) E)). Qed.

Lemma drop_fine l : good l -> fine (drop_client l).
Proof. intros Hg. destruct (drop_good l (proj1 Hg)) as (Hd & _ & E). by apply closed_fine. Qed.

Lemma flush_fine ws l : fine l -> fine (server_flush ws l).1.
Proof.
  intros [[Hok Hw] Hset]. destruct (flush_good ws l Hok) as [Hg [_ [E|Hr]]]; [by apply closed_fine|].
  split; [done|]. unfold settled. by rewrite Hr.
Qed.

Lemma send_fine payload ws l : fine l -> fine (server_send payload ws l).1.
Proof.
  intros [Hg Hset]. destruct (send_good payload ws l Hg) as [Hg' [_ [E|Hr]]]; [by apply closed_fine|].
  split; [done|]. unfold settled. by rewrite Hr.
Qed.

Lemma read_loop_fine rs : forall ws l,
  fine l -> sv_client (lk_server l) = true -> fine (read_loop rs ws l).1.2.
Proof.
  induction rs as [|r rs IH]; intros ws l Hf E; [done|]. destruct Hf as [[Hok Hw] Hset].
  destruct r as [b| | |]; cbn [Server.read_loop fst snd].
  - destruct b as [|c b]; [by apply drop_fine|]. destruct (feed_ok (c :: b) _ Hok Hw E) as [H1 H2].
    set (l1 := l <| lk_server ::= feed_reader (c :: b) |>).
    destruct (dispatch_good (S (length (sv_reader (lk_server l1)))) ws l1) as [Hg Hst]; [by split|lia|].
    unfold dispatch. destruct (dispatch_fuel _ ws l1) as [l2 ws2]. cbn [fst] in *.
    destruct (sv_client (lk_server l2)) eqn:E2; cbn [negb fst snd]; [|done].
    destruct (_ <? _)%nat; [done|]. by apply IH.
  - done.
  - by apply IH.
  - by apply drop_fine.
Qed.

Lemma client_ready_fine revents rs ws l : fine l -> fine (on_client_ready revents rs ws l).
Proof.
  intros Hf. unfold Server.on_client_ready. destruct (has_event _ _); [apply drop_fine, Hf|].
  assert (forall o : Link * list WriteResult, fine o.1 ->
    fine (let '(l, ws) := o in
      if negb (sv_client (lk_server l)) then l
      else let '(returned, l, ws) := if has_event revents POLLIN then read_loop rs ws l else (false, l, ws) in
           if returned then l else if has_event revents POLLHUP && sv_client (lk_server l) then drop_client l else l)) as Hgo.
  { intros [l1 ws1] Hf1. cbn [fst] in Hf1. destruct (sv_client (lk_server l1)) eqn:E; cbn [negb]; [|done].
    assert (fine (if has_event revents POLLIN then read_loop rs ws1 l1 else (false, l1, ws1)).1.2) as Hf2
      by (destruct (has_event _ _); [by apply read_loop_fine|done]).
    destruct (if has_event revents POLLIN then _ else _) as [[ret l2] ws2]. cbn [fst snd] in Hf2.
    destruct ret; [done|]. destruct (_ && _); [apply drop_fine, Hf2|done]. }
  apply Hgo. destruct (has_event revents POLLOUT); [by apply flush_fine|done].
Qed.

Lemma accept_fine accepted l : fine l -> fine (accept_client on_connect_ on_disconnect_ accepted l).
Proof.
  intros Hf. unfold accept_client. destruct accepted as [nb|]; [|done].
  set (l1 := if sv_client (lk_server l) then drop_client l else l).
  assert (fine l1) as Hf1 by (subst l1; destruct (sv_client _); [apply drop_fine, Hf|done]). clearbody l1.
  destruct nb; cbn [negb]; [|done]. destruct Hf1 as [[[Hl _ _] _] _].
  split; [|by unfold settled]. split; [|by intros _ Hne]. split; [exact Hl| |done]. intros _. by split.
Qed.

(** ** Runs *)

Inductive LinkEvent :=
| LListen (revents : Z) (accepted : option bool)                                     (** the listening socket *)
| LClient (revents : Z) (rs : list ReadResult) (ws : list WriteResult)               (** the client's socket *)
| LSend (payload : Bytes) (ws : list WriteResult)                                    (** a push *)
| LState (h : H).                                                                    (** the rest of the daemon *)

Definition on_link (ev : LinkEvent) l : Link :=
  match ev with
  | LListen revents accepted => on_listen_ready on_connect_ on_disconnect_ revents accepted l
  | LClient revents rs ws => on_client_ready revents rs ws l
  | LSend payload ws => (server_send payload ws l).1
  | LState h => l <| lk_state := h |>
  end.

Lemma on_link_fine ev l : fine l -> fine (on_link ev l).
Proof.
  intros Hf. destruct ev; cbn [on_link].
  - unfold on_listen_ready. destruct (has_event _ _); [by apply accept_fine|done].
  - by apply client_ready_fine.
  - by apply send_fine.
  - exact Hf.
Qed.

Lemma run_fine evs : forall l, fine l -> fine (fold_left (fun l ev => on_link ev l) evs l).
Proof. induction evs as [|ev evs IH]; intros l Hf; cbn [fold_left]; [done|]. by apply IH, on_link_fine. Qed.

Lemma initial_fine opts h : 0 <= op_max_outbound_bytes opts -> fine (mkLink (make_server opts) h).
Proof. intros Hl. split; [|done]. split; [|done]. by split. Qed.

Lemma drain_responses ps :
  Forall (fun p => zlen p <= kMaxFrameSize) ps -> drain (concat (map frame_response ps)) = (ps, []).
Proof.
  induction 1 as [|p ps Hp _ IH]; [done|].
  change (concat (map frame_response (p :: ps))) with (frame kFrameToApp p ++ concat (map frame_response ps)).
  by rewrite drain_frame, IH.
Qed.
End facts.

(** C9. The server carries two exact streams of frames, however the kernel cuts them: whatever the sockets do, on the
    current connection the session has been given exactly the frames of the bytes the app sent, in order and once
    each; what the app can decode of the bytes written is a prefix of the replies and pushes, all of them once the
    buffer is empty; the buffer is within its limit, and while it holds anything the socket is watched for
    writability. *)
Theorem server_carries_streams {H} (on_frame_ : Bytes -> H -> H * list Bytes) (on_connect_ on_disconnect_ : H -> H) opts h evs :
  0 <= op_max_outbound_bytes opts ->
  let s := lk_server (fold_left (fun l ev => on_link on_frame_ on_connect_ on_disconnect_ ev l) evs (mkLink (make_server opts) h)) in
  sv_client s = true ->
  let t := sv_trace s in
  tr_handled t = spoken (drain (tr_in t)).1 /\
  (Forall (fun p => zlen p <= kMaxFrameSize) (tr_queued t) ->
   (drain (tr_wire t)).1 `prefix_of` tr_queued t /\ (sv_out s = [] -> drain (tr_wire t) = (tr_queued t, []))) /\
  zlen (sv_out s) <= op_max_outbound_bytes (sv_opts s) /\
  (sv_out s <> [] -> sv_events s = Z.lor POLLIN POLLOUT).
Proof.
  intros Hl s E t. destruct (run_fine on_frame_ on_connect_ on_disconnect_ evs _ (initial_fine opts h Hl)) as [[Hok Hw] Hset].
  fold s in Hok, Hw, Hset. destruct (sk_stream _ Hok E) as [Ho Hb [Hi _]]. fold t in Ho, Hi. split_and!.
  - rewrite Hset in Hi. cbn in Hi. by rewrite app_nil_r in Hi.
  - intros Hp. pose proof (drain_responses _ Hp) as Hd. rewrite <- Ho in Hd. split.
    + rewrite drain_app in Hd. destruct (drain (tr_wire t)) as [fs r]. destruct (drain (r ++ sv_out s)) as [fs' r'].
      injection Hd as <- _. by exists fs'.
    + intros E0. by rewrite E0, app_nil_r in Hd.
  - done.
  - by apply Hw.
Qed.

(** ** Serving commands *)

Section serving.
Context {H : Type} (on_frame_ : Bytes -> H -> H * list Bytes) (on_connect_ on_disconnect_ : H -> H).
Implicit Types l : Link (H := H).

(** The handler run over frames, with everything it sends. *)
Fixpoint run_handler (fs : list Bytes) (h : H) : H * list Bytes :=
  match fs with
  | [] => (h, [])
  | f :: fs => let '(h, out) := on_frame_ f h in let '(h, outs) := run_handler fs h in (h, out ++ outs)
  end.

(** Unless the client was dropped: the state is [h], and [qs] was queued. *)
Definition after l (h : H) (qs : list Bytes) l' : Prop :=
  sv_client (lk_server l') = true ->
  sv_client (lk_server l) = true /\ lk_state l' = h /\
  tr_queued (sv_trace (lk_server l')) = tr_queued (sv_trace (lk_server l)) ++ qs.

Lemma drop_after l h qs : after l h qs (drop_client on_disconnect_ l).
Proof. unfold after, drop_client. destruct (sv_client (lk_server l)) eqn:E; cbn [negb]; cbn; congruence. Qed.

Lemma flush_after ws : forall l, after l (lk_state l) [] (server_flush on_disconnect_ ws l).1.
Proof.
  assert (forall l, sv_client (lk_server l) = true -> after l (lk_state l) [] l) as Hsame by (intros l E _; by rewrite app_nil_r).
  induction ws as [|w ws IH]; intros l; cbn [server_flush]; (destruct (sv_client (lk_server l)) eqn:E; cbn [negb fst];
    [|intros ?; congruence]); destruct (sv_out (lk_server l)) as [|b out] eqn:Eo; try by apply (Hsame l).
  destruct w as [k| | |]; cbn [fst].
  - intros E'. destruct (IH _ E') as (_ & Hs & Hq). split_and!; [done|by rewrite Hs|by rewrite Hq].
  - by apply (Hsame l).
  - intros E'. destruct (IH _ E') as (_ & Hs & Hq). done.
  - apply drop_after.
Qed.

Lemma send_after p ws l : after l (lk_state l) [p] (server_send on_disconnect_ p ws l).1.
Proof.
  unfold server_send. destruct (sv_client (lk_server l)) eqn:E; cbn [negb fst]; [|intros ?; congruence].
  destruct (outbound_buffer_has_capacity _ _ _); cbn [negb fst]; [|apply drop_after].
  intros E'. destruct (flush_after ws (l <| lk_server ::= queue_frame p |>) E') as (_ & Hs & Hq).
  split_and!; [done|by rewrite Hs|]. rewrite Hq. by rewrite app_nil_r.
Qed.

Lemma after_trans l1 h1 q1 l2 h2 q2 l3 : after l1 h1 q1 l2 -> after l2 h2 q2 l3 -> after l1 h2 (q1 ++ q2) l3.
Proof.
  intros H1 H2 E3. destruct (H2 E3) as (E2 & Hs2 & Hq2). destruct (H1 E2) as (E1 & Hs1 & Hq1).
  split_and!; [done|done|]. by rewrite Hq2, Hq1, app_assoc.
Qed.

Lemma send_all_after ps : forall ws l, after l (lk_state l) ps (send_all on_disconnect_ ps ws l).1.
Proof.
  induction ps as [|p ps IH]; intros ws l; cbn [send_all fst]; [intros E; by rewrite app_nil_r|].
  pose proof (send_after p ws l) as H1. destruct (server_send on_disconnect_ p ws l) as [l1 ws1]. cbn [fst] in H1.
  pose proof (IH ws1 l1) as H2. intros E. destruct (H2 E) as (E1 & Hs2 & Hq2). destruct (H1 E1) as (E0 & Hs1 & Hq1).
  split_and!; [done|congruence|]. by rewrite Hq2, Hq1, <- app_assoc.
Qed.

Lemma send_all_reader ps ws l :
  good l -> sv_client (lk_server (send_all on_disconnect_ ps ws l).1) = true ->
  good (send_all on_disconnect_ ps ws l).1 /\ sv_reader (lk_server (send_all on_disconnect_ ps ws l).1) = sv_reader (lk_server l).
Proof.
  intros Hg E. destruct (send_all_good on_disconnect_ ps ws l Hg) as [Hg' [_ [E'|Hr]]]; [congruence|done].
Qed.

Lemma dispatch_closed fuel ws l :
  sv_client (lk_server l) = false -> dispatch_fuel on_frame_ on_disconnect_ fuel ws l = (l, ws).
Proof. intros E. destruct fuel; cbn; [done|]. by rewrite E. Qed.

Lemma dispatch_after fuel : forall ws l,
  good l -> (length (sv_reader (lk_server l)) < fuel)%nat ->
  let '(h, outs) := run_handler (spoken (drain (sv_reader (lk_server l))).1) (lk_state l) in
  after l h outs (dispatch_fuel on_frame_ on_disconnect_ fuel ws l).1.
Proof.
  induction fuel as [|fuel IH]; intros ws l [Hok Hw] Hf; [lia|]. cbn [dispatch_fuel].
  destruct (sv_client (lk_server l)) eqn:E; cbn [negb].
  2: { destruct (run_handler _ _). cbn [fst]. intros ?. congruence. }
  rewrite (drain_unfold (sv_reader (lk_server l))).
  destruct (next (sv_reader (lk_server l))) as [[frame|] buf] eqn:Hn.
  2: { cbn. intros _. by rewrite app_nil_r. }
  pose proof (next_smaller _ _ _ Hn) as Hlt. destruct (taken_ok frame buf _ Hok Hw E Hn) as [Ht1 Ht2].
  destruct (drain buf) as [fs r] eqn:Hd. cbn [fst]. destruct frame as [|b frame].
  - set (l1 := l <| lk_server ::= _ |>).
    assert (good l1) as Hg1.
    { split; [|exact Ht2]. subst l1. destruct l as [s h]. cbn in *. destruct Ht1 as [? Hs ?]. split; [done| |done]. intros E'.
      destruct (Hs E') as [? ? Hi]. split; [done|done|]. cbn in Hi. by rewrite app_nil_r in Hi. }
    specialize (IH ws l1 Hg1 ltac:(cbn; lia)). change (sv_reader (lk_server l1)) with buf in IH. rewrite Hd in IH.
    change (spoken ([] :: fs)) with (spoken fs). change (lk_state l1) with (lk_state l) in IH.
    cbn [fst] in IH. destruct (run_handler (spoken fs) (lk_state l)) as [h outs]. exact IH.
  - change (spoken ((b :: frame) :: fs)) with ((b :: frame) :: spoken fs). cbn [run_handler].
    unfold handle_one. change (lk_state (l <| lk_server ::= ?f |>)) with (lk_state l).
    destruct (on_frame_ (b :: frame) (lk_state l)) as [h out].
    match goal with |- context [send_all _ out ws ?l1] => set (l2 := l1) end.
    assert (good l2) as Hg2 by (split; [exact Ht1|exact Ht2]).
    pose proof (send_all_after out ws l2) as Ha. pose proof (send_all_reader out ws l2 Hg2) as Hr.
    destruct (send_all on_disconnect_ out ws l2) as [l3 ws3]. cbn [fst] in Ha, Hr.
    destruct (run_handler (spoken fs) h) as [h' outs'] eqn:Hrun.
    destruct (sv_client (lk_server l3)) eqn:E3; [|rewrite dispatch_closed by done; cbn [fst]; intros ?; congruence].
    destruct (Hr eq_refl) as [Hg3 Hrd]. destruct (Ha E3) as (_ & Hs3 & Hq3).
    specialize (IH ws3 l3 Hg3 ltac:(rewrite Hrd; cbn; lia)). rewrite Hrd in IH. change (sv_reader (lk_server l2)) with buf in IH.
    rewrite Hd, Hs3 in IH. cbn [fst] in IH. change (lk_state l2) with h in IH. rewrite Hrun in IH.
    intros E'. destruct (IH E') as (_ & Hs & Hq). split_and!; [done|done|]. by rewrite Hq, Hq3, <- app_assoc.
Qed.
End serving.

(** A readable socket and nothing else. *)
Lemma readable_only {H} (on_frame_ : Bytes -> H -> H * list Bytes) (on_disconnect_ : H -> H) b ws l :
  b <> [] -> (length b < kReadSize)%nat ->
  on_client_ready on_frame_ on_disconnect_ POLLIN [ReadData b] ws l =
    if negb (sv_client (lk_server l)) then l
    else (dispatch on_frame_ on_disconnect_ ws (l <| lk_server ::= feed_reader b |>)).1.
Proof.
  intros Hb Hlen. unfold on_client_ready.
  change (has_event POLLIN (Z.lor POLLERR POLLNVAL)) with false. change (has_event POLLIN POLLOUT) with false.
  change (has_event POLLIN POLLIN) with true. change (has_event POLLIN POLLHUP) with false. cbv iota.
  destruct (sv_client (lk_server l)); cbn [negb]; [|done]. destruct b as [|c b]; [done|]. cbn [read_loop].
  destruct (dispatch _ _ ws _) as [l2 ws2]. cbn [fst].
  destruct (sv_client (lk_server l2)) eqn:E2; cbn [negb]; [|done]. rewrite (proj2 (Nat.ltb_lt _ _) Hlen). done.
Qed.

(** Commands are served in order: when bytes arrive from the app, the session is run over exactly the frames they
    complete, one after the other, and everything it answers is queued in that order; the only other outcome is that
    the client is gone. *)
Theorem commands_served_in_order {H} (on_frame_ : Bytes -> H -> H * list Bytes) (on_connect_ on_disconnect_ : H -> H)
    opts h evs b ws :
  0 <= op_max_outbound_bytes opts -> b <> [] -> (length b < kReadSize)%nat ->
  let l := fold_left (fun l ev => on_link on_frame_ on_connect_ on_disconnect_ ev l) evs (mkLink (make_server opts) h) in
  let l' := on_client_ready on_frame_ on_disconnect_ POLLIN [ReadData b] ws l in
  sv_client (lk_server l') = true ->
  let '(h', outs) := run_handler on_frame_ (spoken (drain (sv_reader (lk_server l) ++ b)).1) (lk_state l) in
  lk_state l' = h' /\ tr_queued (sv_trace (lk_server l')) = tr_queued (sv_trace (lk_server l)) ++ outs.
Proof.
  intros Hl Hb Hlen l l' E'. destruct (run_fine on_frame_ on_connect_ on_disconnect_ evs _ (initial_fine opts h Hl)) as [[Hok Hw] _].
  fold l in Hok, Hw. clearbody l. subst l'. rewrite (readable_only on_frame_ on_disconnect_ b ws l Hb Hlen) in E' |- *.
  destruct (sv_client (lk_server l)) eqn:E; cbn [negb] in E' |- *; [|congruence].
  set (l1 := l <| lk_server ::= feed_reader b |>) in *. destruct (feed_ok b _ Hok Hw E) as [H1 H2].
  pose proof (dispatch_after on_frame_ on_disconnect_ (S (length (sv_reader (lk_server l1)))) ws l1 (conj H1 H2) ltac:(lia)) as Ha.
  change (sv_reader (lk_server l1)) with (sv_reader (lk_server l) ++ b) in Ha at 2. change (lk_state l1) with (lk_state l) in Ha.
  destruct (run_handler _ _ _) as [h' outs]. by destruct (Ha E') as (_ & ? & ?).
Qed.

(** ** The endpoint *)

Definition idle (s : Server) : Prop := sv_listen s = false /\ sv_lock s = false /\ sv_owns_path s = false.

Lemma abandon_idle c e s : let '(ok, _, s') := abandon c e s in ok = false /\ idle s'.
Proof. unfold abandon, cleanup_unix_path. destruct (sv_owns_path (close_listen s)) eqn:E; cbn; by repeat split. Qed.

Lemma abandon_spec c e s ok e' s' : abandon c e s = (ok, e', s') -> ok = false /\ idle s'.
Proof. intros Ha. pose proof (abandon_idle c e s) as Hi. by rewrite Ha in Hi. Qed.

Lemma start_unix_idle c e s ok e' s' : idle s -> start_unix c e s = (ok, e', s') ->
  if ok : bool then sv_listen s' = true /\ sv_lock s' = true /\ sv_owns_path s' = true /\
                    ep_path e' = SocketNode (sv_path_dev s') (sv_path_ino s') else idle s'.
Proof.
  intros (H1 & H2 & H3) Hs. unfold start_unix in Hs.
  repeat match type of Hs with
         | context [match ?b with _ => _ end] => destruct b eqn:?
         end; first [apply abandon_spec in Hs as [-> ?]; done | injection Hs as <- <- <-; cbn; by repeat split].
Qed.

(** C40. The companion socket is never taken from another daemon and never left half made: while another process holds
    the lock, or something that is not a socket is at the path, starting fails and leaves the path alone; a start that
    fails for any reason leaves neither a listener nor a lock nor a claim to the path; one that succeeds holds the
    lock and owns the very socket at the path; and a shutdown whose [lstat] and [unlink] work removes that socket and no
    other. *)
Theorem endpoint_never_stolen c e s ok e' s' :
  idle s -> start_unix c e s = (ok, e', s') ->
  (ep_locked_elsewhere e = true \/ ep_path e = OtherNode -> ok = false /\ e' = e) /\
  (ok = false -> idle s') /\
  (ok = true -> sv_listen s' = true /\ sv_lock s' = true /\ ep_path e' = SocketNode (sv_path_dev s') (sv_path_ino s')) /\
  (forall path, ok = true ->
     let e2 := (cleanup_unix_path true true (e' <| ep_path := path |>) s').1 in
     ep_path e2 = if decide (path = ep_path e') then NoEntry else path).
Proof.
  intros Hi Hs. pose proof (start_unix_idle c e s ok e' s' Hi Hs) as Hok. split_and!.
  - intros Hbad. unfold start_unix in Hs.
    repeat match type of Hs with
           | context [match ?b with _ => _ end] => destruct b eqn:?; try (by injection Hs as <- <- <-)
           end; destruct Hbad; congruence.
  - by intros ->.
  - intros ->. by destruct Hok as (? & ? & _ & ?).
  - intros path ->. destruct Hok as (_ & _ & Ho & Hp). unfold cleanup_unix_path. rewrite Ho, Hp. cbn [negb fst ep_path].
    change (ep_path (e' <| ep_path := path |>)) with path. cbn.
    destruct path as [|dev ino|]; cbn; [by rewrite decide_False|rewrite andb_true_r|by rewrite decide_False].
    destruct (Z.eqb_spec dev (sv_path_dev s')), (Z.eqb_spec ino (sv_path_ino s')); cbn;
      case_decide; try done; congruence.
Qed.
