(* ===== verification/App.v ===== *)
(** * The application ([src/src/daemon/app.cpp], [app.h]; the start of [main.cpp])

    Bringing the daemon up from its configuration and its state directory, and taking it
    down: the identity, the settings, the stores with their recovery from the backup, the
    radio, the node, the state writer and the companion server, in the order [App::start]
    builds them.

    Every system call may fail, as told by [StartCalls].  The radio driver behind the
    interface is a parameter: how one is made for the parameters, and how it begins. *)

From S2P Require Import Prelude ByteIO Floats Crypto Identity Packet Payloads Radio.
From S2P Require Import Dispatcher Record Persist Contacts Channels Inbox Sender Node.
From S2P Require Import Frames EventLoop CText FloatFacts Ini DaemonConfig Settings Session SessionFacts.
From S2P Require Import DaemonFacts Server.

(** ** Loading a store, with its backup *)

(** How opening and reading a file goes. *)
Inductive ReadFault := ReadFine | OpenFails | ReadFails.

Definition read_input (r : ReadFault) (fs : Fs) (path : Str) : Input :=
  match r, open_file fs path with
  | OpenFails, _ | _, NoFile => NoFile
  | ReadFine, File content _ => File content false
  | ReadFails, File content _ => File content true
  end.

(** The system calls of one [load_state]; the suffixes are those [strftime] makes of the
    seconds of the two quarantines. *)
Record LoadCalls := mkLoadCalls {
  lc_first : ReadFault;
  lc_second : ReadFault;
  lc_suffix1 : Str;
  lc_suffix2 : Str;
  lc_aside1_fails : bool;
  lc_restore_fails : bool;
  lc_aside2_fails : bool }.

Definition load_state {S} (load : Input -> S -> LoadResult * S) (c : LoadCalls) (path : Str) (fs : Fs) (store : S) :
    LoadResult * S * Fs :=
  let '(result, store) := load (read_input (lc_first c) fs path) store in
  match result with
  | Corrupt =>
      let '(_, fs) := quarantine (lc_aside1_fails c) (lc_suffix1 c) path fs in
      let backup := path ++ lit ".bak" in
      match (if lc_restore_fails c then None else sys_rename backup path fs) with
      | None => (Corrupt, store, fs)
      | Some fs =>
          let '(result, store) := load (read_input (lc_second c) fs path) store in
          match result with
          | Corrupt =>
              let '(_, fs) := quarantine (lc_aside2_fails c) (lc_suffix2 c) path fs in
              (result, store, fs)
          | _ => (result, store, fs)
          end
      end
  | _ => (result, store, fs)
  end.

(** ** The state directory *)

Definition state_files (cfg : DaemonConfig) : list Str :=
  [identity_path cfg; contacts_path cfg; channels_path cfg; messages_path cfg; settings_path cfg].

Definition restrict_state_files (is_regular chmod_fails : Str -> bool) (cfg : DaemonConfig) (fs : Fs) : Fs :=
  fold_left (fun fs path =>
      fold_left (fun fs suffix => restrict_to_owner (is_regular (path ++ suffix)) (chmod_fails (path ++ suffix)) (path ++ suffix) fs)
        [[]; lit ".bak"; lit ".tmp"] fs)
    (state_files cfg) fs.

(** [stat] succeeds on a name of the directory unless it fails for another reason ([EACCES], [EIO]), which reads as
    absence. *)
Definition file_exists (stat_fails : Str -> bool) (path : Str) (fs : Fs) : bool :=
  negb (stat_fails path) && match names fs !! path with Some _ => true | None => false end.

Definition toupper (c : Z) : Z := if (97 <=? c) && (c <=? 122) then c - 32 else c.
Definition default_name (pub : Bytes) : Str := map toupper (hex (subview pub 0 4)).

(** [if (cfg_.node.name.empty()) cfg_.node.name = default_name(identity_->pub())] *)
Definition named (id : LocalIdentity) (cfg : DaemonConfig) : DaemonConfig :=
  match cfg_name (cf_node cfg) with
  | [] => cfg <| cf_node ::= fun n => n <| cfg_name := default_name (pub id) |> |>
  | _ => cfg
  end.

(** What [stat] says of the state directory: an error, or whether it is a directory. *)
Inductive DirStat := StatFails | StatDir (is_dir : bool).

Definition check_state_dir (st : DirStat) : bool :=
  match st with StatFails => false | StatDir is_dir => is_dir end.

(** ** The identity *)

Definition identity_save (faults : Faults) (remove_fails : bool) (umask_mode : Z) (id : LocalIdentity) (path : Str)
    (fs : Fs) : bool * Fs :=
  let tmp := path ++ lit ".tmp" in
  let '(ok, fs, _) := save_file faults umask_mode path (save_text id) false fs in
  if ok then (true, fs)
  else if f_create faults || f_write faults || remove_fails then (false, fs)
  else (false, sys_unlink tmp fs).

(** What reading the key file gives. *)
Definition read_identity (r : ReadFault) (fs : Fs) (path : Str) : FileRead :=
  match lookup_file fs path, r with
  | None, _ => FMissing
  | Some i, ReadFine => FContent (i_content i)
  | Some _, _ => FUnreadable
  end.

Record StartCalls := mkStartCalls {
  sc_crypto_init : bool;
  sc_state_dir : DirStat;
  sc_regular : Str -> bool;
  sc_chmod_fails : Str -> bool;
  sc_stat_fails : Str -> bool;
  sc_identity_read : ReadFault;
  sc_seeds : list Bytes;            (** what [randombytes_buf] draws *)
  sc_identity_save : Faults;
  sc_remove_fails : bool;
  sc_umask_mode : Z;
  sc_contacts : LoadCalls;
  sc_channels : LoadCalls;
  sc_messages : LoadCalls;
  sc_unix : UnixCalls;
  sc_tcp : TcpCalls }.

(** ** The node's timers ([Node::start]) *)

Inductive NodeTimer := AdvertTimer | DeliveredSweep.

Definition node_start {FB} (advert_interval_s : Z) (l : EventLoop NodeTimer FB) : option Z * Z * EventLoop NodeTimer FB :=
  let '(advert_timer, l) :=
    if 0 <? advert_interval_s
    then let '(id, l) := add_repeating (u32 (advert_interval_s * 1000)) AdvertTimer l in (Some id, l)
    else (None, l) in
  let '(delivered_sweep, l) := add_repeating kDeliveredTtlMs DeliveredSweep l in
  (advert_timer, delivered_sweep, l).

(** [main]'s configuration: loaded, then finalised; [-v] decides the log level. *)
Definition configure (path : Str) (input : Input) (verbosity : Z) : Result DaemonConfig :=
  match cfg_load path input DaemonConfig_default with
  | inl error => inl error
  | inr cfg =>
      let cfg := finalise cfg in
      inr (if verbosity =? 1 then cfg <| cf_log_level := Debug |>
           else if 2 <=? verbosity then cfg <| cf_log_level := DaemonConfig.Trace |> else cfg)
  end.

(** The mode of a file created under [umask(077)]. *)
Definition kUmask : Z := 63.
Definition created_mode : Z := Z.ldiff 438 kUmask.

Section start.
Context `{CryptoLib} {R : Type} `{Radio R}.

(** Without a result when the drawn seeds are used up, which is the loop of [generate] still running. *)
Definition load_or_create_identity (c : StartCalls) (cfg : DaemonConfig) (fs : Fs) : option LocalIdentity * Fs :=
  match load (read_identity (sc_identity_read c) fs (identity_path cfg)) with
  | (Some id, _) => (Some id, fs)
  | (None, true) => (None, fs)
  | (None, false) =>
      if existsb (fun path => file_exists (sc_stat_fails c) path fs) [contacts_path cfg; channels_path cfg; messages_path cfg]
      then (None, fs)
      else match generate (sc_seeds c) with
           | None => (None, fs)
           | Some id =>
               let '(saved, fs) :=
                 identity_save (sc_identity_save c) (sc_remove_fails c) (sc_umask_mode c) id (identity_path cfg) fs in
               (if saved then Some id else None, fs)
           end
  end.

(** The radio driver: its construction and its [begin]. *)
Variable make_radio : RadioParams -> SpiConfig -> option R.
Variable radio_begin : R -> option R.

(** [dispatcher_->start]: the handlers are wired by the composition, the timers belong to the loop. *)
Definition dispatcher_start (d : Dispatcher R) : option (Dispatcher R) :=
  match radio_begin (radio_ d) with None => None | Some r => Some (d <| radio_ := r |>) end.

Definition start_radio (handed : option R) (cfg : DaemonConfig) : option R :=
  match handed with
  | None => make_radio (cf_radio cfg) (cf_spi cfg)
  | Some r => Some (radio_reconfigure r (cf_radio cfg))
  end.

Record App := mkApp { ap_daemon : Daemon R; ap_server : Server; ap_running : bool }.

(** The stores, the dispatcher, the node and its messages, once the settings are known. *)
Definition assemble (c : StartCalls) (handed : option R) (id : LocalIdentity) (settings_ : SettingsStore) (fs : Fs) :
    option (Node R) * Fs :=
  let cfg := ss_cfg settings_ in
  let '(_, contacts, fs) :=
    load_state cs_load (sc_contacts c) (contacts_path cfg) fs (mkContactStore id (contacts_path cfg) kMaxContacts [] false) in
  let '(_, channels, fs) :=
    load_state chs_load (sc_channels c) (channels_path cfg) fs (make_channels (channels_path cfg)) in
  match start_radio handed cfg with
  | None => (None, fs)
  | Some radio =>
      match dispatcher_start (make_dispatcher radio kDefaultQueueLimit) with
      | None => (None, fs)
      | Some d =>
          let inbox := mkInbox (cf_messages_path cfg) [] kDefaultLimit 0 false in
          let node := mkNode R id (mkMesh R d contacts (make_sender kDefaultPendingLimit)) channels inbox (cf_node cfg) ∅ fs in
          let '(_, inbox, fs) := load_state mi_load (sc_messages c) (messages_path cfg) fs (n_inbox node) in
          (Some (node <| n_inbox := inbox |> <| n_fs := fs |>), fs)
      end
  end.

(** The application when everything came up; the files and the endpoint either way. *)
Definition start (c : StartCalls) (handed : option R) (wall : WallClock) (cfg : DaemonConfig) (e : Endpoint) (fs : Fs) :
    option App * Fs * Endpoint :=
  if negb (sc_crypto_init c) then (None, fs, e)
  else if negb (check_state_dir (sc_state_dir c)) then (None, fs, e)
  else
    let fs := restrict_state_files (sc_regular c) (sc_chmod_fails c) cfg fs in
    match load_or_create_identity c cfg fs with
    | (None, fs) => (None, fs, e)
    | (Some id, fs) =>
        match ss_load fs (make_settings (named id cfg)) with
        | inl _ => (None, fs, e)
        | inr settings_ =>
            match assemble c handed id settings_ fs with
            | (None, fs) => (None, fs, e)
            | (Some node, fs) =>
                let state := writer_start (make_writer kCoalesceMs) in
                let '(up, e, server) := server_start (sc_unix c) (sc_tcp c) e (make_server (cf_companion (ss_cfg settings_))) in
                if negb up then (None, fs, e)
                else (Some (mkApp (mkDaemon R node settings_ state wall false [] None) server true), fs, e)
            end
        end
    end.

(** [request_stop]: the state is flushed, the server shut down, the loop stopped. *)
Variable radio_shutdown : R -> R.

Definition request_stop (f1 f2 f3 : Faults) (lstat_ok unlink_ok : bool) (se : SEnv) (ep : Endpoint) (a : App) : App * Endpoint :=
  let d := (on_flush f1 f2 f3 (d_writer (ap_daemon a)) se (ap_daemon a)).1.2 in
  let '(ep, l) := shutdown (fun d => d) lstat_ok unlink_ok ep (mkLink (ap_server a) d) in
  let d := (lk_state l) <| d_node ::= fun n => n <| n_mesh ::= fun m => m <| m_disp ::= fun x => x <| radio_ ::= radio_shutdown |> |> |> |> in
  (mkApp d (lk_server l) false, ep).
End start.
