(* ===== verification/AppFacts.v ===== *)
(** * Facts about the application

    Starting: which file contents survive it, what of the stores it ends with, and that the
    daemon it hands to the event loop satisfies the invariant every event keeps. *)

From S2P Require Import Prelude ByteIO Floats Crypto Identity Packet Payloads Radio.
From S2P Require Import Dispatcher Record Persist Contacts Channels Inbox Sender Node.
From S2P Require Import Frames EventLoop CText FloatFacts Ini DaemonConfig Settings Session SessionFacts.
From S2P Require Import DaemonFacts Server App.

(** ** What loading a store gives *)

(** A property of the store that every load keeps. *)
Lemma load_state_store {S} (P : S -> Prop) (load : Input -> S -> LoadResult * S) c path fs s :
  (forall input s, P s -> P (load input s).2) -> P s -> P (load_state load c path fs s).1.2.
Proof.
  intros Hl Hs. unfold load_state. pose proof (Hl (read_input (lc_first c) fs path) s Hs) as H1.
  destruct (load _ s) as [[] s1]; cbn in H1; [done|done|].
  destruct (quarantine _ _ _ _) as [_ fs1]. destruct (if lc_restore_fails c then _ else _) as [fs2|]; [|done].
  pose proof (Hl (read_input (lc_second c) fs2 path) s1 H1) as H2.
  destruct (load _ s1) as [[] s2]; cbn in H2; try done. by destruct (quarantine _ _ _ _).
Qed.

Section stores.
Context `{CryptoLib}.

Lemma parse_contact_ok max loaded line c :
  parse_contact max loaded line = Some c ->
  length (c_pubkey c) = kPubKeySize /\ (c_pubkey c ∉ map c_pubkey loaded) /\ (length loaded < max)%nat /\ c_shared c = [].
Proof.
  unfold parse_contact. destruct (split_fields line 9) as [[|f0 [|f1 [|f2 [|f3 [|f4 [|f5 [|f6 [|f7 [|f8 [|]]]]]]]]]]|]; try done.
  destruct (unhex f0) as [pk|]; [|done]. cbn [mbind option_bind].
  destruct (length pk =? kPubKeySize)%nat eqn:El; [|done]. cbn [negb]. destruct (existsb _ loaded) eqn:Ex; [done|].
  intros Hp.
  destruct (parse_unsigned f1 _); [cbn [mbind option_bind] in Hp|discriminate Hp].
  destruct (parse_unsigned f2 _); [cbn [mbind option_bind] in Hp|discriminate Hp].
  destruct (parse_unsigned f3 _); [cbn [mbind option_bind] in Hp|discriminate Hp].
  destruct (parse_unsigned f4 _); [cbn [mbind option_bind] in Hp|discriminate Hp].
  destruct (parse_signed f5 _ _); [cbn [mbind option_bind] in Hp|discriminate Hp].
  destruct (parse_signed f6 _ _); [cbn [mbind option_bind] in Hp|discriminate Hp].
  destruct (parse_path f7) as [[op pk1]|]; [cbn [mbind option_bind] in Hp|discriminate Hp].
  destruct (max <=? length loaded)%nat eqn:Em; [done|]. injection Hp as <-. cbn.
  apply Nat.eqb_eq in El. apply Nat.leb_gt in Em. split_and!; try done.
  intros Hin. apply list_elem_of_fmap in Hin as (x & -> & Hx). rewrite <- not_true_iff_false in Ex. apply Ex.
  apply existsb_exists. exists x. split; [by apply list_elem_of_In|]. unfold equal. by rewrite Nat.eqb_refl, beq_refl.
Qed.

Definition loaded_ok (max : nat) (cs : list Contact) : Prop :=
  NoDup (map c_pubkey cs) /\ (length cs <= max)%nat /\
  Forall (fun c => length (c_pubkey c) = kPubKeySize) cs /\ Forall (fun c => c_shared c = []) cs.

Lemma load_contacts_ok max lines : forall cs saw cs' saw',
  loaded_ok max cs -> load_contacts max lines cs saw = Some (cs', saw') -> loaded_ok max cs'.
Proof.
  induction lines as [|line lines IH]; intros cs saw cs' saw' Hok Hl; cbn [load_contacts] in Hl; [by simplify_eq|].
  destruct (beq line contacts_header); [by eapply IH|]. destruct line as [|ch line]; [by eapply IH|].
  destruct (ch =? 35); [by eapply IH|]. destruct (parse_contact max cs (ch :: line)) as [c|] eqn:Ep; [|done].
  eapply IH; [|exact Hl]. destruct (parse_contact_ok _ _ _ _ Ep) as (E1 & E2 & E3 & E4), Hok as (Hu & Hn & Hk & Hc).
  split_and!.
  - rewrite map_app. apply list.NoDup_app. split_and!; [done| |apply NoDup_singleton]. intros x Hx Hx'.
    apply list_elem_of_singleton in Hx'. by subst.
  - rewrite length_app. cbn. lia.
  - apply Forall_app. split; [done|by each].
  - apply Forall_app. split; [done|by each].
Qed.

Lemma cs_load_ok self input s : contacts_fine self s -> contacts_fine self (cs_load input s).2.
Proof.
  intros [Hs Hself]. unfold cs_load. destruct (cs_path s); [done|]. destruct input as [|content bad]; [done|].
  destruct (load_contacts _ _ _ _) as [[loaded saw]|] eqn:El; [|done]. destruct bad; [done|]. destruct saw; [|done].
  split; [|done]. eapply load_contacts_ok in El as (H1 & H2 & H3 & H4); [|by split_and!; [constructor|cbn; lia|..]].
  split; try done. eapply Forall_impl; [|exact H4]. by left.
Qed.

Lemma load_channels_length lines : forall chs occ saw chs' saw',
  load_channels lines chs occ saw = Some (chs', saw') -> length chs' = length chs.
Proof.
  induction lines as [|line lines IH]; intros chs occ saw chs' saw' Hl; cbn [load_channels] in Hl; [by simplify_eq|].
  destruct (beq line channels_header); [by eapply IH|]. destruct line as [|c line]; [by eapply IH|].
  destruct (c =? 35); [by eapply IH|]. destruct (parse_channel occ (c :: line)) as [[slot ch]|]; [|done].
  apply IH in Hl. by rewrite Hl, length_insert.
Qed.

Lemma chs_load_length input s :
  length (chs_channels s) = kMaxChannels -> length (chs_channels (chs_load input s).2) = kMaxChannels.
Proof.
  intros Hs. unfold chs_load. destruct (chs_path s); [done|]. destruct input as [|content bad]; [done|].
  destruct (load_channels _ _ _ _) as [[loaded saw]|] eqn:El; [|done]. destruct bad; [done|]. destruct saw; [|done].
  apply load_channels_length in El. exact El.
Qed.

Definition inbox_fine (m : MessageInbox) : Prop := (length (mi_messages m) <= mi_limit m)%nat.

Lemma mi_load_fine input m : inbox_fine m -> inbox_fine (mi_load input m).2.
Proof.
  intros Hm. unfold mi_load. destruct (mi_path m); [done|]. destruct input as [|content bad]; [done|].
  destruct (load_messages _ _ _) as [[loaded saw]|]; [|done]. destruct saw; [|done]. cbn [negb].
  destruct (evict_spec (length loaded) (mi_limit m) loaded (mi_dropped m)) as [_ He]; [lia|].
  by destruct (evict _ _ _ _).
Qed.
End stores.

(** ** What starting does to the files *)

(** Contents and names, the modes aside. *)
Definition same_files (fs fs' : Fs) : Prop :=
  names fs' = names fs /\ forall i, i_content <$> inodes fs' !! i = i_content <$> inodes fs !! i.

Lemma same_files_refl fs : same_files fs fs.
Proof. done. Qed.

Lemma same_files_trans a b c : same_files a b -> same_files b c -> same_files a c.
Proof. intros [E1 E2] [E3 E4]. split; [congruence|]. intros i. by rewrite E4. Qed.

Definition content (fs : Fs) (path : Str) : option Bytes := i_content <$> lookup_file fs path.

Lemma same_content fs fs' path : same_files fs fs' -> content fs' path = content fs path.
Proof.
  intros [E1 E2]. unfold content, lookup_file. rewrite E1. destruct (names fs !! path) as [i|]; [|done]. apply E2.
Qed.

Lemma same_wf fs fs' : same_files fs fs' -> fs_wf fs -> fs_wf fs'.
Proof.
  intros [E1 E2] Hw p i Hp. rewrite E1 in Hp. destruct (Hw p i Hp) as [x Hx]. specialize (E2 i). rewrite Hx in E2.
  destruct (inodes fs' !! i); [eauto|done].
Qed.

Lemma same_private fs fs' path : same_files fs fs' -> tmp_private fs path -> tmp_private fs' path.
Proof. intros [E1 _] Hp. unfold tmp_private. by rewrite E1. Qed.

Lemma restrict_same reg fails path fs : same_files fs (restrict_to_owner reg fails path fs).
Proof.
  unfold restrict_to_owner. destruct (names fs !! path) as [i|]; [|done]. destruct (inodes fs !! i) as [st|] eqn:Ei; [|done].
  destruct (_ || _); [done|]. destruct fails; [done|]. split; [done|]. intros j. cbn.
  destruct (decide (j = i)) as [->|Hne]; [by rewrite lookup_alter_eq, Ei|by rewrite lookup_alter_ne].
Qed.

Lemma restrict_all_same reg fails cfg fs : same_files fs (restrict_state_files reg fails cfg fs).
Proof.
  unfold restrict_state_files. cbn [fold_left state_files].
  repeat (eapply same_files_trans; [|apply restrict_same]). done.
Qed.

(** Files moved, none written: only names that begin with [path] may change. *)
Definition moved (path : Str) (fs fs' : Fs) : Prop :=
  inodes fs' = inodes fs /\ forall p, (forall s, p <> path ++ s) -> names fs' !! p = names fs !! p.

Lemma moved_refl path fs : moved path fs fs.
Proof. done. Qed.

Lemma moved_trans path a b c : moved path a b -> moved path b c -> moved path a c.
Proof. intros [E1 E2] [E3 E4]. split; [congruence|]. intros p Hp. by rewrite E4, E2. Qed.

Lemma moved_content path fs fs' p : moved path fs fs' -> (forall s, p <> path ++ s) -> content fs' p = content fs p.
Proof. intros [E1 E2] Hp. unfold content, lookup_file. by rewrite E1, E2. Qed.

Lemma rename_moved path a b fs fs' : sys_rename (path ++ a) (path ++ b) fs = Some fs' -> moved path fs fs'.
Proof.
  unfold sys_rename. destruct (names fs !! (path ++ a)) as [i|]; [|done]. intros [= <-]. split; [done|]. intros p Hp. cbn.
  by rewrite lookup_insert_ne, lookup_delete_ne.
Qed.

Lemma quarantine_moved fails suffix path fs : moved path fs (quarantine fails suffix path fs).2.
Proof.
  unfold quarantine. destruct fails; [done|]. destruct (sys_rename path (path ++ suffix) fs) as [fs'|] eqn:E; [|done].
  rewrite <- (app_nil_r path) in E at 1. by eapply rename_moved.
Qed.

Lemma load_state_moved {S} (load : Input -> S -> LoadResult * S) c path fs s : moved path fs (load_state load c path fs s).2.
Proof.
  unfold load_state. destruct (load _ s) as [[] s1]; [done|done|].
  pose proof (quarantine_moved (lc_aside1_fails c) (lc_suffix1 c) path fs) as H1. destruct (quarantine _ _ _ fs) as [q1 fs1].
  destruct (lc_restore_fails c); [done|]. destruct (sys_rename _ path fs1) as [fs2|] eqn:E; [|done].
  rewrite <- (app_nil_r path) in E at 2. apply rename_moved in E.
  assert (moved path fs fs2) as H2 by by eapply moved_trans.
  destruct (load _ s1) as [[] s2]; [done|done|].
  pose proof (quarantine_moved (lc_aside2_fails c) (lc_suffix2 c) path fs2) as H3. destruct (quarantine _ _ _ fs2) as [q2 fs3].
  by eapply moved_trans.
Qed.

(** The state files have names of their own. *)
Lemma identity_apart (cfg : DaemonConfig) file b s :
  lit file !! 1%nat = Some b -> b <> 105 -> identity_path cfg <> state_path file cfg ++ s.
Proof.
  unfold identity_path, state_path. rewrite <- app_assoc. intros Hh H1 E%app_inv_head. apply H1.
  change (lit "/identity") with (47 :: 105 :: lit "dentity") in E. destruct (lit file) as [|c [|d l]]; cbn in *; congruence.
Qed.

Section identity.
Context `{EdSizes}.

(** [load] reports an error for every file it refuses, and for no other. *)
Lemma load_flag key : let '(r, err) := load (FContent key) in err = match r with None => true | Some _ => false end.
Proof. done. Qed.

(** The identity is loaded, refused, or new; a new one is on disk. *)
Lemma load_or_create_spec c cfg fs r fs' :
  fs_wf fs -> tmp_private fs (identity_path cfg) -> load_or_create_identity c cfg fs = (r, fs') ->
  (forall key, content fs (identity_path cfg) = Some key ->
     fs' = fs /\ forall id, r = Some id -> load (FContent key) = (Some id, false)) /\
  (content fs (identity_path cfg) = None ->
     existsb (fun path => file_exists (sc_stat_fails c) path fs) [contacts_path cfg; channels_path cfg; messages_path cfg] = true ->
     r = None /\ fs' = fs) /\
  (forall id, r = Some id ->
     exists key, content fs' (identity_path cfg) = Some key /\ load (FContent key) = (Some id, false)).
Proof.
  intros Hwf Hp. unfold load_or_create_identity, read_identity, content.
  destruct (lookup_file fs (identity_path cfg)) as [i|] eqn:Ei; cbn [fmap option_fmap option_map].
  - intros Hl. assert (fs' = fs /\ forall id, r = Some id -> load (FContent (i_content i)) = (Some id, false)) as [-> Hid].
    { destruct (sc_identity_read c); [|by injection Hl as <- <-..].
      pose proof (load_flag (i_content i)) as Hf. destruct (load (FContent (i_content i))) as [[id|] err]; rewrite Hf in *.
      - injection Hl as <- <-. split; [done|]. by intros ? [= <-].
      - by injection Hl as <- <-. }
    split_and!; [by intros key [= <-]|done|]. intros id Hr. exists (i_content i). rewrite Ei. auto.
  - cbn [load]. intros Hl. split; [done|]. destruct (existsb _ _); [by simplify_eq|]. split; [done|].
    destruct (generate (sc_seeds c)) as [id|] eqn:Eg; [|by simplify_eq].
    destruct (identity_save _ _ _ _ _ _) as [saved fs1] eqn:Es. injection Hl as <- <-. destruct saved; [|done].
    intros ? [= <-]. exists (save_text id). split; [|apply identity_save_load; by eapply generate_usable].
    unfold identity_save in Es. destruct (save_file _ _ _ _ _ _) as [[ok fs2] seen] eqn:Ef.
    destruct ok; [|by repeat case_match; simplify_eq]. injection Es as <-.
    destruct (save_file_spec _ _ _ _ _ _ _ _ _ Hwf Hp Ef) as [_ Hin]. by rewrite (Hin eq_refl).
Qed.
End identity.

Section startup.
Context `{EdSizes} {R : Type} `{RadioLaws R}.
Context (make_radio : RadioParams -> SpiConfig -> option R) (radio_begin : R -> option R).

Lemma assemble_keeps_key c handed id s fs r fs' :
  assemble make_radio radio_begin c handed id s fs = (r, fs') ->
  content fs' (identity_path (ss_cfg s)) = content fs (identity_path (ss_cfg s)).
Proof.
  unfold assemble. set (cfg := ss_cfg s).
  pose proof (load_state_moved cs_load (sc_contacts c) (contacts_path cfg) fs
    (mkContactStore id (contacts_path cfg) kMaxContacts [] false)) as M1.
  destruct (load_state cs_load _ _ _ _) as [[r1 contacts] fs1]. cbn in M1.
  pose proof (load_state_moved chs_load (sc_channels c) (channels_path cfg) fs1 (make_channels (channels_path cfg))) as M2.
  destruct (load_state chs_load _ _ _ _) as [[r2 channels] fs2]. cbn in M2.
  assert (content fs2 (identity_path cfg) = content fs (identity_path cfg)) as E.
  { rewrite (moved_content _ _ _ _ M2), (moved_content _ _ _ _ M1); [done|..]; intros x; by eapply identity_apart. }
  destruct (start_radio _ _ _); [|by intros [= <- <-]]. destruct (dispatcher_start _ _) as [d|]; [|by intros [= <- <-]].
  cbn [n_inbox]. set (inbox := mkInbox _ _ _ _ _).
  pose proof (load_state_moved mi_load (sc_messages c) (messages_path cfg) fs2 inbox) as M3.
  destruct (load_state mi_load _ _ _ _) as [[r3 messages] fs3]. cbn in M3. intros [= <- <-].
  rewrite (moved_content _ _ _ _ M3), E; [done|]. intros x. by eapply identity_apart.
Qed.

Lemma assemble_self c handed id s fs node fs' :
  assemble make_radio radio_begin c handed id s fs = (Some node, fs') -> n_self node = id.
Proof.
  unfold assemble. destruct (load_state _ _ _ _ _) as [[r1 contacts] fs1], (load_state chs_load _ _ _ _) as [[r2 channels] fs2].
  destruct (start_radio _ _ _); [|done]. destruct (dispatcher_start _ _) as [d|]; [|done].
  destruct (load_state mi_load _ _ _ _) as [[r3 messages] fs3]. by intros [= <- <-].
Qed.

(** The steps of a start that gets past its checks. *)
Lemma start_steps c handed wall cfg e fs r fs' e' :
  start make_radio radio_begin c handed wall cfg e fs = (r, fs', e') ->
  (r = None /\ fs' = fs) \/
  exists idr fs1, load_or_create_identity c cfg (restrict_state_files (sc_regular c) (sc_chmod_fails c) cfg fs) = (idr, fs1) /\
    ((r = None /\ fs' = fs1) \/
     exists id s noder, idr = Some id /\ ss_load fs1 (make_settings (named id cfg)) = inr s /\
       assemble make_radio radio_begin c handed id s fs1 = (noder, fs') /\
       forall app, r = Some app -> exists node server, noder = Some node /\
         server_start (sc_unix c) (sc_tcp c) e (make_server (cf_companion (ss_cfg s))) = (true, e', server) /\
         app = mkApp (mkDaemon R node s (writer_start (make_writer kCoalesceMs)) wall false [] None) server true).
Proof.
  unfold start. destruct (sc_crypto_init c); [|intros [= <- <- <-]; by left]. cbn [negb].
  destruct (check_state_dir _); [|intros [= <- <- <-]; by left]. cbn [negb]. intros Hs. right.
  destruct (load_or_create_identity _ _ _) as [[id|] fs1]; [|exists None, fs1; split; [done|]; left; by simplify_eq].
  exists (Some id), fs1. split; [done|]. destruct (ss_load fs1 _) as [err|s] eqn:El; [left; by simplify_eq|].
  right. destruct (assemble _ _ _ _ _ _ _) as [noder fs2] eqn:Ea. exists id, s, noder.
  destruct noder as [node|]; [|simplify_eq; by split_and!].
  destruct (server_start _ _ _ _) as [[[] e2] server] eqn:Eu; simplify_eq/=; split_and!; try done.
  intros app [= <-]. eauto.
Qed.

(** The settings leave the directory alone. *)
Lemma settings_dir base s : settings_ok base s -> cf_state_dir (ss_cfg s) = cf_state_dir base.
Proof. intros [_ _ _ Hr _]. exact (f_equal cf_state_dir Hr). Qed.

Lemma named_dir id cfg : cf_state_dir (named id cfg) = cf_state_dir cfg.
Proof. unfold named. by destruct (cfg_name _). Qed.

Lemma load_entries_dir es : forall cfg stored cfg' stored',
  load_entries es cfg stored = inr (cfg', stored') -> rest cfg' = rest cfg.
Proof.
  induction es as [|[key v] es IH]; intros cfg stored cfg' stored' Hl; cbn [load_entries] in Hl; [by simplify_eq|].
  destruct (negb (app_key key)) eqn:Ha; [by eapply IH|]. apply negb_false_iff, app_key_inv in Ha as (k & ->).
  destruct (cfg_set _ _ _) as [|c1] eqn:Hset; [done|]. rewrite (IH _ _ _ _ Hl). by eapply set_frame.
Qed.

Lemma ss_load_dir fs base s : ss_load fs (make_settings base) = inr s -> cf_state_dir (ss_cfg s) = cf_state_dir base.
Proof.
  unfold ss_load. destruct (lookup_file _ _); [|by intros [= <-]]. destruct (ini_load _ _ _); [done|].
  destruct (load_entries _ _ _) as [|[c' st]] eqn:El; [done|]. destruct (validate c'); [done|]. intros [= <-].
  exact (f_equal cf_state_dir (load_entries_dir _ _ _ _ _ El)).
Qed.

(** C17. The node's key is never replaced: whatever goes wrong during a start, a key file that is there keeps its
    contents, and a daemon that comes up is the node of that key; a lost key is not replaced while [stat] sees the
    contacts, the channels or the messages of the node that lived there (a [stat] that fails reads as absence); and a
    daemon that comes up, on a new key too, has a key file from which the next start reads the same key. *)
Theorem node_key_never_replaced c handed wall cfg e fs r fs' e' :
  fs_wf fs -> tmp_private fs (identity_path cfg) ->
  start make_radio radio_begin c handed wall cfg e fs = (r, fs', e') ->
  (forall key, content fs (identity_path cfg) = Some key ->
     content fs' (identity_path cfg) = Some key /\
     forall app, r = Some app -> load (FContent key) = (Some (n_self (d_node (ap_daemon app))), false)) /\
  (content fs (identity_path cfg) = None ->
     existsb (fun path => file_exists (sc_stat_fails c) path fs) [contacts_path cfg; channels_path cfg; messages_path cfg] = true ->
     r = None /\ content fs' (identity_path cfg) = None) /\
  (forall app, r = Some app -> exists key,
     content fs' (identity_path cfg) = Some key /\ load (FContent key) = (Some (n_self (d_node (ap_daemon app))), false)).
Proof.
  intros Hwf Hp Hs. set (fs0 := restrict_state_files (sc_regular c) (sc_chmod_fails c) cfg fs).
  pose proof (restrict_all_same (sc_regular c) (sc_chmod_fails c) cfg fs) as Hsame. fold fs0 in Hsame.
  pose proof (same_content _ _ (identity_path cfg) Hsame) as Ec.
  destruct (start_steps _ _ _ _ _ _ _ _ _ Hs) as [[-> ->]|(idr & fs1 & Hid & Hrest)]; [by split_and!|].
  fold fs0 in Hid. destruct (load_or_create_spec _ _ _ _ _ (same_wf _ _ Hsame Hwf) (same_private _ _ _ Hsame Hp) Hid) as (E1 & E2 & E3).
  assert (existsb (fun path => file_exists (sc_stat_fails c) path fs0) [contacts_path cfg; channels_path cfg; messages_path cfg] =
          existsb (fun path => file_exists (sc_stat_fails c) path fs) [contacts_path cfg; channels_path cfg; messages_path cfg]) as Eex.
  { unfold file_exists. by rewrite (proj1 Hsame). }
  rewrite Ec, Eex in *.
  assert (content fs' (identity_path cfg) = content fs1 (identity_path cfg) /\
          forall app, r = Some app -> idr = Some (n_self (d_node (ap_daemon app)))) as [E4 E5].
  { destruct Hrest as [[-> ->]|(id & s & noder & -> & Hl & Ha & Happ)]; [done|]. split.
    - pose proof (assemble_keeps_key _ _ _ _ _ _ _ Ha) as Hk. unfold identity_path, state_path in *.
      by rewrite (ss_load_dir _ _ _ Hl), named_dir in Hk.
    - intros app Hr. destruct (Happ app Hr) as (node & server & -> & _ & ->). cbn. by rewrite (assemble_self _ _ _ _ _ _ _ Ha). }
  split_and!.
  - intros key Hk. destruct (E1 key Hk) as [-> Hload]. split; [congruence|]. intros app Hr. apply Hload. auto.
  - intros Hn Hex. destruct (E2 Hn Hex) as [-> ->]. split; [|congruence]. destruct r as [app|]; [|done]. by specialize (E5 app eq_refl).
  - intros app Hr. rewrite E4. apply E3. auto.
Qed.

(** ** The daemon that comes up *)

Lemma load_or_create_ok c cfg fs id fs' :
  (forall key, content fs (identity_path cfg) = Some key -> bytes_ok key) ->
  load_or_create_identity c cfg fs = (Some id, fs') -> identity_ok id.
Proof.
  intros Hb. unfold load_or_create_identity, read_identity. unfold content in Hb.
  destruct (lookup_file fs (identity_path cfg)) as [i|]; cbn [fmap option_fmap option_map] in Hb.
  - destruct (sc_identity_read c); [|done..]. specialize (Hb _ eq_refl). cbn [load]. set (raw := trim_trailing (i_content i)).
    assert (bytes_ok raw) as Hraw.
    { unfold raw, trim_trailing. apply Forall_rev. assert (bytes_ok (rev (i_content i))) as Hr by by apply Forall_rev.
      induction Hr as [|x l Hx Hl IH]; cbn; [constructor|]. destruct (is_trimmed x); [done|by constructor]. }
    destruct (unhex raw) as [bin|] eqn:Eu.
    + destruct (from_bytes bin) as [id'|] eqn:Ef; [|done]. intros [= <- <-]. eapply from_bytes_ok; [|exact Ef]. by eapply unhex_ok.
    + destruct (from_bytes raw) as [id'|] eqn:Ef; [|done]. intros [= <- <-]. by eapply from_bytes_ok.
  - cbn [load]. destruct (existsb _ _); [done|]. destruct (generate _) as [id'|] eqn:Eg; [|done].
    destruct (identity_save _ _ _ _ _ _) as [[] fs1]; [|done]. intros [= <- <-]. by eapply generate_usable.
Qed.

Lemma assemble_ok c handed id s fs node fs' :
  assemble make_radio radio_begin c handed id s fs = (Some node, fs') ->
  node_ok node /\ n_cfg node = cf_node (ss_cfg s).
Proof.
  unfold assemble.
  pose proof (load_state_store (contacts_fine id) cs_load (sc_contacts c) (contacts_path (ss_cfg s)) fs
    (mkContactStore id (contacts_path (ss_cfg s)) kMaxContacts [] false) (cs_load_ok id)) as E1.
  destruct (load_state cs_load _ _ _ _) as [[r1 contacts] fs1]. cbn [fst snd] in E1.
  pose proof (load_state_store (fun x => length (chs_channels x) = kMaxChannels) chs_load (sc_channels c) (channels_path (ss_cfg s)) fs1
    (make_channels (channels_path (ss_cfg s))) chs_load_length eq_refl) as E2.
  destruct (load_state chs_load _ _ _ _) as [[r2 channels] fs2]. cbn [fst snd] in E2.
  destruct (start_radio _ _ _) as [radio|]; [|done]. unfold dispatcher_start.
  destruct (radio_begin _) as [radio'|]; [|done]. cbn [n_inbox]. set (inbox := mkInbox _ _ _ _ _).
  pose proof (load_state_store inbox_fine mi_load (sc_messages c) (messages_path (ss_cfg s)) fs2 inbox mi_load_fine) as E3.
  destruct (load_state mi_load _ _ _ _) as [[r3 messages] fs3]. cbn [fst snd] in E3. intros [= <- <-]. split; [|done].
  destruct E1 as [E1 E1']; [by split; [split; [constructor|cbn; lia|constructor..]|]|].
  constructor; cbn; try done; [|rewrite map_size_empty; lia|apply E3; unfold inbox_fine; cbn; lia].
  constructor; cbn; [|constructor|done|lia|done|done].
  destruct (make_dispatcher_ok radio kDefaultQueueLimit) as [? ? ? ?]. constructor; cbn in *; try done. by intros ?.
Qed.

(** The configuration file sets none of the app's settings. *)
Definition advertised (c : DaemonConfig) : Str * Z * Z := (cfg_name (cf_node c), cfg_lat_e6 (cf_node c), cfg_lon_e6 (cf_node c)).

Lemma apply_other st ini cfg cfg' :
  In st settings -> app_key (st_key st) = false -> apply ini st cfg = inr cfg' -> advertised cfg' = advertised cfg.
Proof.
  intros Hin Hk Ha. unfold settings, radio_settings, hardware_settings, node_settings, companion_settings in Hin. cbn [app] in Hin.
  repeat (destruct Hin as [<-|Hin]; [first [by vm_compute in Hk|row; done]|]). destruct Hin.
Qed.

Lemma apply_all_other ini ss : forall cfg cfg',
  (forall st, In st ss -> In st settings) -> apply_all ini ss cfg = inr cfg' -> advertised cfg' = advertised cfg.
Proof.
  induction ss as [|st ss IH]; intros cfg cfg' Hin Ha; cbn [apply_all] in Ha; [by simplify_eq|].
  assert (forall x, In x ss -> In x settings) as Hin' by (intros; apply Hin; by right).
  destruct (app_key (st_key st)) eqn:Hk; [by eapply IH|]. destruct (apply ini st cfg) as [|c1] eqn:H1'; [done|].
  rewrite (IH _ _ Hin' Ha). eapply apply_other; [|done|exact H1']. apply Hin. by left.
Qed.

Lemma configure_advertised path input verbosity cfg :
  configure path input verbosity = inr cfg -> advertised cfg = ([], 0, 0) /\ config_ok cfg.
Proof.
  unfold configure. destruct (cfg_load _ _ _) as [|c1] eqn:El; [done|]. intros Hc.
  assert (advertised c1 = ([], 0, 0) /\ config_ok c1) as [E1 [? ? ? ?]].
  { split; [|eapply cfg_load_ok; [exact El|exact default_config_ok]]. unfold cfg_load in El.
    destruct (ini_load _ _ _) as [|ini]; [done|]. destruct (apply_all ini settings _) as [|c2] eqn:Ea; [done|].
    assert (advertised c1 = advertised c2) as -> by (clear Ea; by repeat case_match; simplify_eq).
    by apply apply_all_other in Ea. }
  destruct (verbosity =? 1), (2 <=? verbosity); injection Hc as <-; (split; [exact E1|by split]).
Qed.

(** The default name is eight characters of upper-case hexadecimal. *)
Lemma default_name_plain id : identity_ok id ->
  length (default_name (pub id)) = 8%nat /\ existsb control_char (default_name (pub id)) = false.
Proof.
  intros Hid. destruct (pub_length id Hid) as [Hl Hb]. unfold default_name, pub. rewrite subview_take.
  assert (bytes_ok (take 4 (pub_ id))) as Hb4 by by apply bytes_ok_take. split.
  - rewrite length_map, hex_length, length_take, Hl. done.
  - apply not_true_iff_false. rewrite existsb_exists. intros (x & Hx & Hc). apply in_map_iff in Hx as (y & <- & Hy).
    pose proof (hex_chars _ Hb4) as Hh. rewrite List.Forall_forall in Hh. specialize (Hh y Hy).
    unfold control_char, toupper, is_hex_char in *. destruct (_ && _) eqn:E; lia.
Qed.

Lemma named_ok id cfg :
  identity_ok id -> advertised cfg = ([], 0, 0) -> config_ok cfg -> config_ok (named id cfg) /\ validate (named id cfg) = None.
Proof.
  intros Hid [= E1 E2 E3] [? ? [? ? ?] ?]. unfold named. rewrite E1. split; [split; try done; by split|].
  destruct (default_name_plain id Hid) as [Hl Hc]. unfold validate. cbn [cf_node cfg_name setf eta_DaemonConfig].
  cbn. destruct (default_name (pub id)) as [|x l] eqn:Ed; [done|]. rewrite Hc.
  unfold cfg_has_location. cbn [cfg_lat_e6 cfg_lon_e6]. cbn. rewrite E2, E3. cbn. injection Hl as ->. done.
Qed.

Lemma started_ok path input verbosity cfg c handed wall e fs app fs' e' :
  configure path input verbosity = inr cfg ->
  (forall key, content fs (identity_path cfg) = Some key -> bytes_ok key) ->
  start make_radio radio_begin c handed wall cfg e fs = (Some app, fs', e') ->
  daemon_ok (named (n_self (d_node (ap_daemon app))) cfg) (ap_daemon app).
Proof.
  intros Hcfg Hkey Hs. destruct (configure_advertised _ _ _ _ Hcfg) as [Hadv Hcok].
  destruct (start_steps _ _ _ _ _ _ _ _ _ Hs) as [[? _]|(idr & fs1 & Hid & [[? _]|(id & s & noder & -> & Hl & Ha & Happ)])]; [done|done|].
  destruct (Happ app eq_refl) as (node & server & -> & _ & ->). cbn [ap_daemon d_node].
  rewrite (assemble_self _ _ _ _ _ _ _ Ha). destruct (assemble_ok _ _ _ _ _ _ _ Ha) as [En Ecfg].
  assert (identity_ok id) as Hidok.
  { eapply load_or_create_ok; [|exact Hid]. intros key. rewrite (same_content _ _ _ (restrict_all_same _ _ _ _)). apply Hkey. }
  destruct (named_ok id cfg Hidok Hadv Hcok) as [E1 E2]. destruct (ss_load_ok _ _ _ Hl E1 E2) as (E3 & E4 & E5).
  split; try done. unfold applied. cbn [d_node d_settings]. by rewrite Ecfg.
Qed.

(** C6. From a start on any configuration and any state directory, through everything the app, the radio and the timers
    do, the daemon stays within its bounds: contacts unique and within their limit, eight channels, the messages, the
    delivered table and the transmit queue within their limits, no send stuck; the settings in force are valid, and the
    node advertises the name and the position of the settings and repeats as they say. *)
Theorem daemon_invariant path input verbosity cfg c handed wall e fs app fs' e' d :
  configure path input verbosity = inr cfg ->
  (forall key, content fs (identity_path cfg) = Some key -> bytes_ok key) ->
  start make_radio radio_begin c handed wall cfg e fs = (Some app, fs', e') ->
  s_reach (ap_daemon app) d ->
  let n := d_node d in
  NoDup (map c_pubkey (cs_contacts (n_contacts n))) /\
  (length (cs_contacts (n_contacts n)) <= cs_max_contacts (n_contacts n))%nat /\
  length (chs_channels (n_channels n)) = kMaxChannels /\
  (length (mi_messages (n_inbox n)) <= mi_limit (n_inbox n))%nat /\
  (size (n_delivered n) <= kMaxDelivered)%nat /\
  (length (queue_ (m_disp (n_mesh n))) <= queue_limit_ (m_disp (n_mesh n)))%nat /\
  Forall (pend_live (m_disp (n_mesh n))) (rs_pending (m_sender (n_mesh n))) /\
  validate (ss_cfg (d_settings d)) = None /\ applied n (d_settings d).
Proof.
  intros Hcfg Hkey Hs Hr n. pose proof (started_ok _ _ _ _ _ _ _ _ _ _ _ _ Hcfg Hkey Hs) as Hd0.
  destruct (s_reach_ok _ _ _ Hd0 Hr) as [[Hm [Hu Hl _ _] _ ? ? ?] ? ? ? ?]. split_and!; try done; apply Hm.
Qed.
End startup.

(** ** Recovery from the backup *)

Section recovery.
Context {S : Type} (load : Input -> S -> LoadResult * S) (c : LoadCalls) (path : Str).

(** Every call but the loads works, and the two reads find what is on disk. *)
Definition calls_work : Prop :=
  lc_first c = ReadFine /\ lc_second c = ReadFine /\ lc_aside1_fails c = false /\ lc_restore_fails c = false /\ lc_aside2_fails c = false.

Definition fresh_suffix (x : Str) : Prop := x <> [] /\ x <> lit ".bak".

Lemma rename_content a b fs fs' : sys_rename a b fs = Some fs' -> a <> b ->
  content fs' b = content fs a /\ content fs' a = None /\ forall p, p <> a -> p <> b -> content fs' p = content fs p.
Proof.
  unfold sys_rename, content, lookup_file. intros Hr Hab. destruct (names fs !! a) as [i|] eqn:E; [|done].
  injection Hr as <-. cbn. rewrite lookup_insert_eq, lookup_insert_ne, lookup_delete_eq by done. split_and!; [done|done|].
  intros p Ha Hb. by rewrite lookup_insert_ne, lookup_delete_ne.
Qed.

Lemma suffix_inj (x y : Str) : path ++ x = path ++ y -> x = y.
Proof. apply app_inv_head. Qed.

(** The damaged file aside, the copy in its place. *)
Lemma set_aside_restore fs damaged kept :
  fresh_suffix (lc_suffix1 c) -> content fs path = Some damaged -> content fs (path ++ lit ".bak") = Some kept ->
  exists fs1 fs2, sys_rename path (path ++ lc_suffix1 c) fs = Some fs1 /\ sys_rename (path ++ lit ".bak") path fs1 = Some fs2 /\
    content fs2 path = Some kept /\ content fs2 (path ++ lc_suffix1 c) = Some damaged /\ content fs2 (path ++ lit ".bak") = None /\
    forall p, p <> path -> p <> path ++ lc_suffix1 c -> p <> path ++ lit ".bak" -> content fs2 p = content fs p.
Proof.
  intros [Hne Hnb] Hd Hk. assert (path <> path ++ lc_suffix1 c) as Hp1 by (intros E; by eapply suffix_ne, eq_sym, E).
  assert (path ++ lit ".bak" <> path) as Hp2 by by apply suffix_ne.
  assert (path ++ lit ".bak" <> path ++ lc_suffix1 c) as Hp3 by (intros E%suffix_inj; done).
  destruct (sys_rename path (path ++ lc_suffix1 c) fs) as [fs1|] eqn:E1.
  2:{ unfold sys_rename, content, lookup_file in *. by destruct (names fs !! path). }
  destruct (rename_content _ _ _ _ E1 Hp1) as (A1 & A2 & A3).
  destruct (sys_rename (path ++ lit ".bak") path fs1) as [fs2|] eqn:E2.
  2:{ rewrite <- A3 in Hk by done. unfold sys_rename, content, lookup_file in *. by destruct (names fs1 !! _). }
  destruct (rename_content _ _ _ _ E2 Hp2) as (B1 & B2 & B3). exists fs1, fs2. split_and!; [done|done| | | |].
  - rewrite B1, A3; done.
  - rewrite B3, A1; [done|done|]. by apply not_eq_sym.
  - done.
  - intros p P1 P2 P3. by rewrite B3, A3.
Qed.

Lemma content_open fs p b : content fs p = Some b -> open_file fs p = File b false.
Proof. unfold content, open_file. destruct (lookup_file fs p); [|done]. by intros [= <-]. Qed.

Lemma read_content fs p b : content fs p = Some b -> read_input ReadFine fs p = File b false.
Proof. intros E. unfold read_input. by rewrite (content_open _ _ _ E). Qed.

(** With no copy there is only the quarantine. *)
Lemma set_aside_alone fs damaged :
  fs_wf fs -> fresh_suffix (lc_suffix1 c) -> content fs path = Some damaged -> content fs (path ++ lit ".bak") = None ->
  exists fs1, sys_rename path (path ++ lc_suffix1 c) fs = Some fs1 /\ sys_rename (path ++ lit ".bak") path fs1 = None /\
    content fs1 path = None /\ content fs1 (path ++ lc_suffix1 c) = Some damaged.
Proof.
  intros Hwf [Hne Hnb] Hd Hk. assert (path <> path ++ lc_suffix1 c) as Hp1 by (intros E; by eapply suffix_ne, eq_sym, E).
  destruct (sys_rename path (path ++ lc_suffix1 c) fs) as [fs1|] eqn:E1.
  2:{ unfold sys_rename, content, lookup_file in *. by destruct (names fs !! path). }
  destruct (rename_content _ _ _ _ E1 Hp1) as (A1 & A2 & A3). exists fs1. split_and!; [done| |done|congruence].
  assert (names fs !! (path ++ lit ".bak") = None) as Hn.
  { destruct (names fs !! (path ++ lit ".bak")) as [i|] eqn:E; [|done]. destruct (Hwf _ _ E) as [x Hx].
    unfold content, lookup_file in Hk. rewrite E in Hk. cbn in Hk. by rewrite Hx in Hk. }
  unfold sys_rename in E1 |- *. destruct (names fs !! path) as [i|]; [|done]. injection E1 as <-.
  match goal with |- match ?x with _ => _ end = _ => assert (x = None) as ->; [|done] end.
  cbn. rewrite lookup_insert_ne by by intros E%suffix_inj. rewrite lookup_delete_ne by by intros E; eapply suffix_ne, eq_sym, E.
  done.
Qed.

Lemma recovers fs s damaged r s' fs' :
  (forall input, (load input s).1 = Corrupt -> (load input s).2 = s) ->
  fs_wf fs -> calls_work -> fresh_suffix (lc_suffix1 c) -> fresh_suffix (lc_suffix2 c) ->
  content fs path = Some damaged -> (load (File damaged false) s).1 = Corrupt ->
  load_state load c path fs s = (r, s', fs') ->
  match content fs (path ++ lit ".bak") with
  | Some kept =>
      (r, s') = load (File kept false) s /\
      (r <> Corrupt -> content fs' path = Some kept /\ content fs' (path ++ lc_suffix1 c) = Some damaged) /\
      (r = Corrupt -> s' = s /\ content fs' path = None /\ content fs' (path ++ lc_suffix2 c) = Some kept /\
         (lc_suffix1 c <> lc_suffix2 c -> content fs' (path ++ lc_suffix1 c) = Some damaged))
  | None => r = Corrupt /\ s' = s /\ content fs' path = None /\ content fs' (path ++ lc_suffix1 c) = Some damaged
  end.
Proof.
  intros Hsame Hwf (W1 & W2 & W3 & W4 & W5) F1 F2 Hd Hc. pose proof (Hsame _ Hc) as Hc2. unfold load_state.
  rewrite W1, (read_content _ _ _ Hd). destruct (load (File damaged false) s) as [r0 s0]. cbn [fst snd] in Hc, Hc2. subst r0 s0.
  destruct (content fs (path ++ lit ".bak")) as [kept|] eqn:Hk.
  2:{ destruct (set_aside_alone _ _ Hwf F1 Hd Hk) as (fs1 & E1 & E2 & E3 & E4). unfold quarantine. rewrite W3, E1, W4, E2.
      intros [= <- <- <-]. by split_and!. }
  destruct (set_aside_restore _ _ _ F1 Hd Hk) as (fs1 & fs2 & E1 & E2 & E3 & E4 & _).
  unfold quarantine. rewrite W3, E1, W4, E2, W2, (read_content _ _ _ E3). pose proof (Hsame (File kept false)) as Hs2.
  destruct (load (File kept false) s) as [[] s2]; [intros [= <- <- <-]; by split_and!..|].
  rewrite W5. assert (path <> path ++ lc_suffix2 c) as Hp by (intros E; eapply suffix_ne, eq_sym, E; apply F2).
  destruct (sys_rename path (path ++ lc_suffix2 c) fs2) as [fs3|] eqn:E5.
  2:{ unfold sys_rename, content, lookup_file in *. by destruct (names fs2 !! path). }
  intros [= <- <- <-]. destruct (rename_content _ _ _ _ E5 Hp) as (A1 & A2 & A3). split_and!; [done|done|].
  intros _. split_and!; [by apply Hs2|done|congruence|]. intros Hne. rewrite A3; [done| |by intros E%suffix_inj].
  intros E. eapply suffix_ne, E. apply F1.
Qed.

(** Of a damaged file and a damaged copy found in the same second only the copy is kept: the two quarantines use one
    name, the second replaces what the first kept, and the damaged state file is gone. *)
Theorem damaged_file_lost fs s damaged kept r s' fs' :
  calls_work -> fresh_suffix (lc_suffix1 c) -> lc_suffix2 c = lc_suffix1 c ->
  content fs path = Some damaged -> content fs (path ++ lit ".bak") = Some kept ->
  (forall p, p <> path -> content fs p <> Some damaged) ->
  load (File damaged false) s = (Corrupt, s) -> load (File kept false) s = (Corrupt, s) ->
  load_state load c path fs s = (r, s', fs') ->
  forall p, content fs' p <> Some damaged.
Proof.
  intros (W1 & W2 & W3 & W4 & W5) F1 Hsame Hd Hk Huniq Hc Hc2. unfold load_state. rewrite W1, (read_content _ _ _ Hd), Hc.
  destruct (set_aside_restore _ _ _ F1 Hd Hk) as (fs1 & fs2 & E1 & E2 & E3 & E4 & E5 & E6).
  unfold quarantine. rewrite W3, E1, W4, E2, W2, (read_content _ _ _ E3), Hc2, W5, Hsame.
  assert (path <> path ++ lc_suffix1 c) as Hp by (intros E; eapply suffix_ne, eq_sym, E; apply F1).
  destruct (sys_rename path (path ++ lc_suffix1 c) fs2) as [fs3|] eqn:E7.
  2:{ unfold sys_rename, content, lookup_file in *. by destruct (names fs2 !! path). }
  intros [= <- <- <-] p. destruct (rename_content _ _ _ _ E7 Hp) as (A1 & A2 & A3).
  destruct (decide (p = path ++ lc_suffix1 c)) as [->|P1].
  { rewrite A1, E3, <- Hk. apply Huniq. by apply suffix_ne. }
  destruct (decide (p = path)) as [->|P2]; [by rewrite A2|]. rewrite A3 by done.
  destruct (decide (p = path ++ lit ".bak")) as [->|P3]; [by rewrite E5|]. rewrite E6 by done. by apply Huniq.
Qed.
End recovery.

(** The three stores that are loaded this way. *)
Inductive StateFile := ContactsFile | ChannelsFile | MessagesFile.

Definition store_of (k : StateFile) : Type :=
  match k with ContactsFile => ContactStore | ChannelsFile => ChannelStore | MessagesFile => MessageInbox end.

Definition load_of (k : StateFile) : Input -> store_of k -> LoadResult * store_of k :=
  match k with ContactsFile => cs_load | ChannelsFile => chs_load | MessagesFile => mi_load end.

(** A file that does not load leaves the store alone. *)
Lemma corrupt_keeps k input s : (load_of k input s).1 = Corrupt -> (load_of k input s).2 = s.
Proof. destruct k; cbn; [unfold cs_load|unfold chs_load|unfold mi_load]; repeat case_match; done. Qed.

Section state_files.
Context (c : LoadCalls) (path : Str).

(** C30. A damaged state file costs at most the last save, and is kept.  For the contacts, the channels and the messages,
    when the renames and the reads work: if the file does not load and the copy of the previous save does, the store is
    what the copy holds, the copy is the state file again and the damaged one is kept under its own name; if the copy does
    not load either, or there is none, the store stays exactly as it was, no state file is left for the next save to make
    its backup of, and the damaged files are kept (the first of two only under a suffix of its own). *)
Theorem damaged_store_recovers k fs s damaged r s' fs' :
  fs_wf fs -> calls_work c -> fresh_suffix (lc_suffix1 c) -> fresh_suffix (lc_suffix2 c) ->
  content fs path = Some damaged -> (load_of k (File damaged false) s).1 = Corrupt ->
  load_state (load_of k) c path fs s = (r, s', fs') ->
  match content fs (path ++ lit ".bak") with
  | Some kept =>
      (r, s') = load_of k (File kept false) s /\
      (r <> Corrupt -> content fs' path = Some kept /\ content fs' (path ++ lc_suffix1 c) = Some damaged) /\
      (r = Corrupt -> s' = s /\ content fs' path = None /\ content fs' (path ++ lc_suffix2 c) = Some kept /\
         (lc_suffix1 c <> lc_suffix2 c -> content fs' (path ++ lc_suffix1 c) = Some damaged))
  | None => r = Corrupt /\ s' = s /\ content fs' path = None /\ content fs' (path ++ lc_suffix1 c) = Some damaged
  end.
Proof. apply recovers. intros input. apply corrupt_keeps. Qed.
End state_files.

(** ** An advert interval beyond half the clock's range *)

(** The configuration accepts it. *)
Example long_interval_accepted :
  cfg_advert_interval_s ∘ cf_node <$>
    (match configure [] (File (lit "[storage]
state_dir = /s
[node]
advert_interval = 2147484
") false) 0 with inr cfg => Some cfg | inl _ => None end) = Some 2147484.
Proof. vm_compute. reflexivity. Qed.

(** An advert interval the configuration accepts makes the daemon advertise without pause: from 2147484 seconds on
    (up to the maximum of 4294967) the timer is overdue from the moment it is armed, since instants are compared by the
    sign of their 32-bit difference; [poll] is not waited for, the advert callback runs in every pass, and the timers
    after it are those before it. *)
Theorem long_interval_spins {FB U} (run_cb : NodeTimer -> World NodeTimer FB U -> World NodeTimer FB U) interval_s v now u :
  2147484 <= interval_s <= kMaxTimerDelaySeconds -> is_u32 now ->
  (forall cb w, w_loop (run_cb cb w) = w_loop w) ->
  let l := (node_start (FB := FB) interval_s (make_loop (mkClock v now))).2 in
  let '(w, fired) := run_due_timers run_cb (mkWorld l u) in
  next_timeout_ms l = 0 /\ map f_id fired = [1] /\ w_loop w = l.
Proof.
  intros Hi Hnow Hcb. unfold kMaxTimerDelaySeconds in Hi.
  assert (u32 (interval_s * 1000) = interval_s * 1000) as Eu by (apply u32_small; width).
  set (ms := interval_s * 1000) in *. assert (2 ^ 31 <= ms < 2 ^ 32) as Hms.
  { unfold ms. assert ((2 ^ 32 - 1) / 1000 = 4294967) as E by done. rewrite E in Hi. lia. }
  assert (tdiff (u32 (now + ms)) now = ms - 2 ^ 32) as Ed.
  { replace (u32 (now + ms)) with (u32 (now + (ms - 2 ^ 32))); [apply tdiff_future; lia|].
    unfold u32. replace (now + ms) with (now + (ms - 2 ^ 32) + 1 * 2 ^ 32) by lia. by rewrite Z.mod_add. }
  assert (tdiff (u32 (now + kDeliveredTtlMs)) now = kDeliveredTtlMs) as Es by (apply tdiff_future; unfold kDeliveredTtlMs; lia).
  set (ts := [(1, mkTimer (u32 (now + ms)) ms AdvertTimer false); (2, mkTimer (u32 (now + kDeliveredTtlMs)) kDeliveredTtlMs DeliveredSweep false)]).
  set (l := mkLoop (mkClock v now) [] ts 1 3 false false : EventLoop NodeTimer FB).
  assert ((node_start interval_s (make_loop (mkClock v now))).2 = l) as ->.
  { unfold node_start, add_repeating. rewrite (proj2 (Z.ltb_lt 0 interval_s)) by lia. fold ms. rewrite Eu.
    by rewrite (proj2 (Z.eqb_neq ms 0)) by lia. }
  assert (next_timeout_ms l = 0) as E0.
  { unfold next_timeout_ms, next_due_ms. cbn -[tdiff u32 kDeliveredTtlMs]. unfold soonest_of. cbn -[tdiff u32 kDeliveredTtlMs].
    change (loop_now l) with now. rewrite Ed, Es. rewrite (proj2 (Z.ltb_ge kDeliveredTtlMs _)) by (unfold kDeliveredTtlMs; lia).
    by rewrite (proj2 (Z.ltb_lt _ 0)) by lia. }
  assert (due_ids now ts = [1]) as E1.
  { unfold due_ids. cbn -[tdiff u32 kDeliveredTtlMs]. rewrite Ed, Es. by rewrite (proj2 (Z.leb_le _ 0)) by lia. }
  unfold run_due_timers. change (loop_now (w_loop (mkWorld l u))) with now. change (el_timers (w_loop (mkWorld l u))) with ts.
  rewrite E1. cbn [fire_all]. unfold fire. change (om_find 1 (el_timers (w_loop (mkWorld l u)))) with (Some (mkTimer (CB := NodeTimer) (u32 (now + ms)) ms AdvertTimer false)).
  cbn [t_dead t_interval_ms]. rewrite (proj2 (Z.ltb_lt 0 ms)) by lia. cbn [t_cb map f_id app]. by rewrite Hcb.
Qed.
