(* ===== verification/Main.v ===== *)
(** * The process ([src/src/main.cpp])

    Options, configuration, the daemon from its start to its stop, the exit status; and how
    a signal reaches the loop.  [getopt_long] is an argument: the options it returns. *)

From S2P Require Import Prelude ByteIO Floats Crypto Identity Packet Payloads Radio.
From S2P Require Import Dispatcher Record Persist Contacts Channels Inbox Sender Node.
From S2P Require Import Frames EventLoop CText FloatFacts Ini DaemonConfig Settings Session SessionFacts.
From S2P Require Import DaemonFacts Server App AppFacts.

(** ** Options *)

Inductive Opt := OptConfig (path : Str) | OptVerbose | OptSyslog | OptVersion | OptHelp | OptOther.

Definition kDefaultConfigPath : Str := lit "/etc/coreletd/coreletd.ini".

Record Cli := mkCli { config_path : Str; verbosity : Z; syslog_style : bool }.

#[export] Instance eta_Cli : Eta Cli := fun c => mkCli (config_path c) (verbosity c) (syslog_style c).

Definition Cli_default : Cli := mkCli kDefaultConfigPath 0 false.

(** The loop over the options: an exit status, or what they say. *)
Fixpoint read_options (opts : list Opt) (c : Cli) : Z + Cli :=
  match opts with
  | [] => inr c
  | OptConfig path :: opts => read_options opts (c <| config_path := path |>)
  | OptVerbose :: opts => read_options opts (c <| verbosity ::= fun v => v + 1 |>)
  | OptSyslog :: opts => read_options opts (c <| syslog_style := true |>)
  | OptVersion :: _ | OptHelp :: _ => inl 0
  | OptOther :: _ => inl 2
  end.

(** ** The process *)

Section main.
Context `{CryptoLib} {R : Type} `{Radio R}.
Context (make_radio : RadioParams -> SpiConfig -> option R) (radio_begin : R -> option R) (radio_shutdown : R -> R).

(** What happens outside: the configuration file at each path, the calls of the start, what
    the loop is called with until it returns, and the calls of the stop. *)
Record Outside := mkOutside {
  os_config : Str -> Input;
  os_start : StartCalls;
  os_wall : WallClock;
  os_events : list (SEnv * SEvent (R := R));
  os_save : Faults * Faults * Faults;
  os_lstat : bool;
  os_unlink : bool;
  os_env : SEnv }.

(** The exit status, the application if it came up, the files and the endpoint. *)
Definition main (opts : list Opt) (o : Outside) (e : Endpoint) (fs : Fs) : Z * option App * Fs * Endpoint :=
  match read_options opts Cli_default with
  | inl status => (status, None, fs, e)
  | inr cli =>
      match configure (config_path cli) (os_config o (config_path cli)) (verbosity cli) with
      | inl _ => (1, None, fs, e)
      | inr cfg =>
          match start make_radio radio_begin (os_start o) None (os_wall o) cfg e fs with
          | (None, fs, e) => (1, None, fs, e)
          | (Some app, fs, e) =>
              let d := (s_run (os_events o) (ap_daemon app)).1 in
              let '(f1, f2, f3) := os_save o in
              let '(app, e) := request_stop radio_shutdown f1 f2 f3 (os_lstat o) (os_unlink o) (os_env o) e (mkApp d (ap_server app) (ap_running app)) in
              (0, Some app, n_fs (d_node (ap_daemon app)), e)
          end
      end
  end.

Definition config_of (x : Opt) : option Str := match x with OptConfig p => Some p | _ => None end.
Definition is_verbose (x : Opt) : bool := match x with OptVerbose => true | _ => false end.

Lemma last_cons {A} (l : list A) x y : List.last (x :: l) y = List.last l x.
Proof. revert x. induction l as [|z l IH]; intros x; [done|]. change (List.last (x :: z :: l) y) with (List.last (z :: l) y).
  rewrite IH. symmetry. destruct l as [|u l]; [done|]. change (List.last (z :: u :: l) x) with (List.last (u :: l) x).
  clear. revert u. induction l as [|v l IHl]; intros u; [done|]. apply (IHl v).
Qed.

(** The last [-c] names the file, [-v] is counted, and the first option that ends the program
    decides how, the ones after it aside. *)
Lemma read_options_spec opts c :
  match read_options opts c with
  | inl status =>
      exists before o after, opts = before ++ o :: after /\ Forall (fun x => x <> OptVersion /\ x <> OptHelp /\ x <> OptOther) before /\
        (status = 2 /\ o = OptOther \/ status = 0 /\ (o = OptVersion \/ o = OptHelp))
  | inr c' =>
      config_path c' = List.last (omap config_of opts) (config_path c) /\
      verbosity c' = verbosity c + zlen (List.filter is_verbose opts)
  end.
Proof.
  revert c. induction opts as [|o opts IH]; intros c; [simpl; split; [done|unfold zlen; simpl; lia]|].
  assert (forall c' status, (o <> OptVersion /\ o <> OptHelp /\ o <> OptOther) -> read_options opts c' = inl status ->
    exists before x after, o :: opts = before ++ x :: after /\ Forall (fun x => x <> OptVersion /\ x <> OptHelp /\ x <> OptOther) before /\
        (status = 2 /\ x = OptOther \/ status = 0 /\ (x = OptVersion \/ x = OptHelp))) as Hstop.
  { intros c' status Ho Es. specialize (IH c'). rewrite Es in IH. destruct IH as (before & x & after & -> & Hb & Hx).
    exists (o :: before), x, after. split_and!; [done|by constructor|done]. }
  destruct o as [path| | | | |]; cbn [read_options].
  - destruct (read_options opts _) as [status|c'] eqn:Es; [by eapply Hstop, Es|].
    match type of Es with read_options _ ?x = _ => specialize (IH x) end. rewrite Es in IH. destruct IH as [E1 E2]. split; [|exact E2].
    rewrite E1. symmetry. exact (last_cons (omap config_of opts) path (config_path c)).
  - destruct (read_options opts _) as [status|c'] eqn:Es; [by eapply Hstop, Es|].
    match type of Es with read_options _ ?x = _ => specialize (IH x) end. rewrite Es in IH. destruct IH as [E1 E2]. split; [exact E1|].
    rewrite E2. unfold zlen. simpl length. simpl. lia.
  - destruct (read_options opts _) as [status|c'] eqn:Es; [by eapply Hstop, Es|].
    match type of Es with read_options _ ?x = _ => specialize (IH x) end. by rewrite Es in IH.
  - exists [], OptVersion, opts. split_and!; [done..|]. by right; split; [|left].
  - exists [], OptHelp, opts. split_and!; [done..|]. by right; split; [|right].
  - exists [], OptOther, opts. split_and!; [done..|]. by left.
Qed.

(** The process ends with 2 for a bad option, with 1 when it did not come up, and with 0
    otherwise; unless it was told to run and could read its configuration no file and no
    endpoint is touched; and a daemon that ran was stopped. *)
Theorem main_exits opts o e fs status app fs' e' :
  main opts o e fs = (status, app, fs', e') ->
  (status = 0 \/ status = 1 \/ status = 2) /\
  (status = 2 -> read_options opts Cli_default = inl 2) /\
  ((exists s, read_options opts Cli_default = inl s) \/
   (exists cli err, read_options opts Cli_default = inr cli /\
      configure (config_path cli) (os_config o (config_path cli)) (verbosity cli) = inl err) -> app = None /\ fs' = fs /\ e' = e) /\
  (forall a, app = Some a -> status = 0 /\ ap_running a = false /\ sv_client (ap_server a) = false /\ fs' = n_fs (d_node (ap_daemon a))).
Proof.
  pose proof (read_options_spec opts Cli_default) as Hspec. unfold main. destruct (read_options opts Cli_default) as [s|cli].
  { intros [= <- <- <- <-]. destruct Hspec as (b & x & l & _ & _ & Hs).
    split_and!; [destruct Hs as [[-> _]|[-> _]]; auto|by intros ->|done|done]. }
  destruct (configure _ _ _) as [err|cfg] eqn:Ec; [intros [= <- <- <- <-]; split_and!; auto; done|].
  assert ((exists s, inr (A := Z) cli = inl s) \/
   (exists cli' err, inr (A := Z) cli = inr cli' /\ configure (config_path cli') (os_config o (config_path cli')) (verbosity cli') = inl err) -> False) as Hno.
  { intros [[s Hs]|(cli' & err & [= <-] & Hs)]; congruence. }
  destruct (start _ _ _ _ _ _ _ _) as [[[a|] fs1] e1].
  2:{ intros [= <- <- <- <-]. split_and!; [auto|done|by intros ?%Hno|done]. }
  destruct (os_save o) as [[f1 f2] f3]. destruct (request_stop _ _ _ _ _ _ _ _ _) as [a' e2] eqn:Er. intros [= <- <- <- <-].
  split_and!; [auto|done|by intros ?%Hno|]. intros ? [= <-]. split; [done|]. revert Er. unfold request_stop, shutdown.
  set (l := if sv_client _ then _ else _).
  assert (sv_client (lk_server l) = false) as El by (subst l; unfold drop_client; by repeat case_match).
  unfold cleanup_unix_path. simpl. destruct (sv_owns_path _); intros [= <- <-]; by split_and!.
Qed.
End main.

(** ** Signals

    The handler sets [g_stop]; the loop reads it at the top of a pass and when [poll] was
    interrupted. *)

Inductive Moment := BeforeCheck | BeforePoll | InPoll | AfterPoll.

(** A pass during which a signal arrives at [m], if at all; [g_stop] is whether one has
    before.  [poll] is interrupted by a signal that arrives while it waits. *)
Definition pass_env (g_stop : bool) (m : option Moment) (ready : list Z) (now : Z) : PassEnv :=
  mkPassEnv (g_stop || match m with Some BeforeCheck => true | _ => false end)
    (fun _ _ => match m with Some InPoll => PollInterrupted | _ => PollReady ready end) now
    (g_stop || match m with Some AfterPoll | None => false | _ => true end).

Section signals.
Context {CB FB U : Type} (run_cb : CB -> World CB FB U -> World CB FB U) (run_fd : FB -> Z -> World CB FB U -> World CB FB U).

Lemma run_loop_interrupted es e more : pe_interrupted e = true -> forall w, (run_loop run_cb run_fd (es ++ e :: more) w).1.2 = true.
Proof.
  intros He. induction es as [|e1 es IH]; intros w; cbn [app run_loop]; destruct (el_stop (w_loop w)); try done.
  - unfold run_pass. by rewrite He.
  - destruct (run_pass run_cb run_fd e1 w) as [[w1 []] f1]; [|done]. specialize (IH w1).
    by destruct (run_loop run_cb run_fd (es ++ e :: more) w1) as [[w2 r2] f2].
Qed.

(** A signal ends the loop, whatever went before and whenever it arrives: in the pass it
    arrives in or at the top of the next. *)
Theorem signal_stops_the_loop es m ready now ready' now' more w :
  (run run_cb run_fd (es ++ pass_env false (Some m) ready now :: pass_env true None ready' now' :: more) w).1.2 = true.
Proof.
  unfold run. set (w' := w <| w_loop ::= _ |>).
  change (es ++ ?a :: ?b :: more) with (es ++ [a] ++ b :: more). rewrite app_assoc. by apply run_loop_interrupted.
Qed.

(** One that arrives after the check and before [poll] begins to wait is not seen in its
    pass: the pass is as it would be without, and waits for a descriptor or the next timer. *)
Theorem signal_before_poll_waits ready now w :
  run_pass run_cb run_fd (pass_env false (Some BeforePoll) ready now) w = run_pass run_cb run_fd (pass_env false None ready now) w.
Proof. done. Qed.
End signals.
