(* ===== verification/Restart.v ===== *)
(** * What survives a restart

    Through everything the loop calls, a store that is not marked dirty is on disk
    ([Disk.on_disk]); so a daemon that is stopped, which saves what is dirty, and started
    again on the same directory is the same node with the same contacts, channels and waiting
    messages. *)

From S2P Require Import Prelude ByteIO Floats Crypto Identity Packet Payloads Radio.
From S2P Require Import Dispatcher Record Persist Contacts Channels Inbox Sender Node.
From S2P Require Import Frames EventLoop CText FloatFacts Ini DaemonConfig Settings Session SessionFacts.
From S2P Require Import DaemonFacts Server Disk App AppFacts.

(** ** The files of the state directory *)

Definition state_tmps (cfg : DaemonConfig) : list Str := map (fun p => p ++ lit ".tmp") (state_files cfg).

(** Two names in the state directory differ when their ends do. *)
Ltac apart_names :=
  unfold contacts_path, channels_path, messages_path, settings_path, identity_path, state_path in *;
  intros ?; rewrite <- ?app_assoc in *;
  match goal with E : _ ++ _ = _ ++ _ |- _ => apply app_inv_head in E; vm_compute in E; discriminate E end.

Lemma state_file_among cfg p : p ∈ state_files cfg -> tmp_among (state_tmps cfg) p.
Proof.
  intros Hp. split; [by apply (list_elem_of_fmap_2 (fun p => p ++ lit ".tmp"))|..];
    intros (q & E & Hq)%list_elem_of_fmap; unfold state_files in Hp, Hq; revert E;
    repeat (apply elem_of_cons in Hp as [->|Hp]; [repeat (apply elem_of_cons in Hq as [->|Hq]; [apart_names|]); by apply elem_of_nil in Hq|]);
    by apply elem_of_nil in Hp.
Qed.

Lemma state_files_apart cfg p q : p ∈ state_files cfg -> q ∈ state_files cfg -> p <> q -> apart p q.
Proof.
  intros Hp Hq Hne. split; [done|]. unfold state_files in Hp, Hq.
  repeat (apply elem_of_cons in Hp as [->|Hp]; [repeat (apply elem_of_cons in Hq as [->|Hq]; [split; apart_names|]); by apply elem_of_nil in Hq|]).
  by apply elem_of_nil in Hp.
Qed.

Lemma state_path_ne cfg file : lit file <> [] -> state_path file cfg <> [].
Proof. unfold state_path. by destruct (cf_state_dir cfg). Qed.

(** A save of one state file leaves the others alone. *)
Lemma saved_others cfg q fs fs' :
  q ∈ state_files cfg -> tidy (state_tmps cfg) fs -> rtc (saving q) fs fs' ->
  tidy (state_tmps cfg) fs' /\
  forall p, p ∈ state_files cfg -> p <> q -> lookup_file fs' p = lookup_file fs p.
Proof.
  intros Hq Ht Hs. pose proof (state_file_among cfg q Hq) as Ha. split; [by eapply saves_tidy|].
  intros p Hp Hne. eapply saves_elsewhere; [exact Ha| |exact Ht|exact Hs]. by apply (state_files_apart cfg).
Qed.

Ltac state_file := unfold state_files; repeat first [by left | right].

(** ** The node *)

Section node.
Context `{CryptoLib} {R : Type} `{RadioLaws R}.
Implicit Types (n : Node R).

Variables (cfg : DaemonConfig) (c0 : ContactStore) (h0 : ChannelStore) (m0 : MessageInbox) (key : option Bytes).
Hypotheses (Hc0 : cs_path c0 = contacts_path cfg) (Hh0 : chs_path h0 = channels_path cfg) (Hm0 : mi_path m0 = messages_path cfg).

(** [c0], [h0] and [m0] are the stores a start begins with; [key] is the key file. *)
Record disk_ok n : Prop := {
  dk_tidy : tidy (state_tmps cfg) (n_fs n);
  dk_contacts : on_disk c0 (n_fs n) (n_contacts n);
  dk_channels : on_disk h0 (n_fs n) (n_channels n);
  dk_inbox : on_disk m0 (n_fs n) (n_inbox n);
  dk_key : content (n_fs n) (identity_path cfg) = key }.

(** A step that writes no file. *)
Lemma disk_step n n' :
  n_fs n' = n_fs n -> marked_or_same (n_contacts n) (n_contacts n') -> marked_or_same (n_channels n) (n_channels n') ->
  marked_or_same (n_inbox n) (n_inbox n') -> disk_ok n -> disk_ok n'.
Proof. intros E ? ? ? [? ? ? ? ?]. split; rewrite E; try done; by eapply on_disk_step. Qed.

Lemma mos_refl {S C V} `{Saved S C V} (s : S) : marked_or_same s s.
Proof. by left. Qed.

Lemma disk_contacts n n' :
  n_fs n' = n_fs n -> n_channels n' = n_channels n -> n_inbox n' = n_inbox n ->
  marked_or_same (n_contacts n) (n_contacts n') -> disk_ok n -> disk_ok n'.
Proof. intros E1 E2 E3 Hc. apply disk_step; [done|done|rewrite E2; apply mos_refl|rewrite E3; apply mos_refl]. Qed.

(** Filling a cache is no change. *)
Lemma cache_same i c c' s : contact_at i s = Some c -> saved_card c' = saved_card c -> marked_or_same s (update_contact i (fun _ => c') s).
Proof.
  intros Hi Hc. left. split_and!; [done|done|]. simpl. unfold contact_at in Hi.
  apply list_eq. intros j. rewrite !list_lookup_fmap. destruct (decide (i = j)) as [<-|Hne].
  - rewrite list_lookup_alter_eq, Hi. simpl. by rewrite Hc.
  - by rewrite list_lookup_alter_ne.
Qed.

Lemma shared_secret_card self c : saved_card (shared_secret self c).2 = saved_card c.
Proof. unfold shared_secret. by repeat case_match. Qed.

Lemma touch_marked unix i s : marked_or_same s (touch unix i s).
Proof. by right. Qed.
Lemma touch_signal_marked unix i rssi snr s : marked_or_same s (touch_signal unix i rssi snr s).
Proof. by right. Qed.
Lemma set_path_marked i path s : marked_or_same s (cs_set_path i path s).2.
Proof. unfold cs_set_path. repeat case_match; [by left|by right|by left]. Qed.
Lemma clear_path_marked i s : marked_or_same s (clear_path i s).2.
Proof. unfold clear_path. repeat case_match; [by left|by right|by left]. Qed.
Lemma remove_marked pk s : marked_or_same s (remove_contact pk s).2.
Proof. unfold remove_contact. repeat case_match; [by right|by left]. Qed.
Lemma upsert_marked pk s : marked_or_same s (upsert pk s).2.
Proof. unfold upsert. repeat case_match; [by left|by left|by right]. Qed.
Lemma advert_marked unix adv app s : marked_or_same s (apply_advert unix adv app s).2.
Proof.
  unfold apply_advert. destruct (find_contact _ s) as [i|].
  - destruct (match contact_at i s with Some c => _ | None => _ end); [by left|by right].
  - pose proof (upsert_marked (Advert.pubkey adv) s) as Hu. destruct (upsert _ s) as [[j|] s1]; simpl in *; [|done].
    right. split; [|done]. by destruct Hu as [(E & _)|[E _]].
Qed.

(** The queue and the files after [store]. *)
Lemma store_disk faults mode msg n :
  disk_ok n -> let '(_, inbox, fs) := store faults mode (n_fs n) msg (n_inbox n) in disk_ok (n <| n_inbox := inbox |> <| n_fs := fs |>).
Proof.
  intros [Ht Hc Hh Hi Hk]. unfold store. destruct (evict _ _ _ _) as [ms dropped].
  set (m := _ <| mi_dirty := true |>). pose proof (proj1 Hi) as [= Ep El].
  assert (sv_key m = sv_key m0) as Hkey by (simpl; congruence).
  change (mi_path m) with (mi_path (n_inbox n)). rewrite Ep, Hm0.
  destruct (messages_path cfg) as [|p0 p] eqn:Emp; [by destruct (state_path_ne cfg "/messages")|]. rewrite <- Emp in *. clear p0 p Emp.
  destruct (mi_save faults mode (n_fs n) m) as [[ok m'] fs'] eqn:Es.
  pose proof (save_keeps (S := MessageInbox) _ _ _ _ _ _ _ Es) as (_ & _ & _ & Hs). simpl in Hs.
  change (mi_path m) with (mi_path (n_inbox n)) in Hs. rewrite Ep, Hm0 in Hs.
  destruct (saved_others cfg (messages_path cfg) (n_fs n) fs') as [Ht' Helse]; [state_file|done|done|].
  split; simpl; [done|..].
  - eapply (on_disk_elsewhere _ _ _ _ (contacts_path cfg)); [apply Helse; [state_file|apart_names]|exact Hc0|exact Hc].
  - eapply (on_disk_elsewhere _ _ _ _ (channels_path cfg)); [apply Helse; [state_file|apart_names]|exact Hh0|exact Hh].
  - eapply (on_disk_saved (S := MessageInbox) _ m0); [exact Ht| |exact Hkey|done|exact Es].
    simpl. rewrite Hm0. apply state_file_among. state_file.
  - unfold content. rewrite Helse; [done|state_file|apart_names].
Qed.

#[local] Abbreviation anywhere := (fun _ : Env => True).

#[local] Instance disk_steps : Steps anywhere disk_ok.
Proof.
  split; intros; intros e n _ Hn.
  - unfold dispatcher_send. destruct (send _ _ _ _ _ _ _) as [[? ?] ?]. by apply (disk_contacts n); try apply mos_refl.
  - unfold send_ack. destruct (contact_at _ _); [|done]. destruct (route_to _ _ _ _ _ _ _ _) as [[? ?] ?].
    by apply (disk_contacts n); try apply mos_refl.
  - unfold contact_secret. destruct (contact_at i (n_contacts n)) as [c|] eqn:Ec; [|done].
    pose proof (shared_secret_card (n_self n) c) as Es. destruct (shared_secret _ _) as [x c'].
    apply (disk_contacts n); try done. by eapply cache_same.
  - unfold complete_ack. destruct (complete _ _) as [[x|] s]; [|done]. simpl.
    destruct (find_contact _ _); [|by apply (disk_contacts n); try apply mos_refl].
    destruct direct; apply (disk_contacts n); try done; [apply touch_marked|apply mos_refl].
  - unfold store_message. pose proof (store_disk (e_faults e) (e_umask_mode e) msg n Hn) as Hs.
    by destruct (store _ _ _ _ _) as [[ok inbox] fs].
  - unfold mark_delivered. destruct (first_delivery _ _ _ _ _) as [b d]. by apply (disk_contacts n); try apply mos_refl.
  - apply (disk_contacts n); try done. apply touch_marked.
  - apply (disk_contacts n); try done. apply touch_signal_marked.
  - apply (disk_contacts n); try done. apply set_path_marked.
  - unfold contacts_apply_advert. pose proof (advert_marked (e_unix e) adv app (n_contacts n)) as Ha.
    destruct (apply_advert _ _ _ _) as [[c created] s]. by apply (disk_contacts n).
Qed.

Lemma on_frame_disk rx : keeps anywhere disk_ok (on_frame rx).
Proof.
  intros e n _ Hn. unfold on_frame. destruct (on_radio_rx _ _ _) as [d calls].
  assert (disk_ok (n <| n_mesh ::= fun m => m <| m_disp := d |> |>)) as Hn1 by (by apply (disk_contacts n); try apply mos_refl).
  destruct (delivered calls) as [p|]; [|done]. by apply (on_packet_keeps anywhere disk_ok).
Qed.

Lemma on_dispatcher_disk ev : keeps anywhere disk_ok (on_dispatcher ev).
Proof. intros e n _ Hn. unfold on_dispatcher. destruct (handle _ _ _ _). by apply (disk_contacts n); try apply mos_refl. Qed.

(** The sender fills caches. *)
Lemma send_attempt_marked now r self p i force (m : Mesh R) :
  marked_or_same (m_contacts m) (m_contacts (send_attempt now r self p i force m).2).
Proof.
  unfold send_attempt. destruct (contact_at i (m_contacts m)) as [to|] eqn:Ec; [|apply mos_refl].
  pose proof (cache_same i to (shared_secret self to).2 (m_contacts m) Ec (shared_secret_card self to)) as Hc.
  destruct (shared_secret self to) as [shared to']. cbv zeta.
  destruct (seal_attempt _ _ _ _) as [[[h p2] payload]|]; [|exact Hc].
  destruct (route_to _ _ _ _ _ _ _ _) as [[queued d] rs]. by destruct queued.
Qed.

Lemma send_text_disk i text ty ts : keeps anywhere disk_ok (send_text i text ty ts).
Proof.
  intros e n _ Hn. unfold send_text. assert (marked_or_same (n_contacts n)
    (m_contacts (send_message (e_now e) (e_pump_r e) (n_self n) i text ty ts (n_mesh n)).2)) as Hm.
  { unfold send_message. destruct (contact_at _ _) as [to|]; [|apply mos_refl].
    destruct (if negb _ then _ else None) as [dup|]; [apply mos_refl|]. destruct (_ && _); [apply mos_refl|]. cbv zeta.
    destruct (negb (ty =? kTxtCliData)).
    all: match goal with |- context [send_attempt ?a ?b ?c ?d ?e ?f ?g] =>
           pose proof (send_attempt_marked a b c d e f g) as Ha; destruct (send_attempt a b c d e f g) as [[h err] m'] end; by destruct h. }
  destruct (send_message _ _ _ _ _ _ _ _) as [[h err] m']. by apply (disk_contacts n).
Qed.

Lemma on_retry_disk id : keeps anywhere disk_ok (on_retry_due id).
Proof.
  intros e n _ Hn. apply (disk_contacts n); try done. simpl. unfold n_contacts, on_retry_timer, on_retry. simpl.
  destruct (find_pending _ _) as [p|]; [|apply mos_refl]. cbv zeta.
  destruct (_ <=? _); [apply mos_refl|]. destruct (find_contact _ _) as [i|]; [|apply mos_refl].
  match goal with |- context [send_attempt ?a ?b ?c ?d ?e ?f ?g] =>
    pose proof (send_attempt_marked a b c d e f g) as Ha; destruct (send_attempt a b c d e f g) as [[h err] m'] end. by destruct h.
Qed.

Lemma pop_disk : keeps anywhere disk_ok pop_message.
Proof.
  intros e n _ Hn. unfold pop_message, pop. destruct (mi_messages (n_inbox n)) eqn:Em.
  - by apply (disk_step n); try apply mos_refl.
  - by apply (disk_step n); try apply mos_refl; try (by right).
Qed.

Lemma channel_set_disk i ch : keeps anywhere disk_ok (modify (fun n => n <| n_channels ::= channel_set i ch |>)).
Proof.
  intros e n _ Hn. apply (disk_step n); try apply mos_refl; try done. simpl. unfold channel_set.
  case_match; [apply mos_refl|by right].
Qed.
End node.

(** ** The daemon *)

Section daemon.
Context `{CryptoLib} {R : Type} `{RadioLaws R}.
Implicit Types (d : Daemon R).

Variables (cfg : DaemonConfig) (c0 : ContactStore) (h0 : ChannelStore) (m0 : MessageInbox) (key : option Bytes).
Hypotheses (Hc0 : cs_path c0 = contacts_path cfg) (Hh0 : chs_path h0 = channels_path cfg) (Hm0 : mi_path m0 = messages_path cfg).

#[local] Abbreviation node_disk := (disk_ok (R := R) cfg c0 h0 m0 key).

#[local] Instance node_disk_steps : Steps (fun _ => True) node_disk.
Proof. by apply disk_steps. Qed.

Record daemon_disk d : Prop := {
  dd_settings : ss_path (d_settings d) = settings_path cfg;
  dd_node : node_disk (d_node d) }.

#[local] Abbreviation always := (fun _ : SEnv => True).

Lemma call_disk {A} (m : M R A) : keeps (fun _ => True) node_disk m -> s_keeps always daemon_disk (call_node m).
Proof.
  intros Hm e d _ [Hs Hn]. destruct (call_node_state m e d) as [E1 E2]. split; rewrite ?E1, ?E2; [done|]. by apply Hm.
Qed.

(** A change of the settings writes the settings file alone. *)
Lemma settings_disk changes : s_keeps always daemon_disk (set_settings changes).
Proof.
  intros e d _ [Hs [Ht Hc Hh Hi Hk]]. unfold set_settings. destruct (ss_set _ _ _ _ _) as [[r s] fs] eqn:Es.
  assert (ss_path s = ss_path (d_settings d) /\ rtc (saving (settings_path cfg)) (n_fs (d_node d)) fs) as [Ep Hsv].
  { unfold ss_set in Es. destruct (set_all _ _) as [|next]; [by simplify_eq|]. destruct (validate next); [by simplify_eq|].
    destruct (ss_save _ _ _ _ _) as [ok fs1] eqn:Ew. unfold ss_save in Ew. destruct (save_file _ _ _ _ _ _) as [[ok2 fs2] seen] eqn:Ef.
    apply save_file_saving in Ef. rewrite Hs in Ef. simplify_eq. by destruct ok; simplify_eq. }
  destruct (saved_others cfg (settings_path cfg) (n_fs (d_node d)) fs) as [Ht' Helse]; [state_file|done|done|].
  set (d1 := d <| d_settings := s |> <| d_node ::= fun n => n <| n_fs := fs |> |>).
  assert (daemon_disk d1) as Hd1.
  { split; [by simpl; rewrite Ep|]. split; simpl; [done|..].
    - eapply (on_disk_elsewhere _ _ _ _ (contacts_path cfg)); [apply Helse; [state_file|apart_names]|exact Hc0|exact Hc].
    - eapply (on_disk_elsewhere _ _ _ _ (channels_path cfg)); [apply Helse; [state_file|apart_names]|exact Hh0|exact Hh].
    - eapply (on_disk_elsewhere _ _ _ _ (messages_path cfg)); [apply Helse; [state_file|apart_names]|exact Hm0|exact Hi].
    - unfold content. rewrite Helse; [done|state_file|apart_names]. }
  destruct r; [|done..]. rewrite s_bind_eq.
  assert (daemon_disk (call_node (ss_apply s) e d1).1.2) as Hd2.
  { apply call_disk; [|done|done]. intros e' n _ Hn. unfold ss_apply, mbind, M_bind. cbn -[reconfigure]. unfold reconfigure_radio. cbn -[reconfigure].
    destruct (reconfigure _ _ _ _) as [x rs]. by apply (disk_contacts cfg c0 h0 m0 key n); try apply mos_refl. }
  by destruct (call_node _ e d1) as [[[] d2] o2].
Qed.

Lemma with_contacts_disk f : (forall s, marked_or_same s (f s)) -> s_keeps always daemon_disk (with_contacts f).
Proof. intros Hf e d _ [Hs Hn]. split; [done|]. by apply (disk_contacts cfg c0 h0 m0 key (d_node d)). Qed.

(** Everything but the contacts is on disk, and their path and limit are what they were. *)
Definition contacts_open d : Prop :=
  ss_path (d_settings d) = settings_path cfg /\
  sv_key (n_contacts (d_node d)) = sv_key c0 /\
  forall s, on_disk c0 (n_fs (d_node d)) s -> node_disk ((d_node d) <| n_mesh ::= fun m => m <| m_contacts := s |> |>).

Lemma disk_open d : daemon_disk d -> contacts_open d.
Proof. intros [Hs [Ht Hc Hh Hi Hk]]. split_and!; [done|apply Hc|]. intros s Hd. by split. Qed.

Lemma open_contacts f e d : (forall s, sv_key (f s) = sv_key s) -> contacts_open d -> contacts_open (with_contacts f e d).1.2.
Proof. intros Hf (E1 & E2 & E3). split_and!; [done| |done]. by rewrite <- E2, <- (Hf (n_contacts (d_node d))). Qed.

Lemma marked_key {S C V} `{Saved S C V} (s s' : S) : marked_or_same s s' -> sv_key s' = sv_key s.
Proof. by intros [(E & _)|[E _]]. Qed.

#[local] Instance disk_ssteps : SSteps always daemon_disk.
Proof.
  split; intros.
  - by intros e d _ [? ?].
  - apply settings_disk.
  - apply call_disk. by apply (send_advert_keeps (fun _ => True) node_disk).
  - intros e d _ Hd. pose proof (send_channel_text_keeps (fun _ => True) node_disk i text ts (node_env e d) (d_node d) I (dd_node _ Hd)) as Hk.
    destruct (call_node_state (send_channel_text i text ts) e d) as [E1 E2]. split; rewrite ?E1, ?E2; [apply Hd|].
    unfold mbind, M_bind in Hk. by destruct (send_channel_text _ _ _ _ _) as [[? ?] ?].
  - apply call_disk, pop_disk.
  - apply call_disk, channel_set_disk.
  - apply (add_update_steps _ _ contacts_open).
    + by intros e d _ [? ?].
    + intros pubkey e d _ _ Hd. enough (daemon_disk (contact_upsert pubkey e d).1.2) by (split; [done|by apply disk_open]).
      unfold contact_upsert. pose proof (upsert_marked pubkey (d_contacts d)) as Hu. destruct (upsert _ _) as [c s].
      destruct Hd as [Hs Hn]. split; [done|]. by apply (disk_contacts cfg c0 h0 m0 key (d_node d)).
    + intros i f e d _ _. by apply open_contacts.
    + intros i e d _. apply open_contacts. intros s. apply marked_key, clear_path_marked.
    + intros i path e d _. apply open_contacts. intros s. apply marked_key, set_path_marked.
    + intros e d _ (E1 & E2 & E3). split; [done|]. apply (E3 (_ <| cs_dirty := true |>)). split; [exact E2|done].
  - intros e d _ Hd. unfold contact_remove. pose proof (remove_marked pubkey (d_contacts d)) as Hu.
    destruct (remove_contact _ _) as [b s]. destruct Hd as [Hs Hn]. split; [done|].
    by apply (disk_contacts cfg c0 h0 m0 key (d_node d)).
  - apply with_contacts_disk. intros s. apply clear_path_marked.
  - by intros e d _ [? ?].
  - by intros e d _ [? ?].
Qed.
(** One store's part of a flush. *)
Lemma stage_disk {S C V} `{SavedLaws S C V} (s0 : S) q f mode fs s ok s' fs' :
  q ∈ state_files cfg -> (sv_key s0).1 = q -> tidy (state_tmps cfg) fs -> on_disk s0 fs s ->
  (if sv_dirty s then sv_save f mode fs s else (true, s, fs)) = (ok, s', fs') ->
  on_disk s0 fs' s' /\ tidy (state_tmps cfg) fs' /\ sv_dirty s' = negb ok /\ sv_cards s' = sv_cards s /\
  forall p, p ∈ state_files cfg -> p <> q -> lookup_file fs' p = lookup_file fs p.
Proof.
  intros Hq Eq Ht Hd. destruct (sv_dirty s) eqn:Es; [|by intros [= <- <- <-]]. intros Hs.
  destruct (on_disk_saved (state_tmps cfg) s0 f mode fs s ok s' fs' Ht) as (E1 & E2 & E3); try done;
    [rewrite Eq; by apply state_file_among|apply Hd|].
  destruct (save_keeps _ _ _ _ _ _ _ Hs) as (_ & _ & _ & Hr). rewrite (proj1 Hd), Eq in Hr.
  by destruct (saved_others cfg q fs fs' Hq Ht Hr).
Qed.

(** Saving leaves the stores as they are, and on disk when it reports success. *)
Lemma flush_disk f1 f2 f3 w e d :
  daemon_disk d ->
  let d' := (on_flush f1 f2 f3 w e d).1.2 in
  daemon_disk d' /\
  sv_cards (n_contacts (d_node d')) = sv_cards (n_contacts (d_node d)) /\
  sv_cards (n_channels (d_node d')) = sv_cards (n_channels (d_node d)) /\
  sv_cards (n_inbox (d_node d')) = sv_cards (n_inbox (d_node d)) /\
  (sw_healthy (d_writer d') = true ->
   sv_dirty (n_contacts (d_node d')) = false /\ sv_dirty (n_channels (d_node d')) = false /\ sv_dirty (n_inbox (d_node d')) = false).
Proof.
  intros [Hs [Ht Hc Hh Hi Hk]]. unfold on_flush, flush. simpl.
  destruct (if cs_dirty _ then _ else _) as [[ok1 c] fs1] eqn:E1.
  destruct (stage_disk c0 (contacts_path cfg) f1 _ _ _ _ _ _ ltac:(state_file) Hc0 Ht Hc E1) as (A1 & A2 & A3 & A4 & A5).
  destruct (if chs_dirty _ then _ else _) as [[ok2 ch] fs2] eqn:E2.
  eapply on_disk_elsewhere in Hh; [|apply (A5 (channels_path cfg)); [state_file|apart_names]|exact Hh0].
  destruct (stage_disk h0 (channels_path cfg) f2 _ _ _ _ _ _ ltac:(state_file) Hh0 A2 Hh E2) as (B1 & B2 & B3 & B4 & B5).
  destruct (if mi_dirty _ then _ else _) as [[ok3 i] fs3] eqn:E3.
  eapply on_disk_elsewhere in Hi; [|apply (A5 (messages_path cfg)); [state_file|apart_names]|exact Hm0].
  eapply on_disk_elsewhere in Hi; [|apply (B5 (messages_path cfg)); [state_file|apart_names]|exact Hm0].
  destruct (stage_disk m0 (messages_path cfg) f3 _ _ _ _ _ _ ltac:(state_file) Hm0 B2 Hi E3) as (C1 & C2 & C3 & C4 & C5).
  simpl. split; [split; [done|]; split; simpl; [done|..]|].
  - eapply (on_disk_elsewhere _ _ _ _ (contacts_path cfg)); [apply C5; [state_file|apart_names]|exact Hc0|].
    eapply (on_disk_elsewhere _ _ _ _ (contacts_path cfg)); [apply B5; [state_file|apart_names]|exact Hc0|exact A1].
  - eapply (on_disk_elsewhere _ _ _ _ (channels_path cfg)); [apply C5; [state_file|apart_names]|exact Hh0|exact B1].
  - done.
  - unfold content. rewrite C5, B5, A5; try done; try state_file; apart_names.
  - split_and!; [done..|]. unfold n_contacts. simpl in *. rewrite A3, B3, C3. destruct ok1, ok2, ok3; done.
Qed.

(** ** Runs *)

Lemma handle_frame_disk frame : s_keeps always daemon_disk (handle_frame frame).
Proof.
  intros e d He Hd. destruct frame as [|cmd args]; [done|].
  destruct (Z.eq_dec cmd kCmdAppStart) as [->|E1]; [|destruct (Z.eq_dec cmd kCmdGetContacts) as [->|E2]].
  - destruct (app_start_run args e d) as (d' & -> & _ & _ & E1 & E2). destruct Hd as [Hs Hn]. split; cbn; by rewrite ?E1, ?E2.
  - unfold handle_frame. rewrite frame_args. cbn [Z.eqb kCmdGetContacts kCmdAppStart Pos.eqb]. by rewrite get_contacts_run.
  - destruct (command_run cmd args e d E1 E2) as [-> _]. cbn [fst snd].
    destruct (Z.eq_dec cmd kCmdSendTxtMsg) as [->|E3]; [|by apply (run_command_keeps always daemon_disk)].
    apply (send_txt_msg_keeps always daemon_disk); [|done|done]. intros. apply call_disk, send_text_disk.
Qed.

Lemma on_event_disk ev : s_keeps always daemon_disk (on_event ev).
Proof.
  intros e d He Hd. destruct ev as [|frame|rx|dev|id| | |f1 f2 f3|f1 f2 f3]; cbn [on_event].
  - by destruct Hd.
  - by apply handle_frame_disk.
  - unfold on_air. rewrite s_bind_eq. set (hook := match raw_hook _ with Some p => _ | None => _ end).
    assert (hook e d = (tt, d, (hook e d).2)) as -> by (subst hook; by destruct (raw_hook _)).
    assert (daemon_disk (call_node (on_frame rx) e d).1.2) as Hk by (by apply call_disk; [apply on_frame_disk|..]).
    by destruct (call_node _ e d) as [[[] d1] o1].
  - apply call_disk; [apply on_dispatcher_disk|done|done].
  - apply call_disk; [apply on_retry_disk|done|done].
  - apply call_disk; [|done|done]. intros e' n _ Hn. by apply (disk_contacts cfg c0 h0 m0 key n); try apply mos_refl.
  - by apply (keep_advert always daemon_disk).
  - by apply flush_disk.
  - by apply flush_disk.
Qed.

Lemma reach_disk d0 d : daemon_disk d0 -> s_reach d0 d -> daemon_disk d.
Proof. intros Hd0. induction 1; [done|]. by apply on_event_disk. Qed.
End daemon.

(** ** Loading the stores *)

Definition suffix_fine (x : Str) : Prop := x <> [] /\ x <> lit ".bak" /\ x <> lit ".tmp".

(** The calls of a [load_state] work, and what it sets aside gets a name of its own. *)
Definition loads_work (c : LoadCalls) : Prop := calls_work c /\ suffix_fine (lc_suffix1 c) /\ suffix_fine (lc_suffix2 c).

Lemma suffix_not_tmp cfg p x : p ∈ state_files cfg -> x <> lit ".tmp" -> p ++ x ∉ state_tmps cfg.
Proof.
  intros Hp Hx (q & E & Hq)%list_elem_of_fmap. unfold state_files in Hp, Hq. revert E.
  repeat (apply elem_of_cons in Hp as [->|Hp];
    [repeat (apply elem_of_cons in Hq as [->|Hq]; [first [by intros ?%app_inv_head | apart_names]|]); by apply elem_of_nil in Hq|]).
  by apply elem_of_nil in Hp.
Qed.

Lemma rename_tidy ts a b fs fs' : a ∉ ts -> b ∉ ts -> sys_rename a b fs = Some fs' -> tidy ts fs -> tidy ts fs'.
Proof.
  intros Ha Hb Hr [Hwf Hp]. unfold sys_rename in Hr. destruct (names fs !! a) as [j|] eqn:Ej; [|done]. injection Hr as <-. split.
  - intros u i Hi. simpl in *. apply lookup_insert_Some in Hi as [[_ <-]|[_ [_ Hi]%lookup_delete_Some]]; by eapply Hwf.
  - intros u i v Hu Hi Hv. simpl in *. apply lookup_insert_Some in Hi as [[<- _]|[_ [_ Hi]%lookup_delete_Some]]; [done|].
    apply lookup_insert_Some in Hv as [[_ <-]|[_ [_ Hv]%lookup_delete_Some]]; [|by eapply Hp].
    destruct Ha. by rewrite (Hp u j a Hu Hi Ej).
Qed.

(** A quarantine that works leaves no file at the path. *)
Lemma quarantine_gone suffix path fs :
  suffix <> [] -> is_Some (names fs !! path) ->
  exists fs', (quarantine false suffix path fs).2 = fs' /\ sys_rename path (path ++ suffix) fs = Some fs' /\ open_file fs' path = NoFile.
Proof.
  intros Hs [i Hi]. unfold quarantine, sys_rename. rewrite Hi. eexists. split_and!; [done..|].
  unfold open_file, lookup_file. simpl. rewrite lookup_insert_ne by (by apply suffix_ne). by rewrite lookup_delete_eq.
Qed.

Section loading.
Context {S C V : Type} `{SavedLaws S C V}.

Lemma corrupt_there fs p (s s' : S) : sv_load (open_file fs p) s = (Corrupt, s') -> is_Some (names fs !! p).
Proof.
  unfold open_file, lookup_file. destruct (names fs !! p) as [i|]; [eauto|]. simpl. by rewrite load_missing.
Qed.

Lemma loaded_on_disk (s0 s : S) fs r : sv_load (open_file fs (sv_key s0).1) s0 = (r, s) -> r <> Corrupt -> on_disk s0 fs s.
Proof.
  intros E Hr. pose proof (load_key (open_file fs (sv_key s0).1) s0) as Hk. rewrite E in Hk. split; [done|].
  intros _ _. by exists r, s.
Qed.

Lemma missing_on_disk (s0 : S) fs : open_file fs (sv_key s0).1 = NoFile -> on_disk s0 fs s0.
Proof. intros E. apply (loaded_on_disk _ _ _ Missing); [|done]. by rewrite E, load_missing. Qed.

(** Whatever the files hold, the store a start loads is on disk. *)
Lemma load_state_disk cfg c path fs (s0 : S) r s fs' :
  path ∈ state_files cfg -> loads_work c -> (sv_key s0).1 = path -> tidy (state_tmps cfg) fs ->
  load_state sv_load c path fs s0 = (r, s, fs') ->
  on_disk s0 fs' s /\ tidy (state_tmps cfg) fs'.
Proof.
  intros Hp [(W1 & W2 & W3 & W4 & W5) [(F1 & _ & F2) (G1 & _ & G2)]] Hk Ht. unfold load_state. rewrite W1, W2, W3, W4, W5.
  assert (forall fs, read_input ReadFine fs path = open_file fs path) as Hread
    by (intros x; unfold read_input, open_file; by destruct (lookup_file x path)).
  assert ((path ∉ state_tmps cfg) /\ ((path ++ lit ".bak") ∉ state_tmps cfg)) as [Hn Hb] by (by destruct (state_file_among cfg path Hp)).
  rewrite Hread. destruct (sv_load (open_file fs path) s0) as [[] s1] eqn:E1.
  1,2: intros [= <- <- <-]; split; [|done]; subst path; by eapply loaded_on_disk.
  assert (s1 = s0) as -> by (by eapply load_corrupt).
  destruct (quarantine_gone (lc_suffix1 c) path fs F1 (corrupt_there _ _ _ _ E1)) as (fs1 & Eq1 & Er1 & Eo1).
  assert (tidy (state_tmps cfg) fs1) as Ht1 by (by apply (rename_tidy _ path (path ++ lc_suffix1 c) fs); [|apply suffix_not_tmp|..]).
  destruct (quarantine false (lc_suffix1 c) path fs) as [q1 fsq]. simpl in Eq1. subst fsq.
  destruct (sys_rename (path ++ lit ".bak") path fs1) as [fs2|] eqn:Er2.
  2:{ intros [= <- <- <-]. split; [|done]. subst path. by apply missing_on_disk. }
  assert (tidy (state_tmps cfg) fs2) as Ht2 by (by eapply rename_tidy; [| |exact Er2|exact Ht1]).
  rewrite Hread. destruct (sv_load (open_file fs2 path) s0) as [[] s2] eqn:E2.
  1,2: intros [= <- <- <-]; split; [|done]; subst path; by eapply loaded_on_disk.
  assert (s2 = s0) as -> by (by eapply load_corrupt).
  destruct (quarantine_gone (lc_suffix2 c) path fs2 G1 (corrupt_there _ _ _ _ E2)) as (fs3 & Eq3 & Er3 & Eo3).
  assert (tidy (state_tmps cfg) fs3) as Ht3 by (by apply (rename_tidy _ path (path ++ lc_suffix2 c) fs2); [|apply suffix_not_tmp|..]).
  destruct (quarantine false (lc_suffix2 c) path fs2) as [q2 fsq]. simpl in Eq3. subst fsq.
  intros [= <- <- <-]. split; [|done]. subst path. by apply missing_on_disk.
Qed.

(** A store that is on disk is loaded as it is, and no file is moved. *)
Lemma load_state_again c path fs (s0 s : S) :
  loads_work c -> (sv_key s0).1 = path -> on_disk s0 fs s -> sv_dirty s = false -> sv_ok (sv_key s0).2 (sv_cards s) ->
  exists r s', load_state sv_load c path fs s0 = (r, s', fs) /\ sv_view (sv_cards s') = sv_view (sv_cards s).
Proof.
  intros [(W1 & _) _] <- [_ Hd] Hc Hok. destruct (Hd Hc Hok) as (r & s' & Hl & Hr & Hv). exists r, s'. split; [|done].
  unfold load_state. rewrite W1. assert (read_input ReadFine fs (sv_key s0).1 = open_file fs (sv_key s0).1) as ->
    by (unfold read_input, open_file; by destruct (lookup_file _ _)).
  rewrite Hl. by destruct r.
Qed.
End loading.

(** ** Starting *)

Definition fresh_contacts (cfg : DaemonConfig) (id : LocalIdentity) : ContactStore :=
  mkContactStore id (contacts_path cfg) kMaxContacts [] false.
Definition fresh_channels (cfg : DaemonConfig) : ChannelStore := make_channels (channels_path cfg).
Definition fresh_inbox (cfg : DaemonConfig) : MessageInbox := mkInbox (messages_path cfg) [] kDefaultLimit 0 false.

Lemma state_path_dir file cfg cfg' : cf_state_dir cfg' = cf_state_dir cfg -> state_path file cfg' = state_path file cfg.
Proof. unfold state_path. by intros ->. Qed.

Lemma moved_lookup q fs fs' p : moved q fs fs' -> (forall s, p <> q ++ s) -> lookup_file fs' p = lookup_file fs p.
Proof. intros [E1 E2] Hp. unfold lookup_file. by rewrite E1, E2. Qed.

Lemma restrict_tidy reg fails cfg ts fs : tidy ts fs -> tidy ts (restrict_state_files reg fails cfg fs).
Proof.
  intros [Hwf Hp]. pose proof (restrict_all_same reg fails cfg fs) as Hs. split; [by eapply same_wf|].
  destruct Hs as [E _]. unfold private. by rewrite E.
Qed.

Lemma same_open fs fs' p : same_files fs fs' -> open_file fs' p = open_file fs p.
Proof.
  intros Hs. pose proof (same_content _ _ p Hs) as Hc. unfold content, open_file in *.
  destruct (lookup_file fs' p), (lookup_file fs p); simpl in *; congruence.
Qed.

Section start.
Context `{EdSizes} {R : Type} `{RadioLaws R}.
Context (make_radio : RadioParams -> SpiConfig -> option R) (radio_begin : R -> option R).

Definition start_loads (c : StartCalls) : Prop := loads_work (sc_contacts c) /\ loads_work (sc_channels c) /\ loads_work (sc_messages c).

Section assemble.
Context (cfg : DaemonConfig) (c : StartCalls) (handed : option R) (id : LocalIdentity) (s : SettingsStore) (fs : Fs).
Hypotheses (Hw : start_loads c) (Hdir : cf_state_dir (ss_cfg s) = cf_state_dir cfg) (Hmp : cf_messages_path (ss_cfg s) = messages_path cfg).

Lemma assemble_disk node fs' :
  tidy (state_tmps cfg) fs -> assemble make_radio radio_begin c handed id s fs = (Some node, fs') ->
  disk_ok cfg (fresh_contacts cfg id) (fresh_channels cfg) (fresh_inbox cfg) (content fs' (identity_path cfg)) node /\ n_fs node = fs'.
Proof.
  destruct Hw as (W1 & W2 & W3). intros Ht. unfold assemble, contacts_path, channels_path, messages_path.
  rewrite !(state_path_dir _ _ _ Hdir), Hmp.
  fold (contacts_path cfg) (channels_path cfg) (messages_path cfg) (fresh_contacts cfg id) (fresh_channels cfg).
  destruct (load_state cs_load _ _ _ _) as [[r1 contacts] fs1] eqn:E1.
  destruct (load_state_disk cfg _ (contacts_path cfg) fs (fresh_contacts cfg id) r1 contacts fs1 ltac:(state_file) W1 eq_refl Ht E1) as [D1 T1].
  destruct (load_state chs_load _ _ _ _) as [[r2 channels] fs2] eqn:E2.
  destruct (load_state_disk cfg _ (channels_path cfg) fs1 (fresh_channels cfg) r2 channels fs2 ltac:(state_file) W2 eq_refl T1 E2) as [D2 T2].
  pose proof (load_state_moved chs_load (sc_channels c) (channels_path cfg) fs1 (fresh_channels cfg)) as M2. rewrite E2 in M2.
  destruct (start_radio _ _ _) as [radio|]; [|done]. destruct (dispatcher_start _ _) as [d|]; [|done].
  cbn [n_inbox]. fold (fresh_inbox cfg).
  destruct (load_state mi_load _ _ _ _) as [[r3 inbox] fs3] eqn:E3.
  destruct (load_state_disk cfg _ (messages_path cfg) fs2 (fresh_inbox cfg) r3 inbox fs3 ltac:(state_file) W3 eq_refl T2 E3) as [D3 T3].
  pose proof (load_state_moved mi_load (sc_messages c) (messages_path cfg) fs2 (fresh_inbox cfg)) as M3. rewrite E3 in M3.
  intros [= <- <-]. split; [|done]. split; cbn -[on_disk]; try done.
  - eapply (on_disk_elsewhere _ _ _ _ (contacts_path cfg)); [eapply moved_lookup; [exact M3|intros x; apart_names]|done|].
    eapply (on_disk_elsewhere _ _ _ _ (contacts_path cfg)); [eapply moved_lookup; [exact M2|intros x; apart_names]|done|exact D1].
  - eapply (on_disk_elsewhere _ _ _ _ (channels_path cfg)); [eapply moved_lookup; [exact M3|intros x; apart_names]|done|exact D2].
Qed.

(** On a disk that has three stores, the assembled node has them. *)
Lemma assemble_again contacts channels inbox node fs' :
  on_disk (fresh_contacts cfg id) fs contacts -> sv_dirty contacts = false -> sv_ok kMaxContacts (sv_cards contacts) ->
  on_disk (fresh_channels cfg) fs channels -> sv_dirty channels = false -> sv_ok kMaxChannels (sv_cards channels) ->
  on_disk (fresh_inbox cfg) fs inbox -> sv_dirty inbox = false -> sv_ok kDefaultLimit (sv_cards inbox) ->
  assemble make_radio radio_begin c handed id s fs = (Some node, fs') ->
  map persisted (cs_contacts (n_contacts node)) = map persisted (cs_contacts contacts) /\
  map persisted_channel (chs_channels (n_channels node)) = map persisted_channel (chs_channels channels) /\
  mi_messages (n_inbox node) = mi_messages inbox.
Proof.
  destruct Hw as (W1 & W2 & W3). intros A1 A2 A3 B1 B2 B3 C1 C2 C3. unfold assemble, contacts_path, channels_path, messages_path.
  rewrite !(state_path_dir _ _ _ Hdir), Hmp.
  fold (contacts_path cfg) (channels_path cfg) (messages_path cfg) (fresh_contacts cfg id) (fresh_channels cfg).
  assert ((sv_key (fresh_contacts cfg id)).1 = contacts_path cfg) as K1 by done.
  assert ((sv_key (fresh_channels cfg)).1 = channels_path cfg) as K2 by done.
  assert ((sv_key (fresh_inbox cfg)).1 = messages_path cfg) as K3 by done.
  destruct (load_state_again _ (contacts_path cfg) fs (fresh_contacts cfg id) contacts W1 K1 A1 A2 A3) as (r1 & x1 & L1 & V1).
  destruct (load_state_again _ (channels_path cfg) fs (fresh_channels cfg) channels W2 K2 B1 B2 B3) as (r2 & x2 & L2 & V2).
  destruct (load_state_again _ (messages_path cfg) fs (fresh_inbox cfg) inbox W3 K3 C1 C2 C3) as (r3 & x3 & L3 & V3).
  cbn [sv_load contacts_saved channels_saved inbox_saved] in L1, L2, L3. rewrite L1, L2.
  destruct (start_radio _ _ _) as [radio|]; [|done]. destruct (dispatcher_start _ _) as [d|]; [|done].
  cbn [n_inbox]. fold (fresh_inbox cfg). rewrite L3. intros [= <- <-].
  cbn [sv_view sv_cards contacts_saved channels_saved inbox_saved] in V1, V2, V3. rewrite !cards_persisted in V1. done.
Qed.
End assemble.

(** The settings leave the directory and the path of the messages alone. *)
Lemma ss_load_paths fs id cfg s :
  ss_load fs (make_settings (named id cfg)) = inr s ->
  cf_state_dir (ss_cfg s) = cf_state_dir cfg /\ cf_messages_path (ss_cfg s) = cf_messages_path cfg /\ ss_path s = settings_path cfg.
Proof.
  assert (rest (named id cfg) = rest (named id cfg) /\ cf_state_dir (named id cfg) = cf_state_dir cfg /\
    cf_messages_path (named id cfg) = cf_messages_path cfg) as (_ & E1 & E2) by (unfold named; by destruct (cfg_name _)).
  unfold ss_load. intros Hl. rewrite <- E1, <- E2, <- (state_path_dir _ _ _ E1 : settings_path _ = settings_path _).
  destruct (lookup_file _ _); [|by injection Hl as <-]. destruct (ini_load _ _ _); [done|].
  destruct (load_entries _ _ _) as [|[c' st]] eqn:El; [done|]. destruct (validate c'); [done|]. injection Hl as <-.
  apply load_entries_dir in El. split_and!; [exact (f_equal cf_state_dir El)|exact (f_equal cf_messages_path El)|done].
Qed.

Lemma configure_messages path input verbosity cfg : configure path input verbosity = inr cfg -> cf_messages_path cfg = messages_path cfg.
Proof. unfold configure. destruct (cfg_load _ _ _); [done|]. intros [= <-]. by repeat case_match. Qed.

Lemma load_or_create_tidy c cfg fs r fs' :
  tidy (state_tmps cfg) fs -> load_or_create_identity c cfg fs = (r, fs') -> tidy (state_tmps cfg) fs'.
Proof.
  intros Ht. unfold load_or_create_identity. destruct (load _) as [[id|] []]; [by intros [= <- <-]..|].
  destruct (existsb _ _); [by intros [= <- <-]|]. destruct (generate _) as [id|]; [|by intros [= <- <-]].
  destruct (identity_save _ _ _ _ _ _) as [saved fs1] eqn:Es. intros [= <- <-].
  assert (identity_path cfg ∈ state_files cfg) as Hin by state_file.
  eapply saves_tidy; [by apply (state_file_among cfg)| |exact Ht]. unfold identity_save in Es.
  destruct (save_file _ _ _ _ _ _) as [[ok fs2] seen] eqn:Ef. apply save_file_saving in Ef.
  destruct ok; [by simplify_eq|]. destruct (_ || _); simplify_eq; [done|]. eapply rtc_r; [exact Ef|]. apply sv_unlink. by left.
Qed.

(** A daemon that comes up, on any files, has its key and its stores on disk. *)
Lemma started_disk cfg c handed wall e fs app fs' e' :
  cf_messages_path cfg = messages_path cfg -> tidy (state_tmps cfg) fs -> start_loads c ->
  start make_radio radio_begin c handed wall cfg e fs = (Some app, fs', e') ->
  let id := n_self (d_node (ap_daemon app)) in
  exists key, load (FContent key) = (Some id, false) /\
    daemon_disk cfg (fresh_contacts cfg id) (fresh_channels cfg) (fresh_inbox cfg) (Some key) (ap_daemon app).
Proof.
  intros Hmp Ht Hw Hs.
  destruct (start_steps _ _ _ _ _ _ _ _ _ _ _ Hs) as [[? _]|(idr & fs1 & Hid & [[? _]|(id & s & noder & -> & Hl & Ha & Happ)])]; [done|done|].
  destruct (Happ app eq_refl) as (node & server & -> & _ & ->). cbn [ap_daemon d_node].
  pose proof (restrict_tidy (sc_regular c) (sc_chmod_fails c) cfg _ _ Ht) as Htr.
  pose proof (load_or_create_tidy _ _ _ _ _ Htr Hid) as Ht1.
  destruct (load_or_create_spec _ _ _ _ _ (proj1 Htr) (private_tmp _ _ _ (proj2 Htr) (ta_tmp _ _ (state_file_among cfg (identity_path cfg) ltac:(state_file)))) Hid)
    as (_ & _ & Hkey). destruct (Hkey id eq_refl) as (key & Hk & Hload).
  destruct (ss_load_paths _ _ _ _ Hl) as (E1 & E2 & E3). rewrite Hmp in E2.
  rewrite (assemble_self _ _ _ _ _ _ _ _ _ Ha). exists key. split; [done|]. split; [done|].
  destruct (assemble_disk cfg c handed id s fs1 Hw E1 E2 _ _ Ht1 Ha) as [Hd _].
  apply assemble_keeps_key in Ha. unfold identity_path in Ha. rewrite !(state_path_dir _ _ _ E1) in Ha.
  unfold identity_path in Hd, Hk. by rewrite Ha, Hk in Hd.
Qed.

(** A start on a disk that has the key and the stores of a node. *)
Lemma started_again cfg c handed wall e fs app fs' e' id key contacts channels inbox :
  cf_messages_path cfg = messages_path cfg -> tidy (state_tmps cfg) fs -> start_loads c ->
  content fs (identity_path cfg) = Some key -> load (FContent key) = (Some id, false) ->
  on_disk (fresh_contacts cfg id) fs contacts -> sv_dirty contacts = false -> sv_ok kMaxContacts (sv_cards contacts) ->
  on_disk (fresh_channels cfg) fs channels -> sv_dirty channels = false -> sv_ok kMaxChannels (sv_cards channels) ->
  on_disk (fresh_inbox cfg) fs inbox -> sv_dirty inbox = false -> sv_ok kDefaultLimit (sv_cards inbox) ->
  start make_radio radio_begin c handed wall cfg e fs = (Some app, fs', e') ->
  let n := d_node (ap_daemon app) in
  n_self n = id /\
  map persisted (cs_contacts (n_contacts n)) = map persisted (cs_contacts contacts) /\
  map persisted_channel (chs_channels (n_channels n)) = map persisted_channel (chs_channels channels) /\
  mi_messages (n_inbox n) = mi_messages inbox.
Proof.
  intros Hmp Ht Hw Hk Hload A1 A2 A3 B1 B2 B3 C1 C2 C3 Hs.
  destruct (start_steps _ _ _ _ _ _ _ _ _ _ _ Hs) as [[? _]|(idr & fs1 & Hid & [[? _]|(id' & s & noder & -> & Hl & Ha & Happ)])]; [done|done|].
  destruct (Happ app eq_refl) as (node & server & -> & _ & ->). cbn [ap_daemon d_node].
  pose proof (restrict_all_same (sc_regular c) (sc_chmod_fails c) cfg fs) as Hsame.
  pose proof (restrict_tidy (sc_regular c) (sc_chmod_fails c) cfg _ _ Ht) as Htr.
  destruct (load_or_create_spec _ _ _ _ _ (proj1 Htr) (private_tmp _ _ _ (proj2 Htr) (ta_tmp _ _ (state_file_among cfg (identity_path cfg) ltac:(state_file)))) Hid)
    as (Hold & _ & _). rewrite (same_content _ _ _ Hsame) in Hold. destruct (Hold key Hk) as [-> Hsame_id].
  specialize (Hsame_id id' eq_refl). rewrite Hload in Hsame_id. injection Hsame_id as <-.
  destruct (ss_load_paths _ _ _ _ Hl) as (E1 & E2 & E3). rewrite Hmp in E2.
  split; [exact (assemble_self _ _ _ _ _ _ _ _ _ Ha)|].
  apply (assemble_again cfg c handed id s (restrict_state_files (sc_regular c) (sc_chmod_fails c) cfg fs) Hw E1 E2 contacts channels inbox node fs'); try done;
    (eapply on_disk_file; [apply (same_open _ _ _ Hsame)|done]).
Qed.

Variable radio_shutdown : R -> R.

(** Stopping saves; the server and the radio have no part in it. *)
Lemma request_stop_state f1 f2 f3 lstat_ok unlink_ok se ep a a' ep' :
  request_stop radio_shutdown f1 f2 f3 lstat_ok unlink_ok se ep a = (a', ep') ->
  let d := (on_flush f1 f2 f3 (d_writer (ap_daemon a)) se (ap_daemon a)).1.2 in
  n_fs (d_node (ap_daemon a')) = n_fs (d_node d) /\ d_writer (ap_daemon a') = d_writer d.
Proof.
  unfold request_stop, shutdown. set (d := (on_flush _ _ _ _ _ _).1.2). cbn zeta.
  set (l := if sv_client _ then _ else _).
  assert (lk_state l = d) as El by (subst l; unfold drop_client; by repeat case_match).
  destruct (cleanup_unix_path _ _ _ _) as [e s]. intros [= <- <-]. cbn. by rewrite El.
Qed.

(** C7. A restart loses nothing: whatever the daemon was started on and whatever the app, the
    mesh and the timers did since, when the save on stopping reports success the next start on
    that directory is the same node, with the same contacts, channels and waiting messages, in
    order, as far as the files keep them.  The reads and the renames of both starts have to
    work, and the contacts to be such as the file can hold: every position on the globe (one
    advert from beyond it makes the file unreadable,
    [NodeExamples.advert_poisons_contacts_file]), a path of at most 64 bytes, a key of 32;
    of channels and messages only that fields have the width and keys the length of their types. *)
Theorem restart_restores path input verbosity cfg c handed wall e fs app fs1 e1 d server running
    f1 f2 f3 lstat_ok unlink_ok se ep stopped ep' c2 handed2 wall2 e2 app2 fs2 e2' :
  configure path input verbosity = inr cfg ->
  (forall key, content fs (identity_path cfg) = Some key -> bytes_ok key) ->
  tidy (state_tmps cfg) fs -> start_loads c ->
  start make_radio radio_begin c handed wall cfg e fs = (Some app, fs1, e1) ->
  s_reach (ap_daemon app) d ->
  Forall contact_ok (cs_contacts (n_contacts (d_node d))) ->
  Forall channel_ok (chs_channels (n_channels (d_node d))) ->
  Forall message_ok (mi_messages (n_inbox (d_node d))) ->
  request_stop radio_shutdown f1 f2 f3 lstat_ok unlink_ok se ep (mkApp d server running) = (stopped, ep') ->
  sw_healthy (d_writer (ap_daemon stopped)) = true ->
  start_loads c2 ->
  start make_radio radio_begin c2 handed2 wall2 cfg e2 (n_fs (d_node (ap_daemon stopped))) = (Some app2, fs2, e2') ->
  let n := d_node d in
  let n2 := d_node (ap_daemon app2) in
  n_self n2 = n_self (d_node (ap_daemon app)) /\
  map persisted (cs_contacts (n_contacts n2)) = map persisted (cs_contacts (n_contacts n)) /\
  map persisted_channel (chs_channels (n_channels n2)) = map persisted_channel (chs_channels (n_channels n)) /\
  mi_messages (n_inbox n2) = mi_messages (n_inbox n).
Proof.
  intros Hcfg Hkey Ht Hw Hs Hr Hoc Hoh Hom Hstop Hh Hw2 Hs2. pose proof (configure_messages _ _ _ _ Hcfg) as Hmp.
  destruct (started_disk _ _ _ _ _ _ _ _ _ Hmp Ht Hw Hs) as (key & Hload & Hd0).
  set (id := n_self (d_node (ap_daemon app))) in *.
  pose proof (reach_disk cfg (fresh_contacts cfg id) (fresh_channels cfg) (fresh_inbox cfg) (Some key) eq_refl eq_refl eq_refl _ _ Hd0 Hr) as Hd.
  destruct (s_reach_ok _ _ _ (started_ok _ _ _ _ _ _ _ _ _ _ _ _ _ _ Hcfg Hkey Hs) Hr) as [[_ [Hu Hl _ _] _ Hch _ Hin] _ _ _ _].
  destruct (request_stop_state _ _ _ _ _ _ _ _ _ _ Hstop) as [Ef Ew]. cbn [ap_daemon] in Ef, Ew. rewrite Ew in Hh. rewrite Ef in Hs2.
  destruct (flush_disk cfg (fresh_contacts cfg id) (fresh_channels cfg) (fresh_inbox cfg) (Some key) eq_refl eq_refl eq_refl f1 f2 f3 (d_writer d) se d Hd) as ([_ [Ht' Dc Dh Di Dk]] & Vc & Vh & Vi & Hclean).
  destruct (Hclean Hh) as (Kc & Kh & Ki). set (d' := (on_flush _ _ _ _ _ _).1.2) in *.
  destruct Hd as [_ [_ [[= _ Em] _] _ [[= _ El] _] _]].
  assert (sv_ok kMaxContacts (sv_cards (n_contacts (d_node d')))) as Oc.
  { rewrite Vc. cbn. rewrite saved_cards_ok, saved_cards_keys, length_map, <- Em. done. }
  assert (sv_ok kMaxChannels (sv_cards (n_channels (d_node d')))) as Oh by (by rewrite Vh).
  assert (sv_ok kDefaultLimit (sv_cards (n_inbox (d_node d')))) as Oi by (rewrite Vi, <- El; done).
  destruct (started_again _ _ _ _ _ _ _ _ _ _ _ _ _ _ Hmp Ht' Hw2 Dk Hload Dc Kc Oc Dh Kh Oh Di Ki Oi Hs2) as (R1 & R2 & R3 & R4).
  split_and!; [done| |by rewrite R3; cbn in Vh; rewrite Vh|by rewrite R4; cbn in Vi; rewrite Vi].
  rewrite R2, <- cards_persisted, <- (cards_persisted (cs_contacts (n_contacts (d_node d)))). f_equal. exact Vc.
Qed.
End start.
