(* ===== verification/AppExamples.v ===== *)
(** * Concrete runs of the daemon

    The daemon started on an empty state directory, under the crypto instance of [Toy] and
    the radio of [SimRadio], and the theorems about the application, the session and the
    server applied to it. *)

From S2P Require Import Prelude ByteIO Floats Crypto Identity Toy Packet Payloads Radio.
From S2P Require Import Dispatcher SimRadio Record Persist Contacts Channels Inbox Sender Node NodeExamples.
From S2P Require Import Frames EventLoop CText FloatFacts Ini DaemonConfig Settings Session SessionFacts.
From S2P Require Import DaemonFacts SessionTrips Decimals Server ServerFacts App AppFacts.

(** ** A first start *)

Definition ax_ini : Input := File (lit "[storage]
state_dir = /s
") false.

Definition ax_cfg : DaemonConfig := match configure [] ax_ini 0 with inr cfg => cfg | inl _ => DaemonConfig_default end.

Lemma ax_configured : configure [] ax_ini 0 = inr ax_cfg.
Proof. vm_compute. reflexivity. Qed.

Definition ax_load : LoadCalls := mkLoadCalls ReadFine ReadFine (lit ".corrupt-1") (lit ".corrupt-1") false false false.
Definition ax_unix : UnixCalls := mkUnixCalls true true true true true true true (Some (1, 2)) true true true true true true true.
Definition ax_tcp : TcpCalls := mkTcpCalls true true true None true true.

Definition ax_calls : StartCalls :=
  mkStartCalls true (StatDir true) (fun _ => true) (fun _ => false) (fun _ => false) ReadFine [[1; 2; 3]] no_faults false created_mode
    ax_load ax_load ax_load ax_unix ax_tcp.

Definition ax_make_radio (p : RadioParams) (_ : SpiConfig) : option SimRadio := Some (mkSim p true false false).

#[local] Abbreviation ax_started :=
  (start ax_make_radio Some ax_calls None (mkWall 0 false) ax_cfg (mkEndpoint NoEntry false) (mkFs ∅ ∅)).

Definition ax_daemon0 : Daemon SimRadio :=
  mkDaemon _ (make_node toy_bob sim_idle 1 ex_contacts 1 (make_channels []) (mkInbox [] [] 1 0 false) NodeConfig_default (mkFs ∅ ∅))
    sample (make_writer 0) (mkWall 0 false) false [] None.

Definition ax_app : App := default (mkApp ax_daemon0 (make_server Options_default) false) ax_started.1.1.
Definition ax_fs : Fs := ax_started.1.2.

Lemma ax_up : match ax_started.1.1 with Some _ => true | None => false end = true.
Proof. vm_compute. reflexivity. Qed.

Lemma is_up {A B C} (x : option A * B * C) (d : A) :
  match x.1.1 with Some _ => true | None => false end = true -> x = (Some (default d x.1.1), x.1.2, x.2).
Proof. by destruct x as [[[a|] b] c]. Qed.

Lemma ax_start : ax_started = (Some ax_app, ax_fs, ax_started.2).
Proof. unfold ax_app, ax_fs. generalize ax_up. generalize ax_started. intros x. apply is_up. Qed.

Definition ax_daemon : Daemon SimRadio := ap_daemon ax_app.
Definition ax_base : DaemonConfig := named (n_self (d_node ax_daemon)) ax_cfg.

Lemma ax_no_key key : content (mkFs ∅ ∅) (identity_path ax_cfg) = Some key -> bytes_ok key.
Proof. done. Qed.

Lemma ax_ok : daemon_ok ax_base ax_daemon.
Proof. unfold ax_base, ax_daemon. exact (started_ok ax_make_radio Some [] ax_ini 0 ax_cfg ax_calls None (mkWall 0 false) _ _ ax_app ax_fs _ ax_configured ax_no_key ax_start). Qed.

Definition ax_env : SEnv := mkSEnv (ex_env 1000 first_key) 1700000000 true (mkInfo [] [] [] 50 8) 4000 (mkStorage 0 0).

Lemma ax_env_ok : senv_ok ax_env.
Proof. exact (ex_env_ok 1000). Qed.

(** The daemon after a frame, and the run that leads there. *)
Definition ax_after (frame : Bytes) : Daemon SimRadio := (handle_frame frame ax_env ax_daemon).1.2.

Lemma run_is {A} (x : unit * A * list Bytes) out : x.2 = out -> x = (tt, x.1.2, out).
Proof. destruct x as [[[] a] o]. by intros <-. Qed.

Lemma ax_ran frame out : (handle_frame frame ax_env ax_daemon).2 = out -> handle_frame frame ax_env ax_daemon = (tt, ax_after frame, out).
Proof. apply run_is. Qed.

(** ** The application *)

Lemma daemon_invariant_witness :
  validate (ss_cfg (d_settings ax_daemon)) = None /\ applied (d_node ax_daemon) (d_settings ax_daemon).
Proof.
  unfold ax_daemon. pose proof (daemon_invariant ax_make_radio Some [] ax_ini 0 ax_cfg ax_calls None (mkWall 0 false) _ _ ax_app ax_fs _ (ap_daemon ax_app)
    ax_configured ax_no_key ax_start (s_reach_start _)) as Hd.
  split; apply Hd.
Defined.

Lemma ax_wf : fs_wf (mkFs ∅ ∅).
Proof. exact ex_empty_wf. Qed.

Lemma node_key_never_replaced_witness :
  exists key, content ax_fs (identity_path ax_cfg) = Some key /\ load (FContent key) = (Some (n_self (d_node ax_daemon)), false).
Proof.
  unfold ax_daemon.
  apply (node_key_never_replaced ax_make_radio Some ax_calls None (mkWall 0 false) ax_cfg _ _ _ _ _ ax_wf (ex_empty_private _) ax_start).
  reflexivity.
Defined.

Definition ax_damaged : Fs :=
  mkFs (<[lit "c" := 0%nat]> (<[lit "c.bak" := 1%nat]> ∅))
       (<[0%nat := mkInode [9] 384 true]> (<[1%nat := mkInode (channels_text [public_channel]) 384 true]> ∅)).

Definition ax_calls_differ : LoadCalls := mkLoadCalls ReadFine ReadFine (lit ".corrupt-1") (lit ".corrupt-2") false false false.

Lemma damaged_store_recovers_witness :
  let '(r, s', fs') := load_state chs_load ax_calls_differ (lit "c") ax_damaged (make_channels (lit "c")) in
  (r, s') = chs_load (File (channels_text [public_channel]) false) (make_channels (lit "c")) /\
  content fs' (lit "c") = Some (channels_text [public_channel]) /\ content fs' (lit "c.corrupt-1") = Some [9].
Proof.
  destruct (load_state _ _ _ _ _) as [[r s'] fs'] eqn:E.
  pose proof (damaged_store_recovers ax_calls_differ (lit "c") ChannelsFile ax_damaged (make_channels (lit "c")) [9] r s' fs') as H.
  change (content ax_damaged (lit "c" ++ lit ".bak")) with (Some (channels_text [public_channel])) in H.
  destruct H as (H1 & H2 & _); [|by split_and!|by split|by split|vm_compute; reflexivity|vm_compute; reflexivity|exact E|].
  - intros p i. unfold ax_damaged. cbn [names inodes]. intros [[_ <-]|[_ [[_ <-]|[_ Hn]]%lookup_insert_Some]]%lookup_insert_Some;
      [by eexists|by eexists|done].
  - split; [exact H1|]. apply H2. assert (r = (chs_load (File (channels_text [public_channel]) false) (make_channels (lit "c"))).1) as ->
      by (change (chs_load (File (channels_text [public_channel]) false) (make_channels (lit "c"))) with
            (load_of ChannelsFile (File (channels_text [public_channel]) false) (make_channels (lit "c"))); by rewrite <- H1).
    vm_compute. discriminate.
Defined.

Definition ax_both_damaged : Fs :=
  mkFs (<[lit "c" := 0%nat]> (<[lit "c.bak" := 1%nat]> ∅))
       (<[0%nat := mkInode [9] 384 true]> (<[1%nat := mkInode [8] 384 true]> ∅)).

Lemma damaged_file_lost_witness :
  let '(r, s', fs') := load_state chs_load ax_load (lit "c") ax_both_damaged (make_channels (lit "c")) in
  forall p, content fs' p <> Some [9].
Proof.
  destruct (load_state _ _ _ _ _) as [[r s'] fs'] eqn:E.
  apply (damaged_file_lost chs_load ax_load (lit "c") ax_both_damaged (make_channels (lit "c")) [9] [8] r s' fs'); try done.
  intros p Hp. unfold content, lookup_file, ax_both_damaged. cbn [names inodes]. rewrite lookup_insert_ne by done.
  destruct (decide (p = lit "c.bak")) as [->|Hb]; [vm_compute; discriminate|]. rewrite lookup_insert_ne by done. by rewrite lookup_empty.
Defined.

Lemma long_interval_spins_witness :
  let l := (node_start (FB := unit) 2147484 (make_loop (mkClock false 7))).2 in
  let '(w, fired) := run_due_timers (fun _ w => w) (mkWorld l tt) in
  next_timeout_ms l = 0 /\ map f_id fired = [1] /\ w_loop w = l.
Proof. apply (long_interval_spins (fun _ w => w) 2147484 false 7 tt); [vm_compute; split; discriminate|width|done]. Defined.

(** ** The session *)

Definition ax_bad_channel : Bytes := [kCmdGetChannel; 99].

Lemma refused_command_changes_nothing_witness : ax_after ax_bad_channel = ax_daemon.
Proof.
  apply (refused_command_changes_nothing ax_bad_channel ax_env ax_daemon (ax_after ax_bad_channel) kErrNotFound);
    [discriminate|discriminate|discriminate|]. apply ax_ran. vm_compute. reflexivity.
Defined.

Definition ax_quiet_events : list (SEnv * SEvent (R := SimRadio)) := [(ax_env, SFrame [kCmdGetDeviceTime]); (ax_env, SDeliveredSweep)].

Lemma pushes_need_a_session_witness : Forall is_reply (s_run ((ax_env, SConnect) :: ax_quiet_events) ax_daemon).2.
Proof.
  apply (pushes_need_a_session ax_env ax_quiet_events ax_daemon (s_run ((ax_env, SConnect) :: ax_quiet_events) ax_daemon).1
    (s_run ((ax_env, SConnect) :: ax_quiet_events) ax_daemon).2); [|apply surjective_pairing].
  apply Forall_cons_iff. split; [intros [? E]; discriminate E|]. apply Forall_cons_iff. split; [intros [? E]; discriminate E|constructor].
Defined.

Definition ax_channel : Bytes := put_padded [] (lit "friends") kChannelNameField ++ replicate 16 5.

Lemma channel_set_get_witness :
  let d' := (handle_frame (kCmdSetChannel :: 3 :: ax_channel) ax_env ax_daemon).1.2 in
  handle_frame [kCmdGetChannel; 3] ax_env d' = (tt, d', [kRespChannelInfo :: 3 :: ax_channel]).
Proof.
  refine (proj1 (channel_set_get 3 (lit "friends") (replicate 16 5) ax_env ax_env ax_daemon _ _ _ _ _)).
  - lia.
  - vm_compute. lia.
  - apply (bool_decide_unpack _). vm_compute. exact I.
  - reflexivity.
  - exact (no_channels _ (do_node _ _ ax_ok)).
Defined.

Lemma ax_alice_card : card_ok ex_alice.
Proof. constructor; evaluated. Qed.

Lemma contact_add_get_witness :
  let d' := (handle_frame (kCmdAddUpdateContact :: card ex_alice) ax_env ax_daemon).1.2 in
  exists last, handle_frame (kCmdGetContactByKey :: c_pubkey ex_alice) ax_env d' =
    (tt, d', [kRespContact :: card ex_alice ++ put_u32 [] last]).
Proof.
  apply (contact_add_get ex_alice ax_env ax_env ax_daemon ax_alice_card). right. vm_compute. lia.
Defined.

Lemma device_time_set_get_witness :
  let d' := (handle_frame (kCmdSetDeviceTime :: put_u32 [] 1800000000) ax_env ax_daemon).1.2 in
  handle_frame [kCmdGetDeviceTime] ax_env d' = (tt, d', [put_u32 [kRespCurrTime] 1800000000]).
Proof.
  apply (device_time_set_get 1800000000 ax_env ax_env ax_daemon); [width|reflexivity|vm_compute; split; [discriminate|reflexivity]].
Defined.

Definition ax_position : Bytes := kCmdSetAdvertLatLon :: put_i32 [] 51500729 ++ put_i32 [] (-124625) ++ [].

Lemma position_set_exactly_witness :
  cfg_lat_e6 (n_cfg (d_node (ax_after ax_position))) = 51500729 /\ cfg_lon_e6 (n_cfg (d_node (ax_after ax_position))) = -124625.
Proof.
  apply (position_set_exactly ax_base 51500729 (-124625) [] ax_env ax_daemon); [exact ax_env_ok|exact ax_ok|width|width|].
  apply ax_ran. vm_compute. reflexivity.
Defined.

Definition ax_radio : Bytes := kCmdSetRadioParams :: put_u32 [] 869618 ++ put_u32 [] 62500 ++ [8; 8; 0].

Lemma radio_params_set_exactly_witness :
  u32 (llround (d_mul (rp_freq_mhz (radio_params (radio_ (m_disp (n_mesh (d_node (ax_after ax_radio))))))) (d_of_Z 1000))) = 869618.
Proof.
  refine (proj1 (proj1 (radio_params_set_exactly ax_base 869618 62500 8 8 0 ax_env ax_daemon (ax_after ax_radio) ax_env_ok ax_ok _ _ _ _ _)));
    [width|width|width|width|].
  apply ax_ran. vm_compute. reflexivity.
Defined.

(** ** The server *)

(** The session as the server's frame handler. *)
Definition ax_on_frame (frame : Bytes) (d : Daemon SimRadio) : Daemon SimRadio * list Bytes :=
  let '(_, d, out) := handle_frame frame ax_env d in (d, out).
Definition ax_on_connect (d : Daemon SimRadio) : Daemon SimRadio := (on_connect ax_env d).1.2.

(** A client connects and asks for the time in two reads; the socket takes three bytes at first. *)
Definition ax_request : Bytes := frame kFrameToDevice [kCmdGetDeviceTime].
Definition ax_link_events : list (LinkEvent (H := Daemon SimRadio)) :=
  [LListen POLLIN (Some true); LClient POLLIN [ReadData (take 2 ax_request)] []; LClient POLLIN [ReadData (drop 2 ax_request)] [Wrote 3; WAgain]].

Lemma server_carries_streams_witness :
  let s := lk_server (fold_left (fun l ev => on_link ax_on_frame ax_on_connect (fun d => d) ev l) ax_link_events
                        (mkLink (make_server Options_default) ax_daemon)) in
  sv_client s = true /\ tr_handled (sv_trace s) = spoken (drain (tr_in (sv_trace s))).1 /\
  zlen (sv_out s) <= op_max_outbound_bytes (sv_opts s).
Proof.
  intros s. assert (sv_client s = true) as Hc by (vm_compute; reflexivity). split; [exact Hc|].
  destruct (server_carries_streams ax_on_frame ax_on_connect (fun d => d) Options_default ax_daemon ax_link_events ltac:(discriminate) Hc)
    as (E1 & _ & E2 & _).
  split; [exact E1|exact E2].
Defined.

Definition ax_connected : list (LinkEvent (H := Daemon SimRadio)) := [LListen POLLIN (Some true)].

Lemma commands_served_in_order_witness :
  let l := fold_left (fun l ev => on_link ax_on_frame ax_on_connect (fun d => d) ev l) ax_connected (mkLink (make_server Options_default) ax_daemon) in
  let l' := on_client_ready ax_on_frame (fun d => d) POLLIN [ReadData ax_request] [] l in
  let '(h', outs) := run_handler ax_on_frame (spoken (drain (sv_reader (lk_server l) ++ ax_request)).1) (lk_state l) in
  lk_state l' = h' /\ tr_queued (sv_trace (lk_server l')) = tr_queued (sv_trace (lk_server l)) ++ outs.
Proof.
  apply (commands_served_in_order ax_on_frame ax_on_connect (fun d => d) Options_default ax_daemon ax_connected ax_request []);
    [discriminate|discriminate|vm_compute; lia|vm_compute; reflexivity].
Defined.

Lemma endpoint_never_stolen_witness :
  let '(ok, e', s') := start_unix ax_unix (mkEndpoint (SocketNode 8 9) true) (make_server Options_default) in
  ok = false /\ e' = mkEndpoint (SocketNode 8 9) true.
Proof.
  destruct (start_unix _ _ _) as [[ok e'] s'] eqn:E.
  apply (endpoint_never_stolen ax_unix (mkEndpoint (SocketNode 8 9) true) (make_server Options_default) ok e' s');
    [repeat split|exact E|left; reflexivity].
Defined.
