(* ===== verification/RestartExamples.v ===== *)
(** * A daemon stopped and started again

    The daemon of [AppExamples]: an app adds a contact and sets a channel, the daemon is
    stopped and started on what it left behind. *)

From S2P Require Import Prelude ByteIO Floats Crypto Identity Toy Packet Payloads Radio.
From S2P Require Import Dispatcher SimRadio Record Persist Contacts Channels Inbox Sender Node NodeExamples.
From S2P Require Import Frames EventLoop CText FloatFacts Ini DaemonConfig Settings Session SessionFacts.
From S2P Require Import DaemonFacts SessionTrips Server Disk App AppFacts AppExamples Restart.

Definition rx_d1 : Daemon SimRadio := (on_event (SFrame (kCmdAddUpdateContact :: card ex_alice)) ax_env (ap_daemon ax_app)).1.2.
Definition rx_d2 : Daemon SimRadio := (on_event (SFrame (kCmdSetChannel :: 3 :: ax_channel)) ax_env rx_d1).1.2.

Lemma rx_id d frame : (rs_next_id (m_sender (n_mesh (d_node d))) <? 2 ^ 64 - 1) = true -> s_enabled (R := SimRadio) d (SFrame frame).
Proof. cbn. apply Z.ltb_lt. Qed.

Lemma rx_id0 : (rs_next_id (m_sender (n_mesh (d_node (ap_daemon ax_app)))) <? 2 ^ 64 - 1) = true.
Proof. vm_compute. reflexivity. Qed.
Lemma rx_id1 : (rs_next_id (m_sender (n_mesh (d_node rx_d1))) <? 2 ^ 64 - 1) = true.
Proof. vm_compute. reflexivity. Qed.

Lemma rx_reach : s_reach (ap_daemon ax_app) rx_d2.
Proof.
  assert (s_reach (ap_daemon ax_app) rx_d1) as Hr1.
  { unfold rx_d1. apply s_reach_step; [apply s_reach_start|exact ax_env_ok|exact (rx_id _ _ rx_id0)]. }
  unfold rx_d2. apply s_reach_step; [exact Hr1|exact ax_env_ok|exact (rx_id _ _ rx_id1)].
Qed.

Definition rx_stop : App * Endpoint :=
  request_stop (fun r => r) no_faults no_faults no_faults true true ax_env (mkEndpoint NoEntry false) (mkApp rx_d2 (ap_server ax_app) true).

#[local] Abbreviation rx_started :=
  (start ax_make_radio Some ax_calls None (mkWall 0 false) ax_cfg (mkEndpoint NoEntry false) (n_fs (d_node (ap_daemon rx_stop.1)))).

Definition rx_app : App := default ax_app rx_started.1.1.

Lemma rx_up : match rx_started.1.1 with Some _ => true | None => false end = true.
Proof. vm_compute. reflexivity. Qed.

Lemma rx_start : rx_started = (Some rx_app, rx_started.1.2, rx_started.2).
Proof. unfold rx_app. generalize rx_up. generalize rx_started. intros x. apply is_up. Qed.

Lemma rx_tidy : tidy (state_tmps ax_cfg) (mkFs ∅ ∅).
Proof. split; [exact ax_wf|]. by intros t i p _ Hi. Qed.

Lemma rx_loads : start_loads ax_calls.
Proof. unfold start_loads, loads_work, suffix_fine. by split_and!. Qed.

Lemma rx_contacts : Forall contact_ok (cs_contacts (n_contacts (d_node rx_d2))).
Proof.
  vm_compute. constructor; [constructor; evaluated|constructor].
Qed.

Lemma rx_channels : Forall channel_ok (chs_channels (n_channels (d_node rx_d2))).
Proof. apply (bool_decide_unpack _). vm_compute. exact I. Qed.

Lemma rx_messages : Forall message_ok (mi_messages (n_inbox (d_node rx_d2))).
Proof. vm_compute. constructor. Qed.

Lemma rx_healthy : sw_healthy (d_writer (ap_daemon rx_stop.1)) = true.
Proof. vm_compute. reflexivity. Qed.

Lemma restart_restores_witness :
  n_self (d_node (ap_daemon rx_app)) = n_self (d_node (ap_daemon ax_app)) /\
  map persisted (cs_contacts (n_contacts (d_node (ap_daemon rx_app)))) = map persisted (cs_contacts (n_contacts (d_node rx_d2))) /\
  map persisted_channel (chs_channels (n_channels (d_node (ap_daemon rx_app)))) = map persisted_channel (chs_channels (n_channels (d_node rx_d2))) /\
  mi_messages (n_inbox (d_node (ap_daemon rx_app))) = mi_messages (n_inbox (d_node rx_d2)).
Proof.
  pose proof (restart_restores ax_make_radio Some (fun r => r) [] ax_ini 0 ax_cfg ax_calls None (mkWall 0 false)
    (mkEndpoint NoEntry false) (mkFs ∅ ∅) ax_app ax_fs
    (start ax_make_radio Some ax_calls None (mkWall 0 false) ax_cfg (mkEndpoint NoEntry false) (mkFs ∅ ∅)).2 rx_d2
    (ap_server ax_app) true no_faults no_faults no_faults true true ax_env (mkEndpoint NoEntry false) rx_stop.1 rx_stop.2 ax_calls None
    (mkWall 0 false) (mkEndpoint NoEntry false) rx_app rx_started.1.2 rx_started.2
    ax_configured ax_no_key rx_tidy rx_loads ax_start rx_reach rx_contacts rx_channels rx_messages (surjective_pairing _) rx_healthy rx_loads) as Hr.
  exact (Hr rx_start).
Defined.
