(* ===== verification/Sx1262.v ===== *)
(** * The SX1262 driver ([src/src/radio/sx1262.cpp], [sx1262.h])

    The driver behind the [Radio] interface: SPI commands, reset and configuration of the
    chip, transmission and reception through its interrupt flags, and the supervision that
    brings the radio back when the chip stops answering.

    What lies below it (the GPIO lines, the SPI device, the clock) is the class [Board]: any
    state machine that answers the calls, so that a theorem over every board holds whatever
    the hardware does.  A member function is a computation in the state monad [DM], which
    collects what is handed to the dispatcher.  The handlers the dispatcher installs only
    count and arm timers, or are the last thing a driver function does, so that running them
    right after the function is the same.  Error texts and log output are left out. *)

From S2P Require Import Prelude ByteIO Floats Crypto Radio.

(** ** Constants *)

Definition kCmdSetSleep : Z := 0x84.
Definition kCmdSetStandby : Z := 0x80.
Definition kCmdSetTx : Z := 0x83.
Definition kCmdSetRx : Z := 0x82.
Definition kCmdSetRfFrequency : Z := 0x86.
Definition kCmdSetPacketType : Z := 0x8A.
Definition kCmdSetTxParams : Z := 0x8E.
Definition kCmdSetPaConfig : Z := 0x95.
Definition kCmdSetBufferBaseAddress : Z := 0x8F.
Definition kCmdSetModulationParams : Z := 0x8B.
Definition kCmdSetPacketParams : Z := 0x8C.
Definition kCmdSetDioIrqParams : Z := 0x08.
Definition kCmdGetIrqStatus : Z := 0x12.
Definition kCmdClearIrqStatus : Z := 0x02.
Definition kCmdSetDio2AsRfSwitch : Z := 0x9D.
Definition kCmdSetDio3AsTcxoCtrl : Z := 0x97.
Definition kCmdWriteRegister : Z := 0x0D.
Definition kCmdReadRegister : Z := 0x1D.
Definition kCmdWriteBuffer : Z := 0x0E.
Definition kCmdReadBuffer : Z := 0x1E.
Definition kCmdGetRxBufferStatus : Z := 0x13.
Definition kCmdGetPacketStatus : Z := 0x14.
Definition kCmdCalibrate : Z := 0x89.
Definition kCmdCalibrateImage : Z := 0x98.
Definition kCmdSetRegulatorMode : Z := 0x96.
Definition kCmdGetDeviceErrors : Z := 0x17.
Definition kCmdClearDeviceErrors : Z := 0x07.
Definition kCmdSetRxTxFallbackMode : Z := 0x93.

Definition kRegVersionString : Z := 0x0320.
Definition kRegLoRaSyncWordMsb : Z := 0x0740.
Definition kRegRxGain : Z := 0x08AC.
Definition kRegOcpConfig : Z := 0x08E7.
Definition kRegTxClampConfig : Z := 0x08D8.
Definition kRegSensitivityConfig : Z := 0x0889.

Definition kIrqTxDone : Z := 0x0001.
Definition kIrqRxDone : Z := 0x0002.
Definition kIrqPreambleDetected : Z := 0x0004.
Definition kIrqHeaderValid : Z := 0x0010.
Definition kIrqHeaderErr : Z := 0x0020.
Definition kIrqCrcErr : Z := 0x0040.
Definition kIrqTimeout : Z := 0x0200.

Definition kMaxPayloadSize : nat := 255.
Definition kHeaderSymbols : Z := 16.
Definition kPacketTypeLoRa : Z := 0x01.
Definition kSyncWord : Z := 0x12.
Definition kStandbyRc : Z := 0x00.

(** ** Helpers *)

Definition command_status_ok (status : Z) : bool :=
  let chip_mode := Z.land (Z.shiftr status 4) 0x07 in
  let command_status := Z.land (Z.shiftr status 1) 0x07 in
  (2 <=? chip_mode) && (chip_mode <=? 6) && ((command_status <? 3) || (5 <? command_status)).

Definition bw_table : list (double * Z) :=
  [(d_lit 781 2, 0x00); (d_lit 1042 2, 0x08); (d_lit 1563 2, 0x01); (d_lit 2083 2, 0x09); (d_lit 3125 2, 0x02);
   (d_lit 4167 2, 0x0A); (d_lit 625 1, 0x03); (d_lit 125 0, 0x04); (d_lit 250 0, 0x05); (d_lit 500 0, 0x06)].

Definition bw_code (khz : double) : Z :=
  (fold_left (fun best e =>
     let d := d_abs (d_sub e.1 khz) in if f_lt d best.2 then (e.2, d) else best)
   bw_table (0x04, d_of_Z 1000000000)).1.

(** A 16-bit value, high byte first. *)
Definition be16 (v : Z) : Bytes := [u8 (Z.shiftr v 8); u8 v].

Definition tcxo_code (v : double) : Z :=
  if f_le v (d_lit 165 2) then 0x00
  else if f_le v (d_lit 175 2) then 0x01
  else if f_le v (d_lit 20 1) then 0x02
  else if f_le v (d_lit 23 1) then 0x03
  else if f_le v (d_lit 255 2) then 0x04
  else if f_le v (d_lit 285 2) then 0x05
  else if f_le v (d_lit 315 2) then 0x06
  else 0x07.

(** [static_cast<uint32_t>((freq * 1e6) / 32e6 * (1u << 25) + 0.5)] *)
Definition rf_frequency (freq_mhz : double) : Z :=
  u32 (f_trunc (d_add (d_mul (d_div (d_mul freq_mhz (d_of_Z 1000000)) (d_of_Z 32000000)) (d_of_Z (2 ^ 25))) (d_lit 5 1))).

Definition frequency_args (freq_mhz : double) : Bytes :=
  let frf := rf_frequency freq_mhz in [u8 (Z.shiftr frf 24); u8 (Z.shiftr frf 16); u8 (Z.shiftr frf 8); u8 frf].

(** [std::floor], as the integer it denotes. *)
Definition f_floor (a : double) : Z :=
  match a with
  | S754_finite s m e =>
      let v := if s then Z.neg m else Z.pos m in
      if 0 <=? e then v * 2 ^ e else v / 2 ^ (- e)
  | _ => 0
  end.

Definition image_args (freq_mhz : double) : Bytes :=
  [u8 (f_floor (d_div (d_sub (d_sub freq_mhz (d_of_Z 4)) (d_of_Z 1)) (d_of_Z 4)));
   u8 (f_ceil (d_div (d_add (d_add freq_mhz (d_of_Z 4)) (d_of_Z 1)) (d_of_Z 4)))].

Definition ocp_value (current_limit_ma : Z) : Z :=
  let v := d_div (d_of_Z current_limit_ma) (d_lit 25 1) in
  u8 (f_trunc (if f_lt (d_of_Z 63) v then d_of_Z 63 else v)).

Definition power_value (dbm : Z) : Z := u8 (i8 (Z.max kMinTxPowerDbm (Z.min kMaxTxPowerDbm dbm))).

Definition sync_word_args : Bytes :=
  [u8 (Z.lor (Z.land kSyncWord 0xF0) 0x04); u8 (Z.lor (Z.shiftl (Z.land kSyncWord 0x0F) 4) 0x04)].

Definition irq_dio1 : Z :=
  Z.lor kIrqTxDone (Z.lor kIrqRxDone (Z.lor kIrqCrcErr (Z.lor kIrqHeaderErr kIrqTimeout))).
Definition irq_latched : Z := Z.lor irq_dio1 (Z.lor kIrqPreambleDetected kIrqHeaderValid).

Definition symbols_ms (p : RadioParams) (symbols : Z) : Z :=
  if (rp_sf p <? 5) || f_le (rp_bw_khz p) (d_of_Z 0) then 0
  else u32 (u32 (f_trunc (d_mul (d_div (d_of_Z (u32 (Z.shiftl 1 (rp_sf p)))) (rp_bw_khz p)) (d_of_Z symbols))) + 1).

Definition rssi_of (b : Z) : Z := Z.quot (- b) 2.
Definition snr_of (b : Z) : float := f_div (f_of_Z (i8 b)) (f_of_Z 4).

(** ** The board *)

Inductive Line := ResetLine | BusyLine | IrqLine | NssLine | RxenLine | TxenLine.

#[export] Instance Line_eq_dec : EqDecision Line.
Proof. solve_decision. Defined.

Class Board (B : Type) := {
  (** [spi_.open] and [chip_.open] *)
  b_open_spi : B -> bool * B;
  b_open_chip : B -> bool * B;
  (** requesting a line *)
  b_request : Line -> B -> bool * B;
  (** [GpioLine::set], [busy_line_->get()], [irq_line_->drain_events()] *)
  b_set : Line -> bool -> B -> bool * B;
  b_busy : B -> Z * B;
  b_drain : B -> Z * B;
  (** [SpiDev::transfer]: the bytes clocked in, or a failure *)
  b_transfer : Bytes -> B -> option Bytes * B;
  (** [millis()] and sleeping, in microseconds *)
  b_millis : B -> Z * B;
  b_sleep : Z -> B -> B;
  (** the lines released, [chip_.close()] and [spi_.close()] *)
  b_close : B -> B }.

(** ** The driver *)

Record Pins := mkPins { pin_irq : Z; pin_busy : Z; pin_reset : Z; pin_nss : Z; pin_rxen : Z; pin_txen : Z }.

(** What the one-shot timer of a recovery runs. *)
Inductive RecoveryStep := ReleaseReset | PollResetBusy.

(** A timer is the delay it was armed with.  [sx_programmed] is no member of the class: the
    parameters of the last configuration the chip took in full. *)
Record Sx1262 {B : Type} := mkSx1262 {
  sx_params : RadioParams;
  sx_pins : Pins;
  sx_retry_interval_ms : Z;
  sx_board : B;
  sx_lines : list Line;             (** the lines requested *)
  sx_loop : bool;                   (** [loop_] is set *)
  sx_irq_watch : bool;
  sx_tx_timeout : option Z;
  sx_supervise_timer : bool;
  sx_recovery_timer : option (RecoveryStep * Z);
  sx_tx_busy : bool;
  sx_tx_started_ms : Z;
  sx_retune_pending : bool;
  sx_rx_since_ms : Z;
  sx_healthy : bool;
  sx_recovering : bool;
  sx_ever_healthy : bool;
  sx_initial_failure_reported : bool;
  sx_recovery_deadline_ms : Z;
  sx_programmed : option RadioParams }.
Arguments Sx1262 : clear implicits.

#[export] Instance eta_Sx1262 {B} : Eta (Sx1262 B) := fun s =>
  mkSx1262 B (sx_params s) (sx_pins s) (sx_retry_interval_ms s) (sx_board s) (sx_lines s) (sx_loop s) (sx_irq_watch s)
    (sx_tx_timeout s) (sx_supervise_timer s) (sx_recovery_timer s) (sx_tx_busy s) (sx_tx_started_ms s)
    (sx_retune_pending s) (sx_rx_since_ms s) (sx_healthy s) (sx_recovering s) (sx_ever_healthy s)
    (sx_initial_failure_reported s) (sx_recovery_deadline_ms s) (sx_programmed s).

Definition make_sx1262 {B} (params : RadioParams) (pins : Pins) (retry_interval_ms : Z) (board : B) : Sx1262 B :=
  mkSx1262 B params pins retry_interval_ms board [] false false None false None false 0 false 0 false false false false 0 None.

(** What is handed to the dispatcher's handlers. *)
Inductive Delivery := DeliverRx (rx : RxPacket) | DeliverRxError (f : RxFailure) | DeliverTxDone (airtime : Z).

Definition DM (B A : Type) : Type := Sx1262 B -> A * Sx1262 B * list Delivery.

#[export] Instance DM_ret B : MRet (DM B) := fun A a s => (a, s, []).
#[export] Instance DM_bind B : MBind (DM B) := fun A C f m s =>
  let '(a, s1, o1) := m s in let '(c, s2, o2) := f a s1 in (c, s2, o1 ++ o2).

Definition sx_gets {B A} (f : Sx1262 B -> A) : DM B A := fun s => (f s, s, []).
Definition sx_modify {B} (f : Sx1262 B -> Sx1262 B) : DM B unit := fun s => (tt, f s, []).
Definition deliver {B} (x : Delivery) : DM B unit := fun s => (tt, s, [x]).
(** A call of the board. *)
Definition on_board {B A} (f : B -> A * B) : DM B A := fun s => let '(a, b) := f (sx_board s) in (a, s <| sx_board := b |>, []).

(** [if (!m) return false; k] *)
Definition and_then {B} (m k : DM B bool) : DM B bool := ok ← m; if ok : bool then k else mret false.
Notation "m '&&?' k" := (and_then m k) (at level 64, right associativity).

Section driver.
Context {B : Type} `{Board B}.

Definition has_line (l : Line) (s : Sx1262 B) : bool := bool_decide (l ∈ sx_lines s).

(** [line_->set(value)] of a line that was requested. *)
Definition set_line (l : Line) (value : bool) : DM B bool := on_board (b_set l value).
(** [if (line_) line_->set(value)], and [!(line_ && !line_->set(value))]. *)
Definition set_if_wired (l : Line) (value : bool) : DM B bool :=
  wired ← sx_gets (has_line l);
  if wired : bool then set_line l value else mret true.

Definition millis : DM B Z := on_board b_millis.
Definition sleep_us (us : Z) : DM B unit := on_board (fun b => (tt, b_sleep us b)).
Definition sleep_ms (ms : Z) : DM B unit := sleep_us (ms * 1000).

(** ** Low-level SPI *)

(** The loop of [wait_busy], polling every 50 us; [None] when the fuel ran out. *)
Fixpoint wait_busy_loop (fuel : nat) (start timeout_ms : Z) : DM B (option bool) :=
  match fuel with
  | O => mret None
  | S fuel =>
      v ← on_board b_busy;
      if v =? 0 then mret (Some true)
      else if v <? 0 then mret (Some false)
      else
        now ← millis;
        if timeout_ms <? u32 (now - start) then mret (Some false)
        else _ ← sleep_us 50; wait_busy_loop fuel start timeout_ms
  end.

Definition wait_busy_fuel (timeout_ms : Z) : nat := Z.to_nat ((timeout_ms + 2) * 20).

Definition wait_busy (timeout_ms : Z) : DM B bool :=
  wired ← sx_gets (has_line BusyLine);
  if negb wired then mret true
  else
    start ← millis;
    r ← wait_busy_loop (wait_busy_fuel timeout_ms) start timeout_ms;
    mret (default false r).

Definition kBusyTimeoutMs : Z := 20.

(** Chip select low, the transfer, chip select high. *)
Definition exchange (tx : Bytes) : DM B (option Bytes) :=
  low ← set_if_wired NssLine false;
  if negb low then mret None
  else
    rx ← on_board (b_transfer tx);
    high ← set_if_wired NssLine true;
    mret (if high : bool then resize (length tx) <$> rx else None).

Definition cmd (opcode : Z) (args : Bytes) : DM B bool :=
  ready ← wait_busy kBusyTimeoutMs;
  if negb ready then mret false
  else
    rx ← exchange (opcode :: args);
    mret (match rx with
          | None => false
          | Some rx => match args with [] => true | _ => command_status_ok (nth 1 rx 0) end
          end).

(** The commands that read: [header] goes out before the answer, whose status is the last
    byte of the header. *)
Definition read_after (header : Bytes) (n : nat) : DM B (option Bytes) :=
  ready ← wait_busy kBusyTimeoutMs;
  if negb ready then mret None
  else
    rx ← exchange (header ++ replicate n 0);
    mret (match rx with
          | None => None
          | Some rx => if negb (command_status_ok (nth (length header - 1) rx 0)) then None else Some (drop (length header) rx)
          end).

Definition cmd_read (opcode : Z) (n : nat) : DM B (option Bytes) := read_after [opcode; 0] n.
Definition write_register (addr : Z) (data : Bytes) : DM B bool := cmd kCmdWriteRegister (be16 addr ++ data).
Definition read_register (addr : Z) (n : nat) : DM B (option Bytes) := read_after (kCmdReadRegister :: be16 addr ++ [0]) n.
Definition write_buffer (offset : Z) (data : Bytes) : DM B bool := cmd kCmdWriteBuffer (offset :: data).
Definition read_buffer (offset : Z) (n : nat) : DM B (option Bytes) := read_after [kCmdReadBuffer; offset; 0] n.

(** A register read, changed and written back. *)
Definition update_register (addr : Z) (f : Z -> Z) : DM B bool :=
  r ← read_register addr 1;
  match r with None => mret false | Some v => write_register addr [f (nth 0 v 0)] end.

(** ** Going down *)

Definition set_rx_mode : DM B bool :=
  set_if_wired TxenLine false &&? set_if_wired RxenLine true &&?
  cmd kCmdClearIrqStatus [0xFF; 0xFF] &&? cmd kCmdSetRx [0xFF; 0xFF; 0xFF].

Definition go_down : DM B unit :=
  _ ← sx_modify (fun s => s <| sx_initial_failure_reported := true |> <| sx_healthy := false |> <| sx_retune_pending := false |>);
  _ ← set_if_wired TxenLine false;
  _ ← set_if_wired RxenLine false;
  busy ← sx_gets sx_tx_busy;
  if busy : bool then
    _ ← sx_modify (fun s => s <| sx_tx_busy := false |> <| sx_tx_timeout := None |>);
    deliver (DeliverTxDone 0)
  else mret tt.

Definition fail : DM B unit := go_down.

(** ** Configuration *)

Definition set_modulation : DM B bool :=
  p ← sx_gets sx_params;
  cmd kCmdSetModulationParams [rp_sf p; bw_code (rp_bw_khz p); u8 (rp_cr p - 4); if low_data_rate_optimize p then 0x01 else 0x00].

Definition set_packet_params (payload_len : Z) : DM B bool :=
  p ← sx_gets sx_params;
  cmd kCmdSetPacketParams (be16 (preamble_symbols p) ++ [0x00; payload_len; 0x01; 0x00]).

Definition configure_tcxo (p : RadioParams) : DM B bool :=
  if f_lt (d_of_Z 0) (rp_tcxo_voltage p) then
    cmd kCmdSetDio3AsTcxoCtrl [tcxo_code (rp_tcxo_voltage p); 0x00; 0x01; 0x40] &&?
    cmd kCmdCalibrate [0x7F] &&?
    (_ ← sleep_ms 5; wait_busy kBusyTimeoutMs) &&?
    cmd kCmdClearDeviceErrors [0x00; 0x00]
  else mret true.

(** The commands of [configure], in order. *)
Definition configure_chip (p : RadioParams) : DM B bool :=
  cmd kCmdSetStandby [kStandbyRc] &&?
  configure_tcxo p &&?
  cmd kCmdSetRegulatorMode [0x01] &&?
  (if rp_dio2_as_rf_switch p then cmd kCmdSetDio2AsRfSwitch [0x01] else mret true) &&?
  cmd kCmdSetPacketType [kPacketTypeLoRa] &&?
  cmd kCmdSetRfFrequency (frequency_args (rp_freq_mhz p)) &&?
  cmd kCmdCalibrateImage (image_args (rp_freq_mhz p)) &&?
  cmd kCmdSetPaConfig [0x04; 0x07; 0x00; 0x01] &&?
  update_register kRegTxClampConfig (fun v => Z.lor v 0x1E) &&?
  update_register kRegSensitivityConfig (fun v =>
    if f_le (d_abs (d_sub (rp_bw_khz p) (d_of_Z 500))) (d_lit 1 3) then Z.land v 0xFB else Z.lor v 0x04) &&?
  write_register kRegOcpConfig [ocp_value (rp_current_limit_ma p)] &&?
  cmd kCmdSetTxParams [power_value (rp_tx_power_dbm p); 0x04] &&?
  set_modulation &&?
  set_packet_params 0xFF &&?
  write_register kRegLoRaSyncWordMsb sync_word_args &&?
  write_register kRegRxGain [if rp_rx_boosted_gain p then 0x96 else 0x94] &&?
  cmd kCmdSetBufferBaseAddress [0x00; 0x00] &&?
  cmd kCmdSetRxTxFallbackMode [0x20] &&?
  cmd kCmdSetDioIrqParams (be16 irq_latched ++ be16 irq_dio1 ++ [0x00; 0x00; 0x00; 0x00]) &&?
  (errs ← cmd_read kCmdGetDeviceErrors 2; mret (match errs with Some _ => true | None => false end)).

Definition configure : DM B bool :=
  p ← sx_gets sx_params;
  _ ← sx_modify (fun s => s <| sx_programmed := None |>);
  ok ← configure_chip p;
  _ ← (if ok : bool then sx_modify (fun s => s <| sx_programmed := Some p |>) else mret tt);
  mret ok.

(** ** Bring-up *)

(** Waking the chip into standby, again and again until the deadline. *)
Fixpoint standby_loop (fuel : nat) (deadline : Z) : DM B (option bool) :=
  match fuel with
  | O => mret None
  | S fuel =>
      ok ← cmd kCmdSetStandby [kStandbyRc];
      if ok : bool then mret (Some true)
      else
        now ← millis;
        if 0 <=? tdiff now deadline then mret (Some false)
        else _ ← sleep_ms 10; standby_loop fuel deadline
  end.

Definition standby_fuel : nat := 102.

Definition reset_chip : DM B bool :=
  wired ← sx_gets (has_line ResetLine);
  if negb wired then mret false
  else
    set_line ResetLine false &&?
    (_ ← sleep_ms 2; set_line ResetLine true) &&?
    (_ ← sleep_ms 20; wait_busy 1000) &&?
    (now ← millis; r ← standby_loop standby_fuel (u32 (now + 1000)); mret (default false r)).

Definition chip_responding : DM B bool :=
  r ← read_register kRegVersionString 6;
  mret (match r with Some version => beq (take 5 version) (lit "SX126") | None => false end).

Definition set_healthy : DM B unit := sx_modify (fun s => s <| sx_healthy := true |>).

Definition bring_up : DM B bool :=
  reset_chip &&? chip_responding &&? configure &&? set_rx_mode &&? (_ ← set_healthy; mret true).

Definition recovery_failed : DM B unit :=
  _ ← sx_modify (fun s => s <| sx_recovering := false |> <| sx_recovery_timer := None |>);
  _ ← set_if_wired TxenLine false;
  _ ← set_if_wired RxenLine false;
  sx_modify (fun s => s <| sx_initial_failure_reported := true |>).

Definition arm_recovery (step : RecoveryStep) (delay_ms : Z) : DM B unit :=
  sx_modify (fun s => s <| sx_recovery_timer := Some (step, delay_ms) |>).

Definition start_recovery : DM B unit :=
  idle ← sx_gets (fun s => negb (sx_loop s) || sx_healthy s || sx_recovering s || negb (has_frequency (sx_params s)));
  if idle : bool then mret tt
  else
    _ ← sx_modify (fun s => s <| sx_recovering := true |>);
    wired ← sx_gets (has_line ResetLine);
    if negb wired then recovery_failed
    else
      ok ← set_line ResetLine false;
      if negb ok then recovery_failed else arm_recovery ReleaseReset 2.

Definition release_reset : DM B unit :=
  recovering ← sx_gets sx_recovering;
  if negb recovering then mret tt
  else
    ok ← set_line ResetLine true;
    if negb ok then recovery_failed
    else
      now ← millis;
      _ ← sx_modify (fun s => s <| sx_recovery_deadline_ms := u32 (now + 1000) |>);
      arm_recovery PollResetBusy 20.

(** Another look in 10 ms, unless the deadline has passed. *)
Definition poll_again : DM B unit :=
  now ← millis;
  late ← sx_gets (fun s => 0 <=? tdiff now (sx_recovery_deadline_ms s));
  if late : bool then recovery_failed else arm_recovery PollResetBusy 10.

Definition poll_reset_busy : DM B unit :=
  recovering ← sx_gets sx_recovering;
  if negb recovering then mret tt
  else
    wired ← sx_gets (has_line BusyLine);
    busy ← (if wired : bool then on_board b_busy else mret 0);
    if busy <? 0 then recovery_failed
    else if 0 <? busy then poll_again
    else
      awake ← cmd kCmdSetStandby [kStandbyRc];
      if negb awake then poll_again
      else
        up ← chip_responding &&? configure &&? set_rx_mode;
        if negb up then recovery_failed
        else sx_modify (fun s => s <| sx_healthy := true |> <| sx_recovering := false |> <| sx_ever_healthy := true |>).

(** The timer's callback resets its handle first. *)
Definition on_recovery_timer (step : RecoveryStep) : DM B unit :=
  _ ← sx_modify (fun s => s <| sx_recovery_timer := None |>);
  match step with ReleaseReset => release_reset | PollResetBusy => poll_reset_busy end.

Definition supervise : DM B unit :=
  recovering ← sx_gets sx_recovering;
  if recovering : bool then mret tt
  else
    healthy ← sx_gets sx_healthy;
    if healthy : bool then
      busy ← sx_gets sx_tx_busy;
      if busy : bool then mret tt
      else alive ← chip_responding; if alive : bool then mret tt else go_down
    else start_recovery.

(** Requesting a line: [chip_.request_...], kept when it succeeds. *)
Definition request_line (l : Line) : DM B bool :=
  ok ← on_board (b_request l);
  _ ← (if ok : bool then sx_modify (fun s => s <| sx_lines ::= cons l |>) else mret tt);
  mret ok.

Definition request_if (l : Line) (pin : Z) : DM B bool := if 0 <=? pin then request_line l else mret true.

Definition request_lines : DM B bool :=
  pins ← sx_gets sx_pins;
  if (pin_reset pins <? 0) || (pin_busy pins <? 0) || (pin_irq pins <? 0) then mret false
  else
    request_line ResetLine &&? request_line BusyLine &&? request_line IrqLine &&?
    request_if NssLine (pin_nss pins) &&? request_if RxenLine (pin_rxen pins) &&? request_if TxenLine (pin_txen pins).

Definition begin : DM B bool :=
  _ ← sx_modify (fun s => s <| sx_loop := true |>);
  on_board b_open_spi &&? on_board b_open_chip &&? request_lines &&?
  (_ ← sx_modify (fun s => s <| sx_irq_watch := true |>);
   retry ← sx_gets sx_retry_interval_ms;
   if retry =? 0 then
     tuned ← sx_gets (fun s => has_frequency (sx_params s));
     if negb tuned then mret true
     else bring_up &&? (_ ← sx_modify (fun s => s <| sx_ever_healthy := true |>); mret true)
   else
     _ ← sx_modify (fun s => s <| sx_supervise_timer := true |>);
     _ ← start_recovery;
     mret true).

(** ** Retuning *)

Definition retune : DM B unit :=
  _ ← sx_modify (fun s => s <| sx_retune_pending := false |>);
  ok ← configure;
  if negb ok then go_down
  else rx ← set_rx_mode; if negb rx then fail else mret tt.

Definition after_tx : DM B unit :=
  pending ← sx_gets sx_retune_pending;
  if pending : bool then retune
  else rx ← set_rx_mode; if negb rx then fail else mret tt.

Definition sx_reconfigure (params : RadioParams) : DM B unit :=
  before ← sx_gets sx_params;
  _ ← sx_modify (fun s => s <| sx_params := params |>);
  loop ← sx_gets sx_loop;
  let before := before <| rp_duty_cycle_pct := rp_duty_cycle_pct params |> in
  if RadioParams_eqb before params || negb loop then mret tt
  else
    healthy ← sx_gets sx_healthy;
    if healthy : bool then
      busy ← sx_gets sx_tx_busy;
      if busy : bool then sx_modify (fun s => s <| sx_retune_pending := true |>) else retune
    else if has_frequency before then mret tt
    else
      retry ← sx_gets sx_retry_interval_ms;
      if 0 <? retry then start_recovery
      else
        up ← bring_up;
        if negb up then mret tt else sx_modify (fun s => s <| sx_ever_healthy := true |>).

(** ** Transmit and receive *)

Definition irq_of (status : Bytes) : Z := u16 (Z.lor (Z.shiftl (nth 0 status 0) 8) (nth 1 status 0)).
Definition irq_has (irq mask : Z) : bool := negb (Z.land irq mask =? 0).

Definition channel_busy : DM B bool :=
  quiet ← sx_gets (fun s => negb (sx_healthy s) || sx_tx_busy s);
  if quiet : bool then mret false
  else
    status ← cmd_read kCmdGetIrqStatus 2;
    match status with
    | None => mret false
    | Some status =>
        let irq := irq_of status in
        if negb (irq_has irq (Z.lor kIrqPreambleDetected kIrqHeaderValid)) then
          _ ← sx_modify (fun s => s <| sx_rx_since_ms := 0 |>); mret false
        else
          now ← millis;
          _ ← sx_modify (fun s => if sx_rx_since_ms s =? 0 then s <| sx_rx_since_ms := now |> else s);
          p ← sx_gets sx_params;
          since ← sx_gets sx_rx_since_ms;
          let deadline := if irq_has irq kIrqHeaderValid then airtime_ms p (Z.of_nat kMaxPayloadSize)
                          else symbols_ms p (preamble_symbols p + kHeaderSymbols) in
          if deadline <? u32 (now - since) then
            _ ← cmd kCmdClearIrqStatus (be16 (Z.lor kIrqPreambleDetected kIrqHeaderValid));
            _ ← sx_modify (fun s => s <| sx_rx_since_ms := 0 |>);
            mret false
          else mret true
    end.

(** The commands of a transmission, up to [SetTx]. *)
Definition load_tx (data : Bytes) : DM B bool :=
  cmd kCmdSetStandby [kStandbyRc] &&?
  set_packet_params (u8 (zlen data)) &&?
  cmd kCmdSetBufferBaseAddress [0x00; 0x00] &&?
  write_buffer 0x00 data &&?
  cmd kCmdClearIrqStatus [0xFF; 0xFF] &&?
  set_if_wired RxenLine false &&?
  set_if_wired TxenLine true.

Definition start_tx : DM B bool :=
  ok ← cmd kCmdSetTx [0x00; 0x00; 0x00];
  if ok : bool then mret true else _ ← set_if_wired TxenLine false; mret false.

Definition sx_send (data : Bytes) : DM B bool :=
  refused ← sx_gets (fun s => negb (sx_healthy s) || sx_tx_busy s);
  if refused || (length data =? 0)%nat || (255 <? length data)%nat then mret false
  else
    ok ← load_tx data &&? start_tx;
    if negb ok then _ ← fail; mret false
    else
      _ ← sx_modify (fun s => s <| sx_tx_busy := true |>);
      now ← millis;
      _ ← sx_modify (fun s => s <| sx_tx_started_ms := now |>
                                <| sx_tx_timeout := Some (u32 (airtime_ms (sx_params s) (zlen data) + 2000)) |>);
      mret true.

(** The callback of [tx_timeout_], which is no longer armed when it runs. *)
Definition on_tx_timeout : DM B unit :=
  _ ← sx_modify (fun s => s <| sx_tx_timeout := None |>);
  busy ← sx_gets sx_tx_busy;
  if negb busy then mret tt
  else
    _ ← sx_modify (fun s => s <| sx_tx_busy := false |>);
    _ ← after_tx;
    deliver (DeliverTxDone 0).

Definition handle_tx_done : DM B unit :=
  busy ← sx_gets sx_tx_busy;
  if negb busy then mret tt
  else
    _ ← sx_modify (fun s => s <| sx_tx_busy := false |> <| sx_tx_timeout := None |>);
    _ ← set_if_wired TxenLine false;
    now ← millis;
    started ← sx_gets sx_tx_started_ms;
    _ ← after_tx;
    deliver (DeliverTxDone (u32 (now - started))).

Definition handle_rx_done : DM B unit :=
  status ← cmd_read kCmdGetRxBufferStatus 2;
  match status with
  | None => fail
  | Some status =>
      let len := nth 0 status 0 in
      let offset := nth 1 status 0 in
      if len =? 0 then rx ← set_rx_mode; if negb rx then fail else mret tt
      else
        data ← read_buffer offset (Z.to_nat len);
        match data with
        | None => fail
        | Some data =>
            pkt_status ← cmd_read kCmdGetPacketStatus 3;
            match pkt_status with
            | None => fail
            | Some pkt_status =>
                rx ← set_rx_mode;
                if negb rx then fail
                else
                  now ← millis;
                  deliver (DeliverRx (mkRx data (rssi_of (nth 0 pkt_status 0)) (snr_of (nth 1 pkt_status 0)) now))
            end
        end
  end.

Definition rx_error_of (irq : Z) : RxError :=
  if irq_has irq kIrqCrcErr then CrcError else if irq_has irq kIrqHeaderErr then HeaderError else RxTimeout.

Definition handle_rx_error (irq : Z) : DM B unit :=
  let error := rx_error_of irq in
  let no_signal := mkRxFailure error false 0 (S754_zero false) in
  f ← (match error with
       | RxTimeout => mret no_signal
       | _ =>
           pkt_status ← cmd_read kCmdGetPacketStatus 3;
           mret (match pkt_status with
                 | Some st => mkRxFailure error true (rssi_of (nth 0 st 0)) (snr_of (nth 1 st 0))
                 | None => no_signal
                 end)
       end);
  _ ← deliver (DeliverRxError f);
  rx ← set_rx_mode;
  if negb rx then fail else mret tt.

Definition on_irq : DM B unit :=
  drained ← on_board b_drain;
  if drained <? 0 then mret tt
  else
    healthy ← sx_gets sx_healthy;
    if negb healthy then mret tt
    else
      status ← cmd_read kCmdGetIrqStatus 2;
      match status with
      | None => fail
      | Some status =>
          let irq := irq_of status in
          if irq =? 0 then mret tt
          else
            cleared ← cmd kCmdClearIrqStatus (be16 irq);
            if negb cleared then fail
            else
              _ ← (if irq_has irq kIrqTxDone then handle_tx_done else mret tt);
              healthy ← sx_gets sx_healthy;
              if irq_has irq kIrqTxDone && negb healthy then mret tt
              else if irq_has irq (Z.lor kIrqCrcErr (Z.lor kIrqHeaderErr kIrqTimeout)) then handle_rx_error irq
              else if irq_has irq kIrqRxDone then handle_rx_done
              else mret tt
      end.

Definition sx_shutdown : DM B unit :=
  _ ← sx_modify (fun s => s <| sx_irq_watch := false |> <| sx_supervise_timer := false |> <| sx_recovery_timer := None |>
                            <| sx_tx_timeout := None |> <| sx_recovering := false |> <| sx_tx_busy := false |>
                            <| sx_retune_pending := false |>);
  healthy ← sx_gets sx_healthy;
  _ ← (if healthy : bool then _ ← cmd kCmdSetStandby [kStandbyRc]; cmd kCmdSetSleep [0x00] else mret true);
  _ ← sx_modify (fun s => s <| sx_healthy := false |> <| sx_lines := [] |>);
  on_board (fun b => (tt, b_close b)).

(** ** The driver as a [Radio] *)

#[export] Instance sx1262_radio : Radio (Sx1262 B) := {
  radio_params := sx_params;
  radio_tx_busy := sx_tx_busy;
  radio_ready := sx_healthy;
  radio_channel_busy s := let '(busy, s, _) := channel_busy s in (busy, s);
  radio_send s raw := let '(ok, s, _) := sx_send raw s in (ok, s);
  radio_reconfigure s p := (sx_reconfigure p s).1.2;
}.

End driver.
