(* ===== verification/Sx1262Facts.v ===== *)
(** * What the SX1262 driver guarantees on every board

    A run of the driver is any sequence of calls from the dispatcher, interrupts and timers,
    on a board that answers as it likes.  The facts: an accepted transmission is reported
    once, a transmission in flight always has its timeout armed, the chip transmits with the
    parameters in force, and a driver that is down is on its way up.  They are proved with
    postconditions of computations ([wp]) and the class [Quiet] of those that only talk to
    the board. *)

From S2P Require Import Prelude ByteIO Floats Crypto Radio Sx1262.

#[local] Arguments airtime_ms : simpl never.
#[local] Arguments symbols_ms : simpl never.
#[local] Arguments u32 : simpl never.
#[local] Arguments Z.lor : simpl never.
#[local] Arguments be16 : simpl never.

(** ** Postconditions *)

Definition wp {B A} (m : DM B A) (P : A -> Sx1262 B -> list Delivery -> Prop) (s : Sx1262 B) : Prop :=
  let '(a, s', o) := m s in P a s' o.

Section wp.
Context {B : Type}.
Implicit Types (s : Sx1262 B).

Lemma wp_mono {A} (m : DM B A) (P Q : A -> Sx1262 B -> list Delivery -> Prop) s :
  wp m P s -> (forall a s' o, P a s' o -> Q a s' o) -> wp m Q s.
Proof. unfold wp. destruct (m s) as [[a s'] o]. auto. Qed.

Lemma wp_ret {A} (a : A) (P : A -> Sx1262 B -> list Delivery -> Prop) s : P a s [] -> wp (mret a) P s.
Proof. done. Qed.

Lemma wp_bind {A C} (m : DM B A) (f : A -> DM B C) P s :
  wp m (fun a s1 o1 => wp (f a) (fun c s2 o2 => P c s2 (o1 ++ o2)) s1) s -> wp (m ≫= f) P s.
Proof.
  unfold wp, mbind, DM_bind. destruct (m s) as [[a s1] o1]. by destruct (f a s1) as [[c s2] o2].
Qed.

Lemma wp_gets {A} (f : Sx1262 B -> A) P s : P (f s) s [] -> wp (sx_gets f) P s.
Proof. done. Qed.

Lemma wp_modify f (P : unit -> Sx1262 B -> list Delivery -> Prop) s : P tt (f s) [] -> wp (sx_modify f) P s.
Proof. done. Qed.

Lemma wp_deliver x (P : unit -> Sx1262 B -> list Delivery -> Prop) s : P tt s [x] -> wp (deliver x) P s.
Proof. done. Qed.

Lemma wp_run {A} (m : DM B A) P s a s' o : wp m P s -> m s = (a, s', o) -> P a s' o.
Proof. unfold wp. intros HP E. by rewrite E in HP. Qed.

End wp.

(** ** Computations that only talk to the board *)

Class Quiet {B A} (m : DM B A) : Prop := quiet s : exists a b, m s = (a, s <| sx_board := b |>, []).

#[export] Hint Extern 1 (Quiet (if ?b then _ else _)) => destruct b : typeclass_instances.
#[export] Hint Extern 1 (Quiet (match ?x with Some _ => _ | None => _ end)) => destruct x : typeclass_instances.

Section quiet.
Context {B : Type}.

Lemma same_board (s : Sx1262 B) : s = s <| sx_board := sx_board s |>.
Proof. by destruct s. Qed.

#[export] Instance quiet_ret {A} (a : A) : Quiet (B := B) (mret a).
Proof. intros s. exists a, (sx_board s). by rewrite <- same_board. Qed.

#[export] Instance quiet_gets {A} (f : Sx1262 B -> A) : Quiet (sx_gets f).
Proof. intros s. exists (f s), (sx_board s). by rewrite <- same_board. Qed.

#[export] Instance quiet_on_board {A} (f : B -> A * B) : Quiet (on_board f).
Proof. intros s. unfold on_board. destruct (f (sx_board s)) as [a b]. by exists a, b. Qed.

#[export] Instance quiet_bind {A C} (m : DM B A) (f : A -> DM B C) : Quiet m -> (forall a, Quiet (f a)) -> Quiet (m ≫= f).
Proof.
  intros Hm Hf s. destruct (Hm s) as (a & b & Em). destruct (Hf a (s <| sx_board := b |>)) as (c & b' & Ef).
  exists c, b'. unfold mbind, DM_bind. by rewrite Em, Ef.
Qed.

#[export] Instance quiet_and_then (m k : DM B bool) : Quiet m -> Quiet k -> Quiet (m &&? k).
Proof. intros ??. unfold and_then. apply _. Qed.

Lemma wp_quiet {A} (m : DM B A) `{!Quiet m} P s :
  (forall a b, P a (s <| sx_board := b |>) []) -> wp m P s.
Proof. intros HP. unfold wp. destruct (quiet s) as (a & b & ->). apply HP. Qed.

End quiet.

(** The driver's own functions are unfolded; the loops and the commands are instances. *)
Ltac quiet_unfold m :=
  lazymatch m with
  | ?f _ => quiet_unfold f
  | ?f => unfold f
  end.
#[export] Hint Extern 9 (Quiet ?m) => quiet_unfold m : typeclass_instances.

Section quiet_driver.
Context {B : Type} `{Board B}.

#[export] Instance quiet_wait_busy_loop fuel start t : Quiet (B := B) (wait_busy_loop fuel start t).
Proof. induction fuel; simpl; apply _. Qed.

#[export] Instance quiet_cmd op args : Quiet (B := B) (cmd op args).
Proof. apply _. Qed.

#[export] Instance quiet_read_after h n : Quiet (B := B) (read_after h n).
Proof. apply _. Qed.

#[export] Instance quiet_standby_loop fuel d : Quiet (B := B) (standby_loop fuel d).
Proof. induction fuel; simpl; apply _. Qed.

#[export] Instance quiet_configure_chip p : Quiet (B := B) (configure_chip p).
Proof. apply _. Qed.

#[export] Instance quiet_reset_chip : Quiet (B := B) reset_chip.
Proof. apply _. Qed.

#[export] Instance quiet_set_rx_mode : Quiet (B := B) set_rx_mode.
Proof. apply _. Qed.

#[export] Instance quiet_chip_responding : Quiet (B := B) chip_responding.
Proof. apply _. Qed.

#[export] Instance quiet_transmission data : Quiet (B := B) (load_tx data &&? start_tx).
Proof. apply _. Qed.

End quiet_driver.

(** Runs a computation symbolically: quiet parts answer anything, tests are split. *)
Ltac wp_step :=
  lazymatch goal with
  | |- wp (sx_gets _) _ _ => apply wp_gets
  | |- wp (sx_modify _) _ _ => apply wp_modify
  | |- wp (deliver _) _ _ => apply wp_deliver
  | |- wp (mret _) _ _ => apply wp_ret
  | |- wp (if ?b then _ else _) _ _ => destruct b eqn:?
  | |- wp (match ?x with Some _ => _ | None => _ end) _ _ => destruct x eqn:?
  | |- wp (match ?x with RxTimeout => _ | _ => _ end) _ _ => destruct x eqn:?
  | |- wp (_ ≫= _) _ _ => apply wp_bind
  | |- wp (_ &&? _) _ _ => apply wp_bind
  | |- wp _ _ _ => apply wp_quiet; [apply _|intros ? ?]
  end.
Ltac wp_go := repeat (wp_step; simpl).

(** ** Runs *)

(** The parameters as the chip sees them: the duty cycle is not among them. *)
Definition same_air (p q : RadioParams) : Prop :=
  same_double (rp_freq_mhz p) (rp_freq_mhz q) /\ same_double (rp_bw_khz p) (rp_bw_khz q) /\
  rp_sf p = rp_sf q /\ rp_cr p = rp_cr q /\ rp_tx_power_dbm p = rp_tx_power_dbm q /\
  same_double (rp_tcxo_voltage p) (rp_tcxo_voltage q) /\ rp_dio2_as_rf_switch p = rp_dio2_as_rf_switch q /\
  rp_rx_boosted_gain p = rp_rx_boosted_gain q /\ rp_current_limit_ma p = rp_current_limit_ma q.

Inductive SxEvent :=
| SxBegin
| SxSend (data : Bytes)
| SxChannelBusy
| SxReconfigure (params : RadioParams)
| SxIrq
| SxTxTimeout
| SxRecovery
| SxSupervise.

Definition armed {A} (timer : option A) : bool := match timer with Some _ => true | None => false end.

Definition is_tx_done (x : Delivery) : bool := match x with DeliverTxDone _ => true | _ => false end.
Definition tx_dones (o : list Delivery) : Z := zlen (List.filter is_tx_done o).

Section runs.
Context {B : Type} `{Board B}.
Implicit Types (s : Sx1262 B).

(** [begin] is called once; an interrupt needs its watch and a timer must be armed. *)
Definition sx_enabled s (ev : SxEvent) : Prop :=
  match ev with
  | SxBegin => sx_loop s = false
  | SxIrq => sx_irq_watch s = true
  | SxTxTimeout => armed (sx_tx_timeout s) = true
  | SxRecovery => armed (sx_recovery_timer s) = true
  | SxSupervise => sx_supervise_timer s = true
  | _ => True
  end.

(** The handler of an event, and whether it accepted a transmission. *)
Definition sx_handle (ev : SxEvent) : DM B bool :=
  match ev with
  | SxBegin => _ ← begin; mret false
  | SxSend data => sx_send data
  | SxChannelBusy => _ ← channel_busy; mret false
  | SxReconfigure params => _ ← sx_reconfigure params; mret false
  | SxIrq => _ ← on_irq; mret false
  | SxTxTimeout => _ ← on_tx_timeout; mret false
  | SxRecovery =>
      t ← sx_gets sx_recovery_timer;
      _ ← (match t with Some (step, _) => on_recovery_timer step | None => mret tt end);
      mret false
  | SxSupervise => _ ← supervise; mret false
  end.

(** [sx_reach s0 n o s]: a run from [s0] accepted [n] transmissions, handed up [o] and
    ended in [s]. *)
Inductive sx_reach s0 : Z -> list Delivery -> Sx1262 B -> Prop :=
| sx_reach_start : sx_reach s0 0 [] s0
| sx_reach_step n o s ev accepted s' o' :
    sx_reach s0 n o s -> sx_enabled s ev -> sx_handle ev s = (accepted, s', o') ->
    sx_reach s0 (n + Z.b2z accepted) (o ++ o') s'.

(** ** The invariant *)

(** The flags: a transmission in flight has its timeout armed on a radio that is up; a
    recovery has its timer armed, on a radio that is down; a retune waits only for a
    transmission; supervision knows the loop and the reset line. *)
Definition flags_ok s : bool :=
  implb (sx_tx_busy s) (sx_healthy s && armed (sx_tx_timeout s)) &&
  Bool.eqb (sx_recovering s) (armed (sx_recovery_timer s)) &&
  implb (sx_recovering s) (negb (sx_healthy s) && (0 <? sx_retry_interval_ms s)) &&
  implb (sx_retune_pending s) (sx_tx_busy s) &&
  implb (sx_healthy s || sx_recovering s) (sx_loop s) &&
  implb (sx_supervise_timer s) (sx_loop s && has_line ResetLine s && (0 <? sx_retry_interval_ms s)) &&
  (0 <=? sx_retry_interval_ms s).

(** The chip has the parameters in force, unless a retune is waiting. *)
Definition programmed_ok s : Prop :=
  sx_healthy s = true -> sx_retune_pending s = false -> exists p, sx_programmed s = Some p /\ same_air p (sx_params s).

Definition sx_ok s : Prop := flags_ok s = true /\ programmed_ok s.

(** What one handler does: the invariant, the ledger of transmissions, and that supervision
    and the lines stay. *)
Definition sx_post s (accepted : bool) s' (o : list Delivery) : Prop :=
  (sx_ok s -> sx_ok s') /\
  Z.b2z accepted + Z.b2z (sx_tx_busy s) = tx_dones o + Z.b2z (sx_tx_busy s') /\
  ((sx_supervise_timer s = true -> sx_supervise_timer s' = true) /\ (sx_loop s = true -> sx_loop s' = true)).

End runs.

Lemma same_double_trans a b c : same_double a b -> same_double b c -> same_double a c.
Proof. unfold same_double. intros [->|[??]] [->|[??]]; auto. Qed.

Lemma same_air_refl p : same_air p p.
Proof. unfold same_air, same_double. tauto. Qed.

Lemma same_air_trans p q r : same_air p q -> same_air q r -> same_air p r.
Proof. unfold same_air. intros. destruct_and!. split_and!; try congruence; by eapply same_double_trans. Qed.

(** The comparison of [reconfigure]. *)
Lemma eqb_same_air p q d : RadioParams_eqb (p <| rp_duty_cycle_pct := d |>) q = true -> same_air p q.
Proof.
  unfold RadioParams_eqb, same_air. simpl. rewrite !andb_true_iff, !Z.eqb_eq, !eqb_true_iff.
  intros. destruct_and!. split_and!; auto using f_eq_same.
Qed.

Section handlers.
Context {B : Type} `{Board B}.
Implicit Types (s : Sx1262 B).

(** ** The functions the handlers share *)

Definition configured (ok : bool) (b : B) s : Sx1262 B :=
  s <| sx_board := b |> <| sx_programmed := if ok then Some (sx_params s) else None |>.

Lemma wp_configure (P : bool -> Sx1262 B -> list Delivery -> Prop) s :
  (forall ok b, P ok (configured ok b s) []) -> wp configure P s.
Proof.
  intros HP. unfold configure. wp_go; subst; [exact (HP true b)|exact (HP false b)].
Qed.

(** The driver after [go_down]. *)
Definition downed (b : B) s : Sx1262 B :=
  s <| sx_board := b |> <| sx_initial_failure_reported := true |> <| sx_healthy := false |> <| sx_retune_pending := false |>
    <| sx_tx_busy := false |> <| sx_tx_timeout ::= fun t => if sx_tx_busy s then None else t |>.

Definition released s : list Delivery := if sx_tx_busy s then [DeliverTxDone 0] else [].

Lemma wp_go_down (P : unit -> Sx1262 B -> list Delivery -> Prop) s :
  (forall b, P tt (downed b s) (released s)) -> wp go_down P s.
Proof.
  intros HP. unfold go_down. unfold downed, released in HP. wp_go; [exact (HP b0)|].
  destruct s; simpl in *; subst; exact (HP b0).
Qed.

Lemma wp_bring_up (P : bool -> Sx1262 B -> list Delivery -> Prop) s :
  (forall b prog, P false (s <| sx_board := b |> <| sx_programmed := prog |>) []) ->
  (forall b, P true (s <| sx_board := b |> <| sx_programmed := Some (sx_params s) |> <| sx_healthy := true |>) []) ->
  wp bring_up P s.
Proof.
  intros Hf Ht. unfold bring_up, set_healthy.
  repeat lazymatch goal with |- wp configure _ _ => apply wp_configure; intros ? ? | _ => wp_step end; simpl; subst.
  - exact (Ht b2).
  - exact (Hf b2 (Some (sx_params s))).
  - exact (Hf b1 None).
  - exact (Hf b0 (sx_programmed s)).
  - exact (Hf b (sx_programmed s)).
Qed.

(** Requesting lines adds some; a successful request has its line. *)
Lemma wp_request_line l (P : bool -> Sx1262 B -> list Delivery -> Prop) s :
  (forall ok b ls, (ok = true -> l ∈ ls) -> sx_lines s ⊆ ls -> P ok (s <| sx_board := b |> <| sx_lines := ls |>) []) ->
  wp (request_line l) P s.
Proof.
  intros HP. unfold request_line. wp_go; subst; [apply (HP true b (l :: sx_lines s)); set_solver|].
  by apply (HP false b (sx_lines s)).
Qed.

Lemma wp_request_if l pin (P : bool -> Sx1262 B -> list Delivery -> Prop) s :
  (forall ok b ls, sx_lines s ⊆ ls -> P ok (s <| sx_board := b |> <| sx_lines := ls |>) []) -> wp (request_if l pin) P s.
Proof.
  intros HP. unfold request_if. case_match; [apply wp_request_line; eauto|].
  specialize (HP true (sx_board s) (sx_lines s)). apply wp_ret. destruct s; by apply HP.
Qed.

Lemma wp_request_lines (P : bool -> Sx1262 B -> list Delivery -> Prop) s :
  (forall ok b ls, (ok = true -> ResetLine ∈ ls) -> sx_lines s ⊆ ls -> P ok (s <| sx_board := b |> <| sx_lines := ls |>) []) ->
  wp request_lines P s.
Proof.
  intros HP. unfold request_lines. wp_go; [destruct s; by apply HP|].
  repeat (first [apply wp_request_line; intros | apply wp_request_if; intros | wp_step]; simpl in *);
    match goal with ls : list Line, b : B |- P ?ok _ _ => apply (HP ok b ls); set_solver end.
Qed.

Ltac sx_step :=
  lazymatch goal with
  | |- wp configure _ _ => apply wp_configure; intros ? ?
  | |- wp go_down _ _ => apply wp_go_down; intros ?
  | |- wp fail _ _ => apply wp_go_down; intros ?
  | |- wp request_lines _ _ => apply wp_request_lines; intros
  | |- wp bring_up _ _ => apply wp_bring_up; intros
  | |- wp _ _ _ => wp_step
  end.
Ltac sx_run := repeat (sx_step; simpl).

(** Booleans the tests of the code have decided. *)
Ltac known_tests :=
  repeat match goal with
  | E : context [has_line] |- _ => unfold has_line in E; simpl in E
  | E : negb _ = true |- _ => apply negb_true_iff in E
  | E : negb _ = false |- _ => apply negb_false_iff in E
  | E : _ || _ = false |- _ => apply orb_false_iff in E as [? ?]
  | E : _ && _ = true |- _ => apply andb_true_iff in E as [? ?]
  end.
Ltac split_atom b :=
  lazymatch b with
  | _ && _ => fail
  | _ || _ => fail
  | negb _ => fail
  | implb _ _ => fail
  | (if _ then _ else _) => fail
  | true => fail
  | false => fail
  | _ => destruct b; simpl; try done
  end.
Ltac split_bools :=
  try done;
  repeat match goal with
  | |- context [implb ?b _] => split_atom b
  | |- context [?b && _] => split_atom b
  | |- context [_ && ?b] => split_atom b
  | |- context [?b || _] => split_atom b
  | |- context [_ || ?b] => split_atom b
  | |- context [negb ?b] => split_atom b
  | |- context [if ?b then _ else _] => split_atom b
  end.
Ltac sx_flags :=
  unfold sx_ok, flags_ok, has_line, released, tx_dones, zlen, downed, configured; simpl;
  repeat match goal with E : ?b = ?v |- _ => match type of b with bool => rewrite ?E; clear E end end; simpl; split_bools.

Ltac sx_done :=
  known_tests; subst;
  let Hf := fresh in let Hp := fresh in let Hh := fresh in
  split; [intros [Hf Hp]; split|split];
    [revert Hf; clear Hp; sx_flags
    |intros Hh ?; simpl in Hh |- *; first [done|congruence|by apply Hp|by eauto using same_air_refl|exfalso; revert Hf; clear Hp; by sx_flags]
    |sx_flags
    |done].

Lemma supervise_post s : sx_supervise_timer s = true -> wp supervise (fun _ => sx_post s false) s.
Proof. intros Ht. unfold supervise, start_recovery, recovery_failed, arm_recovery. sx_run; sx_done. Qed.

Lemma recovery_post step s :
  armed (sx_recovery_timer s) = true -> wp (on_recovery_timer step) (fun _ => sx_post s false) s.
Proof.
  intros Ht. unfold on_recovery_timer, release_reset, poll_reset_busy, poll_again, recovery_failed, arm_recovery.
  destruct step; sx_run; sx_done.
Qed.

Lemma channel_busy_post s : wp channel_busy (fun _ => sx_post s false) s.
Proof. unfold channel_busy. sx_run; try destruct (sx_rx_since_ms s =? 0); sx_done. Qed.

Lemma send_post data s : wp (sx_send data) (sx_post s) s.
Proof. unfold sx_send. sx_run; sx_done. Qed.

Lemma tx_timeout_post s : armed (sx_tx_timeout s) = true -> wp on_tx_timeout (fun _ => sx_post s false) s.
Proof. intros Ht. unfold on_tx_timeout, after_tx, retune. sx_run; sx_done. Qed.

Lemma reconfigure_post p s : wp (sx_reconfigure p) (fun _ => sx_post s false) s.
Proof.
  unfold sx_reconfigure, retune, start_recovery, recovery_failed, arm_recovery. sx_run; [|sx_done..].
  match goal with E : _ || _ = true |- _ => apply orb_true_iff in E as [E|E] end; [|sx_done].
  split; [|done]. intros [Hf Hp]. split; [exact Hf|]. intros Hh Hr. destruct (Hp Hh Hr) as (q & Eq & Hq). exists q. split; [exact Eq|].
  eapply same_air_trans; [exact Hq|]. by eapply eqb_same_air.
Qed.

Lemma begin_post s : sx_loop s = false -> wp begin (fun _ => sx_post s false) s.
Proof.
  intros Hl.
  unfold begin, start_recovery, recovery_failed, arm_recovery. sx_run.
  all: try by sx_done.
  all: match goal with Hls : true = true -> _ |- _ => pose proof (bool_decide_eq_true_2 _ (Hls eq_refl)) end.
  all: destruct (0 <? sx_retry_interval_ms s) eqn:?; [sx_done|].
  all: assert ((0 <=? sx_retry_interval_ms s) = false) by lia; sx_done.
Qed.

Lemma begin_loop s : wp begin (fun _ s' _ => sx_loop s' = true) s.
Proof. unfold begin, start_recovery, recovery_failed, arm_recovery. sx_run; done. Qed.

(** A [begin] that succeeds leaves the driver supervised when it has a retry interval, and up
    when it has none but a frequency. *)
Lemma begin_starts s :
  sx_healthy s = false ->
  wp begin (fun ok s' _ => ok = true ->
    sx_params s' = sx_params s /\ sx_irq_watch s' = true /\
    (sx_retry_interval_ms s <> 0 -> sx_supervise_timer s' = true) /\
    (sx_retry_interval_ms s = 0 -> has_frequency (sx_params s) = true -> sx_healthy s' = true)) s.
Proof.
  intros Hh. unfold begin, start_recovery, recovery_failed, arm_recovery. sx_run; try done.
  all: known_tests; intros _; simpl; split_and!; try done; intros; try lia; congruence.
Qed.

(** ** Interrupts *)

Lemma sx_post_seq s acc s1 o1 s2 o2 : sx_post s acc s1 o1 -> sx_post s1 false s2 o2 -> sx_post s acc s2 (o1 ++ o2).
Proof.
  intros (Ho1 & Hn1 & Ht1 & Hl1) (Ho2 & Hn2 & Ht2 & Hl2). split_and!; [auto| |auto|auto].
  unfold tx_dones, zlen in *. rewrite List.filter_app, length_app. simpl in *. lia.
Qed.

Lemma handle_tx_done_post s : wp handle_tx_done (fun _ => sx_post s false) s.
Proof. unfold handle_tx_done, after_tx, retune. sx_run; sx_done. Qed.

Lemma handle_rx_error_post irq s : wp (handle_rx_error irq) (fun _ => sx_post s false) s.
Proof. unfold handle_rx_error. sx_run; sx_done. Qed.

Lemma handle_rx_done_post s : wp handle_rx_done (fun _ => sx_post s false) s.
Proof. unfold handle_rx_done. sx_run; sx_done. Qed.

Lemma sx_post_refl s : sx_post s false s [].
Proof. done. Qed.

Lemma go_down_post s : wp go_down (fun _ => sx_post s false) s.
Proof. sx_run; sx_done. Qed.

Lemma quiet_post {A} (m : DM B A) `{!Quiet m} s : wp m (fun _ => sx_post s false) s.
Proof. sx_run; sx_done. Qed.

Lemma wp_seq_post {A C} (m : DM B A) (f : A -> DM B C) s acc :
  wp m (fun _ => sx_post s acc) s -> (forall a s1, wp (f a) (fun _ => sx_post s1 false) s1) ->
  wp (m ≫= f) (fun _ => sx_post s acc) s.
Proof.
  intros Hm Hf. apply wp_bind. eapply wp_mono; [exact Hm|]. intros a s1 o1 Hp. simpl.
  eapply wp_mono; [apply Hf|]. intros c s2 o2. by apply sx_post_seq.
Qed.

Lemma on_irq_post s : wp on_irq (fun _ => sx_post s false) s.
Proof.
  unfold on_irq, fail.
  repeat lazymatch goal with
  | |- wp (mret _) _ _ => by apply wp_ret, sx_post_refl
  | |- wp go_down _ _ => by apply go_down_post
  | |- wp handle_tx_done _ _ => by apply handle_tx_done_post
  | |- wp (handle_rx_error _) _ _ => by apply handle_rx_error_post
  | |- wp handle_rx_done _ _ => by apply handle_rx_done_post
  | |- wp (if ?b then _ else _) _ _ => destruct b
  | |- wp (match ?x with Some _ => _ | None => _ end) _ _ => destruct x
  | |- wp (_ ≫= _) _ _ => apply wp_seq_post; [|intros ? ?]
  | |- wp _ _ _ => apply quiet_post; apply _
  end.
Qed.

Lemma wp_after {A} (m : DM B A) s : wp m (fun _ => sx_post s false) s -> wp (_ ← m; mret false) (sx_post s) s.
Proof.
  intros Hm. apply wp_bind. eapply wp_mono; [exact Hm|]. intros a s1 o1 Hp. apply wp_ret. by rewrite app_nil_r.
Qed.

Lemma handle_post s ev accepted s' o :
  sx_enabled s ev -> sx_handle ev s = (accepted, s', o) -> sx_post s accepted s' o.
Proof.
  intros He. apply (wp_run _ (sx_post s)).
  destruct ev; simpl in He; unfold sx_handle; [|by apply send_post|..].
  6:{ apply wp_bind, wp_gets. destruct (sx_recovery_timer s) as [[step d]|] eqn:Et; [|done].
      apply (wp_after _ s), recovery_post; by rewrite Et. }
  all: apply wp_after.
  - by apply begin_post.
  - by apply channel_busy_post.
  - by apply reconfigure_post.
  - by apply on_irq_post.
  - by apply tx_timeout_post.
  - by apply supervise_post.
Qed.

(** ** The driver as a radio *)

(** What the dispatcher relies on holds of the driver on every board. *)
#[export] Instance sx1262_laws : RadioLaws (Sx1262 B).
Proof.
  constructor; simpl.
  - intros s raw s' E. assert (wp (sx_send raw) (fun ok s1 _ => ok = true -> sx_tx_busy s1 = true) s) as Hw.
    { unfold sx_send. sx_run; done. }
    revert E Hw. unfold wp. destruct (sx_send raw s) as [[ok s1] o]. intros [= -> ->]. auto.
  - intros s. assert (wp channel_busy (fun _ s1 _ => sx_tx_busy s1 = sx_tx_busy s) s) as Hw.
    { unfold channel_busy. sx_run; try destruct (sx_rx_since_ms s =? 0); done. }
    revert Hw. unfold wp. by destruct (channel_busy s) as [[ok s1] o].
  - intros s p. assert (wp (sx_reconfigure p) (fun _ s1 _ => sx_tx_busy s1 = sx_tx_busy s) s) as Hw.
    { unfold sx_reconfigure, retune, start_recovery, recovery_failed, arm_recovery. sx_run; done. }
    revert Hw. unfold wp. by destruct (sx_reconfigure p s) as [[ok s1] o].
  - intros s p. assert (wp (sx_reconfigure p) (fun _ s1 _ => sx_params s1 = p) s) as Hw.
    { unfold sx_reconfigure, retune, start_recovery, recovery_failed, arm_recovery. sx_run; done. }
    revert Hw. unfold wp. by destruct (sx_reconfigure p s) as [[ok s1] o].
  - intros s. assert (wp channel_busy (fun _ s1 _ => sx_params s1 = sx_params s) s) as Hw.
    { unfold channel_busy. sx_run; try destruct (sx_rx_since_ms s =? 0); done. }
    revert Hw. unfold wp. by destruct (channel_busy s) as [[ok s1] o].
  - intros s raw. assert (wp (sx_send raw) (fun _ s1 _ => sx_params s1 = sx_params s) s) as Hw.
    { unfold sx_send. sx_run; done. }
    revert Hw. unfold wp. by destruct (sx_send raw s) as [[ok s1] o].
Qed.

End handlers.

(** A transmission in flight is on a radio that is up, with its timeout armed. *)
Lemma tx_armed {B} (s : Sx1262 B) :
  flags_ok s = true -> sx_tx_busy s = true -> sx_healthy s = true /\ sx_tx_timeout s <> None.
Proof.
  unfold flags_ok. rewrite !andb_true_iff. intros ? Hb. destruct_and!. rewrite Hb in *.
  destruct (sx_healthy s), (sx_tx_timeout s); done.
Qed.

Section reachable.
Context {B : Type} `{Board B}.
Variables (params : RadioParams) (pins : Pins) (retry : Z) (board : B).
Hypothesis Hretry : is_u32 retry.
Implicit Types (s : Sx1262 B).

#[local] Abbreviation fresh_driver := (make_sx1262 params pins retry board).

Lemma fresh_ok : sx_ok fresh_driver.
Proof.
  split; [|by intros ?]. unfold flags_ok. simpl. apply Z.leb_le. destruct Hretry. lia.
Qed.

Lemma reach_post n o s :
  sx_reach fresh_driver n o s -> sx_ok s /\ n = tx_dones o + Z.b2z (sx_tx_busy s).
Proof.
  induction 1 as [|n o s ev acc s' o' _ [Hok Hn] He Hh]; [split; [apply fresh_ok|done]|].
  pose proof (handle_post _ _ _ _ _ He Hh) as (Hok' & Hn' & _). split; [auto|].
  unfold tx_dones, zlen in *. rewrite List.filter_app, length_app. lia.
Qed.

(** C24. Every transmission the driver accepts ends once: over every run, on any board, the
    accepted ones are those reported done and the one in flight. *)
Theorem driver_reports_each_tx n o s :
  sx_reach fresh_driver n o s -> n = tx_dones o + Z.b2z (sx_tx_busy s).
Proof. apply reach_post. Qed.

(** C25. The driver never waits for nothing: in every reachable state a transmission in
    flight is on a radio that is up and has its timeout armed, a recovery has its next step
    armed, and a retune waits only for a transmission. *)
Theorem driver_never_stuck n o s :
  sx_reach fresh_driver n o s ->
  (sx_tx_busy s = true -> sx_healthy s = true /\ sx_tx_timeout s <> None) /\
  (sx_recovering s = true <-> sx_recovery_timer s <> None) /\
  (sx_recovering s = true -> sx_healthy s = false) /\
  (sx_retune_pending s = true -> sx_tx_busy s = true).
Proof.
  intros Hr. destruct (reach_post _ _ _ Hr) as [[Hf _] _]. revert Hf. clear. unfold flags_ok.
  rewrite !andb_true_iff. intros. destruct_and!.
  destruct (sx_tx_busy s), (sx_healthy s), (sx_recovering s), (sx_retune_pending s), (sx_tx_timeout s), (sx_recovery_timer s);
    simpl in *; split_and!; try done; split; done.
Qed.

(** C16. What goes on the air goes out with the parameters in force: when a transmission is
    accepted, the last configuration the chip took in full is the driver's parameters, the
    duty cycle apart. *)
Theorem transmits_with_current_params n o s data s' o' :
  sx_reach fresh_driver n o s -> sx_send data s = (true, s', o') ->
  exists p, sx_programmed s = Some p /\ same_air p (sx_params s).
Proof.
  intros Hr Hs. destruct (reach_post _ _ _ Hr) as [[Hf Hp] _].
  assert (sx_healthy s = true /\ sx_tx_busy s = false) as [Hh Hb].
  { revert Hs. unfold sx_send, mbind, DM_bind. simpl. destruct (sx_healthy s), (sx_tx_busy s); simpl; done. }
  apply Hp; [done|]. revert Hf. clear -Hb. unfold flags_ok. rewrite Hb.
  destruct (sx_retune_pending s); [|done]. simpl. rewrite !andb_false_r. done.
Qed.

End reachable.
