(* ===== verification/Sx1262Link.v ===== *)
(** * The dispatcher on the SX1262 driver

    The dispatcher's theorems are stated of any [Radio] that moves by itself in the ways
    [Dispatcher.enabled] allows.  Here both run together: calls of the dispatcher go into the
    driver, interrupts and timers of the driver hand receptions and completed transmissions
    to the dispatcher's handlers.  Every such run is a run of the dispatcher alone, so that
    what is proved of it holds of the two. *)

From S2P Require Import Prelude ByteIO Floats Crypto Packet Radio Dispatcher Sx1262 Sx1262Facts.

(** ** What the dispatcher preserves of its radio *)

Section preserved.
Context `{CryptoLib} {R : Type} `{Radio R}.
Implicit Types (d : Dispatcher R).

(** Calls from above. *)
Definition from_above (ev : @Event R) : bool :=
  match ev with EvSend _ _ _ _ | EvPumpTimer | EvReconfigure _ | EvSweep => true | _ => false end.

Variable I : R -> Prop.
Hypothesis I_send : forall x raw, I x -> I (radio_send x raw).2.
Hypothesis I_channel : forall x, I x -> I (radio_channel_busy x).2.
Hypothesis I_reconfigure : forall x p, I x -> I (radio_reconfigure x p).

Lemma pump_preserves fuel now r : forall d, I (radio_ d) -> I (radio_ (pump_fuel fuel now r d).1).
Proof.
  induction fuel as [|fuel IH]; intros d HI; [done|]. cbn [pump_fuel].
  destruct (queue_ d) as [|q0 l0]; [done|]. case_match; [done|]. destruct (split_expired _ _) as [dropped kept].
  destruct kept as [|front kept]; [done|]. case_match; [cbn [fst]; by rewrite schedule_pump_radio|].
  destruct (list_find _ _) as [[i q]|]; [|cbn [fst]; by rewrite schedule_pump_radio].
  destruct (DutyCycle.wait_ms _ _ _) as [wait duty]. case_match; [cbn [fst]; by rewrite schedule_pump_radio|].
  destruct (radio_channel_busy _) as [busy x] eqn:Ex. apply I_channel in HI. simpl in Ex. rewrite Ex in HI. simpl in HI.
  destruct (busy && _); [cbn [fst]; by rewrite schedule_pump_radio|]. destruct (_ <? _)%nat.
  - destruct (pump_fuel _ _ _ _) as [d' rs] eqn:Ep. apply (f_equal fst) in Ep. simpl in *. rewrite <- Ep. apply IH. by case_match.
  - destruct (radio_send _ _) as [ok y] eqn:Ey. apply (I_send _ (encode (q_packet q))) in HI.
    replace (radio_ _) with x in Ey by (by case_match). rewrite Ey in HI.
    case_match; [cbn [fst]; by rewrite schedule_pump_radio|done].
Qed.

Lemma handle_preserves now r ev d : from_above ev = true -> I (radio_ d) -> I (radio_ (handle now r ev d).1).
Proof.
  intros Ha HI. destruct ev as [p prio delay cb| | | | | |p|]; try done; simpl.
  - unfold send. destruct (negb _); [done|].
    assert (radio_ (check_and_mark_seen now p d).2 = radio_ d) as Es by (unfold check_and_mark_seen; by repeat case_match).
    destruct (if (_ <? _)%nat then _ else _) as [d1 rs1] eqn:E1.
    assert (radio_ d1 = radio_ d) as Ed.
    { destruct (_ <? _)%nat; [destruct (take_at _ _) as [[? ?]|]|]; injection E1 as <- <-; exact Es. }
    destruct (pump now r d1) as [d2 rs2] eqn:E2. apply (f_equal fst) in E2. simpl in *. rewrite <- E2.
    apply pump_preserves. by rewrite Ed.
  - by apply pump_preserves.
  - apply pump_preserves. simpl. case_match; simpl; auto.
Qed.

End preserved.

Section link.
Context `{CryptoLib} {B : Type} `{Board B}.
Implicit Types (d : Dispatcher (Sx1262 B)) (s : Sx1262 B).

(** The handlers the dispatcher installs in the radio; [now] is the clock when a handler
    runs and [r] the byte it draws. *)
Definition on_delivery (now r : Z) (x : Delivery) d : Dispatcher (Sx1262 B) :=
  match x with
  | DeliverRx rx => (on_radio_rx now rx d).1
  | DeliverRxError f => on_radio_rx_error f d
  | DeliverTxDone airtime => on_radio_tx_done now r airtime d
  end.

Definition deliver_all (o : list (Delivery * (Z * Z))) d : Dispatcher (Sx1262 B) :=
  fold_left (fun d x => on_delivery x.2.1 x.2.2 x.1 d) o d.

(** The callbacks the driver registers with the loop. *)
Definition is_callback (ev : SxEvent) : bool :=
  match ev with SxIrq | SxTxTimeout | SxRecovery | SxSupervise => true | _ => false end.

(** [linked d0 acc rs d]: a run of the two from [d0]. *)
Inductive linked d0 : list Queued -> Results -> Dispatcher (Sx1262 B) -> Prop :=
| linked_start : linked d0 [] [] d0
| linked_call acc rs d now r ev d' rs' :
    linked d0 acc rs d -> from_above ev = true -> enabled d ev -> handle now r ev d = (d', rs') ->
    linked d0 (acc ++ accepts now ev d) (rs ++ rs') d'
| linked_callback acc rs d ev s' o :
    linked d0 acc rs d -> is_callback ev = true -> sx_enabled (radio_ d) ev ->
    sx_handle ev (radio_ d) = (false, s', o.*1) ->
    linked d0 acc rs (deliver_all o (d <| radio_ := s' |>)).

(** ** Every run of the two is a run of the dispatcher *)

Lemma on_delivery_radio now r x d : radio_ (on_delivery now r x d) = radio_ d.
Proof.
  destruct x; simpl; [apply on_radio_rx_fields|apply on_radio_rx_error_fields|].
  unfold on_radio_tx_done, schedule_pump. by case_match.
Qed.

Lemma set_radio_id d s : radio_ d = s -> d <| radio_ := s |> = d.
Proof. intros <-. by destruct d. Qed.

(** A reception does not look at the radio. *)
Lemma on_delivery_commutes now r x s d :
  is_tx_done x = false -> on_delivery now r x (d <| radio_ := s |>) = (on_delivery now r x d) <| radio_ := s |>.
Proof.
  destruct x; simpl; intros; [|unfold on_radio_rx_error; by repeat case_match|done].
  unfold on_radio_rx, check_and_mark_seen. simpl. by repeat case_match; simplify_eq/=.
Qed.

Lemma reach_delivery d0 acc rs d now r x :
  reach d0 acc rs d -> is_tx_done x = false -> reach d0 acc rs (on_delivery now r x d).
Proof.
  intros Hr Hx. rewrite <- (app_nil_r acc), <- (app_nil_r rs). destruct x; try done.
  - by eapply (reach_step _ _ _ _ now r (EvRx rx)).
  - by eapply (reach_step _ _ _ _ now r (EvRxError f)).
Qed.

Lemma reach_tx_done d0 acc rs d now r s a :
  reach d0 acc rs d -> reach d0 acc rs (on_delivery now r (DeliverTxDone a) (d <| radio_ := s |>)).
Proof.
  intros Hr. rewrite <- (app_nil_r acc), <- (app_nil_r rs). by eapply (reach_step _ _ _ _ now r (EvTxDone s a)).
Qed.

Lemma reach_radio d0 acc rs d s :
  reach d0 acc rs d -> (sx_tx_busy (radio_ d) = true -> sx_tx_busy s = true) -> reach d0 acc rs (d <| radio_ := s |>).
Proof.
  intros Hr Hb. rewrite <- (app_nil_r acc), <- (app_nil_r rs). by eapply (reach_step _ _ _ _ 0 0 (EvRadio s)).
Qed.

Lemma reach_deliver_all d0 acc rs o s : forall d,
  reach d0 acc rs d ->
  (sx_tx_busy (radio_ d) = true -> sx_tx_busy s = true \/ existsb is_tx_done o.*1 = true) ->
  reach d0 acc rs (deliver_all o (d <| radio_ := s |>)).
Proof.
  unfold deliver_all. induction o as [|[x [now r]] o IH]; intros d Hr Hb; simpl in *.
  { apply reach_radio; [done|]. intros Hd. by destruct (Hb Hd). }
  destruct (is_tx_done x) eqn:Ex.
  - destruct x as [| |a]; try done. pose proof (reach_tx_done _ _ _ _ now r s a Hr) as Hr'.
    specialize (IH _ Hr'). rewrite on_delivery_radio in IH.
    rewrite (set_radio_id (on_delivery now r (DeliverTxDone a) (d <| radio_ := s |>))) in IH by apply on_delivery_radio.
    apply IH. auto.
  - rewrite on_delivery_commutes by done. apply IH; [by apply reach_delivery|].
    rewrite on_delivery_radio. intros Hd. destruct (Hb Hd) as [?|?]; auto.
Qed.

(** A transmission in flight ends only with its completion. *)
Lemma callback_tx ev s s' o :
  is_callback ev = true -> sx_enabled s ev -> sx_handle ev s = (false, s', o) ->
  sx_tx_busy s = true -> sx_tx_busy s' = true \/ existsb is_tx_done o = true.
Proof.
  intros _ He Hh Hb. destruct (handle_post _ _ _ _ _ He Hh) as (_ & Hn & _). rewrite Hb in Hn.
  destruct (sx_tx_busy s'); [by left|right]. revert Hn. clear. unfold tx_dones, zlen.
  induction o as [|x o IH]; simpl; [done|]. by destruct (is_tx_done x).
Qed.

Lemma linked_reach d0 acc rs d : linked d0 acc rs d -> reach d0 acc rs d.
Proof.
  induction 1 as [|acc rs d now r ev d' rs' _ IH _ He Hh|acc rs d ev s' o _ IH Hc He Hh]; [constructor| |].
  - by eapply reach_step.
  - apply reach_deliver_all; [done|]. by eapply callback_tx.
Qed.

(** ** The driver's invariant in a run of the two *)

Lemma deliver_all_radio o : forall d, radio_ (deliver_all o d) = radio_ d.
Proof. induction o as [|x o IH]; intros d; [done|]. unfold deliver_all in *. simpl. by rewrite IH, on_delivery_radio. Qed.

(** What every handler of the driver keeps holds through a run of the two. *)
Lemma linked_keeps (I : Sx1262 B -> Prop) d0 acc rs d :
  (forall s accepted s' o, I s -> sx_post s accepted s' o -> I s') ->
  I (radio_ d0) -> linked d0 acc rs d -> I (radio_ d).
Proof.
  intros Hkeep HI. induction 1 as [|acc rs d now r ev d' rs' _ IH Ha _ Hh|acc rs d ev s' o _ IH _ He Hh]; [done| |].
  - apply (f_equal (fun x => radio_ x.1)) in Hh. simpl in Hh. rewrite <- Hh. apply handle_preserves; try done; clear -Hkeep; simpl.
    + intros s data Hs. pose proof (send_post data s) as Hp. revert Hp. unfold wp. destruct (sx_send data s) as [[ok s'] o]. by apply Hkeep.
    + intros s Hs. pose proof (channel_busy_post s) as Hp. revert Hp. unfold wp. destruct (channel_busy s) as [[ok s'] o]. by apply Hkeep.
    + intros s p Hs. pose proof (reconfigure_post p s) as Hp. revert Hp. unfold wp. destruct (sx_reconfigure p s) as [[ok s'] o]. by apply Hkeep.
  - rewrite deliver_all_radio. simpl. eapply Hkeep; [exact IH|]. exact (handle_post _ _ _ _ _ He Hh).
Qed.

(** Nothing is lost and nothing stalls, from a driver that satisfies its invariant. *)
Lemma linked_live s0 limit acc rs d :
  sx_ok s0 -> linked (make_dispatcher s0 limit) acc rs d ->
  acc ≡ₚ queue_ d ++ map fst rs /\
  (queue_ d <> [] ->
   pump_timer_ d = true \/
   sx_tx_busy (radio_ d) = true /\ sx_healthy (radio_ d) = true /\ sx_tx_timeout (radio_ d) <> None).
Proof.
  intros Hok Hl. pose proof (linked_reach _ _ _ _ Hl) as Hr.
  pose proof (make_dispatcher_ok s0 limit) as Hstart. split.
  - rewrite <- (reach_conserves _ _ _ _ Hstart Hr). simpl. by rewrite app_nil_r.
  - intros Hq. destruct (ok_live _ (reach_ok _ _ _ _ Hstart Hr) Hq) as [Hb|?]; [right|by left].
    assert (sx_ok (radio_ d)) as [Hf _] by (apply (linked_keeps sx_ok (make_dispatcher s0 limit) acc rs); [by intros s ? s' ? ? [? _]; auto|exact Hok|exact Hl]).
    split; [exact Hb|]. by apply tx_armed.
Qed.

(** The dispatcher and the driver together lose nothing and never stall: in every run of
    the two, on any board, the packets accepted are those queued and those reported, and
    while something is queued the pump is scheduled or a transmission is in flight on a radio
    that is up, with the driver's own timeout armed behind it. *)
Theorem link_never_stalls params pins retry board n o s0 limit acc rs d :
  is_u32 retry -> sx_reach (make_sx1262 params pins retry board) n o s0 ->
  linked (make_dispatcher s0 limit) acc rs d ->
  acc ≡ₚ queue_ d ++ map fst rs /\
  (queue_ d <> [] ->
   pump_timer_ d = true \/
   sx_tx_busy (radio_ d) = true /\ sx_healthy (radio_ d) = true /\ sx_tx_timeout (radio_ d) <> None).
Proof. intros Hretry Hs. apply linked_live. by apply (reach_post params pins retry board Hretry _ _ _ Hs). Qed.

End link.
