(* ===== verification/Sx1262Chip.v ===== *)
(** * The SX1262 driver on a chip that answers

    The facts of [Sx1262Facts] hold on every board.  Those here need something of the board: a
    chip that answers brings the radio up in three steps of the loop, with the parameters in
    force programmed; a clock that moves while the driver sleeps bounds every wait. *)

From S2P Require Import Prelude ByteIO Floats Crypto Radio Sx1262 Sx1262Facts.

(** ** A chip that answers *)

(** The byte of an answer that holds the status, by the command's layout in the datasheet. *)
Definition status_index (tx : Bytes) : nat :=
  if nth 0 tx 0 =? kCmdReadRegister then 3 else if nth 0 tx 0 =? kCmdReadBuffer then 2 else 1.

Definition version_probe : Bytes := kCmdReadRegister :: be16 kRegVersionString ++ [0] ++ replicate 6 0.

(** An answer of a chip that is there: as long as the command, a status without an error, and
    the part number when it is asked for. *)
Record answer_ok (tx rx : Bytes) : Prop := {
  ans_length : length rx = length tx;
  ans_status : (status_index tx < length tx)%nat -> command_status_ok (nth (status_index tx) rx 0) = true;
  ans_version : tx = version_probe -> take 5 (drop 4 rx) = lit "SX126" }.

(** Boards in a state of [up] stay there and answer. *)
Class Answering (B : Type) `{Board B} (up : B -> Prop) : Prop := {
  up_set l v b : up b -> (b_set l v b).1 = true /\ up (b_set l v b).2;
  up_busy b : up b -> (b_busy b).1 = 0 /\ up (b_busy b).2;
  up_millis b : up b -> up (b_millis b).2;
  up_sleep us b : up b -> up (b_sleep us b);
  up_transfer tx b : up b -> (exists rx, (b_transfer tx b).1 = Some rx /\ answer_ok tx rx) /\ up (b_transfer tx b).2 }.

Section answering.
Context {B : Type} `{Board B} (up : B -> Prop) `{!Answering B up}.
Implicit Types (s : Sx1262 B).

(** [steady m Q]: on such a board [m] only talks to the board, which stays up, and its result
    satisfies [Q]. *)
Definition steady {A} (m : DM B A) (Q : A -> Prop) : Prop :=
  forall s, up (sx_board s) -> exists a b, m s = (a, s <| sx_board := b |>, []) /\ up b /\ Q a.

Lemma steady_ret {A} (a : A) (Q : A -> Prop) : Q a -> steady (mret a) Q.
Proof. intros Ha s Hs. exists a, (sx_board s). by rewrite <- same_board. Qed.

Lemma steady_gets {A} (f : Sx1262 B -> A) : steady (sx_gets f) (fun _ => True).
Proof. intros s Hs. exists (f s), (sx_board s). by rewrite <- same_board. Qed.

Lemma steady_on_board {A} (f : B -> A * B) (Q : A -> Prop) :
  (forall b, up b -> Q (f b).1 /\ up (f b).2) -> steady (on_board f) Q.
Proof.
  intros Hf s Hs. unfold on_board. destruct (Hf _ Hs). destruct (f (sx_board s)) as [a b]. by exists a, b.
Qed.

Lemma steady_bind {A C} (m : DM B A) (f : A -> DM B C) (Q : A -> Prop) (R : C -> Prop) :
  steady m Q -> (forall a, Q a -> steady (f a) R) -> steady (m ≫= f) R.
Proof.
  intros Hm Hf s Hs. destruct (Hm s Hs) as (a & b & Em & Hb & Ha).
  destruct (Hf a Ha (s <| sx_board := b |>)) as (c & b' & Ef & Hb' & Hc); [by simpl|].
  exists c, b'. split; [|done]. unfold mbind, DM_bind. by rewrite Em, Ef.
Qed.

Lemma steady_and_then (m k : DM B bool) : steady m (eq true) -> steady k (eq true) -> steady (m &&? k) (eq true).
Proof. intros Hm Hk. unfold and_then. eapply steady_bind; [exact Hm|]. by intros a <-. Qed.

Lemma steady_mono {A} (m : DM B A) (Q R : A -> Prop) : steady m Q -> (forall a, Q a -> R a) -> steady m R.
Proof. intros Hm HQ s Hs. destruct (Hm s Hs) as (a & b & ? & ? & ?). exists a, b. auto. Qed.

Lemma wp_steady {A} (m : DM B A) (Q : A -> Prop) P s :
  steady m Q -> up (sx_board s) -> (forall a b, up b -> Q a -> P a (s <| sx_board := b |>) []) -> wp m P s.
Proof. intros Hm Hs HP. unfold wp. destruct (Hm s Hs) as (a & b & -> & ? & ?). auto. Qed.

(** ** The driver's commands succeed *)

Lemma steady_set_line l v : steady (set_line l v) (eq true).
Proof. apply steady_on_board. intros b Hb. destruct (up_set l v b Hb). auto. Qed.

Lemma steady_set_if_wired l v : steady (set_if_wired l v) (eq true).
Proof.
  eapply steady_bind; [apply steady_gets|]. intros [] _; [apply steady_set_line|by apply steady_ret].
Qed.

Lemma steady_millis : steady millis (fun _ => True).
Proof. apply steady_on_board. intros b Hb. split; [done|]. by apply up_millis. Qed.

Lemma steady_sleep_ms ms : steady (sleep_ms ms) (fun _ => True).
Proof. apply steady_on_board. intros b Hb. split; [done|]. by apply up_sleep. Qed.

Lemma steady_busy : steady (on_board b_busy) (eq 0).
Proof. apply steady_on_board. intros b Hb. destruct (up_busy b Hb). auto. Qed.

Lemma steady_wait_busy t : 0 <= t -> steady (wait_busy t) (eq true).
Proof.
  intros Ht. eapply steady_bind; [apply steady_gets|]. intros [] _; simpl; [|by apply steady_ret].
  eapply steady_bind; [apply steady_millis|]. intros start _.
  eapply (steady_bind _ _ (eq (Some true))); [|intros r <-; by apply steady_ret].
  unfold wait_busy_fuel. destruct (Z.to_nat _) as [|fuel] eqn:Ef; [lia|]. simpl.
  eapply steady_bind; [apply steady_busy|]. intros v <-. by apply steady_ret.
Qed.

Lemma steady_exchange tx : steady (exchange tx) (fun r => exists rx, r = Some rx /\ answer_ok tx rx).
Proof.
  eapply steady_bind; [apply steady_set_if_wired|]. intros low <-. simpl.
  eapply (steady_bind _ _ (fun r => exists rx, r = Some rx /\ answer_ok tx rx)).
  { apply steady_on_board. intros b Hb. apply (up_transfer tx b Hb). }
  intros r (rx & -> & Hrx). eapply steady_bind; [apply steady_set_if_wired|]. intros high <-.
  apply steady_ret. exists rx. split; [|done]. simpl. f_equal. unfold resize. rewrite (ans_length _ _ Hrx), Nat.sub_diag.
  simpl. rewrite app_nil_r. apply take_ge. by rewrite (ans_length _ _ Hrx).
Qed.

Lemma steady_cmd op arg args :
  op <> kCmdReadRegister -> op <> kCmdReadBuffer -> steady (cmd op (arg :: args)) (eq true).
Proof.
  intros H1 H2. eapply steady_bind; [by apply steady_wait_busy|]. intros ready <-. simpl.
  eapply steady_bind; [apply steady_exchange|]. intros r (rx & -> & Hrx). apply steady_ret.
  pose proof (ans_status _ _ Hrx) as Hs. unfold status_index in Hs. simpl in Hs.
  rewrite (proj2 (Z.eqb_neq _ _) H1), (proj2 (Z.eqb_neq _ _) H2) in Hs. symmetry. apply Hs. lia.
Qed.

(** A read whose status is where the layout has it. *)
Lemma steady_read_after header n :
  (2 <= length header)%nat -> (forall tail, status_index (header ++ tail) = length header - 1)%nat ->
  steady (read_after header n) (fun r => exists rx, r = Some (drop (length header) rx) /\ answer_ok (header ++ replicate n 0) rx).
Proof.
  intros Hl Hi. eapply steady_bind; [by apply steady_wait_busy|]. intros ready <-. simpl.
  eapply steady_bind; [apply steady_exchange|]. intros r (rx & -> & Hrx). apply steady_ret. exists rx. split; [|done].
  pose proof (ans_status _ _ Hrx) as Hs. rewrite Hi in Hs. rewrite Hs; [done|]. rewrite length_app. lia.
Qed.

Lemma steady_read_register addr n :
  steady (read_register addr n) (fun r => exists rx, r = Some (drop 4 rx) /\
    answer_ok ((kCmdReadRegister :: be16 addr ++ [0]) ++ replicate n 0) rx).
Proof. by apply (steady_read_after (kCmdReadRegister :: be16 addr ++ [0])); [simpl; lia|]. Qed.

Lemma steady_cmd_read op n :
  op <> kCmdReadRegister -> op <> kCmdReadBuffer -> steady (cmd_read op n) (fun r => exists v, r = Some v).
Proof.
  intros H1 H2. eapply steady_mono.
  - apply (steady_read_after [op; 0]); [simpl; lia|]. intros tail. unfold status_index. simpl.
    by rewrite (proj2 (Z.eqb_neq _ _) H1), (proj2 (Z.eqb_neq _ _) H2).
  - intros r (rx & -> & _). by eexists.
Qed.

Lemma steady_update_register addr f : steady (update_register addr f) (eq true).
Proof.
  eapply steady_bind; [apply steady_read_register|]. intros r (rx & -> & _). by apply steady_cmd.
Qed.

Lemma steady_chip_responding : steady chip_responding (eq true).
Proof.
  eapply steady_bind; [apply steady_read_register|]. intros r (rx & -> & Hrx). apply steady_ret.
  by rewrite (ans_version _ _ Hrx), beq_refl.
Qed.

Ltac steady_cmds := repeat lazymatch goal with
  | |- steady (_ &&? _) _ => apply steady_and_then
  | |- steady (cmd _ _) _ => by apply steady_cmd
  | |- steady (write_register _ _) _ => by apply steady_cmd
  | |- steady (write_buffer _ _) _ => by apply steady_cmd
  | |- steady (update_register _ _) _ => apply steady_update_register
  | |- steady (set_if_wired _ _) _ => apply steady_set_if_wired
  | |- steady (wait_busy _) _ => by apply steady_wait_busy
  end.

Lemma steady_set_rx_mode : steady set_rx_mode (eq true).
Proof. unfold set_rx_mode. steady_cmds. Qed.

Lemma steady_set_modulation : steady set_modulation (eq true).
Proof. eapply steady_bind; [apply steady_gets|]. intros p _. by apply steady_cmd. Qed.

Lemma steady_set_packet_params n : steady (set_packet_params n) (eq true).
Proof. eapply steady_bind; [apply steady_gets|]. intros p _. by apply steady_cmd. Qed.

Lemma steady_configure_tcxo p : steady (configure_tcxo p) (eq true).
Proof.
  unfold configure_tcxo. case_match; [|by apply steady_ret]. steady_cmds.
  eapply steady_bind; [apply steady_sleep_ms|]. intros _ _. by apply steady_wait_busy.
Qed.

Lemma steady_configure_chip p : steady (configure_chip p) (eq true).
Proof.
  unfold configure_chip. steady_cmds.
  - apply steady_configure_tcxo.
  - case_match; [by apply steady_cmd|by apply steady_ret].
  - apply steady_set_modulation.
  - apply steady_set_packet_params.
  - eapply steady_bind; [by apply steady_cmd_read|]. intros r (v & ->). by apply steady_ret.
Qed.

Lemma wp_configure_up P s :
  up (sx_board s) -> (forall b, up b -> P true (configured true b s) []) -> wp configure P s.
Proof.
  intros Hs HP. unfold configure. apply wp_bind, wp_gets, wp_bind, wp_modify, wp_bind.
  eapply wp_steady; [apply steady_configure_chip|done|]. intros ok b Hb <-. exact (HP b Hb).
Qed.

(** ** Coming up *)

(** A postcondition that says how the computation ends. *)
Lemma wp_exists {A X} (m : DM B A) (Q : X -> Prop) (f : X -> A * Sx1262 B * list Delivery) s :
  wp m (fun a s' o => exists x, Q x /\ (a, s', o) = f x) s -> exists x, Q x /\ m s = f x.
Proof. unfold wp. by destruct (m s) as [[a s'] o]. Qed.

Lemma supervise_up s :
  sx_loop s = true -> has_line ResetLine s = true -> sx_healthy s = false -> sx_recovering s = false ->
  has_frequency (sx_params s) = true -> up (sx_board s) ->
  exists b, up b /\ sx_handle SxSupervise s =
    (false, s <| sx_board := b |> <| sx_recovering := true |> <| sx_recovery_timer := Some (ReleaseReset, 2) |>, []).
Proof.
  intros Hl Hw Hh Hr Hf Hup. apply wp_exists. unfold sx_handle, supervise, start_recovery.
  apply wp_bind, wp_bind, wp_gets. rewrite Hr. apply wp_bind, wp_gets. rewrite Hh. apply wp_bind, wp_gets.
  rewrite Hl, Hh, Hr, Hf. simpl. apply wp_bind, wp_modify, wp_bind, wp_gets.
  replace (has_line ResetLine _) with true by done. simpl. apply wp_bind.
  eapply wp_steady; [apply steady_set_line|done|]. intros ok b Hb <-. by exists b.
Qed.

Lemma release_reset_up s delay :
  sx_recovering s = true -> sx_recovery_timer s = Some (ReleaseReset, delay) -> up (sx_board s) ->
  exists x : B * Z, up x.1 /\ sx_handle SxRecovery s =
    (false, s <| sx_board := x.1 |> <| sx_recovery_deadline_ms := x.2 |> <| sx_recovery_timer := Some (PollResetBusy, 20) |>, []).
Proof.
  intros Hr Ht Hup.
  apply (wp_exists _ (fun x => up x.1) (fun x => (false, s <| sx_board := x.1 |> <| sx_recovery_deadline_ms := x.2 |>
    <| sx_recovery_timer := Some (PollResetBusy, 20) |>, []))). unfold sx_handle, on_recovery_timer, release_reset.
  apply wp_bind, wp_gets. rewrite Ht. simpl. apply wp_bind, wp_bind, wp_modify, wp_bind, wp_gets. simpl. rewrite Hr. simpl.
  apply wp_bind. eapply wp_steady; [apply steady_set_line|done|]. intros ok b Hb <-. simpl.
  apply wp_bind. eapply wp_steady; [apply steady_millis|done|]. intros now b' Hb' _. simpl. by exists (b', u32 (now + 1000)).
Qed.

Lemma poll_reset_up s delay :
  sx_recovering s = true -> sx_recovery_timer s = Some (PollResetBusy, delay) -> up (sx_board s) ->
  exists s', sx_handle SxRecovery s = (false, s', []) /\ sx_healthy s' = true /\ sx_recovering s' = false /\
    sx_programmed s' = Some (sx_params s) /\ sx_params s' = sx_params s.
Proof.
  intros Hr Ht Hup.
  assert (wp (sx_handle SxRecovery) (fun a s' o => a = false /\ o = [] /\ sx_healthy s' = true /\ sx_recovering s' = false /\
    sx_programmed s' = Some (sx_params s) /\ sx_params s' = sx_params s) s) as Hw.
  { unfold sx_handle, on_recovery_timer, poll_reset_busy.
    apply wp_bind, wp_gets. rewrite Ht. simpl. apply wp_bind, wp_bind, wp_modify, wp_bind, wp_gets. simpl. rewrite Hr. simpl.
    apply wp_bind, wp_gets, wp_bind.
    eapply (wp_steady _ (eq 0)); [case_match; [apply steady_busy|by apply steady_ret]|done|]. intros v b Hb <-. simpl.
    apply wp_bind. eapply wp_steady; [by apply steady_cmd|done|]. intros ok b1 Hb1 <-. simpl.
    apply wp_bind, wp_bind. eapply wp_steady; [apply steady_chip_responding|done|]. intros ok b2 Hb2 <-. simpl.
    apply wp_bind, wp_configure_up; [done|]. intros b3 Hb3. simpl.
    eapply wp_steady; [apply steady_set_rx_mode|done|]. intros ok b4 Hb4 <-. simpl. by apply wp_modify. }
  revert Hw. unfold wp. destruct (sx_handle SxRecovery s) as [[a s'] o]. intros (-> & -> & ?). by exists s'.
Qed.

(** One tick of supervision and the two timers it leads to bring the radio up. *)
Definition comes_up s : Prop :=
  exists s1 s2 s3,
    sx_handle SxSupervise s = (false, s1, []) /\ sx_recovery_timer s1 = Some (ReleaseReset, 2) /\
    sx_handle SxRecovery s1 = (false, s2, []) /\ sx_recovery_timer s2 = Some (PollResetBusy, 20) /\
    sx_handle SxRecovery s2 = (false, s3, []) /\
    sx_healthy s3 = true /\ sx_recovering s3 = false /\ sx_programmed s3 = Some (sx_params s) /\ sx_params s3 = sx_params s.

Lemma down_comes_up s :
  sx_ok s -> sx_supervise_timer s = true -> sx_healthy s = false -> sx_recovering s = false ->
  has_frequency (sx_params s) = true -> up (sx_board s) -> comes_up s.
Proof.
  intros [Hf _] Ht Hh Hrec Hfreq Hup. unfold flags_ok in Hf. rewrite Ht, !andb_true_iff in Hf.
  simpl in Hf. rewrite !andb_true_iff in Hf. destruct_and! Hf.
  destruct (supervise_up s) as (b1 & Hb1 & E1); try done.
  match type of E1 with _ = (_, ?s1, _) => destruct (release_reset_up s1 2) as (x & Hb2 & E2); [done..|] end.
  match type of E2 with _ = (_, ?s2, _) => destruct (poll_reset_up s2 20) as (s3 & E3 & ?); [done..|] end.
  eexists _, _, s3. split; [exact E1|]. split; [done|]. split; [exact E2|]. split; [done|]. by split; [exact E3|].
Qed.

(** The radio comes back: whenever the driver is down and supervised, with a frequency,
    on a board whose chip answers, one tick of supervision starts a recovery that is two
    timers of 2 and 20 ms from a radio that is up, programmed with the parameters in force,
    with nothing delivered on the way. *)
Theorem radio_recovers params pins retry board n o s :
  is_u32 retry -> sx_reach (make_sx1262 params pins retry board) n o s ->
  sx_supervise_timer s = true -> sx_healthy s = false -> sx_recovering s = false ->
  has_frequency (sx_params s) = true -> up (sx_board s) ->
  exists s1 s2 s3,
    sx_handle SxSupervise s = (false, s1, []) /\ sx_recovery_timer s1 = Some (ReleaseReset, 2) /\
    sx_handle SxRecovery s1 = (false, s2, []) /\ sx_recovery_timer s2 = Some (PollResetBusy, 20) /\
    sx_handle SxRecovery s2 = (false, s3, []) /\
    sx_healthy s3 = true /\ sx_recovering s3 = false /\ sx_programmed s3 = Some (sx_params s) /\ sx_params s3 = sx_params s.
Proof. intros Hretry Hr. apply down_comes_up. by apply (reach_post _ _ _ _ Hretry _ _ _ Hr). Qed.

End answering.

(** ** Time on the board *)

(** No call takes longer than an hour beyond what it was asked to sleep: the millisecond
    counter wraps after 49 days, and a wait that slept through that would not notice. *)
Definition slack : Z := 3600 * 1000000.

(** [time] is the steady clock in microseconds. *)
Class Clocked (B : Type) `{Board B} (time : B -> Z) : Prop := {
  clock_reads b : (b_millis b).1 = u32 (time b / 1000);
  clock_millis b : time b <= time (b_millis b).2 <= time b + slack;
  clock_busy b : time b <= time (b_busy b).2 <= time b + slack;
  clock_set l v b : time b <= time (b_set l v b).2 <= time b + slack;
  clock_transfer tx b : time b <= time (b_transfer tx b).2 <= time b + slack;
  clock_sleep us b : 0 <= us -> time b + us <= time (b_sleep us b) <= time b + us + slack }.

Section clocked.
Context {B : Type} `{Board B} (time : B -> Z) `{!Clocked B time}.
Implicit Types (s : Sx1262 B).

(** [takes m d]: [m] only talks to the board and takes [d] microseconds at most. *)
Definition takes {A} (m : DM B A) (d : Z) : Prop :=
  forall s, exists a b, m s = (a, s <| sx_board := b |>, []) /\ time (sx_board s) <= time b <= time (sx_board s) + d.

Lemma takes_ret {A} (a : A) : takes (mret a) 0.
Proof. intros s. exists a, (sx_board s). rewrite <- same_board. split; [done|lia]. Qed.

Lemma takes_gets {A} (f : Sx1262 B -> A) : takes (sx_gets f) 0.
Proof. intros s. exists (f s), (sx_board s). rewrite <- same_board. split; [done|lia]. Qed.

Lemma takes_on_board {A} (f : B -> A * B) d :
  (forall b, time b <= time (f b).2 <= time b + d) -> takes (on_board f) d.
Proof. intros Hf s. unfold on_board. specialize (Hf (sx_board s)). destruct (f (sx_board s)) as [a b]. by exists a, b. Qed.

Lemma takes_bind {A C} (m : DM B A) (f : A -> DM B C) d1 d2 :
  takes m d1 -> (forall a, takes (f a) d2) -> takes (m ≫= f) (d1 + d2).
Proof.
  intros Hm Hf s. destruct (Hm s) as (a & b & Em & Hb). destruct (Hf a (s <| sx_board := b |>)) as (c & b' & Ef & Hb').
  exists c, b'. unfold mbind, DM_bind. rewrite Em, Ef. split; [done|]. simpl in Hb'. lia.
Qed.

Lemma takes_mono {A} (m : DM B A) d d' : takes m d -> d <= d' -> takes m d'.
Proof. intros Hm Hd s. destruct (Hm s) as (a & b & ? & ?). exists a, b. split; [done|lia]. Qed.

Lemma takes_set_if_wired l v : takes (set_if_wired l v) slack.
Proof.
  apply (takes_bind _ _ 0 slack (takes_gets _)). intros [].
  - apply takes_on_board. apply clock_set.
  - by eapply takes_mono; [apply takes_ret|].
Qed.

Lemma takes_exchange tx : takes (exchange tx) (3 * slack).
Proof.
  assert (0 <= slack) by (unfold slack; lia).
  eapply takes_mono; [eapply (takes_bind _ _ slack (2 * slack)); [apply takes_set_if_wired|]|lia]. intros low.
  case_match; [eapply takes_mono; [apply takes_ret|lia]|].
  eapply takes_mono; [eapply (takes_bind _ _ slack slack)|lia]; [apply takes_on_board, clock_transfer|]. intros rx.
  eapply takes_mono; [eapply (takes_bind _ _ slack 0)|lia]; [apply takes_set_if_wired|]. intros. apply takes_ret.
Qed.

(** ** Waiting for BUSY *)

(** Milliseconds between two readings of the clock. *)
Lemma elapsed_ms T0 T : T0 <= T < T0 + 1000 * 2 ^ 31 -> u32 (u32 (T / 1000) - u32 (T0 / 1000)) = T / 1000 - T0 / 1000.
Proof.
  intros HT. unfold u32. rewrite <- Zminus_mod. apply Z.mod_small.
  assert (T0 / 1000 <= T / 1000) by (apply Z.div_le_mono; lia).
  assert (T / 1000 < T0 / 1000 + 2 ^ 31 + 1); [|lia].
  apply Z.div_lt_upper_bound; [lia|]. pose proof (Z.mul_succ_div_gt T0 1000). lia.
Qed.

(** One turn of the loop. *)
Lemma wait_busy_loop_turn fuel start t s :
  wait_busy_loop (S fuel) start t s =
    let '(v, b1) := b_busy (sx_board s) in
    let '(now, b2) := b_millis b1 in
    if v =? 0 then (Some true, s <| sx_board := b1 |>, [])
    else if v <? 0 then (Some false, s <| sx_board := b1 |>, [])
    else if t <? u32 (now - start) then (Some false, s <| sx_board := b2 |>, [])
    else wait_busy_loop fuel start t (s <| sx_board := b_sleep 50 b2 |>).
Proof.
  cbn [wait_busy_loop]. unfold mbind, DM_bind, millis, sleep_us, on_board.
  destruct (b_busy (sx_board s)) as [v b1]. destruct (b_millis b1) as [now b2] eqn:E2.
  destruct (v =? 0); [done|]. destruct (v <? 0); [done|]. simpl. rewrite E2. simpl.
  destruct (t <? _); [done|]. simpl.
  change (s <| sx_board := b1 |> <| sx_board := b2 |> <| sx_board := b_sleep 50 b2 |>) with (s <| sx_board := b_sleep 50 b2 |>).
  by destruct (wait_busy_loop _ _ _ _) as [[r s'] o].
Qed.

(** Enough fuel for the time left: a turn takes 50 us at least. *)
Lemma wait_busy_loop_returns T0 t : 0 <= t <= 1000 -> forall fuel s,
  T0 <= time (sx_board s) <= T0 + 1000 * (t + 1) + 3 * slack ->
  (1 <= fuel)%nat -> 1000 * (t + 1) + 50 <= time (sx_board s) - T0 + 50 * Z.of_nat fuel ->
  exists r b, (forall extra, wait_busy_loop (fuel + extra) (u32 (T0 / 1000)) t s = (Some r, s <| sx_board := b |>, [])) /\
    time (sx_board s) <= time b <= T0 + 1000 * (t + 1) + 5 * slack.
Proof.
  intros Ht. induction fuel as [|fuel IH]; [lia|]. intros s Hs _ Hfuel.
  pose proof (clock_busy (sx_board s)) as Hc1. destruct (b_busy (sx_board s)) as [v b1] eqn:E1. simpl in Hc1.
  pose proof (clock_millis b1) as Hc2. pose proof (clock_reads b1) as Hr. destruct (b_millis b1) as [now b2] eqn:E2.
  simpl in Hc2, Hr.
  assert (1000 <= slack) as Hsl by (unfold slack; lia).
  assert (forall extra, wait_busy_loop (S fuel + extra) (u32 (T0 / 1000)) t s =
    if v =? 0 then (Some true, s <| sx_board := b1 |>, [])
    else if v <? 0 then (Some false, s <| sx_board := b1 |>, [])
    else if t <? u32 (now - u32 (T0 / 1000)) then (Some false, s <| sx_board := b2 |>, [])
    else wait_busy_loop (fuel + extra) (u32 (T0 / 1000)) t (s <| sx_board := b_sleep 50 b2 |>)) as Hturn.
  { intros extra. cbn [Nat.add]. by rewrite wait_busy_loop_turn, E1, E2. }
  destruct (v =? 0); [exists true, b1; split; [done|lia]|].
  destruct (v <? 0); [exists false, b1; split; [done|lia]|].
  destruct (t <? u32 (now - u32 (T0 / 1000))) eqn:Et; [exists false, b2; split; [done|lia]|].
  apply Z.ltb_ge in Et. rewrite Hr, elapsed_ms in Et by (unfold slack in *; lia).
  pose proof (clock_sleep 50 b2 ltac:(lia)) as Hc3.
  assert (time b1 < T0 + 1000 * (t + 1)) by (Z.to_euclidean_division_equations; lia).
  destruct (IH (s <| sx_board := b_sleep 50 b2 |>)) as (r & b & Hloop & Hb); simpl; [lia|lia|lia|].
  exists r, b. split; [|simpl in Hb; lia]. intros extra. etrans; [exact (Hturn extra)|]. by rewrite Hloop.
Qed.

Lemma wait_busy_answers t s :
  0 <= t <= 1000 ->
  let '(start, b0) := b_millis (sx_board s) in
  exists r b, (forall extra, wait_busy_loop (wait_busy_fuel t + extra) start t (s <| sx_board := b0 |>) =
                             (Some r, s <| sx_board := b |>, [])) /\
    time (sx_board s) <= time b <= time (sx_board s) + 1000 * (t + 1) + 5 * slack.
Proof.
  intros Ht. pose proof (clock_millis (sx_board s)) as Hc. pose proof (clock_reads (sx_board s)) as Hr.
  destruct (b_millis (sx_board s)) as [start b0]. simpl in Hc, Hr. subst start.
  assert (0 <= slack) by (unfold slack; lia).
  destruct (wait_busy_loop_returns (time (sx_board s)) t Ht (wait_busy_fuel t) (s <| sx_board := b0 |>)) as (r & b & Hl & Hb).
  - simpl. lia.
  - unfold wait_busy_fuel. lia.
  - unfold wait_busy_fuel. simpl. lia.
  - exists r, b. split; [exact Hl|]. simpl in Hb. lia.
Qed.

Lemma takes_wait_busy t : 0 <= t <= 1000 -> takes (wait_busy t) (1000 * (t + 1) + 5 * slack).
Proof.
  intros Ht s. assert (0 <= slack) by (unfold slack; lia).
  unfold wait_busy, mbind, DM_bind. simpl. destruct (has_line BusyLine s); simpl.
  - pose proof (wait_busy_answers t s Ht) as Hw. unfold millis, on_board. destruct (b_millis (sx_board s)) as [start b0].
    destruct Hw as (r & b & Hl & Hb). specialize (Hl 0%nat). rewrite Nat.add_0_r in Hl. rewrite Hl. simpl.
    exists r, b. split; [done|lia].
  - exists true, (sx_board s). rewrite <- same_board. split; [done|lia].
Qed.

(** A command: the wait, then the exchange. *)
Definition cmd_time : Z := 21000 + 8 * slack.

Lemma takes_cmd op args : takes (cmd op args) cmd_time.
Proof.
  assert (0 <= slack) by (unfold slack; lia).
  apply (takes_mono _ (21000 + 5 * slack + 3 * slack)); [|unfold cmd_time; lia].
  apply takes_bind; [by apply (takes_wait_busy kBusyTimeoutMs)|]. intros ready.
  destruct (negb ready); [by eapply takes_mono; [apply takes_ret|lia]|].
  apply (takes_mono _ (3 * slack + 0)); [|lia]. apply takes_bind; [apply takes_exchange|]. intros. apply takes_ret.
Qed.

(** ** Waking the chip after a reset *)

Lemma standby_loop_turn deadline s :
  exists ok b1 now b2,
    b_millis b1 = (now, b2) /\ time (sx_board s) <= time b1 <= time (sx_board s) + cmd_time /\
    forall fuel, standby_loop (S fuel) deadline s =
      if ok : bool then (Some true, s <| sx_board := b1 |>, [])
      else if 0 <=? tdiff now deadline then (Some false, s <| sx_board := b2 |>, [])
      else standby_loop fuel deadline (s <| sx_board := b_sleep 10000 b2 |>).
Proof.
  destruct (takes_cmd kCmdSetStandby [kStandbyRc] s) as (ok & b1 & E & Hb). destruct (b_millis b1) as [now b2] eqn:Em.
  exists ok, b1, now, b2. split; [done|]. split; [done|]. intros fuel. cbn [standby_loop]. unfold mbind, DM_bind. rewrite E.
  destruct ok; [done|]. unfold millis, sleep_ms, sleep_us, on_board. simpl. rewrite Em. simpl.
  destruct (0 <=? _); [done|]. simpl.
  change (s <| sx_board := b1 |> <| sx_board := b2 |> <| sx_board := b_sleep 10000 b2 |>)
    with (s <| sx_board := b_sleep 10000 b2 |>).
  by destruct (standby_loop _ _ _) as [[r s'] o].
Qed.

(** The deadline of [reset_chip], 1000 ms after [T0]. *)
Definition standby_deadline (T0 : Z) : Z := u32 (u32 (T0 / 1000) + 1000).

Lemma deadline_passed T0 T :
  T0 <= T < T0 + 1000 * 2 ^ 30 -> tdiff (u32 (T / 1000)) (standby_deadline T0) = T / 1000 - T0 / 1000 - 1000.
Proof.
  intros HT. unfold standby_deadline. rewrite u32_idemp_add.
  replace (T / 1000) with (T0 / 1000 + (T / 1000 - T0 / 1000)) at 1 by lia.
  apply tdiff_elapsed. Z.to_euclidean_division_equations; lia.
Qed.

Lemma standby_loop_returns T0 : forall fuel s,
  T0 <= time (sx_board s) <= T0 + 1000000 + 3 * slack ->
  (1 <= fuel)%nat -> 1010000 <= time (sx_board s) - T0 + 10000 * Z.of_nat fuel ->
  exists r b, (forall extra, standby_loop (fuel + extra) (standby_deadline T0) s = (Some r, s <| sx_board := b |>, [])) /\
    time (sx_board s) <= time b <= T0 + 1000000 + 4 * slack + cmd_time.
Proof.
  induction fuel as [|fuel IH]; [lia|]. intros s Hs _ Hfuel. assert (10000 <= slack) as Hsl by (unfold slack; lia).
  destruct (standby_loop_turn (standby_deadline T0) s) as (ok & b1 & now & b2 & Em & Hb1 & Hturn).
  pose proof (clock_millis b1) as Hc. pose proof (clock_reads b1) as Hr. rewrite Em in Hc, Hr. simpl in Hc, Hr.
  destruct ok; [exists true, b1; split; [intros; apply Hturn|lia]|].
  destruct (0 <=? tdiff now (standby_deadline T0)) eqn:Et; [exists false, b2; split; [intros; apply Hturn|lia]|].
  apply Z.leb_gt in Et. rewrite Hr, deadline_passed in Et by (unfold cmd_time, slack in *; lia).
  pose proof (clock_sleep 10000 b2 ltac:(lia)) as Hc3.
  assert (time b1 < T0 + 1000000) by (Z.to_euclidean_division_equations; lia).
  destruct (IH (s <| sx_board := b_sleep 10000 b2 |>)) as (r & b & Hloop & Hb); simpl; [lia|lia|lia|].
  exists r, b. split; [|simpl in Hb; lia]. intros extra. etrans; [exact (Hturn _)|]. by rewrite Hloop.
Qed.

(** C27. Waits end: under a clock that moves, a wait of [t] ms for BUSY and the wake-up of the
    chip after a reset come to an answer within their time and the slack of the calls in
    them, whatever the chip does; the fuel of the model is enough, as more of it changes
    nothing. *)
Theorem driver_waits_end t s :
  0 <= t <= 1000 ->
  let '(now, b0) := b_millis (sx_board s) in
  (exists r b, (forall extra, wait_busy_loop (wait_busy_fuel t + extra) now t (s <| sx_board := b0 |>) =
                              (Some r, s <| sx_board := b |>, [])) /\
     time b <= time (sx_board s) + 1000 * (t + 1) + 5 * slack) /\
  (exists r b, (forall extra, standby_loop (standby_fuel + extra) (u32 (now + 1000)) (s <| sx_board := b0 |>) =
                              (Some r, s <| sx_board := b |>, [])) /\
     time b <= time (sx_board s) + 1000000 + 4 * slack + cmd_time).
Proof.
  intros Ht. pose proof (wait_busy_answers t s Ht) as Hw.
  pose proof (clock_millis (sx_board s)) as Hc. pose proof (clock_reads (sx_board s)) as Hr.
  destruct (b_millis (sx_board s)) as [now b0]. simpl in Hc, Hr. subst now.
  assert (0 <= slack) by (unfold slack; lia). split.
  - destruct Hw as (r & b & Hl & Hb). exists r, b. split; [exact Hl|lia].
  - destruct (standby_loop_returns (time (sx_board s)) standby_fuel (s <| sx_board := b0 |>)) as (r & b & Hl & Hb).
    + simpl. lia.
    + unfold standby_fuel. lia.
    + unfold standby_fuel. simpl. lia.
    + exists r, b. split; [exact Hl|]. lia.
Qed.

End clocked.
