(* ===== verification/DaemonRadio.v ===== *)
(** * The daemon on the SX1262

    App.v starts a daemon on any radio.  Here the radio is the one [App::make_radio] builds:
    the SX1262 driver on the pins of the configuration, on any board. *)

From S2P Require Import Prelude ByteIO Floats Crypto Packet Radio Dispatcher Identity Record.
From S2P Require Import Persist Contacts Channels Inbox Sender Node CText Ini DaemonConfig.
From S2P Require Import Settings Session DaemonFacts Sx1262 Sx1262Facts Sx1262Link Sx1262Chip App AppFacts.

Section radio.
Context {B : Type} `{Board B}.

(** The hardware behind pins, a SPI device, a GPIO chip and a clock rate. *)
Variable board : Pins -> Str -> Str -> Z -> B.

Definition pins_of (c : SpiConfig) : Pins :=
  mkPins (spi_irq_pin c) (spi_busy_pin c) (spi_reset_pin c) (spi_nss_pin c) (spi_rxen_pin c) (spi_txen_pin c).

Definition make_radio (p : RadioParams) (c : SpiConfig) : option (Sx1262 B) :=
  Some (make_sx1262 p (pins_of c) (u32 (spi_retry_interval_s c * 1000))
    (board (pins_of c) (spi_spidev c) (spi_gpiochip c) (spi_speed_hz c))).

(** [radio_->begin(loop_, error)] as the dispatcher calls it. *)
Definition begin_radio (s : Sx1262 B) : option (Sx1262 B) := let '(ok, s, _) := begin s in if ok then Some s else None.

Lemma begin_radio_starts p pins retry b s :
  begin_radio (make_sx1262 p pins retry b) = Some s ->
  sx_params s = p /\ sx_irq_watch s = true /\
  (retry <> 0 -> sx_supervise_timer s = true) /\ (retry = 0 -> has_frequency p = true -> sx_healthy s = true).
Proof.
  unfold begin_radio. pose proof (begin_starts (make_sx1262 p pins retry b) eq_refl) as Hw. unfold wp in Hw.
  destruct (begin _) as [[[] s'] o]; [|done]. intros [= <-]. by apply Hw.
Qed.

Lemma begin_radio_ok p pins retry b s :
  is_u32 retry -> begin_radio (make_sx1262 p pins retry b) = Some s -> sx_ok s.
Proof.
  intros Hr. unfold begin_radio. pose proof (begin_post (make_sx1262 p pins retry b) eq_refl) as Hw. unfold wp in Hw.
  destruct (begin _) as [[[] s'] o]; [|done]. intros [= <-]. by apply Hw, fresh_ok.
Qed.
End radio.

(** ** A start on the driver *)

Section started.
Context `{EdSizes} {B : Type} `{Board B}.
Context (board : Pins -> Str -> Str -> Z -> B) (up : B -> Prop) `{!Answering B up}.

(** The dispatcher of a daemon that came up is a new one on a driver that has begun. *)
Lemma assemble_radio c id s fs node fs' :
  assemble (make_radio board) begin_radio c None id s fs = (Some node, fs') ->
  let cfg := ss_cfg s in
  exists r, m_disp (n_mesh node) = make_dispatcher r kDefaultQueueLimit /\
    begin_radio (make_sx1262 (cf_radio cfg) (pins_of (cf_spi cfg)) (u32 (spi_retry_interval_s (cf_spi cfg) * 1000))
      (board (pins_of (cf_spi cfg)) (spi_spidev (cf_spi cfg)) (spi_gpiochip (cf_spi cfg)) (spi_speed_hz (cf_spi cfg)))) = Some r.
Proof.
  unfold assemble. destruct (load_state _ _ _ _ _) as [[r1 contacts] fs1], (load_state chs_load _ _ _ _) as [[r2 channels] fs2].
  unfold start_radio, make_radio, dispatcher_start. cbn [make_dispatcher radio_].
  destruct (begin_radio _) as [r|] eqn:Er; [|done]. destruct (load_state mi_load _ _ _ _) as [[r3 messages] fs3].
  intros [= <- <-]. exists r. split; [|done]. apply begin_radio_starts in Er as [Ep _]. unfold make_dispatcher. simpl. by rewrite Ep.
Qed.

Lemma named_spi id cfg : cf_spi (named id cfg) = cf_spi cfg.
Proof. unfold named. by destruct (cfg_name _). Qed.

Lemma ss_load_spi fs base s : ss_load fs (make_settings base) = inr s -> cf_spi (ss_cfg s) = cf_spi base.
Proof.
  unfold ss_load. destruct (lookup_file _ _); [|by intros [= <-]]. destruct (ini_load _ _ _); [done|].
  destruct (load_entries _ _ _) as [|[c' st]] eqn:El; [done|]. destruct (validate c'); [done|]. intros [= <-].
  exact (f_equal cf_spi (load_entries_dir _ _ _ _ _ El)).
Qed.

(** A validated interval is within a day, so that its milliseconds do not wrap. *)
Lemma retry_ms spi : spi_ok spi -> u32 (spi_retry_interval_s spi * 1000) = spi_retry_interval_s spi * 1000.
Proof. intros [_ _ _ _ _ _ _ ?]. apply u32_small. unfold is_u32. lia. Qed.

(** C13. A daemon that comes up on the SX1262 keeps its radio: the driver is built from the
    configuration and runs with the radio settings in force, all within their ranges; through
    every run of the dispatcher and the driver no packet is lost and none waits for nothing;
    with a retry interval the driver stays supervised, so that whenever it is down and the
    chip answers the next tick brings it up; without one the daemon came up only with the
    radio up, if a frequency was set. *)
Theorem daemon_keeps_its_radio path input verbosity cfg c wall e fs app fs' e' acc rs d :
  configure path input verbosity = inr cfg ->
  (forall key, content fs (identity_path cfg) = Some key -> bytes_ok key) ->
  start (make_radio board) begin_radio c None wall cfg e fs = (Some app, fs', e') ->
  let d0 := m_disp (n_mesh (d_node (ap_daemon app))) in
  let p := cf_radio (ss_cfg (d_settings (ap_daemon app))) in
  linked d0 acc rs d ->
  sx_params (radio_ d0) = p /\ radio_ok p /\
  acc ≡ₚ queue_ d ++ map fst rs /\
  (queue_ d <> [] ->
   pump_timer_ d = true \/
   sx_tx_busy (radio_ d) = true /\ sx_healthy (radio_ d) = true /\ sx_tx_timeout (radio_ d) <> None) /\
  (spi_retry_interval_s (cf_spi cfg) <> 0 ->
   sx_supervise_timer (radio_ d) = true /\
   (sx_healthy (radio_ d) = false -> sx_recovering (radio_ d) = false ->
    has_frequency (sx_params (radio_ d)) = true -> up (sx_board (radio_ d)) -> comes_up (radio_ d))) /\
  (spi_retry_interval_s (cf_spi cfg) = 0 -> has_frequency p = true -> sx_healthy (radio_ d0) = true).
Proof.
  intros Hcfg Hkey Hs d0 p Hl. destruct (started_ok _ _ _ _ _ _ _ _ _ _ _ _ _ _ Hcfg Hkey Hs) as [_ _ Hc _ _].
  destruct (start_steps _ _ _ _ _ _ _ _ _ _ _ Hs) as [[? _]|(idr & fs1 & _ & [[? _]|(id & s & noder & -> & Hld & Ha & Happ)])]; [done|done|].
  destruct (Happ app eq_refl) as (node & server & -> & _ & ->). cbn [ap_daemon d_node d_settings] in *.
  destruct (assemble_radio _ _ _ _ _ _ Ha) as (r & Ed & Er). subst d0 p. rewrite Ed in *.
  apply ss_load_spi in Hld. rewrite named_spi in Hld. pose proof (ok_spi _ Hc) as Hspi.
  rewrite retry_ms, Hld in Er by done. rewrite Hld in Hspi. destruct Hspi as [_ _ _ _ _ _ _ Hi].
  assert (is_u32 (spi_retry_interval_s (cf_spi cfg) * 1000)) as Hu by (unfold is_u32; lia).
  pose proof (begin_radio_ok _ _ _ _ _ Hu Er) as Hok. apply begin_radio_starts in Er as (Ep & _ & Hsup & Hup).
  destruct (linked_live _ _ _ _ _ Hok Hl) as [E1 E2]. split_and!; try done; [apply Hc| |intros E; apply Hup; lia].
  intros Hn.
  assert (sx_ok (radio_ d) /\ sx_supervise_timer (radio_ d) = true) as [E3 E4].
  { refine (linked_keeps (fun s => sx_ok s /\ sx_supervise_timer s = true) _ _ _ _ _ _ Hl).
    - intros s1 ? s2 ? [? ?] (? & _ & ? & _). auto.
    - split; [exact Hok|]. apply Hsup. lia. }
  split; [done|]. intros. by apply (down_comes_up up).
Qed.
End started.
