(* ===== verification/Sx1262Regs.v ===== *)
(** * The register values of the SX1262 driver

    The driver computes what it writes into the chip in [double] arithmetic.  Here: the
    frequency word is the nearest one for every frequency the chip can tune, in steps of a
    kilohertz; the bandwidth code is the datasheet's for every bandwidth the daemon accepts;
    and no value overflows the byte it is put into. *)

From Stdlib Require Import QArith Qabs Qpower Lqa SpecFloat.
From S2P Require Import Prelude ByteIO Floats FloatFacts Crypto Radio Sx1262.
#[local] Open Scope Z_scope.

(** ** Rounding errors *)

(** The exponent of a number whose size is known. *)
Lemma mag_exponent m e a b :
  full m -> 0 <= a -> 0 <= b -> (inject_Z (2 ^ a) <= mag m e < inject_Z (2 ^ b))%Q -> a - 53 < e < b - 52.
Proof.
  intros Hm Ha Hb [H1 H2]. unfold full in Hm. pose proof (p2_pos e) as Hp.
  assert (inject_Z (2 ^ 52) * p2 e <= mag m e < inject_Z (2 ^ 53) * p2 e)%Q as [H3 H4].
  { unfold mag. split; [apply Qmult_le_compat_r; [rewrite <- Zle_Qle; lia|lra]|].
    apply Qmult_lt_compat_r; [done|]. rewrite <- Zlt_Qlt. lia. }
  rewrite <- !p2_Z in * by lia. rewrite <- !p2_plus in *.
  assert (forall x y, (p2 x < p2 y)%Q -> x < y) as Hlt.
  { intros x y Hxy. destruct (Z.lt_ge_cases x y) as [|Hge]; [done|exfalso].
    assert (p2 y <= p2 x)%Q; [|lra]. replace x with (y + (x - y)) by lia. rewrite p2_plus, (p2_Z (x - y)) by lia.
    pose proof (p2_pos y). assert (1 <= inject_Z (2 ^ (x - y)))%Q; [|nra].
    change 1%Q with (inject_Z 1). rewrite <- Zle_Qle. apply (Z.pow_le_mono_r 2 0); lia. }
  split.
  - assert (a < 53 + e); [|lia]. apply Hlt. lra.
  - assert (52 + e < b); [|lia]. apply Hlt. lra.
Qed.

(** [x + 0.5] for an [x] with bits below one half and well above it. *)
Lemma add_half_close m e :
  full m -> -30 <= e <= -20 ->
  exists m' e', d_add (S754_finite false m e) (d_lit 5 1) = S754_finite false m' e' /\ full m' /\
    close (mag m' e') (mag m e + (1 # 2)).
Proof.
  intros Hm He. replace (d_lit 5 1) with (S754_finite false 4503599627370496 (-53)) by (by vm_compute).
  unfold d_add, SFadd. replace (Z.min e (-53)) with (-53) by lia.
  assert (exists d, e = Z.pos d - 53 /\ 23 <= Z.pos d <= 33) as (d & -> & Hd).
  { exists (Z.to_pos (e + 53)). lia. }
  unfold shl_align at 1. replace (-53 - (Z.pos d - 53)) with (Z.neg d) by lia. cbn [fst].
  change (shl_align 4503599627370496 (-53) (-53)) with (4503599627370496%positive, -53). cbn [fst cond_Zopp].
  match goal with |- context [binary_normalize _ _ (Z.pos ?a + Z.pos ?b)] =>
    change (Z.pos a + Z.pos b) with (Z.pos (a + b)); set (p := (a + b)%positive) end.
  assert (Z.pos p = Z.pos m * 2 ^ Z.pos d + 2 ^ 52) as Hp.
  { unfold p. rewrite Pos2Z.inj_add. f_equal. apply iter_xO. }
  clearbody p. unfold full in Hm.
  assert (2 ^ 23 <= 2 ^ Z.pos d) as Hpd by (apply Z.pow_le_mono_r; lia).
  assert (exists n, Z.pos (digits2_pos p) = 53 + n /\ Z.pos d <= n <= Z.pos d + 1) as (n & Hn & Hnd).
  { assert (2 ^ (52 + Z.pos d) <= Z.pos p < 2 ^ (54 + Z.pos d)) as Hb.
    { rewrite Hp, !Z.pow_add_r by lia. change (2 ^ 54) with (2 * 2 ^ 53). change (2 ^ 53) with (2 * 2 ^ 52) in *.
      change (2 ^ 23) with 8388608 in *. change (2 ^ 52) with 4503599627370496 in *. nia. }
    destruct (decide (Z.pos p < 2 ^ (53 + Z.pos d))).
    - exists (Z.pos d). split; [|lia]. apply digits_unique; [lia|]. replace (53 + Z.pos d - 1) with (52 + Z.pos d) by lia. lia.
    - exists (Z.pos d + 1). split; [|lia]. apply digits_unique; [lia|].
      replace (53 + (Z.pos d + 1) - 1) with (53 + Z.pos d) by lia. replace (53 + (Z.pos d + 1)) with (54 + Z.pos d) by lia. lia. }
  unfold binary_normalize, binary_round, fexp. change (SpecFloat.emin 53 1024) with (-1074). rewrite Hn.
  replace (Z.max (53 + n + -53 - 53) (-1074)) with (n - 53) by lia.
  replace (shl_align p (-53) (n - 53)) with (p, -53); [|unfold shl_align; by destruct (n - 53 - -53) eqn:?; lia || done].
  destruct (round_aux_close false p (-53) loc_Exact n (mag p (-53))) as (m' & e' & -> & Hm' & He' & Hc); [done|lia|lia|apply mag_self|].
  exists m', e'. split; [done|]. split; [done|]. unfold close in *.
  assert (mag p (-53) == mag m (Z.pos d - 53) + (1 # 2))%Q as E; [|by rewrite E in Hc].
  unfold mag. rewrite Hp, inject_Z_plus, inject_Z_mult, <- (p2_Z (Z.pos d)) by lia.
  change (Z.pos d - 53) with (Z.pos d + -53). rewrite p2_plus.
  change (inject_Z (2 ^ 52)) with 4503599627370496%Q. change (p2 (-53)) with (1 # 9007199254740992)%Q. ring.
Qed.

(** Truncation is the integer part. *)
Lemma f_trunc_floor m e n :
  full m -> e < 0 -> (inject_Z n <= mag m e < inject_Z (n + 1))%Q -> f_trunc (S754_finite false m e) = n.
Proof.
  intros Hm He [H1 H2]. unfold f_trunc. rewrite (proj2 (Z.leb_gt _ _)) by lia.
  assert (0 < 2 ^ (- e)) as Hk by (apply Z.pow_pos_nonneg; lia).
  assert (mag m e * inject_Z (2 ^ (- e)) == inject_Z (Z.pos m))%Q as E.
  { unfold mag. rewrite <- p2_Z, <- Qmult_assoc, <- p2_plus by lia. replace (e + - e) with 0 by lia. unfold p2. cbn. ring. }
  assert (0 < inject_Z (2 ^ (- e)))%Q as HkQ by (change 0%Q with (inject_Z 0); by rewrite <- Zlt_Qlt).
  apply (Qmult_le_compat_r _ _ (inject_Z (2 ^ (- e)))) in H1; [|lra].
  apply (Qmult_lt_compat_r _ _ (inject_Z (2 ^ (- e)))) in H2; [|done].
  rewrite E, <- inject_Z_mult in H1, H2. rewrite <- Zle_Qle in H1. rewrite <- Zlt_Qlt in H2.
  symmetry. apply Z.div_unique with (Z.pos m - n * 2 ^ (- e)); nia.
Qed.

(** The words of the chip are steps of 32 MHz / 2^25; this one is nearest to [khz]. *)
Definition nearest_word (khz : Z) : Z := (khz * 2 ^ 18 + 125) / 250.

(** The exact value the driver rounds is never close to an integer. *)
Lemma word_apart khz :
  (inject_Z (nearest_word khz) + (1 # 250) <= inject_Z khz * (131072 # 125) + (1 # 2) <=
   inject_Z (nearest_word khz) + 1 - (1 # 250))%Q.
Proof.
  unfold nearest_word. set (n := (khz * 2 ^ 18 + 125) / 250).
  assert (250 * n + 1 <= khz * 2 ^ 18 + 125 <= 250 * n + 249) as [H1 H2].
  { unfold n. change (2 ^ 18) with 262144. Z.to_euclidean_division_equations. lia. }
  rewrite Zle_Qle in H1, H2. rewrite !inject_Z_plus, !inject_Z_mult in H1, H2.
  change (inject_Z 250) with 250%Q in *. change (inject_Z (2 ^ 18)) with 262144%Q in *. change (inject_Z 125) with 125%Q in *.
  change (inject_Z 1) with 1%Q in *. change (inject_Z 249) with 249%Q in *. lra.
Qed.

(** What the driver adds one half to: the four operations move it by far less than the
    distance of [word_apart]. *)
Lemma tuned_close k :
  150000 <= Z.pos k <= 960000 ->
  exists m e,
    d_mul (d_div (d_mul (d_lit (Z.pos k) 3) (d_of_Z 1000000)) (d_of_Z 32000000)) (d_of_Z (2 ^ 25)) = S754_finite false m e /\
    full m /\ -26 < e < -22 /\
    (- (1 # 100000) <= mag m e - inject_Z (Z.pos k) * (131072 # 125) <= 1 # 100000)%Q.
Proof.
  intros Hk.
  assert (full 8796093022208000 /\ full 8589934592000000 /\ full 4503599627370496) as (Hf1 & Hf2 & Hf3) by (unfold full; lia).
  assert (150000 <= inject_Z (Z.pos k) <= 960000)%Q as HkQ.
  { change 150000%Q with (inject_Z 150000). change 960000%Q with (inject_Z 960000). rewrite <- !Zle_Qle. lia. }
  unfold d_lit. change (d_of_Z (Z.pos k)) with (binary_round 53 1024 false k 0).
  replace (d_of_Z (10 ^ 3)) with (S754_finite false 8796093022208000 (-43)) by (by vm_compute).
  replace (d_of_Z 1000000) with (S754_finite false 8589934592000000 (-33)) by (by vm_compute).
  replace (d_of_Z 32000000) with (S754_finite false 8589934592000000 (-28)) by (by vm_compute).
  replace (d_of_Z (2 ^ 25)) with (S754_finite false 4503599627370496 (-27)) by (by vm_compute).
  destruct (of_Z_close false k ltac:(lia)) as (m1 & e1 & -> & Hm1 & He1 & Hc1).
  destruct (div_close false m1 e1 false _ (-43) Hm1 Hf1) as (m2 & e2 & -> & Hm2 & He2 & Hc2); [lia|lia|]. cbn [xorb].
  destruct (mul_close false m2 e2 false _ (-33) Hm2 Hf2) as (m3 & e3 & -> & Hm3 & Hc3); [lia|lia|]. cbn [xorb].
  unfold close in *. change eps with (1 # 4503599627370496)%Q in *.
  assert (mag m1 e1 / mag 8796093022208000 (-43) == (1 # 1000) * mag m1 e1)%Q as Hd1.
  { assert (mag 8796093022208000 (-43) == 1000)%Q as -> by (by vm_compute). field. }
  assert (mag 8589934592000000 (-33) == 1000000)%Q as M2 by (by vm_compute). rewrite Hd1 in Hc2. rewrite M2 in Hc3.
  apply Qabs_Qle_condition in Hc1, Hc2, Hc3.
  assert (27 - 53 < e3 < 30 - 52) as He3 by (apply (mag_exponent m3); [done..|split; [|change (inject_Z (2 ^ 30)) with 1073741824%Q];
    [change (inject_Z (2 ^ 27)) with 134217728%Q|]; lra]).
  destruct (div_close false m3 e3 false _ (-28) Hm3 Hf2) as (m4 & e4 & -> & Hm4 & He4 & Hc4); [lia|lia|]. cbn [xorb].
  destruct (mul_close false m4 e4 false _ (-27) Hm4 Hf3) as (m5 & e5 & -> & Hm5 & Hc5); [lia|lia|]. cbn [xorb].
  unfold close in *. change eps with (1 # 4503599627370496)%Q in *.
  assert (mag m3 e3 / mag 8589934592000000 (-28) == (1 # 32000000) * mag m3 e3)%Q as Hd3.
  { assert (mag 8589934592000000 (-28) == 32000000)%Q as -> by (by vm_compute). field. }
  assert (mag 4503599627370496 (-27) == 33554432)%Q as M4 by (by vm_compute). rewrite Hd3 in Hc4. rewrite M4 in Hc5.
  apply Qabs_Qle_condition in Hc4, Hc5.
  exists m5, e5. split; [done|]. split; [done|]. split; [|lra].
  apply (mag_exponent m5 e5 27 30); [done..|]. change (inject_Z (2 ^ 27)) with 134217728%Q. change (inject_Z (2 ^ 30)) with 1073741824%Q. lra.
Qed.

(** C38. The chip is tuned to the nearest step: for every frequency it can tune, in kilohertz,
    the word [configure] writes, computed in [double] from the frequency in MHz, is the one
    nearest to the exact frequency. *)
Theorem frequency_word_exact khz :
  150000 <= khz <= 960000 -> rf_frequency (d_lit khz 3) = nearest_word khz.
Proof.
  intros Hk. destruct khz as [|k|k]; [lia| |lia].
  destruct (tuned_close k Hk) as (m & e & E & Hm & He & Hc). unfold rf_frequency. rewrite E.
  destruct (add_half_close m e Hm) as (m' & e' & -> & Hm' & Hc'); [lia|].
  unfold close in Hc'. change eps with (1 # 4503599627370496)%Q in Hc'. apply Qabs_Qle_condition in Hc'.
  pose proof (word_apart (Z.pos k)) as Hw.
  assert (150000 <= inject_Z (Z.pos k) <= 960000)%Q as HkQ.
  { change 150000%Q with (inject_Z 150000). change 960000%Q with (inject_Z 960000). rewrite <- !Zle_Qle. lia. }
  assert (27 - 53 < e' < 31 - 52) as He'.
  { apply (mag_exponent m'); [done..|]. change (inject_Z (2 ^ 27)) with 134217728%Q. change (inject_Z (2 ^ 31)) with 2147483648%Q. lra. }
  rewrite (f_trunc_floor m' e' (nearest_word (Z.pos k))); [|done|lia|rewrite inject_Z_plus; change (inject_Z 1) with 1%Q; lra].
  apply u32_small. unfold is_u32, nearest_word. change (2 ^ 18) with 262144. change (2 ^ 32) with 4294967296.
  Z.to_euclidean_division_equations. lia.
Qed.

Lemma frequency_word_exact_witness : rf_frequency (d_lit 868125 3) = nearest_word 868125.
Proof. apply frequency_word_exact. lia. Defined.

(** The bandwidth codes of the datasheet, for every bandwidth the daemon accepts. *)
Lemma bandwidth_codes :
  map bw_code kBandwidthsKhz = [0x00; 0x08; 0x01; 0x09; 0x02; 0x0A; 0x03; 0x04; 0x05; 0x06].
Proof. by vm_compute. Qed.

(** The private sync word 0x12, spread over two registers. *)
Lemma sync_word_registers : sync_word_args = [0x14; 0x24].
Proof. done. Qed.
