(* ===== verification/Hardware.v ===== *)
(** * GPIO and SPI ([src/src/radio/gpio.cpp], [spidev.cpp])

    The lines and the SPI device the radio driver holds, over libgpiod and the kernel's calls,
    which are the class [Kernel]: any of them may fail, and answer anything.  [Hardware] is a
    [Board] of the driver.  [hw_held] records what the process holds of the library and the
    kernel, beside the members of the classes: the theorem is that a run of the driver ends
    with nothing held.  Error texts and log output are left out. *)

From stdpp Require Import gmultiset.
From S2P Require Import Prelude ByteIO Floats Crypto Radio Sx1262 Sx1262Facts.

(** ** What the library and the kernel answer *)

Inductive Mode := Output | Input | RisingEdge.

Inductive Direction := DirectionInput | DirectionOutput.

(** [gpiod_line_settings]: the members the code sets, others at their defaults. *)
Record LineSettings := mkLineSettings {
  ls_direction : option Direction; ls_output_value : option bool; ls_edge_rising : bool; ls_bias_disabled : bool }.

Inductive LineValue := ValueActive | ValueInactive | ValueError.

(** [gpiod_line_request_read_edge_events]: a count, or a failure with its [errno]. *)
Inductive EdgeRead := EdgeEvents (n : Z) | EdgeAgain | EdgeFailed.

(** What is held of the library and the kernel. *)
Inductive Obj :=
| ObjSettings | ObjLineConfig | ObjRequestConfig | ObjChip | ObjSpi
| ObjRequest (offset : Z) | ObjEvents (offset : Z).

#[export] Instance Obj_eq_dec : EqDecision Obj.
Proof. solve_decision. Defined.

#[export] Instance Obj_countable : Countable Obj.
Proof.
  refine (inj_countable'
    (fun o => match o with
              | ObjSettings => inl 0%nat | ObjLineConfig => inl 1%nat | ObjRequestConfig => inl 2%nat
              | ObjChip => inl 3%nat | ObjSpi => inl 4%nat
              | ObjRequest n => inr (true, n) | ObjEvents n => inr (false, n) end)
    (fun c => match c with
              | inl 0%nat => ObjSettings | inl 1%nat => ObjLineConfig | inl 2%nat => ObjRequestConfig
              | inl 3%nat => ObjChip | inl _ => ObjSpi
              | inr (true, n) => ObjRequest n | inr (false, n) => ObjEvents n end) _).
  by intros [].
Defined.

Class Kernel (W : Type) := {
  k_chip_open : Str -> W -> bool * W;
  (** [gpiod_line_settings_new] and the like *)
  k_new : Obj -> W -> bool * W;
  k_add_line_settings : Z -> LineSettings -> W -> bool * W;
  k_request_lines : Z -> W -> bool * W;
  k_set_value : Z -> bool -> W -> bool * W;
  k_get_value : Z -> W -> LineValue * W;
  k_read_edge_events : Z -> Z -> W -> EdgeRead * W;
  (** [::open] and the [ioctl]s of the SPI device *)
  k_open : Str -> W -> bool * W;
  k_wr_mode : W -> bool * W;
  k_wr_bits_per_word : W -> bool * W;
  k_wr_max_speed : Z -> W -> bool * W;
  k_message : Z -> Bytes -> W -> option Bytes * W;
  k_millis : W -> Z * W;
  k_sleep_us : Z -> W -> W }.

(** ** State *)

Record GpioLine := mkGpioLine { gl_offset : Z; gl_events : bool }.

Record Hardware {W : Type} := mkHardware {
  hw_world : W;
  hw_pins : Pins;
  hw_spidev : Str;
  hw_gpiochip : Str;
  hw_speed_hz : Z;
  hw_spi : bool;                        (** [spi_.fd_ >= 0] *)
  hw_chip : bool;                       (** [chip_.chip_] *)
  hw_lines : list (Line * GpioLine);    (** the driver's [unique_ptr]s that are set *)
  hw_held : gmultiset Obj }.
Arguments Hardware : clear implicits.

#[export] Instance eta_Hardware {W} : Eta (Hardware W) := fun h =>
  mkHardware W (hw_world h) (hw_pins h) (hw_spidev h) (hw_gpiochip h) (hw_speed_hz h) (hw_spi h) (hw_chip h) (hw_lines h) (hw_held h).

Definition make_hardware {W} (w : W) (pins : Pins) (spidev gpiochip : Str) (speed_hz : Z) : Hardware W :=
  mkHardware W w pins spidev gpiochip speed_hz false false [] ∅.

Definition HM (W A : Type) : Type := Hardware W -> A * Hardware W.

#[export] Instance HM_ret W : MRet (HM W) := fun A a h => (a, h).
#[export] Instance HM_bind W : MBind (HM W) := fun A C f m h => let '(a, h) := m h in f a h.

Definition hw_gets {W A} (f : Hardware W -> A) : HM W A := fun h => (f h, h).
Definition hw_modify {W} (f : Hardware W -> Hardware W) : HM W unit := fun h => (tt, f h).
Definition kcall {W A} (f : W -> A * W) : HM W A := fun h => let '(a, w) := f (hw_world h) in (a, h <| hw_world := w |>).

Definition hold {W} (o : Obj) : HM W unit := hw_modify (fun h => h <| hw_held ::= fun s => {[+ o +]} ⊎ s |>).
Definition free {W} (o : Obj) : HM W unit := hw_modify (fun h => h <| hw_held ::= fun s => s ∖ {[+ o +]} |>).

(** A call that returns something to hold, or fails. *)
Definition acquire {W} (o : Obj) (f : W -> bool * W) : HM W bool :=
  ok ← kcall f; _ ← (if ok : bool then hold o else mret tt); mret ok.
Definition free_if {W} (ok : bool) (o : Obj) : HM W unit := if ok then free o else mret tt.

Definition kEventBufferSize : Z := 16.

Section hardware.
Context {W : Type} `{Kernel W}.

(** ** A line *)

(** The destructor. *)
Definition release_line (g : GpioLine) : HM W unit :=
  _ ← free_if (gl_events g) (ObjEvents (gl_offset g)); free (ObjRequest (gl_offset g)).

Definition line_set (g : GpioLine) (value : bool) : HM W bool := kcall (k_set_value (gl_offset g) value).

Definition line_get (g : GpioLine) : HM W Z :=
  v ← kcall (k_get_value (gl_offset g));
  mret (match v with ValueError => -1 | ValueActive => 1 | ValueInactive => 0 end).

Definition drain_events (g : GpioLine) : HM W Z :=
  if negb (gl_events g) then mret (-1)
  else
    r ← kcall (k_read_edge_events (gl_offset g) kEventBufferSize);
    mret (match r with EdgeEvents n => n | EdgeAgain => 0 | EdgeFailed => -1 end).

(** ** The chip *)

(** A bare name is under [/dev]. *)
Definition chip_path (name : Str) : Str :=
  if existsb (Z.eqb 47) name then name else lit "/dev/" ++ name.

Definition chip_open : HM W bool :=
  name ← hw_gets hw_gpiochip;
  ok ← acquire ObjChip (k_chip_open (chip_path name));
  _ ← hw_modify (fun h => h <| hw_chip := ok |>);
  mret ok.

Definition chip_close : HM W unit :=
  opened ← hw_gets hw_chip;
  _ ← free_if opened ObjChip;
  hw_modify (fun h => h <| hw_chip := false |>).

Definition line_settings (mode : Mode) (initial : bool) : LineSettings :=
  match mode with
  | Output => mkLineSettings (Some DirectionOutput) (Some initial) false false
  | Input => mkLineSettings (Some DirectionInput) None false false
  | RisingEdge => mkLineSettings (Some DirectionInput) None true true
  end.

(** [GpioChip::request]; the three frees are its [cleanup]. *)
Definition request (offset : Z) (mode : Mode) (initial : bool) : HM W (option GpioLine) :=
  opened ← hw_gets hw_chip;
  if negb opened then mret None
  else
    settings ← acquire ObjSettings (k_new ObjSettings);
    line_cfg ← acquire ObjLineConfig (k_new ObjLineConfig);
    req_cfg ← acquire ObjRequestConfig (k_new ObjRequestConfig);
    result ← (if negb settings || negb line_cfg || negb req_cfg then mret None
              else
                added ← kcall (k_add_line_settings offset (line_settings mode initial));
                if negb added then mret None
                else
                  requested ← acquire (ObjRequest offset) (k_request_lines offset);
                  if negb requested then mret None
                  else
                    match mode with
                    | RisingEdge =>
                        events ← acquire (ObjEvents offset) (k_new (ObjEvents offset));
                        if negb events then _ ← free (ObjRequest offset); mret None
                        else mret (Some (mkGpioLine offset true))
                    | _ => mret (Some (mkGpioLine offset false))
                    end);
    _ ← free_if req_cfg ObjRequestConfig;
    _ ← free_if line_cfg ObjLineConfig;
    _ ← free_if settings ObjSettings;
    mret result.

(** ** The SPI device *)

Definition spi_close : HM W unit :=
  opened ← hw_gets hw_spi;
  _ ← free_if opened ObjSpi;
  hw_modify (fun h => h <| hw_spi := false |>).

Definition spi_open : HM W bool :=
  path ← hw_gets hw_spidev;
  speed ← hw_gets hw_speed_hz;
  ok ← acquire ObjSpi (k_open path);
  _ ← hw_modify (fun h => h <| hw_spi := ok |>);
  if negb ok then mret false
  else
    mode ← kcall k_wr_mode;
    bits ← (if mode : bool then kcall k_wr_bits_per_word else mret false);
    configured ← (if bits : bool then kcall (k_wr_max_speed speed) else mret false);
    if negb configured then _ ← spi_close; mret false
    else mret true.

(** [rx] is as long as [tx] in every call of the driver. *)
Definition spi_transfer (tx : Bytes) : HM W (option Bytes) :=
  opened ← hw_gets hw_spi;
  speed ← hw_gets hw_speed_hz;
  if negb opened then mret None else kcall (k_message speed tx).

(** ** The board of the driver *)

Definition offset_of (l : Line) (p : Pins) : Z :=
  match l with
  | ResetLine => pin_reset p | BusyLine => pin_busy p | IrqLine => pin_irq p
  | NssLine => pin_nss p | RxenLine => pin_rxen p | TxenLine => pin_txen p
  end.

(** How [begin] requests each line, and with which initial value. *)
Definition mode_of (l : Line) : Mode := match l with BusyLine => Input | IrqLine => RisingEdge | _ => Output end.
Definition initial_of (l : Line) : bool := match l with ResetLine | NssLine => true | _ => false end.

Definition line_of (l : Line) (h : Hardware W) : option GpioLine := snd <$> find (fun x => bool_decide (x.1 = l)) (hw_lines h).

(** [line_.reset()]. *)
Definition reset_line (l : Line) : HM W unit :=
  g ← hw_gets (line_of l);
  match g with
  | None => mret tt
  | Some g =>
      _ ← hw_modify (fun h => h <| hw_lines ::= List.filter (fun x => negb (bool_decide (x.1 = l))) |>);
      release_line g
  end.

(** [line_ = chip_.request_...(...)]: what the pointer held goes. *)
Definition assign_line (l : Line) : HM W bool :=
  pins ← hw_gets hw_pins;
  g ← request (offset_of l pins) (mode_of l) (initial_of l);
  _ ← reset_line l;
  match g with
  | None => mret false
  | Some g => _ ← hw_modify (fun h => h <| hw_lines ::= cons (l, g) |>); mret true
  end.

Definition with_line {A} (l : Line) (f : GpioLine -> HM W A) (none : A) : HM W A :=
  g ← hw_gets (line_of l); match g with Some g => f g | None => mret none end.

(** The end of [shutdown]. *)
Definition close_all : HM W unit :=
  _ ← reset_line IrqLine; _ ← reset_line BusyLine; _ ← reset_line ResetLine;
  _ ← reset_line NssLine; _ ← reset_line RxenLine; _ ← reset_line TxenLine;
  _ ← chip_close; spi_close.

#[export] Instance hardware_board : Board (Hardware W) := {
  b_open_spi := spi_open;
  b_open_chip := chip_open;
  b_request := assign_line;
  b_set l v := with_line l (fun g => line_set g v) false;
  b_busy := with_line BusyLine line_get (-1);
  b_drain := with_line IrqLine drain_events (-1);
  b_transfer := spi_transfer;
  b_millis := kcall k_millis;
  b_sleep us h := h <| hw_world ::= k_sleep_us us |>;
  b_close h := (close_all h).2;
}.

End hardware.

(** ** What is held *)

Definition owned (g : GpioLine) : gmultiset Obj :=
  {[+ ObjRequest (gl_offset g) +]} ⊎ if gl_events g then {[+ ObjEvents (gl_offset g) +]} else ∅.
Definition owned_opt (g : option GpioLine) : gmultiset Obj := match g with Some g => owned g | None => ∅ end.
Definition owned_lines (ls : list (Line * GpioLine)) : gmultiset Obj := foldr (fun x s => owned x.2 ⊎ s) ∅ ls.
Definition held_if (b : bool) (o : Obj) : gmultiset Obj := if b then {[+ o +]} else ∅.

(** What is held is what the members own, and a line is owned once. *)
Definition hw_ok {W} (h : Hardware W) : Prop :=
  hw_held h = held_if (hw_chip h) ObjChip ⊎ held_if (hw_spi h) ObjSpi ⊎ owned_lines (hw_lines h) /\ NoDup (hw_lines h).*1.

Abbreviation others l := (List.filter (fun x : Line * GpioLine => negb (bool_decide (x.1 = l)))).

Lemma others_none l ls : l ∉ ls.*1 -> others l ls = ls.
Proof.
  induction ls as [|[l' g] ls IH]; [done|]. simpl. intros Hn. rewrite bool_decide_false by set_solver. simpl.
  rewrite IH; set_solver.
Qed.

Lemma others_subset l ls : (others l ls).*1 ⊆ ls.*1.
Proof. induction ls as [|[l' g] ls IH]; [done|]. simpl. case_bool_decide; set_solver. Qed.

Lemma others_gone l ls : l ∉ (others l ls).*1.
Proof. induction ls as [|[l' g] ls IH]; simpl; [set_solver|]. case_bool_decide; set_solver. Qed.

Lemma others_nodup l ls : NoDup ls.*1 -> NoDup (others l ls).*1.
Proof.
  induction ls as [|[l' g] ls IH]; [done|]. simpl. intros Hn. apply list.NoDup_cons in Hn as [Hl Hn].
  case_bool_decide; [auto|]. simpl. apply list.NoDup_cons. split; [|auto]. intros Hin. apply Hl. by apply (others_subset l).
Qed.

Lemma owned_split l ls g :
  NoDup ls.*1 -> snd <$> find (fun x => bool_decide (x.1 = l)) ls = Some g ->
  owned_lines ls = owned g ⊎ owned_lines (others l ls).
Proof.
  induction ls as [|[l' g'] ls IH]; [done|]. simpl. intros Hn. apply list.NoDup_cons in Hn as [Hl Hn].
  case_bool_decide; subst; simpl.
  - intros [= ->]. by rewrite others_none.
  - intros Hf. rewrite (IH Hn Hf). multiset_solver.
Qed.

Lemma owned_none l ls : snd <$> find (fun x => bool_decide (x.1 = l)) ls = None -> others l ls = ls.
Proof.
  induction ls as [|[l' g] ls IH]; [done|]. simpl. case_bool_decide; [done|]. simpl. intros Hf. by rewrite IH.
Qed.

Lemma others_all ls :
  others TxenLine (others RxenLine (others NssLine (others ResetLine (others BusyLine (others IrqLine ls))))) = [].
Proof.
  induction ls as [|[l g] ls IH]; [done|]. destruct l; simpl; repeat (rewrite bool_decide_false by done; simpl);
    rewrite ?bool_decide_true by done; simpl; exact IH.
Qed.

Section held.
Context {W : Type} `{Kernel W}.
Implicit Types (h : Hardware W).

(** Requesting a line leaves behind what the line owns and nothing else. *)
Lemma request_held offset mode initial h :
  exists r w, request offset mode initial h =
    (r, h <| hw_world := w |> <| hw_held := hw_held h ⊎ owned_opt r |>).
Proof.
  unfold request, acquire, kcall, free_if, hold, free, hw_modify, hw_gets, mbind, HM_bind, mret, HM_ret.
  destruct h as [w0 pins spidev chip speed spi opened ls held]. simpl.
  assert (forall w w', w = w' -> forall r s s', s = s' ->
    (r : option GpioLine, mkHardware W w pins spidev chip speed spi opened ls s) =
    (r, mkHardware W w' pins spidev chip speed spi opened ls s')) as Heq by (by intros ? ? -> ? ? ? ->).
  destruct opened; simpl.
  2: { exists None, w0. apply Heq; [done|]. simpl. multiset_solver. }
  destruct (k_new ObjSettings w0) as [b1 w1]. simpl.
  destruct b1; simpl; destruct (k_new ObjLineConfig w1) as [b2 w2]; destruct b2; simpl;
    destruct (k_new ObjRequestConfig w2) as [b3 w3]; destruct b3; simpl.
  2-8: exists None, w3; apply Heq; [done|simpl; multiset_solver].
  destruct (k_add_line_settings offset (line_settings mode initial) w3) as [b4 w4]. simpl.
  destruct b4; simpl; [|exists None, w4; apply Heq; [done|simpl; multiset_solver]].
  destruct (k_request_lines offset w4) as [b5 w5]. simpl.
  destruct b5; simpl; [|exists None, w5; apply Heq; [done|simpl; multiset_solver]].
  destruct mode; simpl.
  1, 2: eexists (Some (mkGpioLine offset false)), w5; apply Heq; [done|simpl; unfold owned; simpl; multiset_solver].
  destruct (k_new (ObjEvents offset) w5) as [b6 w6]. simpl.
  destruct b6; simpl.
  - exists (Some (mkGpioLine offset true)), w6. apply Heq; [done|]. simpl. unfold owned. simpl. multiset_solver.
  - exists None, w6. apply Heq; [done|]. simpl. multiset_solver.
Qed.

(** Resetting a pointer releases its line. *)
Lemma reset_line_ok l h :
  hw_ok h -> let h' := (reset_line l h).2 in
  hw_ok h' /\ hw_lines h' = others l (hw_lines h) /\ hw_chip h' = hw_chip h /\ hw_spi h' = hw_spi h.
Proof.
  intros [Hh Hn]. unfold reset_line, hw_gets, mbind, HM_bind, line_of. simpl.
  destruct (snd <$> _) as [g|] eqn:E; simpl.
  - unfold release_line, free_if, free, hw_modify, hw_ok. pose proof (owned_split _ _ _ Hn E) as Hs.
    destruct (gl_events g) eqn:Eg; simpl; (split; [split; [|by apply others_nodup]|done]);
      rewrite Hh, Hs; unfold owned; rewrite Eg; multiset_solver.
  - rewrite (owned_none _ _ E). done.
Qed.

Lemma assign_line_ok l h : hw_ok h -> hw_ok (assign_line l h).2.
Proof.
  intros Hok. unfold assign_line, mbind, HM_bind. simpl.
  destruct (request_held (offset_of l (hw_pins h)) (mode_of l) (initial_of l) h) as (r & w & ->).
  destruct Hok as [Hh Hn]. unfold reset_line, hw_gets, mbind, HM_bind, line_of. simpl.
  destruct (snd <$> find (fun x => bool_decide (x.1 = l)) (hw_lines h)) as [g|] eqn:E; simpl.
  - pose proof (owned_split _ _ _ Hn E) as Hs. unfold release_line, free_if, free, hw_modify, hw_ok.
    destruct (gl_events g) eqn:Eg, r as [g'|]; simpl;
      (split; [|first [by apply others_nodup|apply list.NoDup_cons; split; [apply others_gone|by apply others_nodup]]]);
      rewrite Hh, Hs; unfold owned at 1; rewrite Eg; multiset_solver.
  - assert (l ∉ (hw_lines h).*1) as Hl by (rewrite <- (owned_none _ _ E); apply others_gone).
    destruct r as [g'|]; unfold hw_ok; simpl; (split; [rewrite Hh; multiset_solver|]); [|done]. by apply list.NoDup_cons.
Qed.

(** Closing leaves nothing. *)
Lemma close_all_held h : hw_ok h -> hw_held (close_all h).2 = ∅.
Proof.
  intros Hok. unfold close_all, mbind, HM_bind.
  repeat match goal with |- context [reset_line ?l ?h0] => 
    let Hr := fresh "Hr" in pose proof (reset_line_ok l h0) as Hr; destruct (reset_line l h0) as [[] ?] end.
  simpl in *. repeat match goal with Hok : hw_ok ?x, Hr : hw_ok ?x -> _ |- _ => destruct (Hr Hok) as (? & ? & ? & ?); clear Hr end.
  assert (hw_lines h5 = []) as El by (etrans; [|apply (others_all (hw_lines h))]; congruence).
  match goal with Hok : hw_ok h5 |- _ => destruct Hok as [Hh _] end. rewrite El in Hh. simpl in Hh.
  unfold chip_close, spi_close, free_if, free, hw_modify, hw_gets, mbind, HM_bind. simpl.
  destruct (hw_chip h5); simpl in *; destruct (hw_spi h5); simpl in *; rewrite Hh; multiset_solver.
Qed.

(** Nothing but what is owned, with the devices as they are. *)
Definition hw_steady (chip spi : bool) h : Prop := hw_ok h /\ hw_chip h = chip /\ hw_spi h = spi.

Lemma kcall_steady {A} chip spi (f : W -> A * W) h : hw_steady chip spi h -> hw_steady chip spi (kcall f h).2.
Proof. unfold kcall. by destruct (f (hw_world h)). Qed.

Lemma with_line_steady {A} chip spi l (f : GpioLine -> HM W A) (none : A) h :
  (forall g, hw_steady chip spi h -> hw_steady chip spi (f g h).2) ->
  hw_steady chip spi h -> hw_steady chip spi (with_line l f none h).2.
Proof. intros Hf Hok. unfold with_line, mbind, HM_bind, hw_gets. destruct (line_of l h); auto. Qed.

Lemma hw_map_steady {A C} chip spi (m : HM W A) (f : A -> C) h :
  hw_steady chip spi (m h).2 -> hw_steady chip spi ((a ← m; mret (f a)) h).2.
Proof. unfold mbind, HM_bind. by destruct (m h). Qed.

Lemma assign_line_steady chip spi l h : hw_steady chip spi h -> hw_steady chip spi (assign_line l h).2.
Proof.
  intros (Hok & Hc & Hs). split; [by apply assign_line_ok|].
  unfold assign_line, mbind, HM_bind. simpl.
  destruct (request_held (offset_of l (hw_pins h)) (mode_of l) (initial_of l) h) as (r & w & ->).
  unfold reset_line, hw_gets, mbind, HM_bind, line_of, release_line, free_if, free, hw_modify. simpl.
  destruct (snd <$> _) as [g|]; simpl; [destruct (gl_events g)|]; by destruct r.
Qed.

Lemma chip_open_ok h : hw_chip h = false -> hw_ok h -> hw_ok (chip_open h).2.
Proof.
  intros Hc [Hh Hn]. unfold chip_open, acquire, hold, kcall, hw_modify, mbind, HM_bind, hw_gets. simpl.
  rewrite Hc in Hh. destruct (k_chip_open _ _) as [[] w]; unfold hw_ok; simpl; (split; [rewrite Hh; multiset_solver|done]).
Qed.

Lemma spi_open_ok h : hw_spi h = false -> hw_ok h -> hw_ok (spi_open h).2 /\ hw_chip (spi_open h).2 = hw_chip h.
Proof.
  intros Hc [Hh Hn]. unfold spi_open, spi_close, free_if, free, acquire, hold, kcall, hw_modify, mbind, HM_bind, hw_gets. simpl.
  rewrite Hc in Hh. destruct (k_open _ _) as [[] w]; simpl; [|by split; [split; [simpl; rewrite Hh; multiset_solver|]|]].
  destruct (k_wr_mode w) as [[] w1]; simpl; [destruct (k_wr_bits_per_word w1) as [[] w2]; simpl;
    [destruct (k_wr_max_speed (hw_speed_hz h) w2) as [[] w3]; simpl|]|];
    (split; [split; [simpl; rewrite Hh; multiset_solver|done]|done]).
Qed.

End held.

(** ** What the driver does with its board *)

(** A property of the board that every call the driver makes between [begin] and [shutdown]
    preserves. *)
Class BoardInv {B} `{Board B} (I : B -> Prop) : Prop := {
  inv_request l b : I b -> I (b_request l b).2;
  inv_set l v b : I b -> I (b_set l v b).2;
  inv_busy b : I b -> I (b_busy b).2;
  inv_drain b : I b -> I (b_drain b).2;
  inv_transfer tx b : I b -> I (b_transfer tx b).2;
  inv_millis b : I b -> I (b_millis b).2;
  inv_sleep us b : I b -> I (b_sleep us b) }.

Class Keeps {B A} (I : B -> Prop) (m : DM B A) : Prop := keeps s : I (sx_board s) -> I (sx_board (m s).1.2).

Lemma keeps_modify {B} (I : B -> Prop) f : (forall s, sx_board (f s) = sx_board s) -> Keeps I (sx_modify f).
Proof. intros Hf s. unfold sx_modify. simpl. by rewrite Hf. Qed.

#[export] Hint Extern 1 (Keeps _ (sx_modify _)) =>
  (apply keeps_modify; intros ?; simpl; by repeat case_match) : typeclass_instances.
#[export] Hint Extern 1 (Keeps _ (match ?x with _ => _ end)) => destruct x : typeclass_instances.

Section keeps.
Context {B : Type} (I : B -> Prop).

#[export] Instance keeps_ret {A} (a : A) : Keeps I (mret a).
Proof. by intros s. Qed.

#[export] Instance keeps_gets {A} (f : Sx1262 B -> A) : Keeps I (sx_gets f).
Proof. by intros s. Qed.

#[export] Instance keeps_deliver x : Keeps I (deliver x).
Proof. by intros s. Qed.

#[export] Instance keeps_bind {A C} (m : DM B A) (f : A -> DM B C) : Keeps I m -> (forall a, Keeps I (f a)) -> Keeps I (m ≫= f).
Proof.
  intros Hm Hf s Hs. unfold mbind, DM_bind. specialize (Hm s Hs). destruct (m s) as [[a s1] o1].
  specialize (Hf a s1 Hm). by destruct (f a s1) as [[c s2] o2].
Qed.

#[export] Instance keeps_and_then (m k : DM B bool) : Keeps I m -> Keeps I k -> Keeps I (m &&? k).
Proof. intros ??. unfold and_then. apply _. Qed.

Lemma keeps_on_board {A} (f : B -> A * B) : (forall b, I b -> I (f b).2) -> Keeps I (on_board f).
Proof. intros Hf s Hs. unfold on_board. specialize (Hf _ Hs). by destruct (f (sx_board s)). Qed.

End keeps.

Section keeps_driver.
Context {B : Type} `{Board B} (I : B -> Prop) `{!BoardInv I}.

#[export] Instance keeps_request l : Keeps I (on_board (b_request l)).
Proof. apply keeps_on_board, inv_request. Qed.
#[export] Instance keeps_set l v : Keeps I (on_board (b_set l v)).
Proof. apply keeps_on_board, inv_set. Qed.
#[export] Instance keeps_busy : Keeps I (on_board b_busy).
Proof. apply keeps_on_board, inv_busy. Qed.
#[export] Instance keeps_drain : Keeps I (on_board b_drain).
Proof. apply keeps_on_board, inv_drain. Qed.
#[export] Instance keeps_transfer tx : Keeps I (on_board (b_transfer tx)).
Proof. apply keeps_on_board, inv_transfer. Qed.
#[export] Instance keeps_millis : Keeps I (on_board b_millis).
Proof. apply keeps_on_board, inv_millis. Qed.
#[export] Instance keeps_sleep us : Keeps I (on_board (fun b => (tt, b_sleep us b))).
Proof. apply keeps_on_board. intros b. apply inv_sleep. Qed.

#[local] Hint Extern 9 (Keeps _ ?m) => quiet_unfold m : typeclass_instances.

#[export] Instance keeps_wait_busy_loop fuel start t : Keeps I (wait_busy_loop fuel start t).
Proof. induction fuel; simpl; apply _. Qed.
#[export] Instance keeps_cmd op args : Keeps I (cmd op args).
Proof. apply _. Qed.
#[export] Instance keeps_read_after header n : Keeps I (read_after header n).
Proof. apply _. Qed.
#[export] Instance keeps_standby_loop fuel deadline : Keeps I (standby_loop fuel deadline).
Proof. induction fuel; simpl; apply _. Qed.
#[export] Instance keeps_configure : Keeps I configure.
Proof. apply _. Qed.
#[export] Instance keeps_bring_up : Keeps I bring_up.
Proof. apply _. Qed.
#[export] Instance keeps_start_recovery : Keeps I start_recovery.
Proof. apply _. Qed.
#[export] Instance keeps_go_down : Keeps I go_down.
Proof. apply _. Qed.

(** Every handler but [begin], and [begin] once the devices are open. *)
Lemma keeps_handle ev : ev <> SxBegin -> Keeps I (sx_handle ev).
Proof. intros Hev. destruct ev; [done|..]; unfold sx_handle; apply _. Qed.

(** The part of [begin] after the devices are open. *)
Lemma keeps_after_open : Keeps I (request_lines &&?
  (_ ← sx_modify (fun s => s <| sx_irq_watch := true |>);
   retry ← sx_gets sx_retry_interval_ms;
   if retry =? 0 then
     tuned ← sx_gets (fun s => has_frequency (sx_params s));
     if negb tuned then mret true
     else bring_up &&? (_ ← sx_modify (fun s => s <| sx_ever_healthy := true |>); mret true)
   else
     _ ← sx_modify (fun s => s <| sx_supervise_timer := true |>);
     _ ← start_recovery;
     mret true)).
Proof. apply _. Qed.

End keeps_driver.

Section release.
Context {W : Type} `{Kernel W}.
Implicit Types (h : Hardware W) (s : Sx1262 (Hardware W)).

#[export] Instance hw_steady_inv chip spi : BoardInv (hw_steady (W := W) chip spi).
Proof.
  constructor; simpl; intros.
  - by apply assign_line_steady.
  - apply with_line_steady; [|done]. intros g. apply kcall_steady.
  - apply with_line_steady; [|done]. intros g. intros. by apply hw_map_steady, kcall_steady.
  - apply with_line_steady; [|done]. intros g. unfold drain_events. destruct (negb _); intros; [done|]. by apply hw_map_steady, kcall_steady.
  - unfold spi_transfer, mbind, HM_bind, hw_gets. destruct (negb _); [done|]. by apply kcall_steady.
  - by apply kcall_steady.
  - done.
Qed.

Lemma wp_keeps {A} (I : Hardware W -> Prop) (m : DM (Hardware W) A) s :
  Keeps I m -> I (sx_board s) -> wp m (fun _ s' _ => I (sx_board s')) s.
Proof. intros Hk Hs. specialize (Hk s Hs). unfold wp. by destruct (m s) as [[a s'] o]. Qed.

Lemma wp_on_board {A} (f : Hardware W -> A * Hardware W) P s :
  P (f (sx_board s)).1 (s <| sx_board := (f (sx_board s)).2 |>) [] -> wp (on_board f) P s.
Proof. unfold wp, on_board. by destruct (f (sx_board s)). Qed.

(** [begin] opens devices that are closed. *)
Lemma begin_steady s :
  hw_steady false false (sx_board s) -> exists chip spi, hw_steady chip spi (sx_board (begin s).1.2).
Proof.
  intros (Hok & Hc & Hs).
  assert (wp begin (fun _ s' _ => exists chip spi, hw_steady chip spi (sx_board s')) s) as Hw.
  2: { revert Hw. unfold wp. by destruct (begin s) as [[a s'] o]. }
  unfold begin. apply wp_bind, wp_modify, wp_bind, wp_on_board. simpl.
  pose proof (spi_open_ok _ Hs Hok) as [Ho1 Hc1]. destruct (spi_open (sx_board s)) as [[] h1]; simpl in *; [|by apply wp_ret; eexists _, _].
  apply wp_bind, wp_on_board. simpl.
  pose proof (chip_open_ok h1 ltac:(congruence) Ho1) as Ho2. destruct (chip_open h1) as [[] h2]; simpl in *; [|by apply wp_ret; eexists _, _].
  eapply wp_mono; [apply (wp_keeps (hw_steady (hw_chip h2) (hw_spi h2))); [apply keeps_after_open; apply _|done]|].
  intros ? s' ? Hst. eexists _, _. exact Hst.
Qed.

Lemma reach_held params pins retry w spidev gpiochip speed n o s :
  sx_reach (make_sx1262 params pins retry (make_hardware w pins spidev gpiochip speed)) n o s ->
  (exists chip spi, hw_steady chip spi (sx_board s)) /\ (sx_loop s = false -> hw_steady false false (sx_board s)).
Proof.
  induction 1 as [|n o s ev acc s' o' _ [(chip & spi & IH1) IH2] He Hh].
  { assert (hw_steady (W := W) false false (make_hardware w pins spidev gpiochip speed)); [|by split; [eexists _, _|]].
    split; [|done]. split; [by simpl; multiset_solver|by apply list.NoDup_nil]. }
  assert (ev = SxBegin \/ ev <> SxBegin) as [->|Hev] by (destruct ev; auto; by right).
  - simpl in He. destruct (begin_steady s (IH2 He)) as (c & p & Hst).
    assert (s' = (begin s).1.2) as ->.
    { revert Hh. simpl. unfold mbind, DM_bind. by destruct (begin s) as [[a s1] o1]; intros [= _ <- _]. }
    split; [by eexists _, _|]. pose proof (begin_loop s) as Hl. revert Hl. unfold wp.
    destruct (begin s) as [[a s1] o1]. simpl. by intros ->.
  - destruct (handle_post _ _ _ _ _ He Hh) as (_ & _ & _ & Hloop).
    assert (forall I, BoardInv I -> I (sx_board s) -> I (sx_board s')) as Hkeep.
    { intros I HI Hs. pose proof (keeps_handle I ev Hev s Hs) as Hk. by rewrite Hh in Hk. }
    split; [exists chip, spi; by apply (Hkeep _ (hw_steady_inv chip spi))|].
    intros Hl. apply (Hkeep _ (hw_steady_inv false false)), IH2. destruct (sx_loop s); [|done]. by rewrite Hloop in Hl.
Qed.

(** C26. Everything is given back: after any run of the driver and its shutdown, whatever
    failed on the way, no line, event buffer, configuration object, chip or SPI descriptor is
    held. *)
Theorem shutdown_releases_everything params pins retry w spidev gpiochip speed n o s :
  sx_reach (make_sx1262 params pins retry (make_hardware w pins spidev gpiochip speed)) n o s ->
  hw_held (sx_board (sx_shutdown s).1.2) = ∅.
Proof.
  intros Hr. destruct (reach_held _ _ _ _ _ _ _ _ _ _ Hr) as [(chip & spi & Hst) _].
  assert (wp sx_shutdown (fun _ s' _ => hw_held (sx_board s') = ∅) s) as Hw.
  2: { revert Hw. unfold wp. by destruct (sx_shutdown s) as [[a s'] o']. }
  unfold sx_shutdown. apply wp_bind, wp_modify, wp_bind, wp_gets, wp_bind.
  eapply wp_mono; [apply (wp_keeps (hw_steady chip spi)); [apply _|exact Hst]|]. intros a s1 o1 Hs1.
  apply wp_bind, wp_modify, wp_on_board. simpl. apply close_all_held, Hs1.
Qed.

End release.
