(* ===== verification/Sx1262Bench.v ===== *)
(** * The SX1262 driver on a bench

    A simulated chip on a board whose lines always work: the driver's theorems at concrete
    runs, and a run in which a reception in progress is taken for a stale one. *)

From S2P Require Import Prelude ByteIO Floats Crypto Identity Toy Packet Radio Dispatcher SimRadio Sx1262 Sx1262Facts Sx1262Link Sx1262Chip Hardware.

(** Time in microseconds, whether the chip is powered, its interrupt flags, the packet in its
    buffer, and how many writes to a line will fail.  A transmission completes as soon as it
    starts. *)
Record Bench := mkBench { bn_time : Z; bn_powered : bool; bn_irq : Z; bn_packet : Bytes; bn_glitches : nat }.

#[export] Instance eta_Bench : Eta Bench := fun b =>
  mkBench (bn_time b) (bn_powered b) (bn_irq b) (bn_packet b) (bn_glitches b).

(** The status byte of a chip in standby that has taken a command. *)
Definition bench_status : Z := 0x22.

Definition bench_answer (b : Bench) (tx : Bytes) : Bytes :=
  let op := nth 0 tx 0 in
  if op =? kCmdReadRegister then replicate 4 bench_status ++ lit "SX1262"
  else if op =? kCmdReadBuffer then replicate 3 bench_status ++ bn_packet b
  else if op =? kCmdGetIrqStatus then replicate 2 bench_status ++ be16 (bn_irq b)
  else if op =? kCmdGetRxBufferStatus then replicate 2 bench_status ++ [zlen (bn_packet b); 0]
  else if op =? kCmdGetPacketStatus then replicate 2 bench_status ++ [160; 20; 0]
  else replicate (length tx) bench_status.

(** What a command does to the chip's flags. *)
Definition bench_flags (b : Bench) (tx : Bytes) : Z :=
  let op := nth 0 tx 0 in
  if op =? kCmdClearIrqStatus then Z.land (bn_irq b) (Z.lnot (Z.lor (Z.shiftl (nth 1 tx 0) 8) (nth 2 tx 0)))
  else if op =? kCmdSetTx then Z.lor (bn_irq b) kIrqTxDone
  else bn_irq b.

Definition bench_transfer (tx : Bytes) (b : Bench) : option Bytes * Bench :=
  if bn_powered b then (Some (resize (length tx) (bench_answer b tx)), b <| bn_irq := bench_flags b tx |>)
  else (Some (replicate (length tx) 0), b).

Definition bench_set (b : Bench) : bool * Bench :=
  match bn_glitches b with O => (true, b) | S n => (false, b <| bn_glitches := n |>) end.

Definition bench_millis (b : Bench) : Z * Bench := (u32 (bn_time b / 1000), b).
Definition bench_sleep (us : Z) (b : Bench) : Bench := b <| bn_time ::= fun t => t + us |>.

#[export] Instance bench_board : Board Bench := {
  b_open_spi b := (true, b); b_open_chip b := (true, b); b_request _ b := (true, b);
  b_set _ _ := bench_set; b_busy b := (0, b); b_drain b := (1, b);
  b_transfer := bench_transfer; b_millis := bench_millis; b_sleep := bench_sleep; b_close b := b }.

Lemma resize_length n b : length (resize n b) = n.
Proof. unfold resize. rewrite length_app, length_take, length_replicate. lia. Qed.

Lemma resize_nth n b i : (i < n)%nat -> (i < length b)%nat -> nth i (resize n b) 0 = nth i b 0.
Proof.
  intros Hn Hb. unfold resize. rewrite app_nth1 by (rewrite length_take; lia).
  rewrite <- (take_drop n b) at 2. rewrite app_nth1; [done|]. rewrite length_take. lia.
Qed.

Lemma nth_replicate_lt n i (x : Z) : (i < n)%nat -> nth i (replicate n x) 0 = x.
Proof. revert i. induction n as [|n IH]; intros [|i] Hi; simpl; [lia|lia|done|]. apply IH. lia. Qed.

Lemma bench_answer_ok b tx : answer_ok tx (resize (length tx) (bench_answer b tx)).
Proof.
  split; [apply resize_length| |].
  - intros Hl. assert (bench_status = nth (status_index tx) (bench_answer b tx) 0) as E.
    { unfold status_index, bench_answer. unfold status_index in Hl.
      destruct (nth 0 tx 0 =? kCmdReadRegister); [done|]. destruct (nth 0 tx 0 =? kCmdReadBuffer); [done|].
      repeat (case_match; [done|]). by rewrite nth_replicate_lt. }
    rewrite resize_nth, <- E; [done|done|]. unfold status_index, bench_answer in *.
    repeat case_match; rewrite ?length_app, ?length_replicate; simpl; lia.
  - intros ->. by vm_compute.
Qed.

Definition bench_live (b : Bench) : Prop := bn_powered b = true /\ bn_glitches b = O.

#[export] Instance bench_answering : Answering Bench bench_live.
Proof.
  constructor; unfold bench_live; simpl; try done.
  - intros _ _ b [? Hg]. unfold bench_set. by rewrite Hg.
  - intros tx b [Hb ?]. unfold bench_transfer. rewrite Hb. simpl. split; [|done].
    eexists. split; [done|]. apply bench_answer_ok.
Qed.

#[export] Instance bench_clocked : Clocked Bench bn_time.
Proof.
  constructor; simpl; intros; unfold slack; try lia;
    [unfold bench_set; destruct (bn_glitches b); simpl; lia|]. unfold bench_transfer. destruct (bn_powered b); simpl; lia.
Qed.

(** ** Runs *)

Definition enabledb {B} (s : Sx1262 B) (ev : SxEvent) : bool :=
  match ev with
  | SxBegin => negb (sx_loop s)
  | SxIrq => sx_irq_watch s
  | SxTxTimeout => armed (sx_tx_timeout s)
  | SxRecovery => armed (sx_recovery_timer s)
  | SxSupervise => sx_supervise_timer s
  | _ => true
  end.

Section run.
Context {B : Type} `{Board B}.

Fixpoint sx_run (evs : list SxEvent) (st : Z * list Delivery * Sx1262 B) : Z * list Delivery * Sx1262 B :=
  match evs with
  | [] => st
  | ev :: evs =>
      let '(n, o, s) := st in
      if enabledb s ev then let '(acc, s', o') := sx_handle ev s in sx_run evs (n + Z.b2z acc, o ++ o', s') else st
  end.

Lemma sx_run_reach s0 evs : forall st : Z * list Delivery * Sx1262 B,
  sx_reach s0 st.1.1 st.1.2 st.2 -> sx_reach s0 (sx_run evs st).1.1 (sx_run evs st).1.2 (sx_run evs st).2.
Proof.
  induction evs as [|ev evs IH]; intros [[n o] s] Hr; [done|]. simpl in *.
  destruct (enabledb s ev) eqn:Ee; [|done]. destruct (sx_handle ev s) as [[acc s'] o'] eqn:Eh. apply IH. simpl.
  eapply sx_reach_step; [exact Hr| |exact Eh]. destruct ev; simpl in *; try done. by apply negb_true_iff.
Qed.

End run.

Definition bench_pins : Pins := mkPins 26 24 25 (-1) (-1) (-1).
Definition bench_on : Bench := mkBench 1000000 true 0 [] 0.

(** A driver on a powered board, checked every five seconds. *)
Definition bench_fresh : Sx1262 Bench := make_sx1262 sim_settings bench_pins 5000 bench_on.

(** It comes up, a packet is sent and the chip reports it done. *)
Definition bench_up : Z * list Delivery * Sx1262 Bench := sx_run [SxBegin; SxRecovery; SxRecovery] (0, [], bench_fresh).
Definition bench_sending : Z * list Delivery * Sx1262 Bench := sx_run [SxSend [1; 2; 3]] bench_up.
Definition bench_sent : Z * list Delivery * Sx1262 Bench := sx_run [SxIrq] bench_sending.

Lemma bench_up_reach : sx_reach bench_fresh bench_up.1.1 bench_up.1.2 bench_up.2.
Proof. apply sx_run_reach. constructor. Qed.
Lemma bench_sending_reach : sx_reach bench_fresh bench_sending.1.1 bench_sending.1.2 bench_sending.2.
Proof. apply sx_run_reach, bench_up_reach. Qed.
Lemma bench_sent_reach : sx_reach bench_fresh bench_sent.1.1 bench_sent.1.2 bench_sent.2.
Proof. apply sx_run_reach, bench_sending_reach. Qed.

Example bench_run :
  sx_healthy bench_up.2 = true /\ bench_sending.1.1 = 1 /\ sx_tx_busy bench_sending.2 = true /\
  bench_sent.1.2 = [DeliverTxDone 0] /\ sx_tx_busy bench_sent.2 = false.
Proof. by vm_compute. Qed.

Lemma bench_retry : is_u32 5000.
Proof. by vm_compute. Qed.

Lemma driver_reports_each_tx_witness :
  bench_sent.1.1 = tx_dones bench_sent.1.2 + Z.b2z (sx_tx_busy bench_sent.2).
Proof. apply (driver_reports_each_tx sim_settings bench_pins 5000 bench_on); [by vm_compute|exact bench_sent_reach]. Defined.

Lemma driver_never_stuck_witness :
  sx_tx_busy bench_sending.2 = true /\ sx_healthy bench_sending.2 = true /\ sx_tx_timeout bench_sending.2 <> None.
Proof.
  assert (sx_tx_busy bench_sending.2 = true) as Hb by (by vm_compute). split; [exact Hb|].
  pose proof (driver_never_stuck sim_settings bench_pins 5000 bench_on bench_retry _ _ _ bench_sending_reach) as Hs.
  exact (proj1 Hs Hb).
Defined.

Lemma transmits_with_current_params_witness :
  (sx_send [1; 2; 3] bench_up.2).1.1 = true /\
  exists p, sx_programmed bench_up.2 = Some p /\ same_air p (sx_params bench_up.2).
Proof.
  assert ((sx_send [1; 2; 3] bench_up.2).1.1 = true) as Hs by (by vm_compute). split; [exact Hs|].
  destruct (sx_send [1; 2; 3] bench_up.2) as [[ok s'] o'] eqn:E. simpl in Hs. subst ok.
  exact (transmits_with_current_params sim_settings bench_pins 5000 bench_on bench_retry _ _ _ _ _ _ bench_up_reach E).
Defined.

(** The reset line fails once, and the driver stays down until it is looked at again. *)
Definition bench_down : Z * list Delivery * Sx1262 Bench :=
  sx_run [SxBegin] (0, [], make_sx1262 sim_settings bench_pins 5000 (mkBench 1000000 true 0 [] 1)).

Lemma radio_recovers_witness :
  exists s1 s2 s3,
    sx_handle SxSupervise bench_down.2 = (false, s1, []) /\ sx_recovery_timer s1 = Some (ReleaseReset, 2) /\
    sx_handle SxRecovery s1 = (false, s2, []) /\ sx_recovery_timer s2 = Some (PollResetBusy, 20) /\
    sx_handle SxRecovery s2 = (false, s3, []) /\ sx_healthy s3 = true /\ sx_recovering s3 = false /\
    sx_programmed s3 = Some (sx_params bench_down.2) /\ sx_params s3 = sx_params bench_down.2.
Proof.
  apply (radio_recovers bench_live sim_settings bench_pins 5000 (mkBench 1000000 true 0 [] 1) bench_down.1.1 bench_down.1.2);
    [by vm_compute|apply sx_run_reach; constructor|by vm_compute..].
Defined.

Lemma driver_waits_end_witness :
  let '(now, b0) := b_millis (sx_board bench_fresh) in
  (exists r b, (forall extra, wait_busy_loop (wait_busy_fuel 20 + extra) now 20 (bench_fresh <| sx_board := b0 |>) =
                              (Some r, bench_fresh <| sx_board := b |>, [])) /\
     bn_time b <= bn_time (sx_board bench_fresh) + 1000 * (20 + 1) + 5 * slack) /\
  (exists r b, (forall extra, standby_loop (standby_fuel + extra) (u32 (now + 1000)) (bench_fresh <| sx_board := b0 |>) =
                              (Some r, bench_fresh <| sx_board := b |>, [])) /\
     bn_time b <= bn_time (sx_board bench_fresh) + 1000000 + 4 * slack + cmd_time).
Proof. apply (driver_waits_end bn_time 20 bench_fresh). lia. Defined.

(** ** A fresh preamble taken for a stale one *)

(** The radio is up and hears a preamble: the channel is busy. *)
Definition hear (ms irq : Z) (packet : Bytes) (s : Sx1262 Bench) : Sx1262 Bench :=
  s <| sx_board ::= fun b => b <| bn_time := ms * 1000 |> <| bn_irq := irq |> <| bn_packet := packet |> |>.

Definition first_poll : bool * Sx1262 Bench * list Delivery :=
  channel_busy (hear 2000 kIrqPreambleDetected [] bench_up.2).
(** The packet arrives in full half a second later, and its flags are cleared. *)
Definition first_packet : unit * Sx1262 Bench * list Delivery :=
  on_irq (hear 2500 (Z.lor kIrqRxDone (Z.lor kIrqPreambleDetected kIrqHeaderValid)) [7; 7] first_poll.1.2).
(** The next packet begins at once. *)
Definition second_poll : bool * Sx1262 Bench * list Delivery :=
  channel_busy (hear 2510 kIrqPreambleDetected [] first_packet.1.2).

(** [rx_since_ms_] outlives the reception it was set for: when a packet has been received
    since, the preamble of the next one, ten milliseconds old, is measured from the first
    one's, found stale and cleared, and the channel reported free while a packet is arriving. *)
Theorem fresh_preamble_taken_for_stale :
  first_poll.1.1 = true /\
  length first_packet.2 = 1%nat /\ bn_irq (sx_board first_packet.1.2) = 0 /\ sx_healthy first_packet.1.2 = true /\
  second_poll.1.1 = false /\ bn_irq (sx_board second_poll.1.2) = 0.
Proof. by vm_compute. Qed.

(** ** The dispatcher on the bench *)

(** Two packets are sent; the first is on the air, and its completion is handed up. *)
Definition link_d0 : Dispatcher (Sx1262 Bench) := make_dispatcher bench_up.2 2.
Definition link_ev1 : Event := EvSend (R := Sx1262 Bench) (sim_packet [1]) kPriorityFlood 0 (Some 1).
Definition link_ev2 : Event := EvSend (R := Sx1262 Bench) (sim_packet [2]) kPriorityFlood 0 (Some 2).
Definition link_d1 : Dispatcher (Sx1262 Bench) := (handle 3000 0 link_ev1 link_d0).1.
Definition link_d2 : Dispatcher (Sx1262 Bench) := (handle 3001 0 link_ev2 link_d1).1.
Definition link_irq : bool * Sx1262 Bench * list Delivery := sx_handle SxIrq (radio_ link_d2).
Definition link_out : list (Delivery * (Z * Z)) := map (fun x => (x, (3300, 0))) link_irq.2.
Definition link_d3 : Dispatcher (Sx1262 Bench) := deliver_all link_out (link_d2 <| radio_ := link_irq.1.2 |>).
Definition link_acc : list Queued := ([] ++ accepts 3000 link_ev1 link_d0) ++ accepts 3001 link_ev2 link_d1.
Definition link_rs : Results := ([] ++ (handle 3000 0 link_ev1 link_d0).2) ++ (handle 3001 0 link_ev2 link_d1).2.

Lemma link_irq_eq : sx_handle SxIrq (radio_ link_d2) = (false, link_irq.1.2, link_out.*1).
Proof. by vm_compute. Qed.

Lemma link_irq_watched : sx_irq_watch (radio_ link_d2) = true.
Proof. by vm_compute. Qed.

Lemma link_run : linked link_d0 link_acc link_rs link_d3.
Proof.
  apply (linked_callback _ _ _ _ SxIrq); [|done|exact link_irq_watched|exact link_irq_eq].
  apply (linked_call _ _ _ _ 3001 0 link_ev2); [|done|exact I|apply surjective_pairing].
  apply (linked_call _ _ _ _ 3000 0 link_ev1); [constructor|done|exact I|apply surjective_pairing].
Qed.

Example link_run_shape : length link_acc = 2%nat /\ length link_rs = 1%nat /\ length (queue_ link_d3) = 1%nat /\ pump_timer_ link_d3 = true.
Proof. by vm_compute. Qed.

Lemma link_never_stalls_witness :
  link_acc ≡ₚ queue_ link_d3 ++ map fst link_rs /\
  (queue_ link_d3 <> [] ->
   pump_timer_ link_d3 = true \/
   sx_tx_busy (radio_ link_d3) = true /\ sx_healthy (radio_ link_d3) = true /\ sx_tx_timeout (radio_ link_d3) <> None).
Proof.
  exact (link_never_stalls sim_settings bench_pins 5000 bench_on _ _ _ 2 _ _ _ bench_retry bench_up_reach link_run).
Defined.

(** ** The hardware given back *)

#[export] Instance bench_kernel : Kernel Bench := {
  k_chip_open _ b := (true, b); k_new _ b := (true, b); k_add_line_settings _ _ b := (true, b);
  k_request_lines _ b := (true, b); k_set_value _ _ := bench_set; k_get_value _ b := (ValueInactive, b);
  k_read_edge_events _ _ b := (EdgeEvents 1, b); k_open _ b := (true, b); k_wr_mode b := (true, b);
  k_wr_bits_per_word b := (true, b); k_wr_max_speed _ b := (true, b); k_message _ := bench_transfer;
  k_millis := bench_millis; k_sleep_us := bench_sleep }.

Definition bench_hardware : Hardware Bench :=
  make_hardware bench_on bench_pins (lit "/dev/spidev1.0") (lit "gpiochip0") 2000000.
Definition hardware_run : Z * list Delivery * Sx1262 (Hardware Bench) :=
  sx_run [SxBegin; SxRecovery; SxRecovery; SxSend [1]; SxIrq] (0, [], make_sx1262 sim_settings bench_pins 5000 bench_hardware).

Lemma hardware_run_reach :
  sx_reach (make_sx1262 sim_settings bench_pins 5000 bench_hardware) hardware_run.1.1 hardware_run.1.2 hardware_run.2.
Proof. apply sx_run_reach. constructor. Qed.

Lemma shutdown_releases_everything_witness :
  sx_healthy hardware_run.2 = true /\ length (hw_lines (sx_board hardware_run.2)) = 3%nat /\
  hw_held (sx_board (sx_shutdown hardware_run.2).1.2) = ∅.
Proof.
  split; [by vm_compute|]. split; [by vm_compute|].
  exact (shutdown_releases_everything sim_settings bench_pins 5000 bench_on _ _ _ _ _ _ hardware_run_reach).
Defined.
