(* ===== verification/DaemonRadioBench.v ===== *)
(** * A daemon started on the bench

    The daemon of [AppExamples] with a frequency in its settings, started on the simulated
    chip of [Sx1262Bench] while the reset line fails once. *)

From S2P Require Import Prelude ByteIO Floats Crypto Identity Toy Packet Payloads Radio.
From S2P Require Import Dispatcher SimRadio Record Persist Contacts Channels Inbox Sender Node NodeExamples.
From S2P Require Import Frames EventLoop CText FloatFacts Ini DaemonConfig Settings Session SessionFacts.
From S2P Require Import DaemonFacts Server Sx1262 Sx1262Facts Sx1262Link Sx1262Chip Sx1262Bench App AppFacts AppExamples DaemonRadio.

Definition dr_fs : Fs :=
  mkFs (<[settings_path ax_cfg := 0%nat]> ∅)
    (<[0%nat := mkInode (lit "[radio]
lora_freq = 869.525
") 384 true]> ∅).

Definition dr_board (_ : Pins) (_ _ : Str) (_ : Z) : Bench := mkBench 1000000 true 0 [] 1.

#[local] Abbreviation dr_started :=
  (start (make_radio dr_board) begin_radio ax_calls None (mkWall 0 false) ax_cfg (mkEndpoint NoEntry false) dr_fs).

Definition dr_radio : Sx1262 Bench := make_sx1262 sim_settings bench_pins 5000 bench_on.

Definition dr_app : App := default
  (mkApp (mkDaemon _ (make_node toy_bob dr_radio 1 ex_contacts 1 (make_channels []) (mkInbox [] [] 1 0 false) NodeConfig_default dr_fs)
            sample (make_writer 0) (mkWall 0 false) false [] None) (make_server Options_default) false) dr_started.1.1.

Lemma dr_up : match dr_started.1.1 with Some _ => true | None => false end = true.
Proof. vm_compute. reflexivity. Qed.

Lemma dr_start : dr_started = (Some dr_app, dr_started.1.2, dr_started.2).
Proof. unfold dr_app. generalize dr_up. generalize dr_started. intros x. apply is_up. Qed.

Lemma dr_no_key key : content dr_fs (identity_path ax_cfg) = Some key -> bytes_ok key.
Proof. assert (content dr_fs (identity_path ax_cfg) = None) as -> by (by vm_compute). discriminate. Qed.

Definition dr_d0 : Dispatcher (Sx1262 Bench) := m_disp (n_mesh (d_node (ap_daemon dr_app))).

(** The driver is down, with a frequency, on a chip that answers by now. *)
Example dr_down :
  sx_healthy (radio_ dr_d0) = false /\ sx_recovering (radio_ dr_d0) = false /\
  has_frequency (sx_params (radio_ dr_d0)) = true /\ bench_live (sx_board (radio_ dr_d0)).
Proof. by vm_compute. Qed.

Lemma daemon_keeps_its_radio_witness :
  radio_ok (cf_radio (ss_cfg (d_settings (ap_daemon dr_app)))) /\
  sx_supervise_timer (radio_ dr_d0) = true /\ comes_up (radio_ dr_d0).
Proof.
  pose proof (daemon_keeps_its_radio dr_board bench_live [] ax_ini 0 ax_cfg ax_calls (mkWall 0 false) _ _ dr_app _ _ [] [] dr_d0
    ax_configured dr_no_key dr_start (linked_start _)) as (_ & Hp & _ & _ & Hs & _).
  destruct dr_down as (? & ? & ? & ?). destruct Hs as [Ht Hup]; [by vm_compute|]. auto.
Defined.
