(* ===== verification/HostMetrics.v ===== *)
(** * What the daemon reports of its host ([src/src/daemon/host_metrics.cpp], [companion/device_metrics.h])

    The battery's voltage from sysfs and the space on the state directory's file system.  The
    contents of the files and the answer of [statvfs] are arguments. *)

From S2P Require Import Prelude ByteIO Record CText Frames Contacts Channels Session.

(** [stream >> value] on a [long]: spaces skipped, decimal, failing out of range. *)
Definition read_long (text : Str) : option Z :=
  let '(neg, s) := take_sign (skip_space text) in
  let '(m, n, _) := span_base 10 0 s in
  let v := if neg then - m else m in
  if (n =? 0) || (v <? - 2 ^ 63) || (2 ^ 63 <=? v) then None else Some v.

(** [stream >> word]. *)
Fixpoint word_of (s : Str) : Str :=
  match s with c :: s' => if c_isspace c then [] else c :: word_of s' | [] => [] end.
Definition read_word (text : Str) : option Str :=
  match word_of (skip_space text) with [] => None | w => Some w end.

(** An entry of [/sys/class/power_supply]: its path, and the contents of [type] and
    [voltage_now] where they can be read. *)
Record PowerSupply := mkPowerSupply { ps_path : Str; ps_type : option Str; ps_voltage : option Str }.

Definition voltage_path (p : PowerSupply) : Str := ps_path p ++ lit "/voltage_now".

Definition is_battery (p : PowerSupply) : bool :=
  match ps_type p ≫= read_word with Some w => beq w (lit "Battery") | None => false end.
Definition answers_voltage (p : PowerSupply) : bool :=
  match ps_voltage p ≫= read_long with Some uv => 0 <? uv | None => false end.

Definition find_battery_voltage_path (entries : list PowerSupply) : Str :=
  match find (fun p => is_battery p && answers_voltage p) entries with Some p => voltage_path p | None => [] end.

Record HostMetrics := mkHostMetrics { hm_info : Info; hm_state_dir : Str; hm_voltage_path : Str }.

Definition make_host_metrics (info : Info) (state_dir : Str) (entries : list PowerSupply) : HostMetrics :=
  mkHostMetrics info state_dir (find_battery_voltage_path entries).

(** The [Info] the application builds. *)
Definition host_info (version : Str) : Info :=
  mkInfo (lit "uConsole AIO v2") version version (Z.of_nat kMaxContacts / 2) (Z.of_nat kMaxChannels).

(** [volt] is what the file at [hm_voltage_path] holds now. *)
Definition battery_mv (m : HostMetrics) (volt : option Str) : Z :=
  match hm_voltage_path m with
  | [] => 0
  | _ =>
      match volt ≫= read_long with
      | Some uv => if uv <=? 0 then 0 else u16 (Z.min (Z.quot uv 1000) 65535)
      | None => 0
      end
  end.

Record StatVfs := mkStatVfs { f_frsize : Z; f_bsize : Z; f_blocks : Z; f_bfree : Z }.

Definition storage (vfs : option StatVfs) : Storage :=
  match vfs with
  | None => mkStorage 0 0
  | Some v =>
      let unit := if f_frsize v =? 0 then f_bsize v else f_frsize v in
      mkStorage (u64 (u64 (f_blocks v - f_bfree v) * unit)) (u64 (f_blocks v * unit))
  end.

(** ** Facts *)

Lemma read_long_show n rest :
  0 < n < 2 ^ 63 -> (forall a, span_base 10 a rest = (a, 0, rest)) -> read_long (show_int n ++ rest) = Some n.
Proof.
  intros Hn Hrest. assert (n < 10 ^ Z.of_nat 20) by (change (10 ^ Z.of_nat 20) with 100000000000000000000; lia).
  unfold show_int. rewrite (proj2 (Z.ltb_ge n 0)) by lia.
  destruct (dec_digits_spec 20 n) as [Hv Hf]; [lia|]. destruct (dec_digits_head 20 n) as (c & ds & E & Hc); [lia|].
  rewrite E in *. pose proof (take_sign_digit false c (ds ++ rest)) as Hs. cbn [sign_text app] in Hs.
  unfold read_long. change ((c :: ds) ++ rest) with (c :: ds ++ rest). rewrite Hs by (apply is_digit_range; lia).
  change (c :: ds ++ rest) with ((c :: ds) ++ rest). rewrite span_base_digits by done. unfold digits_value in Hv. rewrite Hv.
  rewrite (proj2 (Z.eqb_neq _ _)) by (rewrite zlen_cons; pose proof (zlen_nonneg ds); lia).
  rewrite (proj2 (Z.ltb_ge _ _)), (proj2 (Z.leb_gt _ _)) by lia. done.
Qed.

(** The voltage is never wrapped: a reading in microvolts, as the kernel prints it, comes out
    in millivolts, or as the largest value that fits. *)
Theorem battery_reading m uv :
  hm_voltage_path m <> [] -> 0 < uv < 2 ^ 63 ->
  battery_mv m (Some (show_int uv ++ [10])) = Z.min (uv / 1000) 65535.
Proof.
  intros Hp Huv. unfold battery_mv. destruct (hm_voltage_path m); [done|]. cbn [mbind option_bind].
  rewrite read_long_show by done. rewrite (proj2 (Z.leb_gt _ _)) by lia. rewrite Z.quot_div_nonneg by lia.
  apply u16_small. unfold is_u16. change (2 ^ 16) with 65536. assert (0 <= uv / 1000) by (apply Z.div_pos; lia). lia.
Qed.

(** The battery chosen answered when the daemon started. *)
Theorem battery_found_answers entries :
  find_battery_voltage_path entries <> [] ->
  exists p uv, p ∈ entries /\ find_battery_voltage_path entries = voltage_path p /\
    ps_voltage p ≫= read_long = Some uv /\ 0 < uv.
Proof.
  unfold find_battery_voltage_path. destruct (find _ entries) as [p|] eqn:E; [|done]. intros _.
  apply find_some in E as [Hin Hp]. apply andb_true_iff in Hp as [_ Hv]. unfold answers_voltage in Hv.
  destruct (ps_voltage p ≫= read_long) as [uv|] eqn:Er; [|done]. exists p, uv.
  split; [by apply list_elem_of_In|]. split; [done|]. split; [done|lia].
Qed.

(** The two numbers agree: what is used and what is free add up to the total, in a file
    system of less than 16 EiB. *)
Theorem storage_adds_up v :
  let unit := if f_frsize v =? 0 then f_bsize v else f_frsize v in
  0 <= f_bfree v <= f_blocks v -> 0 <= unit -> f_blocks v * unit < 2 ^ 64 ->
  let s := storage (Some v) in
  st_used_bytes s + f_bfree v * unit = st_total_bytes s /\ to_kb (st_used_bytes s) <= to_kb (st_total_bytes s).
Proof.
  intros unit Hb Hu Ht s. unfold s, storage. fold unit. simpl. unfold u64.
  assert (0 <= (f_blocks v - f_bfree v) * unit <= f_blocks v * unit) as Hle by nia.
  assert (unit = 0 \/ f_blocks v < 2 ^ 64) as [->|Hlt] by nia; [rewrite !Z.mul_0_r; done|].
  rewrite (Z.mod_small (f_blocks v - f_bfree v)) by lia. rewrite !Z.mod_small by lia. split; [lia|].
  unfold to_kb. assert ((f_blocks v - f_bfree v) * unit / 1024 <= f_blocks v * unit / 1024) by (apply Z.div_le_mono; lia). lia.
Qed.
