(* ===== verification/Texts.v ===== *)
(** * What the daemon prints

    The names of routes and payload types and the one-line summary of a packet
    ([proto/packet.cpp]), the summary of what the receiver hears ([mesh/dispatcher.cpp]), the
    description of the radio ([radio/sx1262.cpp]), the status the application logs when it is up
    ([daemon/app.cpp]), and what [main] prints before that ([main.cpp]).

    A [%zu], [%u] or [%d] is [show_int], a [%.*f] is [print_fixed], a [%s] of a [c_str()] ends at
    the first nul.  The version is an argument: it is generated by the build. *)

From S2P Require Import Prelude ByteIO Floats Crypto Identity Packet Payloads Radio.
From S2P Require Import Dispatcher Record Persist Contacts Channels Inbox Sender Node.
From S2P Require Import EventLoop CText Ini FloatFacts Settings Session Server App Main Sx1262.
From S2P Require Import DaemonConfig Log.

(** ** Packets *)

Definition route_type_name (t : RouteType) : Str :=
  match t with
  | TransportFlood => lit "transport-flood"
  | Flood => lit "flood"
  | Direct => lit "direct"
  | TransportDirect => lit "transport-direct"
  end.

Definition payload_names : list (Z * Str) :=
  [(PayloadType.Req, lit "REQ"); (PayloadType.Response, lit "RESPONSE"); (PayloadType.TxtMsg, lit "TXT_MSG");
   (PayloadType.Ack, lit "ACK"); (PayloadType.Advert, lit "ADVERT"); (PayloadType.GrpTxt, lit "GRP_TXT");
   (PayloadType.GrpData, lit "GRP_DATA"); (PayloadType.AnonReq, lit "ANON_REQ"); (PayloadType.Path, lit "PATH");
   (PayloadType.Trace, lit "TRACE"); (PayloadType.Multipart, lit "MULTIPART"); (PayloadType.Control, lit "CONTROL");
   (PayloadType.RawCustom, lit "RAW_CUSTOM")].

Definition payload_type_name (t : Z) : Str :=
  match find (fun x => fst x =? t) payload_names with Some (_, name) => name | None => lit "RESERVED" end.

Definition describe (p : Packet) : Str :=
  payload_type_name (p_type p) ++ lit " " ++ route_type_name (p_route p)
  ++ vformat (Some (lit " hops=" ++ show_int (Z.of_nat (hop_count p)) ++ lit " payload=" ++ show_int (zlen (p_payload p))))
  ++ match p_path p with [] => [] | path => lit " path=" ++ hex path end.

(** ** The receiver *)

Definition kRfSummaryMs : Z := 300000.

Definition log_rf_summary (s : DispatcherStats) : list (LogLevel * Str) :=
  let failed := u32 (rx_header_err s + rx_crc_err s + rx_timeout s) in
  [(Info, lit "radio: heard " ++ show_int (rx_total s) ++ lit " packets (" ++ show_int (rx_dup s) ++ lit " duplicate), "
     ++ show_int failed ++ lit " failed to decode (" ++ show_int (rx_header_err s) ++ lit " header, "
     ++ show_int (rx_crc_err s) ++ lit " CRC, " ++ show_int (rx_timeout s) ++ lit " timeout); last rssi "
     ++ show_int (last_rssi s) ++ lit " snr " ++ print_fixed 1 (last_snr s) ++ lit ", last failure rssi "
     ++ show_int (last_failed_rssi s) ++ lit " snr " ++ print_fixed 1 (last_failed_snr s));
   (Info, lit "radio: sent " ++ show_int (tx_total s) ++ lit " packets, " ++ show_int (tx_dropped s) ++ lit " dropped, "
     ++ show_int (tx_deferred s) ++ lit " held for a busy channel (" ++ show_int (tx_forced s) ++ lit " sent over one anyway)")].

(** ** The radio *)

Definition sx_describe {B} (spidev : Str) (x : Sx1262 B) : Str :=
  let p := sx_params x in
  if negb (has_frequency p)
  then vformat (Some (lit "SX1262 on " ++ c_str spidev ++ lit ", idle: no frequency set"))
  else
    vformat (Some (lit "SX1262 on " ++ c_str spidev ++ lit " (" ++ print_fixed 3 (rp_freq_mhz p) ++ lit " MHz, SF"
      ++ show_int (rp_sf p) ++ lit ", BW " ++ print_fixed 1 (rp_bw_khz p) ++ lit " kHz, CR 4/" ++ show_int (rp_cr p)
      ++ lit ", " ++ show_int (rp_tx_power_dbm p) ++ lit " dBm, " ++ show_int (preamble_symbols p) ++ lit "-symbol preamble)"))
    ++ (if negb (sx_healthy x) then lit " — not responding" else []).

(** ** The application *)

Definition log_status (version : Str) (id : LocalIdentity) (cfg : DaemonConfig) (radio : Str) (contacts : nat)
    (clock_valid : bool) : list (LogLevel * Str) :=
  [(Info, lit "coreletd " ++ version ++ lit " ready");
   (Info, lit "  node      : " ++ hex_prefix (pub id) 6 ++ lit " " ++ [34] ++ c_str (cfg_name (cf_node cfg)) ++ [34]);
   (Info, lit "  radio     : " ++ c_str radio)]
  ++ (if has_frequency (cf_radio cfg) then []
      else [(Warn, lit "no frequency set — nothing is transmitted until a companion app sets the radio parameters")])
  ++ [match op_transport (cf_companion cfg) with
      | Unix => (Info, lit "  companion : unix://" ++ c_str (op_socket_path (cf_companion cfg)))
      | Tcp => (Info, lit "  companion : tcp://" ++ c_str (op_bind_addr (cf_companion cfg)) ++ lit ":" ++ show_int (op_port (cf_companion cfg)))
      end;
      (Info, lit "  state     : " ++ c_str (cf_state_dir cfg));
      (Info, lit "  contacts  : " ++ show_int (Z.of_nat contacts))]
  ++ (if clock_valid then []
      else [(Warn, lit "system clock looks unset — adverts are suppressed until the app sets the time or the RTC is configured")]).

(** Lines through the logger, in order. *)
Definition log_all (g : Logger) (tm : Tm) (ls : list (LogLevel * Str)) : list (Stream * Str) :=
  List.concat (map (fun '(level, text) => umc_log g tm level (Some text)) ls).

(** ** The process *)

Definition usage (version argv0 : Str) : Str :=
  lit "coreletd " ++ version ++ lit " — MeshCore daemon for uConsole + AIO v2

Usage: " ++ argv0 ++ lit " [options]

  -c, --config PATH   configuration file (default: " ++ kDefaultConfigPath ++ lit ")
  -v, --verbose       raise log level to debug (repeat for trace)
  -s, --syslog        omit timestamps, for running under systemd
  -V, --version       print version and exit
  -h, --help          this message
".

(** What the loop over the options prints. *)
Fixpoint options_print (version argv0 : Str) (opts : list Opt) : list (Stream * Str) :=
  match opts with
  | [] => []
  | OptVersion :: _ => [(Stdout, version ++ [10])]
  | OptHelp :: _ | OptOther :: _ => [(Stdout, usage version argv0)]
  | _ :: opts => options_print version argv0 opts
  end.

(** Everything [main] prints before the application is built. *)
Definition main_prints (version argv0 : Str) (tm : Tm) (config : Str -> Input) (opts : list Opt) : list (Stream * Str) :=
  match read_options opts Cli_default with
  | inl _ => options_print version argv0 opts
  | inr cli =>
      let g := log_set_syslog_style (syslog_style cli) Logger_default in
      match cfg_load_logging g tm (config_path cli) (config (config_path cli)) DaemonConfig_default with
      | (inl error, lines) => lines ++ umc_log g tm Error (Some (lit "config: " ++ c_str error))
      | (inr _, lines) => lines
      end
  end.

(** ** What the texts say *)

(** Every type has a name of its own, and only the three reserved ones share one. *)
Lemma payload_names_distinct t t' :
  payload_type_name t = payload_type_name t' -> t = t' \/ payload_type_name t = lit "RESERVED".
Proof.
  assert (forall u, payload_type_name u = lit "RESERVED" \/ In (u, payload_type_name u) payload_names) as Hin.
  { intros u. unfold payload_type_name. destruct (find _ payload_names) as [[k name]|] eqn:E; [|by left].
    apply find_some in E as [Hi Hk]. cbn in Hk. apply Z.eqb_eq in Hk as <-. by right. }
  assert (NoDup (map snd payload_names)) as Hnd by (refine (bool_decide_unpack (NoDup (map snd payload_names)) _); by vm_compute).
  intros E. destruct (Hin t) as [|H1]; [by right|]. destruct (Hin t') as [H2|H2]; [right; congruence|]. left.
  rewrite <- E in H2. apply list_elem_of_In, list_elem_of_lookup_1 in H1 as [i Hi]. apply list_elem_of_In, list_elem_of_lookup_1 in H2 as [j Hj].
  assert (i = j) as ->.
  { eapply (NoDup_lookup _ i j); [exact Hnd| |]; [exact (list_lookup_fmap_Some_2 snd _ _ _ Hi)|exact (list_lookup_fmap_Some_2 snd _ _ _ Hj)]. }
  congruence.
Qed.

(** The radio is described as not responding exactly when it is down, and as idle exactly when
    there is no frequency. *)
Lemma sx_describe_shape {B} spidev (x : Sx1262 B) :
  (has_frequency (sx_params x) = false ->
   sx_describe spidev x = lit "SX1262 on " ++ c_str spidev ++ lit ", idle: no frequency set") /\
  (has_frequency (sx_params x) = true ->
   exists body, sx_describe spidev x = body ++ (if sx_healthy x then [] else lit " — not responding") /\
     body = sx_describe spidev (x <| sx_healthy := true |>)).
Proof.
  unfold sx_describe. split; intros Hf.
  - rewrite Hf. cbn [negb]. by rewrite vformat_whole.
  - change (sx_healthy (x <| sx_healthy := true |>)) with true. change (sx_params (x <| sx_healthy := true |>)) with (sx_params x).
    rewrite Hf. cbn [negb]. eexists. rewrite !vformat_whole. split; [by destruct (sx_healthy x)|]. by rewrite app_nil_r.
Qed.

Lemma refusal_line g tm err :
  level_int (g_level g) = 2 ->
  exists line pre post, [] ++ umc_log g tm Error (Some (lit "config: " ++ c_str err)) = [(Stderr, line)] /\
    line = pre ++ lit "[ERROR] config: " ++ c_str err ++ post.
Proof.
  intros Hg. unfold umc_log, log_level. rewrite Hg, vformat_whole. change (level_int Error <=? 2) with true. unfold log_write.
  rewrite c_str_plain by (rewrite Forall_app; split; [repeat constructor; discriminate|apply c_str_no_nul]).
  destruct (g_syslog_style g); [eexists _, [], [10]|eexists _, (hms tm ++ lit " "), [10]]; (split; [done|]); by rewrite <- ?app_assoc.
Qed.

(** A configuration that is refused is always explained: whatever the options say about the
    style of the log, the process prints one line, an error on the standard error with the
    reason, and one that loads prints warnings only. *)
Theorem refusal_explained version argv0 tm config opts cli :
  read_options opts Cli_default = inr cli ->
  match App.configure (config_path cli) (config (config_path cli)) (verbosity cli) with
  | inl error =>
      exists line pre post, main_prints version argv0 tm config opts = [(Stderr, line)] /\
        line = pre ++ lit "[ERROR] config: " ++ c_str error ++ post
  | inr _ => Forall (fun l => fst l = Stderr) (main_prints version argv0 tm config opts)
  end.
Proof.
  intros Ho. unfold main_prints, App.configure. rewrite Ho. set (g := log_set_syslog_style _ _).
  assert (level_int (g_level g) = 2) as Hg by done.
  pose proof (cfg_load_agrees g tm (config_path cli) (config (config_path cli)) DaemonConfig_default) as Ha.
  unfold cfg_load_logging in *.
  destruct (ini_load (config_path cli) (config (config_path cli)) []) as [e|m], (cfg_load _ _ _) as [err|c] eqn:Hc; try done.
  1, 2: by apply refusal_line.
  apply Forall_concat, Forall_map, Forall_forall. intros k _. unfold umc_log. case_match; [|done]. by apply Forall_singleton.
Qed.
